(* ===== verification/_CoqProject ===== *)
-Q . S2P
Prelude.v
Errors.v
Types.v
Text.v
ErrorText.v
Wire.v
PreferredMax.v
Params.v
Decode.v
Encode.v
Codec.v
RoundTrip.v
CodecSpec.v
Detect.v
SizeNego.v
Validate.v
RefAlloc.v
Deadline.v
World.v
Conn.v
Metered.v
Tsdu.v
TsduSpec.v
Failures.v
Ending.v
Locked.v
Writers.v
Readers.v
Duplex.v
Guarded.v
Memory.v
Alias.v
Append.v
MemoryWorld.v
Buffers.v
Outbound.v
Handshake.v
HandshakeSpec.v
HandshakeRun.v
Session.v
Process.v
Copies.v
Kept.v
Dial.v
Serve.v
Hosts.v
