(* ===== verification/Prelude.v ===== *)
(** * go-cotp: a verification library for the COTP package

    go-cotp is a Go package for COTP (ITU-T X.224 / ISO 8073) over TPKT (RFC
    1006): a codec for the ten TPDUs, and a class-0 transport service (TP0) of
    [Connect], [Accept], [WriteTSDU], [ReadTSDU] and [Close].  This library
    translates the package into executable Rocq definitions, which keep the
    names of the source, and proves what makes each part correct.

    ** The program and its parts

    The codec (wire.go, preferred_max.go, params.go, decode_*.go, encode_*.go,
    detect.go, extract.go) is a set of pure functions on octets.  The service
    layer sits on it: size_nego.go settles the TPDU size, handshake_validate.go
    and open_dt.go check what is configured and what arrives,
    reference_allocator.go hands out the process's references, deadline.go
    applies a context to one direction of the stream, conn.go is the life of a
    connection, connect.go and accept.go are the handshake, tsdu.go the data
    transfer.

    ** Files

    - Prelude: notations, automation, octets, machine integers, lengths.
    - Errors: errors.go and conn_errors.go.  An [error] is the tree that
      [errors.Is] walks; an [outcome] is a Go result: a value, an error, or a
      panic (indexing out of range), plus [NoFuel] for a loop cut short.  Here
      are also indexing, slicing, big-endian integers and the loop [iterate].
    - Types: types.go and the constants of size_profile.go.  A pointer that may
      be nil is an [option], a byte slice whose nilness counts a [goslice]; the
      predicates [*_typed] are the widths of the Go fields.
    - Text: string.go; every [String] method is one rendering of what it shows.
      ErrorText: the [Error] and [Unwrap] methods.
    - Wire, PreferredMax, Params, Decode, Encode: the codec, function by
      function.  Codec characterises every decoder by the octets it accepts;
      RoundTrip has the two round trips and when an encoder succeeds; CodecSpec
      gives the grammar [wire] of the TPDUs and the codec's properties.
    - Detect: detect.go and extract.go.
    - SizeNego: size_nego.go.  [negotiated] is the size the two sides settle on.
    - Validate: handshake_validate.go and open_dt.go.
    - RefAlloc: reference_allocator.go, each method one step under its mutex.
    - Deadline: directionDeadline of deadline.go, its critical sections
      interleaved in any order with the cancellation callbacks.
    - World: the world of a connection and the monad [M] of stateful code, with
      weakest preconditions and preserved relations.
    - Conn: conn.go; Tsdu: tsdu.go; TsduSpec: their properties.  Failures: what a
      stream that fails, at any packet, makes of [WriteTSDU] and [ReadTSDU].
    - Metered: meteredConn of deadline.go, 64-bit counters under interleaved
      calls, and why [World] may count without bound and packet by packet.
    - Locked: concurrent calls of an operation as threads contending for its
      lock (opLock of conn.go); the interface [Serialised] is what one call
      promises while it holds the lock, and what all calls do together follows.
      Writers and Readers are its instances, for [WriteTSDU] and [ReadTSDU].
      Duplex has the calls of both directions on one connection, and its end.
      Guarded runs such calls together with the deadline of their direction.
    - Ending: [finish] of conn.go action by action, called from several
      goroutines, with those that read the terminal fields in between.
    - Memory: byte slices as references into arrays, with make, copy and
      copyBytes; Alias: the decoders on that memory, in step with those of Decode;
      Append: Go's [append], with capacities, and the encoders on memory.
      MemoryWorld: the monad of world and memory, what go-tpkt's reader and writer
      may do to memory ([ReaderMemory], [WriterMemory]), and what it means that an
      operation there does what one on values does ([sim]).  Buffers: [ReadTSDU];
      Outbound: [WriteTSDU]; Copies: [Negotiated] and the copies of [Accept];
      Kept: what [Connect] makes of the answer; Dial: all of [Connect]; Serve: all
      of [Accept], with the configuration's callback.
    - Handshake: config.go, connect.go, accept.go; HandshakeSpec: ownership,
      contracts and agreement; HandshakeRun: handshakes that complete, or are
      refused.
    - Session: two ends, from the handshake through data both ways to [Close];
      Hosts: the same on two machines, each with a memory that go-cotp shares with
      go-tpkt and with the program.
    - Process: handshakes and connections of one process as threads that share
      its allocator; the interface [Lawful] is what a handshake promises there.

    ** State

    [world] holds three things.  Oracles: what go-tpkt's reader and writer, the
    context, the locks and the clock answer, in order; theorems quantify over
    them.  Observations: the packets sent, the octets moved, how often the stream
    was closed, whether a deadline is armed and a lock held.  And the state the
    code owns: the allocator [refs] and the mutable fields [term] of the
    connection (state, terminal cause, the two sync.Once flags).  An answer of
    the stream also says whether another goroutine ended the connection
    meanwhile.  Deferred functions are [defer] and [unless_ok], in their order.

    ** What the theorems show

    - The whole: [session_end_to_end] (two valid configurations connect, what
      either writes the other reads, closing gives everything back), and
      [session_on_memory]: with all octets in memory, where what was handed out
      stays as it was until the end.
    - Codec: [Decode_Marshal] and [Marshal_Decode] are the round trips, the
      first with its one exception, a defect of the DT encoder
      ([DT_parameters_without_reference]);
      [Decode_refines_wire] that [Decode] accepts exactly the grammar;
      [Decode_total_and_classified] that it never panics and which errors it
      gives; [Marshal_succeeds_iff_encodable] when an encoder succeeds;
      [parseCRCC_last_wins], [preferred_units_roundtrip], [LooksLike_partition],
      [Decode_LooksLike], [ExtractUserData_spec] the rest.
    - Size: [negotiation_agreement] (two valid sides settle on one size),
      [selectSize_spec], [interpretCCSize_bounds] (against a hostile peer),
      [buildSizeOffer_spec], [indicated_size_can_be_given_back].
    - References: [Allocate_first_free], [held_references_distinct] for any
      users that behave, [live_references_distinct] for the handshakes and
      connections of a process, [handshake_thread_is_its_call] (the threads are
      [Connect] and [Accept]).
    - Text: [text_determines_summary] (two TPDUs with one text show the same),
      [text_bounded].
    - Memory: [decode_in_place] (the decoders on slices do what they do on
      values, and what they return lies in the packet); [Marshal_on_memory] (the
      encoders too, and they write into no array but their own);
      [ReadTSDU_on_memory], [WriteTSDU_on_memory], [Connect_on_memory],
      [Accept_on_memory] (the operations do on memory what they do on values: one
      shared packet buffer does no harm, nor does a callback that keeps and writes
      what it was shown); [copies_isolate], [connect_keeps_its_own];
      [metered_refines_world].
    - Deadline: [no_deadline_left_behind], [cancellation_interrupts];
      [deadline_follows_its_call] for the concurrent calls of a direction.
    - Data: [decodeOpenDT_gate], [WriteTSDU_sends_segmentation],
      [ReadTSDU_reassembles], [tsdu_roundtrip] between the two.
    - Concurrent calls: [writers_never_interleave], [readers_never_interleave]
      (segments of different TSDUs are not mixed); [writers_finish],
      [readers_finish] (no deadlock, bounded steps); [one_writer_is_WriteTSDU],
      [one_reader_is_ReadTSDU] (the threads are the functions);
      [concurrent_exchange] (many writers, many readers), [concurrent_transfer];
      [duplex_exchange], [duplex_never_interleaves], [duplex_never_blocks] (both
      directions at once, and the connection ended meanwhile), [late_calls_fail].
    - Life cycle: [transfer_fails_closed] (an error leaves the connection
      untouched or ends it, and which of the two), [connection_ends_once] (and the
      first cause is kept), [ended_connection_is_inert], [io_errors_classified]
      (the class of the error an operation returns); [first_cause_wins],
      [finish_is_one_step], [ending_never_blocks], [abort_seen_as_close] for
      [finish] taken apart.
    - Handshake: [handshake_releases_what_it_took] (no leak on any path),
      [Connect_contract], [Accept_contract], [handshake_agreement],
      [handshake_completes], [rejection_reaches_client];
      [opened_connections_are_typed], the invariant that data transfer relies on.

    ** Fuel

    The parsing loops take the length of the input as fuel, since a round
    consumes two octets at least; [Allocate] has the 65536 rounds of the code;
    [WriteTSDU] one more than the TSDU's length and [ReadTSDU] one more than
    MaxTSDULength, since a round moves an octet at least.  That these are enough
    is part of the theorems: no function ends in [NoFuel].

    ** Assumptions and limits

    Octets are values, but for Memory, Alias, Append, MemoryWorld, Buffers,
    Outbound, Copies, Kept, Dial, Serve and Hosts, where slices alias: the decoders return
    parts of their input, which go-cotp copies before go-tpkt reads again.  The
    functions of both kinds are related by theorems.  There, how much room [append]
    makes is a parameter ([Growth]); go-tpkt and other goroutines may change any
    array at every stream call but those of go-cotp and what the caller lends it
    for the call; the callback's decision is a function of the indication, and the
    callback may write wherever the caller may.

    An error made by [fmt.Errorf] has its format string and the errors it wraps,
    but not the other arguments of its text, which nothing inspects.  Go's [int] is
    unbounded, as the code's ints are lengths and sizes far below 2^63; uint8,
    uint16 and uint32 wrap.

    Outside Locked, Writers, Readers and Duplex an operation of one direction runs
    alone: its lock answers success or an error, and other goroutines appear as
    what ends the connection during a stream call.  There, what a call does between
    the lock and its loop, and each round of the loop, is one step.  [finish] is one
    step everywhere but in Ending, which says what of that view remains; in Ending
    nothing else of the connection moves.  The allocator is changed by one
    handshake or connection only, except in Process.  A stream is taken to move
    octets when it succeeds ([stream_ok]).

    Not modelled: go-tpkt, which is another module.

    ** Plan

    Next: concurrent calls on memory; the arguments of the error texts. *)

From stdpp Require Export base list list_numbers numbers option strings gmap.
From Stdlib Require Export ZArith Lia.

#[global] Open Scope Z_scope.

(** ** Automation shared by every component *)

Create HintDb cotp discriminated.
Create Rewrite HintDb cotp_len.

(** Boolean comparisons to propositions, everywhere. *)
Ltac breflect :=
  repeat match goal with
  | H : (_ && _)%bool = true |- _ => apply andb_prop in H as [? ?]
  | H : (_ && _)%bool = false |- _ => apply andb_false_iff in H
  | H : (_ || _)%bool = true |- _ => apply orb_prop in H
  | H : (_ || _)%bool = false |- _ => apply orb_false_iff in H as [? ?]
  | H : negb _ = true |- _ => apply negb_true_iff in H
  | H : negb _ = false |- _ => apply negb_false_iff in H
  | H : (_ <? _) = true |- _ => apply Z.ltb_lt in H
  | H : (_ <? _) = false |- _ => apply Z.ltb_ge in H
  | H : (_ <=? _) = true |- _ => apply Z.leb_le in H
  | H : (_ <=? _) = false |- _ => apply Z.leb_gt in H
  | H : (_ =? _) = true |- _ => apply Z.eqb_eq in H
  | H : (_ =? _) = false |- _ => apply Z.eqb_neq in H
  end.

(** Split the innermost scrutinee of a match or conditional of the goal. *)
Ltac split_goal :=
  match goal with
  | |- context [match ?x with _ => _ end] =>
      lazymatch x with
      | context [match _ with _ => _ end] => fail
      | _ => destruct x eqn:?
      end
  end.

(** Split the innermost scrutinee of a hypothesis. *)
Ltac split_hyp H :=
  match type of H with
  | context [match ?x with _ => _ end] =>
      lazymatch x with
      | context [match _ with _ => _ end] => fail
      | _ => destruct x eqn:?
      end
  end.

Ltac blia := breflect; lia.

(** Close an [if] of the goal whose test is decided by arithmetic. *)
Ltac if_true :=
  match goal with
  | |- context [if ?c then _ else _] =>
      let H := fresh in
      assert (c = true) as H by
        (rewrite ?andb_true_iff, ?Z.ltb_lt, ?Z.leb_le, ?Z.eqb_eq; lia);
      rewrite H; clear H
  end.
Ltac if_false :=
  match goal with
  | |- context [if ?c then _ else _] =>
      let H := fresh in
      assert (c = false) as H by
        (rewrite ?Z.ltb_ge, ?Z.leb_gt, ?Z.eqb_neq; lia);
      rewrite H; clear H
  end.
Ltac ifs := repeat first [if_true | if_false].

(** A closed decidable proposition, by running its decision. *)
Ltac decide_now := refine (bool_decide_unpack _ _); vm_compute; exact I.

(** ** Machine integers

    A [uint8], [uint16] or [uint32] is a [Z]; the conversion to the width
    wraps, as Go's conversions do.  Go's [int] is 64 bits wide and only ever
    holds lengths and sizes far below [2^63] here, so it is a plain [Z]. *)

Definition u8 (x : Z) : Z := x mod 256.
Definition u16 (x : Z) : Z := x mod 65536.
Definition u32 (x : Z) : Z := x mod 4294967296.

Definition is_u8 (x : Z) : Prop := 0 <= x < 256.
Definition is_u16 (x : Z) : Prop := 0 <= x < 65536.
Definition is_u32 (x : Z) : Prop := 0 <= x < 4294967296.

#[export] Instance is_u8_dec x : Decision (is_u8 x).
Proof. unfold is_u8. apply _. Defined.
#[export] Instance is_u16_dec x : Decision (is_u16 x).
Proof. unfold is_u16. apply _. Defined.
#[export] Instance is_u32_dec x : Decision (is_u32 x).
Proof. unfold is_u32. apply _. Defined.

Lemma u8_id x : is_u8 x -> u8 x = x.
Proof. apply Z.mod_small. Qed.

Lemma u8_range x : is_u8 (u8 x).
Proof. apply Z.mod_pos_bound. lia. Qed.

Lemma u16_range x : is_u16 (u16 x).
Proof. apply Z.mod_pos_bound. lia. Qed.

(** A boolean fact of every octet is checked by running it on all of them. *)
Lemma octet_forall (P : Z -> bool) :
  forallb P (seqZ 0 256) = true -> forall x, is_u8 x -> P x = true.
Proof.
  intros HP x Hx. rewrite forallb_forall in HP. apply HP.
  apply list_elem_of_In, elem_of_seqZ. unfold is_u8 in Hx. lia.
Qed.

(** Low and high parts of a word put together with [|] and [<<]. *)
Lemma lor_shiftl_add h l n :
  0 <= n -> 0 <= l < 2 ^ n -> Z.lor (Z.shiftl h n) l = h * 2 ^ n + l.
Proof.
  intros Hn Hl. rewrite Z.shiftl_mul_pow2 by lia.
  pose proof (Z.add_lor_land (h * 2 ^ n) l) as Hsum.
  assert (Z.land (h * 2 ^ n) l = 0) as Hdisj; [|lia].
  apply Z.bits_inj'. intros i Hi. rewrite Z.land_spec, Z.bits_0.
  destruct (Z.ltb_spec i n).
  - rewrite Z.mul_pow2_bits_low by lia. done.
  - destruct (Z.eq_dec l 0) as [->|]; [by rewrite Z.bits_0, andb_false_r|].
    rewrite (Z.bits_above_log2 l), andb_false_r; [done|lia|].
    apply Z.log2_lt_pow2; [lia|]. eapply Z.lt_le_trans; [apply Hl|].
    apply Z.pow_le_mono_r; lia.
Qed.

Lemma land_low_range x m n :
  0 <= n -> m = 2 ^ n - 1 -> 0 <= Z.land x m < 2 ^ n.
Proof.
  intros Hn ->. replace (2 ^ n - 1) with (Z.ones n) by (rewrite Z.ones_equiv; lia).
  rewrite Z.land_ones by lia. apply Z.mod_pos_bound. lia.
Qed.

Lemma land_low_id x m n :
  0 <= n -> m = 2 ^ n - 1 -> 0 <= x < 2 ^ n -> Z.land x m = x.
Proof.
  intros Hn -> Hx. replace (2 ^ n - 1) with (Z.ones n) by (rewrite Z.ones_equiv; lia).
  rewrite Z.land_ones by lia. apply Z.mod_small. lia.
Qed.

(** ** Octet strings

    The content of a Go [[]byte] is a list of octets.  Where the code tells a
    nil slice from an empty one (selectors, [copyBytes]) the field is a
    [goslice], [None] standing for nil. *)

Abbreviation bytes := (list Z).
Abbreviation goslice := (option (list Z)).

Definition bytes_ok (b : bytes) : Prop := Forall is_u8 b.

#[export] Instance bytes_ok_dec b : Decision (bytes_ok b).
Proof. unfold bytes_ok. apply _. Defined.

(** [len(b)] of a list, as a Go [int]. *)
Definition len {A} (l : list A) : Z := Z.of_nat (length l).

(** Content and length of a slice that may be nil. *)
Definition content (s : goslice) : bytes := match s with Some b => b | None => [] end.
Definition slen (s : goslice) : Z := len (content s).

Definition goslice_ok (s : goslice) : Prop := bytes_ok (content s).

Lemma len_nil {A} : len (@nil A) = 0.
Proof. done. Qed.
Lemma len_cons {A} (x : A) l : len (x :: l) = 1 + len l.
Proof. unfold len. cbn [length]. lia. Qed.
Lemma len_app {A} (l k : list A) : len (l ++ k) = len l + len k.
Proof. unfold len. rewrite length_app. lia. Qed.
Lemma len_nonneg {A} (l : list A) : 0 <= len l.
Proof. unfold len. lia. Qed.
Lemma len_zero {A} (l : list A) : len l = 0 -> l = [].
Proof. destruct l; [done|]. rewrite len_cons. pose proof (len_nonneg l). lia. Qed.

#[export] Hint Rewrite @len_nil @len_cons @len_app : cotp_len.

(** Normalise every length to sums of non-negative atoms, then arithmetic. *)
Ltac len_pose :=
  repeat match goal with
  | |- context [@len ?A ?l] =>
      lazymatch goal with
      | _ : 0 <= len l |- _ => fail
      | _ => pose proof (@len_nonneg A l)
      end
  | H : context [@len ?A ?l] |- _ =>
      lazymatch goal with
      | _ : 0 <= len l |- _ => fail
      | _ => pose proof (@len_nonneg A l)
      end
  end.
Ltac len_lia := autorewrite with cotp_len in *; len_pose; lia.

Lemma bytes_ok_app b c : bytes_ok (b ++ c) <-> bytes_ok b /\ bytes_ok c.
Proof. apply Forall_app. Qed.
Lemma bytes_ok_cons x b : bytes_ok (x :: b) <-> is_u8 x /\ bytes_ok b.
Proof. apply Forall_cons. Qed.
Lemma bytes_ok_nil : bytes_ok [].
Proof. constructor. Qed.
Lemma bytes_ok_take n b : bytes_ok b -> bytes_ok (take n b).
Proof. apply Forall_take. Qed.
Lemma bytes_ok_drop n b : bytes_ok b -> bytes_ok (drop n b).
Proof. apply Forall_drop. Qed.

#[export] Hint Resolve bytes_ok_nil bytes_ok_take bytes_ok_drop u8_range u16_range : cotp.
