(* ===== verification/Errors.v ===== *)
(** * Errors and outcomes: errors.go, conn_errors.go and Go's error model

    Error values are trees: a leaf is a package sentinel or an error of another
    package, [fmt.Errorf] wraps the operands of its [%w] verbs, [errors.Join]
    joins, and the three typed errors of conn_errors.go unwrap as their
    [Unwrap] methods say.  [errors_Is] walks the tree.  A Go call that returns
    [(T, error)] is an [outcome T]; an out-of-range index or slice is [Panic],
    and a loop that runs out of fuel is [NoFuel], so that "never panics" and
    "always returns" are theorems and not assumptions. *)

From S2P Require Import Prelude.

(** ** Sentinels of errors.go *)

Inductive sentinel :=
  | ErrTooShort
  | ErrInvalidLI
  | ErrLengthMismatch
  | ErrUnknownTPDUType
  | ErrInvalidTPDUCode
  | ErrReservedTPDU
  | ErrMalformedParameter
  | ErrUnexpectedParameterLength
  | ErrUnsupportedTPDU
  | ErrUnsupportedDTVariant
  | ErrInvalidClassOption
  | ErrDuplicateKnownParameter
  | ErrInvalidEDUserDataLength
  | ErrNilReceiver
  | ErrMissingRequiredField
  | ErrInvalidConfig
  | ErrHandshake
  | ErrEmptyTSDU
  | ErrTSDUTooLarge
  | ErrClosed
  | ErrDisconnected
  | ErrConnectionRefused
  | ErrUnexpectedTPDU
  | ErrIncompleteTSDU.

#[export] Instance sentinel_eq_dec : EqDecision sentinel.
Proof. solve_decision. Defined.

(** Errors of other packages that the code compares against: io, net,
    syscall, context and go-tpkt; any other foreign error is [OtherError]. *)
Inductive foreign :=
  | io_EOF
  | io_ErrUnexpectedEOF
  | io_ErrClosedPipe
  | net_ErrClosed
  | syscall_ECONNRESET
  | syscall_ECONNABORTED
  | syscall_EPIPE
  | context_Canceled
  | context_DeadlineExceeded
  | tpkt_ErrInvalidVersion
  | tpkt_ErrInvalidPacketLength
  | tpkt_ErrPacketTooLarge
  | tpkt_ErrPayloadTooShort
  | tpkt_ErrPayloadTooLarge
  | tpkt_ErrLengthMismatch
  | tpkt_ErrTooShort
  | OtherError (id : Z).

#[export] Instance foreign_eq_dec : EqDecision foreign.
Proof. solve_decision. Defined.

(** ConnectionPhase of conn_errors.go. *)
Inductive ConnectionPhase :=
  | PhaseHandshake
  | PhaseDataTransfer.

#[export] Instance ConnectionPhase_eq_dec : EqDecision ConnectionPhase.
Proof. solve_decision. Defined.

(** An error value.  [Errorf fmt es] is [fmt.Errorf(fmt, ...)] with [es] the
    operands of its [%w] verbs (the operands of other verbs only reach the
    message text, which nothing in the package inspects).  A foreign error that
    implements [net.Error] carries what its [Timeout] method answers. *)
#[warnings="-register-all"]
Inductive error :=
  | Sentinel (s : sentinel)
  | Foreign (f : foreign) (net : option bool)
  | Errorf (fmt : string) (wrapped : list error)
  | Join (errs : list error)
  | RejectionError (Reason : Z) (Info : goslice)
  | UnexpectedTPDUError (Type_ : Z) (Phase : ConnectionPhase)
  | DisconnectError (Cause : option error).

#[warnings="-uniform-inheritance"] Coercion Sentinel : sentinel >-> error.

(** What [errors.Is] compares against. *)
Inductive target :=
  | TSentinel (s : sentinel)
  | TForeign (f : foreign).

Coercion TSentinel : sentinel >-> target.
Coercion TForeign : foreign >-> target.

(** [errors.Is(err, target)]: the error itself or anything it unwraps to. *)
Fixpoint errors_Is (e : error) (t : target) {struct e} : bool :=
  match e with
  | Sentinel s => match t with TSentinel s' => bool_decide (s = s') | TForeign _ => false end
  | Foreign f _ => match t with TForeign f' => bool_decide (f = f') | TSentinel _ => false end
  | Errorf _ es => existsb (fun e' => errors_Is e' t) es
  | Join es => existsb (fun e' => errors_Is e' t) es
  | RejectionError _ _ =>
      match t with TSentinel s' => bool_decide (ErrConnectionRefused = s') | TForeign _ => false end
  | UnexpectedTPDUError _ _ =>
      match t with TSentinel s' => bool_decide (ErrUnexpectedTPDU = s') | TForeign _ => false end
  | DisconnectError c =>
      match t with TSentinel s' => bool_decide (ErrDisconnected = s') | TForeign _ => false end
      || match c with Some e' => errors_Is e' t | None => false end
  end.

(** [errors.As(err, &netErr)]: what the first [net.Error] of the tree, in
    pre-order, answers to [Timeout]. *)
Fixpoint first_net_error (e : error) : option bool :=
  match e with
  | Foreign _ net => net
  | Errorf _ es | Join es =>
      (fix scan (l : list error) : option bool :=
         match l with
         | [] => None
         | e' :: l' => match first_net_error e' with Some t => Some t | None => scan l' end
         end) es
  | DisconnectError (Some e') => first_net_error e'
  | _ => None
  end.

(** isTimeout of deadline.go. *)
Definition isTimeout (e : error) : bool :=
  match first_net_error e with Some t => t | None => false end.

(** ** Outcomes of Go calls *)

Inductive outcome (A : Type) :=
  | Ok (a : A)
  | Err (e : error)
  | Panic
  | NoFuel.
Arguments Ok {A} a.
Arguments Err {A} e.
Arguments Panic {A}.
Arguments NoFuel {A}.

Definition obind {A B} (m : outcome A) (k : A -> outcome B) : outcome B :=
  match m with
  | Ok a => k a
  | Err e => Err e
  | Panic => Panic
  | NoFuel => NoFuel
  end.

(** [if err != nil { return nil, fmt.Errorf(fmt, err) }] with [fmt] ending in
    [%w]. *)
Definition wrapf {A} (fmt : string) (m : outcome A) : outcome A :=
  match m with
  | Err e => Err (Errorf fmt [e])
  | m => m
  end.

Declare Scope go_scope.
Delimit Scope go_scope with go.
Notation "'let!' x ':=' m 'in' k" := (obind m (fun x => k))
  (at level 10, x binder, m at level 100, k at level 200) : go_scope.
Notation "'let!' ' p ':=' m 'in' k" := (obind m (fun x => match x with p => k end))
  (at level 10, p pattern, m at level 100, k at level 200) : go_scope.
#[global] Open Scope go_scope.

(** The call returned: it neither panicked nor ran out of fuel. *)
Definition returns {A} (m : outcome A) : Prop :=
  match m with Ok _ | Err _ => True | Panic | NoFuel => False end.

Definition is_Ok {A} (m : outcome A) : Prop := exists a, m = Ok a.

(** The call failed and [errors.Is] finds [t] in its error. *)
Definition fails_with {A} (m : outcome A) (t : target) : Prop :=
  exists e, m = Err e /\ errors_Is e t = true.

Lemma obind_Ok {A B} (m : outcome A) (k : A -> outcome B) r :
  obind m k = Ok r <-> exists a, m = Ok a /\ k a = Ok r.
Proof.
  destruct m; cbn; split; try done; eauto.
  - by intros (? & [= <-] & ?).
  - by intros (? & ? & ?).
  - by intros (? & ? & ?).
  - by intros (? & ? & ?).
Qed.

Lemma wrapf_Ok {A} fmt (m : outcome A) r : wrapf fmt m = Ok r <-> m = Ok r.
Proof. by destruct m. Qed.

Lemma returns_bind {A B} (m : outcome A) (k : A -> outcome B) :
  returns m -> (forall a, m = Ok a -> returns (k a)) -> returns (obind m k).
Proof. destruct m; cbn; auto. Qed.

Lemma returns_wrapf {A} fmt (m : outcome A) : returns m -> returns (wrapf fmt m).
Proof. by destruct m. Qed.

Lemma returns_Ok {A} (a : A) : returns (Ok a).
Proof. done. Qed.

Lemma returns_Err {A} e : returns (@Err A e).
Proof. done. Qed.

#[export] Hint Resolve returns_Ok returns_Err : cotp.
#[export] Hint Resolve returns_wrapf : cotp.

Lemma fails_with_wrapf {A} fmt (m : outcome A) t :
  fails_with m t -> fails_with (wrapf fmt m) t.
Proof. intros (e & -> & He). eexists. split; [done|]. cbn. by rewrite He. Qed.

(** Invert a successful run: peel binds, wrappers and rejected guards. *)
Ltac go_inv H :=
  repeat first
    [ rewrite obind_Ok in H; let a := fresh "v" in let Ha := fresh "E" in
      destruct H as (a & Ha & H); try rewrite wrapf_Ok in Ha
    | rewrite wrapf_Ok in H
    | match type of H with
      | (if ?c then Err _ else _) = Ok _ => destruct c eqn:?; [discriminate H|]
      | (if ?c then Panic else _) = Ok _ => destruct c eqn:?; [discriminate H|]
      end ].

(** Prove [returns] of a straight-line body. *)
Ltac go_returns :=
  repeat first
    [ match goal with
      | |- returns (Ok _) => apply returns_Ok
      | |- returns (Err _) => apply returns_Err
      | |- returns (wrapf _ _) => apply returns_wrapf
      | |- returns (obind _ _) => apply returns_bind; [|intros ? ?]
      | |- returns (if ?c then _ else _) => destruct c eqn:?
      | |- returns (let '(_, _) := ?p in _) => destruct p eqn:?
      end ].

(** ** Indexing and slicing *)

(** [b[i]] *)
Definition index (b : bytes) (i : Z) : outcome Z :=
  if i <? 0 then Panic
  else match b !! Z.to_nat i with Some x => Ok x | None => Panic end.

(** [b[i:j]].  Go bounds [j] by the capacity; the model panics already beyond
    the length, which is stricter, and the code never goes there. *)
Definition slice (b : bytes) (i j : Z) : outcome bytes :=
  if (0 <=? i) && (i <=? j) && (j <=? len b)
  then Ok (take (Z.to_nat (j - i)) (drop (Z.to_nat i) b))
  else Panic.

Lemma index_Ok b i x : 0 <= i -> b !! Z.to_nat i = Some x -> index b i = Ok x.
Proof. intros Hi Hx. unfold index. if_false. by rewrite Hx. Qed.

(** Read octets off a buffer whose first octets are explicit. *)
Ltac go_index :=
  repeat match goal with
  | |- context [index (?a :: ?l) ?i] =>
      erewrite (index_Ok (a :: l) i) by (lia || reflexivity); cbn [obind wrapf]
  end.

Lemma index_Ok_inv b i x : index b i = Ok x -> 0 <= i /\ b !! Z.to_nat i = Some x.
Proof.
  unfold index. destruct (i <? 0) eqn:?; [done|].
  destruct (b !! Z.to_nat i) eqn:?; [|done]. intros [= ->]. split; [blia|done].
Qed.

Lemma index_ok_byte b i x : bytes_ok b -> index b i = Ok x -> is_u8 x.
Proof.
  intros Hb [_ Hx]%index_Ok_inv. by eapply Forall_lookup_1 in Hx.
Qed.

Lemma index_is_Ok b i : 0 <= i < len b -> is_Ok (index b i).
Proof.
  intros [Hi Hl]. unfold len in Hl.
  destruct (lookup_lt_is_Some_2 b (Z.to_nat i)) as [x Hx]; [lia|].
  exists x. by apply index_Ok.
Qed.

Lemma index_returns b i : 0 <= i < len b -> returns (index b i).
Proof. intros [x ->]%index_is_Ok. done. Qed.

Lemma slice_is_Ok b i j : 0 <= i <= j -> j <= len b -> is_Ok (slice b i j).
Proof. intros ? ?. unfold slice. if_true. by eexists. Qed.

Lemma slice_returns b i j : 0 <= i <= j -> j <= len b -> returns (slice b i j).
Proof. intros H ?. by destruct (slice_is_Ok b i j H) as [s ->]. Qed.

Lemma slice_Ok_inv b i j s :
  slice b i j = Ok s ->
  0 <= i <= j /\ j <= len b /\ s = take (Z.to_nat (j - i)) (drop (Z.to_nat i) b).
Proof.
  unfold slice. destruct (_ && _) eqn:E; [|done]. intros [= <-].
  breflect. repeat split; lia || done.
Qed.

Lemma slice_ok_bytes b i j s : bytes_ok b -> slice b i j = Ok s -> bytes_ok s.
Proof. intros Hb (_ & _ & ->)%slice_Ok_inv. auto with cotp. Qed.

Lemma slice_app pre mid post i j :
  i = len pre -> j = len pre + len mid -> slice (pre ++ mid ++ post) i j = Ok mid.
Proof.
  intros -> ->. unfold slice. rewrite !len_app. len_pose.
  if_true. f_equal. unfold len. rewrite Nat2Z.id, drop_app_length.
  replace (Z.to_nat _) with (length mid) by lia. apply take_app_length.
Qed.

Lemma slice_suffix pre post i j :
  i = len pre -> j = len pre + len post -> slice (pre ++ post) i j = Ok post.
Proof.
  intros -> ->. rewrite <- (app_nil_r post) at 1. by apply slice_app.
Qed.

(** The two word fields of a header. *)
Lemma slice_2_4 a b c d r : slice (a :: b :: c :: d :: r) 2 4 = Ok [c; d].
Proof. by apply (slice_app [a; b] [c; d] r). Qed.

Lemma slice_4_6 a b c d e f r : slice (a :: b :: c :: d :: e :: f :: r) 4 6 = Ok [e; f].
Proof. by apply (slice_app [a; b; c; d] [e; f] r). Qed.

Lemma slice_length b i j s : slice b i j = Ok s -> len s = j - i.
Proof.
  intros (? & ? & ->)%slice_Ok_inv. unfold len in *.
  rewrite length_take, length_drop. lia.
Qed.

(** ** encoding/binary: big-endian words *)

Definition BigEndian_Uint16 (b : bytes) : outcome Z :=
  let! b1 := index b 1 in
  let! b0 := index b 0 in
  Ok (Z.lor b1 (Z.shiftl b0 8)).

Definition BigEndian_PutUint16 (v : Z) : bytes :=
  [u8 (Z.shiftr v 8); u8 v].

Definition BigEndian_PutUint32 (v : Z) : bytes :=
  [u8 (Z.shiftr v 24); u8 (Z.shiftr v 16); u8 (Z.shiftr v 8); u8 v].

Lemma BigEndian_Uint16_pair h l :
  is_u8 l -> BigEndian_Uint16 [h; l] = Ok (h * 256 + l).
Proof.
  intros Hl. unfold BigEndian_Uint16.
  change (index [h; l] 1) with (Ok l). change (index [h; l] 0) with (Ok h).
  cbn [obind]. f_equal.
  rewrite Z.lor_comm. by apply (lor_shiftl_add h l 8).
Qed.

(** Reading back what [PutUint16] stored. *)
Lemma BigEndian_16_roundtrip v :
  is_u16 v -> BigEndian_Uint16 (BigEndian_PutUint16 v) = Ok v.
Proof.
  intros Hv. unfold BigEndian_PutUint16.
  rewrite BigEndian_Uint16_pair by apply u8_range. f_equal.
  unfold u8, is_u16 in *. rewrite Z.shiftr_div_pow2 by lia.
  change (2 ^ 8) with 256. rewrite (Z.mod_small (v / 256)).
  - rewrite (Z.div_mod v 256) at 3; lia.
  - split; [apply Z.div_pos; lia|]. apply Z.div_lt_upper_bound; lia.
Qed.

(** The two octets of a 16-bit word. *)
Lemma BigEndian_PutUint16_inv v :
  is_u16 v -> exists h l, BigEndian_PutUint16 v = [h; l] /\ is_u8 h /\ is_u8 l /\ v = h * 256 + l.
Proof.
  intros Hv. pose proof (BigEndian_16_roundtrip v Hv) as H. unfold BigEndian_PutUint16 in *.
  rewrite BigEndian_Uint16_pair in H by apply u8_range. injection H as H.
  eexists _, _. split_and!; [done|apply u8_range|apply u8_range|done].
Qed.

Lemma BigEndian_PutUint16_pair h l :
  is_u8 h -> is_u8 l -> BigEndian_PutUint16 (h * 256 + l) = [h; l].
Proof.
  intros Hh Hl. unfold is_u8 in *.
  destruct (BigEndian_PutUint16_inv (h * 256 + l)) as (h' & l' & -> & ? & ? & ?);
    [unfold is_u16; lia|]. unfold is_u8 in *. repeat f_equal; lia.
Qed.

Lemma pair_range h l : is_u8 h -> is_u8 l -> is_u16 (h * 256 + l).
Proof. unfold is_u8, is_u16. lia. Qed.

Lemma BigEndian_Uint16_range b v :
  bytes_ok b -> BigEndian_Uint16 b = Ok v -> is_u16 v.
Proof.
  intros Hb H. unfold BigEndian_Uint16 in H. go_inv H. injection H as <-.
  eapply index_ok_byte in E as Hl; [|done]. eapply index_ok_byte in E0 as Hh; [|done].
  rewrite Z.lor_comm. unfold is_u8, is_u16 in *.
  rewrite (lor_shiftl_add _ _ 8); lia.
Qed.

Lemma BigEndian_Uint16_returns b : 2 <= len b -> returns (BigEndian_Uint16 b).
Proof.
  intros. unfold BigEndian_Uint16. go_returns; apply index_returns; lia.
Qed.

Lemma BigEndian_PutUint16_ok v : bytes_ok (BigEndian_PutUint16 v).
Proof. repeat constructor; apply u8_range. Qed.

#[export] Hint Resolve BigEndian_PutUint16_ok pair_range : cotp.

(** ** Loops

    A Go loop is [iterate fuel body s]: the body either goes round again with a
    new state or leaves the loop with a result. *)

Fixpoint iterate {S R : Type} (fuel : nat) (body : S -> outcome (S + R)) (s : S) : outcome R :=
  match fuel with
  | O => NoFuel
  | Datatypes.S fuel' =>
      match body s with
      | Ok (inl s') => iterate fuel' body s'
      | Ok (inr r) => Ok r
      | Err e => Err e
      | Panic => Panic
      | NoFuel => NoFuel
      end
  end.

(** A measure that decreases on every round bounds the fuel a loop needs. *)
Lemma iterate_returns {S R} (Inv : S -> Prop) (measure : S -> nat)
    (body : S -> outcome (S + R)) :
  (forall s, Inv s -> returns (body s) /\
     forall s', body s = Ok (inl s') -> Inv s' /\ (measure s' < measure s)%nat) ->
  forall fuel s, Inv s -> (measure s < fuel)%nat -> returns (iterate fuel body s).
Proof.
  intros Hbody. induction fuel as [|fuel IH]; intros s Hs Hm; [lia|].
  cbn. destruct (Hbody s Hs) as [Hr Hstep].
  destruct (body s) as [[s'|r]|e| |]; try done.
  destruct (Hstep s' eq_refl). apply IH; [done|lia].
Qed.

(** Invariant rule: a property of the state carried to the result. *)
Lemma iterate_inv {S R} (Inv : S -> Prop) (Post : R -> Prop)
    (body : S -> outcome (S + R)) :
  (forall s, Inv s -> match body s with
                      | Ok (inl s') => Inv s'
                      | Ok (inr r) => Post r
                      | _ => True
                      end) ->
  forall fuel s r, Inv s -> iterate fuel body s = Ok r -> Post r.
Proof.
  intros Hbody. induction fuel as [|fuel IH]; intros s r Hs; [done|].
  cbn. specialize (Hbody s Hs). destruct (body s) as [[s'|r']|e| |]; try done.
  - by apply IH.
  - by intros [= <-].
Qed.

Lemma iterate_ext {S R} (f g : S -> outcome (S + R)) :
  (forall s, f s = g s) -> forall n s, iterate n f s = iterate n g s.
Proof.
  intros Hfg. induction n as [|n IH]; intros s; [done|]. cbn [iterate]. rewrite Hfg.
  destruct (g s) as [[?|?]|?| |]; auto.
Qed.

(** What an error of a loop satisfies, when every round's does. *)
Lemma iterate_err {S R} (P : error -> Prop) (body : S -> outcome (S + R)) :
  (forall s e, body s = Err e -> P e) ->
  forall n s e, iterate n body s = Err e -> P e.
Proof.
  intros Hbody. induction n as [|n IH]; intros s e; [done|]. cbn [iterate].
  destruct (body s) as [[s'|r]|e'| |] eqn:E; try done; [by apply IH|].
  intros [= <-]. by eapply Hbody.
Qed.
