(* ===== verification/Types.v ===== *)
(** * Data model: types.go, size_profile.go and the configuration constants *)

From S2P Require Import Prelude Errors.

(** ** TPDU type codes *)

Definition TypeCR := 224.  (* 0xE0 *)
Definition TypeCC := 208.  (* 0xD0 *)
Definition TypeDR := 128.  (* 0x80 *)
Definition TypeDC := 192.  (* 0xC0 *)
Definition TypeDT := 240.  (* 0xF0 *)
Definition TypeER := 112.  (* 0x70 *)
Definition TypeED := 16.   (* 0x10 *)
Definition TypeAK := 96.   (* 0x60 *)
Definition TypeEA := 32.   (* 0x20 *)
Definition TypeRJ := 80.   (* 0x50 *)

(** The ten codes [PeekType] can answer. *)
Definition tpdu_types : list Z :=
  [TypeCR; TypeCC; TypeDR; TypeDC; TypeDT; TypeER; TypeED; TypeAK; TypeEA; TypeRJ].

Definition TPDUType_String (t : Z) : string :=
  if t =? TypeCR then "CR"
  else if t =? TypeCC then "CC"
  else if t =? TypeDR then "DR"
  else if t =? TypeDC then "DC"
  else if t =? TypeDT then "DT"
  else if t =? TypeER then "ER"
  else if t =? TypeED then "ED"
  else if t =? TypeAK then "AK"
  else if t =? TypeEA then "EA"
  else if t =? TypeRJ then "RJ"
  else "unknown".

Definition MinHeaderLength := 2.
Definition MaxLI := 254.
Definition MaxCRTPDULength := 128.
Definition MaxParameterValueLength := 255.

Definition ParamCallingSelector := 193.      (* 0xC1 *)
Definition ParamCalledSelector := 194.       (* 0xC2 *)
Definition ParamTPDUSize := 192.             (* 0xC0 *)
Definition ParamPreferredMaxTPDUSize := 240. (* 0xF0 *)

(** ** TPDU structures

    A pointer field that may be nil is an [option]; a [[]byte] field is a
    [goslice]; a [[]Parameter] field is a list, since the code only ranges over
    it and takes its length. *)

(** [Parameter] of types.go (a Rocq keyword). *)
Record Param := mkParam {
  Code : Z;
  Value : goslice
}.

Record CR := mkCR {
  CR_CDT : Z;
  CR_DestinationRef : Z;
  CR_SourceRef : Z;
  CR_ClassOption : Z;
  CR_Parameters : list Param;
  CR_CallingSelector : goslice;
  CR_CalledSelector : goslice;
  CR_TPDUSize : option Z;
  CR_PreferredMaxTPDUSize : option Z;
  CR_UserData : goslice
}.

Record CC := mkCC {
  CC_CDT : Z;
  CC_DestinationRef : Z;
  CC_SourceRef : Z;
  CC_ClassOption : Z;
  CC_Parameters : list Param;
  CC_CallingSelector : goslice;
  CC_CalledSelector : goslice;
  CC_TPDUSize : option Z;
  CC_PreferredMaxTPDUSize : option Z;
  CC_UserData : goslice
}.

Record DT := mkDT {
  DT_EOT : bool;
  DT_TPDUNR : option Z;
  DT_DestinationRef : option Z;
  DT_Parameters : list Param;
  DT_UserData : goslice
}.

Record DR := mkDR {
  DR_DestinationRef : Z;
  DR_SourceRef : Z;
  DR_Reason : Z;
  DR_Parameters : list Param;
  DR_UserData : goslice
}.

Record DC := mkDC {
  DC_DestinationRef : Z;
  DC_SourceRef : Z;
  DC_Parameters : list Param
}.

Record ER := mkER {
  ER_DestinationRef : Z;
  ER_RejectCause : Z;
  ER_Parameters : list Param
}.

Record ED := mkED {
  ED_DestinationRef : option Z;
  ED_TPDUNR : option Z;
  ED_EOT : bool;
  ED_Parameters : list Param;
  ED_UserData : goslice
}.

Record AK := mkAK {
  AK_CDT : Z;
  AK_DestinationRef : Z;
  AK_YRTUNR : Z;
  AK_Parameters : list Param
}.

Record EA := mkEA {
  EA_DestinationRef : Z;
  EA_YREDTUNR : Z;
  EA_Parameters : list Param
}.

Record RJ := mkRJ {
  RJ_CDT : Z;
  RJ_DestinationRef : Z;
  RJ_YRTUNR : Z
}.

(** The result of [Decode]: a type code and ten pointers, of which the code
    fills exactly one. *)
Record Decoded := mkDecoded {
  D_Type : Z;
  D_CR : option CR;
  D_CC : option CC;
  D_DT : option DT;
  D_DR : option DR;
  D_DC : option DC;
  D_ER : option ER;
  D_ED : option ED;
  D_AK : option AK;
  D_EA : option EA;
  D_RJ : option RJ;
  D_Raw : goslice
}.

(** ** Widths

    The Go field types, as a predicate: what every value of the struct type
    satisfies by construction. *)

Definition Param_typed (p : Param) : Prop :=
  is_u8 (Code p) /\ goslice_ok (Value p).

Definition opt_typed (P : Z -> Prop) (o : option Z) : Prop :=
  match o with Some x => P x | None => True end.

Definition CR_typed (c : CR) : Prop :=
  is_u8 (CR_CDT c) /\ is_u16 (CR_DestinationRef c) /\ is_u16 (CR_SourceRef c) /\
  is_u8 (CR_ClassOption c) /\ Forall Param_typed (CR_Parameters c) /\
  goslice_ok (CR_CallingSelector c) /\ goslice_ok (CR_CalledSelector c) /\
  opt_typed is_u8 (CR_TPDUSize c) /\ opt_typed is_u32 (CR_PreferredMaxTPDUSize c) /\
  goslice_ok (CR_UserData c).

Definition CC_typed (c : CC) : Prop :=
  is_u8 (CC_CDT c) /\ is_u16 (CC_DestinationRef c) /\ is_u16 (CC_SourceRef c) /\
  is_u8 (CC_ClassOption c) /\ Forall Param_typed (CC_Parameters c) /\
  goslice_ok (CC_CallingSelector c) /\ goslice_ok (CC_CalledSelector c) /\
  opt_typed is_u8 (CC_TPDUSize c) /\ opt_typed is_u32 (CC_PreferredMaxTPDUSize c) /\
  goslice_ok (CC_UserData c).

Definition DT_typed (d : DT) : Prop :=
  opt_typed is_u8 (DT_TPDUNR d) /\ opt_typed is_u16 (DT_DestinationRef d) /\
  Forall Param_typed (DT_Parameters d) /\ goslice_ok (DT_UserData d).

Definition DR_typed (d : DR) : Prop :=
  is_u16 (DR_DestinationRef d) /\ is_u16 (DR_SourceRef d) /\ is_u8 (DR_Reason d) /\
  Forall Param_typed (DR_Parameters d) /\ goslice_ok (DR_UserData d).

Definition DC_typed (d : DC) : Prop :=
  is_u16 (DC_DestinationRef d) /\ is_u16 (DC_SourceRef d) /\
  Forall Param_typed (DC_Parameters d).

Definition ER_typed (e : ER) : Prop :=
  is_u16 (ER_DestinationRef e) /\ is_u8 (ER_RejectCause e) /\
  Forall Param_typed (ER_Parameters e).

Definition ED_typed (e : ED) : Prop :=
  opt_typed is_u16 (ED_DestinationRef e) /\ opt_typed is_u8 (ED_TPDUNR e) /\
  Forall Param_typed (ED_Parameters e) /\ goslice_ok (ED_UserData e).

Definition AK_typed (a : AK) : Prop :=
  is_u8 (AK_CDT a) /\ is_u16 (AK_DestinationRef a) /\ is_u8 (AK_YRTUNR a) /\
  Forall Param_typed (AK_Parameters a).

Definition EA_typed (e : EA) : Prop :=
  is_u16 (EA_DestinationRef e) /\ is_u8 (EA_YREDTUNR e) /\
  Forall Param_typed (EA_Parameters e).

Definition RJ_typed (r : RJ) : Prop :=
  is_u8 (RJ_CDT r) /\ is_u16 (RJ_DestinationRef r) /\ is_u8 (RJ_YRTUNR r).

(** Widths are decidable, so that a closed structure is checked by running. *)
#[export] Instance goslice_ok_dec s : Decision (goslice_ok s).
Proof. unfold goslice_ok. apply _. Defined.
#[export] Instance Param_typed_dec p : Decision (Param_typed p).
Proof. unfold Param_typed. apply _. Defined.
#[export] Instance opt_typed_dec P `{!forall x, Decision (P x)} o : Decision (opt_typed P o).
Proof. destruct o; cbn; apply _. Defined.
#[export] Instance CR_typed_dec c : Decision (CR_typed c).
Proof. unfold CR_typed. apply _. Defined.
#[export] Instance CC_typed_dec c : Decision (CC_typed c).
Proof. unfold CC_typed. apply _. Defined.
#[export] Instance DT_typed_dec d : Decision (DT_typed d).
Proof. unfold DT_typed. apply _. Defined.
#[export] Instance DR_typed_dec d : Decision (DR_typed d).
Proof. unfold DR_typed. apply _. Defined.

(** ** Service constants: size_profile.go *)

(** SizeProfile is a Go [int]: any integer can be passed, two are defined. *)
Definition SizeProfileRFC1006Compat := 0.
Definition SizeProfilePreferredMaximum := 1.

Definition DefaultMaxTPDULength := 65531.
Definition DefaultMaxTSDULength := 4 * 1024 * 1024.
Definition MaxITOTTPDULength := 65531.
Definition MinTPDULength := 128.
Definition MaxPreferredUnitsITOT := 511.
Definition MaxConnectDataLength := 32.

Definition ReasonNotSpecified := 0.
Definition ReasonCongestionAtTSAP := 1.
Definition ReasonSessionNotAttached := 2.
Definition ReasonAddressUnknown := 3.
Definition ReasonNormalDisconnect := 128.
Definition ReasonRemoteCongestion := 129.
Definition ReasonNegotiationFailed := 130.
Definition ReasonDuplicateSourceReference := 131.
Definition ReasonMismatchedReferences := 132.
Definition ReasonProtocolError := 133.
Definition ReasonReferenceOverflow := 135.
Definition ReasonRefusedOnNetworkConn := 136.
Definition ReasonInvalidHeaderOrParamLen := 138.

Definition ConnectReject := 0.
Definition ConnectAccept := 1.
