(* ===== verification/Text.v ===== *)
(** * Text forms: string.go

    The [String] methods write a TPDU as its name and labelled fields between
    braces.  [summary] is what they show, as data; [render] writes such a
    summary, and every [String] method is [render] of the summary of its
    receiver. *)

From Stdlib Require Import Ascii.
From stdpp Require Import pretty.
From S2P Require Import Prelude Errors Types.

(** ** The verbs of fmt that string.go uses *)

Definition hex_digit (n : Z) : ascii :=
  match n with
  | 0 => "0" | 1 => "1" | 2 => "2" | 3 => "3" | 4 => "4" | 5 => "5" | 6 => "6" | 7 => "7"
  | 8 => "8" | 9 => "9" | 10 => "a" | 11 => "b" | 12 => "c" | 13 => "d" | 14 => "e" | _ => "f"
  end%char.

Definition HEX_digit (n : Z) : ascii :=
  match n with
  | 10 => "A" | 11 => "B" | 12 => "C" | 13 => "D" | 14 => "E" | 15 => "F" | _ => hex_digit n
  end%char.

(** [%d], [%v] of a bool, [%x] of a byte slice, [%02X] of a byte. *)
Definition fmt_d (n : Z) : string := pretty n.
Definition fmt_v (b : bool) : string := if b then "true" else "false".
Fixpoint fmt_x (b : bytes) : string :=
  match b with
  | [] => EmptyString
  | x :: b => String (hex_digit (x / 16)) (String (hex_digit (x mod 16)) (fmt_x b))
  end.
Definition fmt_02X (x : Z) : string := String (HEX_digit (x / 16)) (String (HEX_digit (x mod 16)) EmptyString).

(** ** string.go *)

Definition maxBytesInString := 8.

Definition truncHex (b : bytes) : bytes :=
  if len b <=? maxBytesInString then b else take (Z.to_nat maxBytesInString) b.

Definition Parameter_String (p : Param) : string :=
  if slen (Value p) =? 0 then "0x" +:+ fmt_02X (Code p) +:+ "=[]"
  else if slen (Value p) <=? maxBytesInString
  then "0x" +:+ fmt_02X (Code p) +:+ "=" +:+ fmt_x (content (Value p))
  else "0x" +:+ fmt_02X (Code p) +:+ "=" +:+ fmt_x (take (Z.to_nat maxBytesInString) (content (Value p)))
    +:+ "...(" +:+ fmt_d (slen (Value p)) +:+ ")".

(** [if b != nil { s += " l:%x" }], [if p != nil { s += " l:%d" }] and
    [if n > 0 { s += " l:%d" }]. *)
Definition add_hex (s l : string) (b : goslice) : string :=
  match b with Some b => s +:+ l +:+ fmt_x (truncHex b) | None => s end.
Definition add_num (s l : string) (n : option Z) : string :=
  match n with Some n => s +:+ l +:+ fmt_d n | None => s end.
Definition add_len (s l : string) (n : Z) : string :=
  if 0 <? n then s +:+ l +:+ fmt_d n else s.

Definition CR_String (c : option CR) : string :=
  match c with
  | None => "CR(nil)"
  | Some c =>
      let s := "CR{CDT:" +:+ fmt_d (CR_CDT c) +:+ " DST:" +:+ fmt_d (CR_DestinationRef c) +:+
        " SRC:" +:+ fmt_d (CR_SourceRef c) +:+ " Class:" +:+ fmt_d (CR_ClassOption c) in
      let s := add_hex s " calling:" (CR_CallingSelector c) in
      let s := add_hex s " called:" (CR_CalledSelector c) in
      let s := add_num s " size:" (CR_TPDUSize c) in
      let s := add_num s " pref:" (CR_PreferredMaxTPDUSize c) in
      let s := add_len s " params:" (Z.of_nat (length (CR_Parameters c))) in
      let s := add_len s " userdata:" (slen (CR_UserData c)) in
      s +:+ "}"
  end.

Definition CC_String (c : option CC) : string :=
  match c with
  | None => "CC(nil)"
  | Some c =>
      let s := "CC{CDT:" +:+ fmt_d (CC_CDT c) +:+ " DST:" +:+ fmt_d (CC_DestinationRef c) +:+
        " SRC:" +:+ fmt_d (CC_SourceRef c) +:+ " Class:" +:+ fmt_d (CC_ClassOption c) in
      let s := add_hex s " calling:" (CC_CallingSelector c) in
      let s := add_hex s " called:" (CC_CalledSelector c) in
      let s := add_num s " size:" (CC_TPDUSize c) in
      let s := add_num s " pref:" (CC_PreferredMaxTPDUSize c) in
      let s := add_len s " params:" (Z.of_nat (length (CC_Parameters c))) in
      let s := add_len s " userdata:" (slen (CC_UserData c)) in
      s +:+ "}"
  end.

Definition DT_String (d : option DT) : string :=
  match d with
  | None => "DT(nil)"
  | Some d =>
      let s := "DT{EOT:" +:+ fmt_v (DT_EOT d) in
      let s := add_num s " NR:" (DT_TPDUNR d) in
      let s := add_num s " DST:" (DT_DestinationRef d) in
      let s := add_len s " params:" (Z.of_nat (length (DT_Parameters d))) in
      let s := s +:+ " userdata:" +:+ fmt_d (slen (DT_UserData d)) in
      s +:+ "}"
  end.

Definition DR_String (d : option DR) : string :=
  match d with
  | None => "DR(nil)"
  | Some d =>
      let s := "DR{DST:" +:+ fmt_d (DR_DestinationRef d) +:+ " SRC:" +:+ fmt_d (DR_SourceRef d) +:+
        " Reason:" +:+ fmt_d (DR_Reason d) in
      let s := add_len s " params:" (Z.of_nat (length (DR_Parameters d))) in
      let s := s +:+ " userdata:" +:+ fmt_d (slen (DR_UserData d)) in
      s +:+ "}"
  end.

Definition DC_String (d : option DC) : string :=
  match d with
  | None => "DC(nil)"
  | Some d =>
      let s := "DC{DST:" +:+ fmt_d (DC_DestinationRef d) +:+ " SRC:" +:+ fmt_d (DC_SourceRef d) in
      let s := add_len s " params:" (Z.of_nat (length (DC_Parameters d))) in
      s +:+ "}"
  end.

Definition ER_String (e : option ER) : string :=
  match e with
  | None => "ER(nil)"
  | Some e =>
      let s := "ER{DST:" +:+ fmt_d (ER_DestinationRef e) +:+ " Cause:" +:+ fmt_d (ER_RejectCause e) in
      let s := add_len s " params:" (Z.of_nat (length (ER_Parameters e))) in
      s +:+ "}"
  end.

Definition ED_String (e : option ED) : string :=
  match e with
  | None => "ED(nil)"
  | Some e =>
      let s := "ED{" in
      let s := match ED_DestinationRef e with Some n => s +:+ "DST:" +:+ fmt_d n +:+ " " | None => s end in
      let s := match ED_TPDUNR e with Some n => s +:+ "NR:" +:+ fmt_d n +:+ " " | None => s end in
      let s := s +:+ "EOT:" +:+ fmt_v (ED_EOT e) +:+ " " in
      let s := if 0 <? Z.of_nat (length (ED_Parameters e))
        then s +:+ "params:" +:+ fmt_d (Z.of_nat (length (ED_Parameters e))) +:+ " " else s in
      s +:+ "userdata:" +:+ fmt_d (slen (ED_UserData e)) +:+ "}"
  end.

Definition AK_String (a : option AK) : string :=
  match a with
  | None => "AK(nil)"
  | Some a =>
      let s := "AK{CDT:" +:+ fmt_d (AK_CDT a) +:+ " DST:" +:+ fmt_d (AK_DestinationRef a) +:+
        " YRTUNR:" +:+ fmt_d (AK_YRTUNR a) in
      let s := add_len s " params:" (Z.of_nat (length (AK_Parameters a))) in
      s +:+ "}"
  end.

Definition EA_String (e : option EA) : string :=
  match e with
  | None => "EA(nil)"
  | Some e =>
      let s := "EA{DST:" +:+ fmt_d (EA_DestinationRef e) +:+ " YREDTUNR:" +:+ fmt_d (EA_YREDTUNR e) in
      let s := add_len s " params:" (Z.of_nat (length (EA_Parameters e))) in
      s +:+ "}"
  end.

Definition RJ_String (r : option RJ) : string :=
  match r with
  | None => "RJ(nil)"
  | Some r =>
      "RJ{CDT:" +:+ fmt_d (RJ_CDT r) +:+ " DST:" +:+ fmt_d (RJ_DestinationRef r) +:+
        " YRTUNR:" +:+ fmt_d (RJ_YRTUNR r) +:+ "}"
  end.

Example CR_text :
  CR_String (Some (mkCR 0 0 7 0 [] (Some [1; 171]) None (Some 12) None (Some [1; 2]))) =
  "CR{CDT:0 DST:0 SRC:7 Class:0 calling:01ab size:12 userdata:2}".
Proof. reflexivity. Qed.

Example parameter_text :
  Parameter_String (mkParam 199 (Some [1; 2; 3; 4; 5; 6; 7; 8; 9])) = "0xC7=0102030405060708...(9)".
Proof. reflexivity. Qed.

(** ** What a text shows *)

Inductive field :=
  | Num (n : Z)
  | Hex (b : bytes)     (* the octets shown, after truncation *)
  | Flag (b : bool).

Definition labelled : Type := string * field.

Definition num_field (l : string) (n : option Z) : list labelled :=
  match n with Some n => [(l, Num n)] | None => [] end.
Definition hex_field (l : string) (b : goslice) : list labelled :=
  match b with Some b => [(l, Hex (truncHex b))] | None => [] end.
Definition len_field (l : string) (n : Z) : list labelled :=
  if 0 <? n then [(l, Num n)] else [].

(** A receiver of [String]. *)
Inductive tpdu :=
  | T_CR (c : option CR)
  | T_CC (c : option CC)
  | T_DT (d : option DT)
  | T_DR (d : option DR)
  | T_DC (d : option DC)
  | T_ER (e : option ER)
  | T_ED (e : option ED)
  | T_AK (a : option AK)
  | T_EA (e : option EA)
  | T_RJ (r : option RJ).

Definition tpdu_String (t : tpdu) : string :=
  match t with
  | T_CR c => CR_String c | T_CC c => CC_String c | T_DT d => DT_String d | T_DR d => DR_String d
  | T_DC d => DC_String d | T_ER e => ER_String e | T_ED e => ED_String e | T_AK a => AK_String a
  | T_EA e => EA_String e | T_RJ r => RJ_String r
  end.

Definition tpdu_type (t : tpdu) : Z :=
  match t with
  | T_CR _ => TypeCR | T_CC _ => TypeCC | T_DT _ => TypeDT | T_DR _ => TypeDR | T_DC _ => TypeDC
  | T_ER _ => TypeER | T_ED _ => TypeED | T_AK _ => TypeAK | T_EA _ => TypeEA | T_RJ _ => TypeRJ
  end.

Definition count (ps : list Param) : Z := Z.of_nat (length ps).

Definition CR_summary (c : CR) : list labelled :=
  [("CDT", Num (CR_CDT c)); ("DST", Num (CR_DestinationRef c)); ("SRC", Num (CR_SourceRef c));
   ("Class", Num (CR_ClassOption c))] ++
  hex_field "calling" (CR_CallingSelector c) ++ hex_field "called" (CR_CalledSelector c) ++
  num_field "size" (CR_TPDUSize c) ++ num_field "pref" (CR_PreferredMaxTPDUSize c) ++
  len_field "params" (count (CR_Parameters c)) ++ len_field "userdata" (slen (CR_UserData c)).

Definition CC_summary (c : CC) : list labelled :=
  [("CDT", Num (CC_CDT c)); ("DST", Num (CC_DestinationRef c)); ("SRC", Num (CC_SourceRef c));
   ("Class", Num (CC_ClassOption c))] ++
  hex_field "calling" (CC_CallingSelector c) ++ hex_field "called" (CC_CalledSelector c) ++
  num_field "size" (CC_TPDUSize c) ++ num_field "pref" (CC_PreferredMaxTPDUSize c) ++
  len_field "params" (count (CC_Parameters c)) ++ len_field "userdata" (slen (CC_UserData c)).

Definition summary (t : tpdu) : option (list labelled) :=
  match t with
  | T_CR c => CR_summary <$> c
  | T_CC c => CC_summary <$> c
  | T_DT d => (fun d => [("EOT", Flag (DT_EOT d))] ++ num_field "NR" (DT_TPDUNR d) ++
      num_field "DST" (DT_DestinationRef d) ++ len_field "params" (count (DT_Parameters d)) ++
      [("userdata", Num (slen (DT_UserData d)))]) <$> d
  | T_DR d => (fun d => [("DST", Num (DR_DestinationRef d)); ("SRC", Num (DR_SourceRef d));
      ("Reason", Num (DR_Reason d))] ++ len_field "params" (count (DR_Parameters d)) ++
      [("userdata", Num (slen (DR_UserData d)))]) <$> d
  | T_DC d => (fun d => [("DST", Num (DC_DestinationRef d)); ("SRC", Num (DC_SourceRef d))] ++
      len_field "params" (count (DC_Parameters d))) <$> d
  | T_ER e => (fun e => [("DST", Num (ER_DestinationRef e)); ("Cause", Num (ER_RejectCause e))] ++
      len_field "params" (count (ER_Parameters e))) <$> e
  | T_ED e => (fun e => num_field "DST" (ED_DestinationRef e) ++ num_field "NR" (ED_TPDUNR e) ++
      [("EOT", Flag (ED_EOT e))] ++ len_field "params" (count (ED_Parameters e)) ++
      [("userdata", Num (slen (ED_UserData e)))]) <$> e
  | T_AK a => (fun a => [("CDT", Num (AK_CDT a)); ("DST", Num (AK_DestinationRef a));
      ("YRTUNR", Num (AK_YRTUNR a))] ++ len_field "params" (count (AK_Parameters a))) <$> a
  | T_EA e => (fun e => [("DST", Num (EA_DestinationRef e)); ("YREDTUNR", Num (EA_YREDTUNR e))] ++
      len_field "params" (count (EA_Parameters e))) <$> e
  | T_RJ r => (fun r => [("CDT", Num (RJ_CDT r)); ("DST", Num (RJ_DestinationRef r));
      ("YRTUNR", Num (RJ_YRTUNR r))]) <$> r
  end.

(** The common layout. *)
Definition field_text (f : field) : string :=
  match f with Num n => fmt_d n | Hex b => fmt_x b | Flag b => fmt_v b end.
Definition labelled_text (f : labelled) : string := f.1 +:+ ":" +:+ field_text f.2.
Fixpoint tail_text (fs : list labelled) : string :=
  match fs with [] => EmptyString | f :: fs => " " +:+ labelled_text f +:+ tail_text fs end.
Definition fields_text (fs : list labelled) : string :=
  match fs with [] => EmptyString | f :: fs => labelled_text f +:+ tail_text fs end.
Definition render (name : string) (fs : option (list labelled)) : string :=
  match fs with
  | None => name +:+ "(nil)"
  | Some fs => name +:+ "{" +:+ fields_text fs +:+ "}"
  end.

(** ** Strings *)

Lemma str_app_assoc (a b c : string) : (a +:+ b) +:+ c = a +:+ b +:+ c.
Proof. induction a as [|x a IH]; [done|]. exact (f_equal (String x) IH). Qed.

Lemma str_app_nil_r (a : string) : a +:+ EmptyString = a.
Proof. induction a as [|x a IH]; [done|]. exact (f_equal (String x) IH). Qed.

Lemma str_length_app (a b : string) : String.length (a +:+ b) = (String.length a + String.length b)%nat.
Proof. induction a as [|x a IH]; [done|]. exact (f_equal S IH). Qed.

Lemma tail_app fs gs : tail_text (fs ++ gs) = tail_text fs +:+ tail_text gs.
Proof.
  induction fs as [|f fs IH]; [done|]. cbn [tail_text app]. rewrite IH.
  by rewrite !str_app_assoc.
Qed.

Lemma fields_app f fs gs : fields_text ((f :: fs) ++ gs) = fields_text (f :: fs) +:+ tail_text gs.
Proof. cbn [fields_text app]. by rewrite tail_app, str_app_assoc. Qed.

(** ** Every text is the rendering of its summary *)

Lemma tail_one l v : tail_text [(l, v)] = (" " +:+ l +:+ ":") +:+ field_text v.
Proof. unfold tail_text, labelled_text. cbn [fst snd]. rewrite str_app_nil_r. by rewrite !str_app_assoc. Qed.

Lemma add_hex_tail s l b : add_hex s (" " +:+ l +:+ ":") b = s +:+ tail_text (hex_field l b).
Proof.
  destruct b as [b|]; cbn [add_hex hex_field]; [by rewrite tail_one|]. cbn. by rewrite str_app_nil_r.
Qed.

Lemma add_num_tail s l n : add_num s (" " +:+ l +:+ ":") n = s +:+ tail_text (num_field l n).
Proof.
  destruct n as [n|]; cbn [add_num num_field]; [by rewrite tail_one|]. cbn. by rewrite str_app_nil_r.
Qed.

Lemma add_len_tail s l n : add_len s (" " +:+ l +:+ ":") n = s +:+ tail_text (len_field l n).
Proof.
  unfold add_len, len_field. destruct (0 <? n); [by rewrite tail_one|]. cbn. by rewrite str_app_nil_r.
Qed.

Ltac labels :=
  change " calling:" with (" " +:+ "calling" +:+ ":"); change " called:" with (" " +:+ "called" +:+ ":");
  change " size:" with (" " +:+ "size" +:+ ":"); change " pref:" with (" " +:+ "pref" +:+ ":");
  change " params:" with (" " +:+ "params" +:+ ":"); change " NR:" with (" " +:+ "NR" +:+ ":");
  try change (add_len ?s " userdata:" ?n) with (add_len s (" " +:+ "userdata" +:+ ":") n);
  try change (add_num ?s " DST:" ?n) with (add_num s (" " +:+ "DST" +:+ ":") n);
  rewrite ?add_hex_tail, ?add_num_tail, ?add_len_tail.

Ltac same_text :=
  cbn [fields_text app tail_text]; rewrite ?tail_app; cbn [tail_text]; unfold labelled_text; cbn [fst snd field_text];
  rewrite ?str_app_assoc; cbn [String.append]; rewrite ?str_app_nil_r; try reflexivity.

Lemma CR_rendered c : CR_String (Some c) = render "CR" (Some (CR_summary c)).
Proof. unfold CR_String, render, CR_summary, count. labels. same_text. Qed.

Lemma CC_rendered c : CC_String (Some c) = render "CC" (Some (CC_summary c)).
Proof. unfold CC_String, render, CC_summary, count. labels. same_text. Qed.

Lemma ED_rendered e : ED_String (Some e) = render "ED" (summary (T_ED (Some e))).
Proof.
  unfold ED_String, render, summary, count, num_field, len_field. cbn [fmap option_fmap option_map].
  destruct (ED_DestinationRef e), (ED_TPDUNR e), (0 <? _); same_text.
Qed.

Lemma text_rendered t : tpdu_String t = render (TPDUType_String (tpdu_type t)) (summary t).
Proof.
  destruct t as [[x|]|[x|]|[x|]|[x|]|[x|]|[x|]|[x|]|[x|]|[x|]|[x|]]; try reflexivity; cbn [tpdu_String].
  - apply CR_rendered.
  - apply CC_rendered.
  - unfold DT_String, render, summary, count. cbn [fmap option_fmap option_map]. labels. same_text.
  - unfold DR_String, render, summary, count. cbn [fmap option_fmap option_map]. labels. same_text.
  - unfold DC_String, render, summary, count. cbn [fmap option_fmap option_map]. labels. same_text.
  - unfold ER_String, render, summary, count. cbn [fmap option_fmap option_map]. labels. same_text.
  - apply ED_rendered.
  - unfold AK_String, render, summary, count. cbn [fmap option_fmap option_map]. labels. same_text.
  - unfold EA_String, render, summary, count. cbn [fmap option_fmap option_map]. labels. same_text.
  - unfold RJ_String, render, summary. cbn [fmap option_fmap option_map]. same_text.
Qed.

(** ** A text determines its summary

    Values and labels hold none of the punctuation, so they can be told apart. *)

Definition punctuation (c : ascii) : bool :=
  existsb (Ascii.eqb c) [" "; ":"; "{"; "}"; "("; ")"]%char.

Fixpoint clean (s : string) : bool :=
  match s with EmptyString => true | String c s => negb (punctuation c) && clean s end.

Lemma clean_cancel a c s : forall a' c' s',
  clean a = true -> clean a' = true -> punctuation c = true -> punctuation c' = true ->
  a +:+ String c s = a' +:+ String c' s' -> a = a' /\ c = c' /\ s = s'.
Proof.
  induction a as [|x a IH]; intros [|x' a'] c' s' Ha Ha' Hc Hc' H; cbn [clean String.append] in *;
    rewrite ?andb_true_iff, ?negb_true_iff in *; injection H as H1 H2; subst.
  - done.
  - destruct Ha' as [? _]. congruence.
  - destruct Ha as [? _]. congruence.
  - destruct Ha as [_ Ha], Ha' as [_ Ha']. by destruct (IH a' c' s' Ha Ha' Hc Hc' H2) as (-> & -> & ->).
Qed.

Lemma clean_hex_digit n : punctuation (hex_digit n) = false.
Proof. unfold hex_digit. by repeat case_match. Qed.

Lemma clean_fmt_x b : clean (fmt_x b) = true.
Proof. induction b as [|x b IH]; [done|]. cbn [fmt_x clean]. by rewrite !clean_hex_digit, IH. Qed.

Lemma clean_go x s : clean s = true -> clean (pretty_N_go x s) = true.
Proof.
  revert s. induction (N.lt_wf_0 x) as [x _ IH]; intros s Hs. destruct (decide (0 < x)%N) as [H|H].
  - rewrite pretty_N_go_step by done. apply IH; [by apply N.div_lt|]. cbn [clean]. rewrite Hs, andb_true_r.
    unfold pretty_N_char. by repeat case_match.
  - replace x with 0%N by lia. done.
Qed.

Lemma clean_fmt_d n : clean (fmt_d n) = true.
Proof.
  assert (forall x : N, clean (pretty x) = true) as H.
  { intros x. unfold pretty, pretty_N. destruct (decide _); [done|]. by apply clean_go. }
  destruct n as [|n|n]; [done|apply (H (N.pos n))|]. exact (H (N.pos n)).
Qed.

Lemma clean_field f : clean (field_text f) = true.
Proof. destruct f as [n|b|[]]; [apply clean_fmt_d|apply clean_fmt_x|done|done]. Qed.

Definition hex_value (c : ascii) : Z :=
  let n := Z.of_N (N_of_ascii c) in if n <? 58 then n - 48 else n - 87.

Lemma hex_digit_value n : 0 <= n < 16 -> hex_value (hex_digit n) = n.
Proof.
  intros H. assert (Forall (fun n => hex_value (hex_digit n) = n) (seqZ 0 16)) as Hall by decide_now.
  rewrite Forall_forall in Hall. apply Hall, elem_of_seqZ. lia.
Qed.

Lemma hex_digit_inj x y : 0 <= x < 16 -> 0 <= y < 16 -> hex_digit x = hex_digit y -> x = y.
Proof. intros Hx Hy H. rewrite <- (hex_digit_value x Hx), H. by apply hex_digit_value. Qed.

Lemma fmt_x_inj b b' : bytes_ok b -> bytes_ok b' -> fmt_x b = fmt_x b' -> b = b'.
Proof.
  intros Hb. revert b'. induction Hb as [|x b Hx Hb IH]; intros [|y b'] Hb' H; try done.
  apply Forall_cons in Hb' as [Hy Hb']. cbn [fmt_x] in H. injection H as H1 H2 H3. f_equal; [|by apply IH].
  unfold is_u8 in *. rewrite (Z.div_mod x 16), (Z.div_mod y 16) by lia.
  rewrite (hex_digit_inj (x / 16) (y / 16)), (hex_digit_inj (x mod 16) (y mod 16)); try done;
    try (apply Z.mod_pos_bound; lia); split; try (apply Z.div_pos; lia); apply Z.div_lt_upper_bound; lia.
Qed.

(** Labels tell the kinds of values apart. *)
Definition is_hex (l : string) : bool := String.eqb l "calling" || String.eqb l "called".
Definition is_flag (l : string) : bool := String.eqb l "EOT".

Definition fits (f : labelled) : Prop :=
  clean f.1 = true /\
  match f.2 with
  | Num _ => is_hex f.1 = false /\ is_flag f.1 = false
  | Hex b => is_hex f.1 = true /\ is_flag f.1 = false /\ bytes_ok b
  | Flag _ => is_hex f.1 = false /\ is_flag f.1 = true
  end.

Lemma fits_inj l v v' : fits (l, v) -> fits (l, v') -> field_text v = field_text v' -> v = v'.
Proof.
  intros [_ H] [_ H'] Ht. cbn [fst snd] in *. destruct v as [n|b|b], v' as [n'|b'|b']; cbn [field_text] in Ht;
    repeat match goal with H : _ /\ _ |- _ => destruct H end; try congruence; f_equal.
  - by apply (inj pretty) in Ht.
  - by apply fmt_x_inj.
  - by destruct b, b'.
Qed.

Lemma tail_end fs : exists c s, tail_text fs +:+ "}" = String c s /\ punctuation c = true.
Proof. destruct fs as [|f fs]; cbn; by eexists _, _. Qed.

(** One labelled value and what follows. *)
Lemma labelled_cancel f g fs gs :
  fits f -> fits g -> labelled_text f +:+ tail_text fs +:+ "}" = labelled_text g +:+ tail_text gs +:+ "}" ->
  f = g /\ tail_text fs +:+ "}" = tail_text gs +:+ "}".
Proof.
  destruct f as [l v], g as [l' v']. intros Hf Hg H. unfold labelled_text in H. cbn [fst snd] in H.
  rewrite !str_app_assoc in H. change (":" +:+ ?s) with (String ":" s) in H.
  pose proof Hf as [Hl _]. pose proof Hg as [Hl' _].
  apply clean_cancel in H as (-> & _ & H); [|done..].
  destruct (tail_end fs) as (c & s & Hs & Hc), (tail_end gs) as (c' & s' & Hs' & Hc'). rewrite Hs, Hs' in *.
  apply clean_cancel in H as (Hv & -> & ->); [|by apply clean_field..|done|done].
  by rewrite (fits_inj l' v v').
Qed.

Lemma tail_inj fs : forall gs, Forall fits fs -> Forall fits gs ->
  tail_text fs +:+ "}" = tail_text gs +:+ "}" -> fs = gs.
Proof.
  induction fs as [|f fs IH]; intros [|g gs] Hf Hg H; try done.
  apply Forall_cons in Hf as [Hf Hfs]. apply Forall_cons in Hg as [Hg Hgs].
  cbn [tail_text] in H. rewrite !str_app_assoc in H. apply (inj (String.append " ")) in H.
  apply labelled_cancel in H as [-> H]; [|done..]. f_equal. by apply IH.
Qed.

Lemma fields_inj fs gs : Forall fits fs -> Forall fits gs ->
  fields_text fs +:+ "}" = fields_text gs +:+ "}" -> fs = gs.
Proof.
  intros Hf Hg H.
  assert (forall f fs', fits f -> fields_text (f :: fs') +:+ "}" = "}" -> False) as Hno.
  { intros [l v] fs' [Hl _] E. cbn [fields_text] in E. unfold labelled_text in E. cbn [fst snd] in *.
    rewrite !str_app_assoc in E. destruct l as [|x l]; [done|].
    injection E as -> _. done. }
  destruct fs as [|f fs], gs as [|g gs]; [done| | |].
  - apply Forall_cons in Hg as [Hg _]. exfalso. by eapply Hno.
  - apply Forall_cons in Hf as [Hf _]. exfalso. by eapply Hno.
  - apply Forall_cons in Hf as [Hf Hfs]. apply Forall_cons in Hg as [Hg Hgs]. cbn [fields_text] in H.
    rewrite !str_app_assoc in H. apply labelled_cancel in H as [-> H]; [|done..]. f_equal. by apply tail_inj.
Qed.

Lemma render_inj name name' fs fs' :
  clean name = true -> clean name' = true ->
  (forall l, fs = Some l -> Forall fits l) -> (forall l, fs' = Some l -> Forall fits l) ->
  render name fs = render name' fs' -> name = name' /\ fs = fs'.
Proof.
  intros Hn Hn' Hf Hf' H.
  assert (forall l, exists c s, render name l = name +:+ String c s /\ render name' l = name' +:+ String c s /\
    punctuation c = true /\ (c = "{"%char <-> l <> None)) as Hr.
  { intros [l|]; eexists _, _; split_and!; try reflexivity; done. }
  destruct (Hr fs) as (c & s & E & _ & Hc & Hl), (Hr fs') as (c' & s' & E1 & E' & Hc' & Hl').
  rewrite E, E' in H. apply clean_cancel in H as (-> & -> & ->); [|done..]. split; [done|].
  destruct fs as [fs|], fs' as [fs'|]; try tauto.
  - f_equal. apply fields_inj; auto. rewrite <- E1 in E. cbn [render] in E.
    apply (inj (String.append name')) in E. by apply (inj (String.append "{")) in E.
  - exfalso. destruct Hl as [_ Hl], Hl' as [Hl' _]. by apply Hl'; [apply Hl|].
  - exfalso. destruct Hl as [Hl _], Hl' as [_ Hl']. by apply Hl; [apply Hl'|].
Qed.

(** ** The summaries of TPDUs *)

Definition opt_all {A} (P : A -> Prop) (o : option A) : Prop := forall x, o = Some x -> P x.

Definition tpdu_typed (t : tpdu) : Prop :=
  match t with
  | T_CR c => opt_all CR_typed c | T_CC c => opt_all CC_typed c | T_DT d => opt_all DT_typed d
  | T_DR d => opt_all DR_typed d | T_DC d => opt_all DC_typed d | T_ER e => opt_all ER_typed e
  | T_ED e => opt_all ED_typed e | T_AK a => opt_all AK_typed a | T_EA e => opt_all EA_typed e
  | T_RJ r => opt_all RJ_typed r
  end.

Lemma truncHex_ok b : bytes_ok b -> bytes_ok (truncHex b).
Proof. unfold truncHex. destruct (_ <=? _); [done|]. apply Forall_take. Qed.

Lemma fits_hex l b : clean l = true -> is_hex l = true -> is_flag l = false -> goslice_ok b -> Forall fits (hex_field l b).
Proof.
  intros Hl Hh Hf Hb. destruct b as [b|]; [|constructor]. apply Forall_singleton. split; [done|].
  split_and!; try done. by apply truncHex_ok.
Qed.

Lemma fits_num l n : clean l = true -> is_hex l = false -> is_flag l = false -> Forall fits (num_field l n).
Proof. intros. destruct n; [|constructor]. by apply Forall_singleton. Qed.

Lemma fits_len l n : clean l = true -> is_hex l = false -> is_flag l = false -> Forall fits (len_field l n).
Proof. intros. unfold len_field. destruct (0 <? n); [|constructor]. by apply Forall_singleton. Qed.

Ltac fits_all :=
  repeat first [apply Forall_app; split | apply Forall_cons; split | apply Forall_nil; exact I
               | by apply fits_num | by apply fits_len | by apply fits_hex | by split_and!].

Lemma summary_fits t l : tpdu_typed t -> summary t = Some l -> Forall fits l.
Proof.
  intros Ht H. destruct t as [[x|]|[x|]|[x|]|[x|]|[x|]|[x|]|[x|]|[x|]|[x|]|[x|]]; cbn in H; try done;
    injection H as <-; pose proof (Ht x eq_refl) as Hx.
  1,2: destruct Hx as (_ & _ & _ & _ & _ & H1 & H2 & _).
  all: by fits_all.
Qed.

Lemma type_name_clean t : clean (TPDUType_String (tpdu_type t)) = true.
Proof. by destruct t. Qed.

Lemma type_name_inj t t' :
  TPDUType_String (tpdu_type t) = TPDUType_String (tpdu_type t') -> tpdu_type t = tpdu_type t'.
Proof. by destruct t, t'. Qed.

(** ** Length *)

Lemma go_length x : forall k s, (x < 10 ^ N.of_nat k)%N ->
  (String.length (pretty_N_go x s) <= k + String.length s)%nat.
Proof.
  induction (N.lt_wf_0 x) as [x _ IH]; intros k s Hk. destruct (decide (0 < x)%N) as [H|H].
  - rewrite pretty_N_go_step by done. destruct k as [|k]; [cbn in Hk; lia|].
    etrans; [apply (IH (x `div` 10)%N) with (k := k)|cbn [String.length]; lia]; [by apply N.div_lt|].
    apply N.Div0.div_lt_upper_bound. rewrite Nat2N.inj_succ, N.pow_succ_r' in Hk. lia.
  - replace x with 0%N by lia. rewrite pretty_N_go_0. lia.
Qed.

Lemma fmt_d_length n k : (0 < k)%nat -> 0 <= n < 10 ^ Z.of_nat k -> (String.length (fmt_d n) <= k)%nat.
Proof.
  intros Hk [H0 Hn]. destruct n as [|n|n]; [cbn; lia| |lia].
  change (fmt_d (Z.pos n)) with (pretty (N.pos n)). unfold pretty, pretty_N. destruct (decide _); [done|].
  etrans; [apply (go_length _ k)|cbn; lia]. apply N2Z.inj_lt. rewrite N2Z.inj_pow, nat_N_Z. cbn in *. lia.
Qed.

Lemma fmt_x_length b : String.length (fmt_x b) = (2 * length b)%nat.
Proof. induction b as [|x b IH]; [done|]. cbn [fmt_x String.length length]. rewrite IH. lia. Qed.

Lemma truncHex_length b : (length (truncHex b) <= 8)%nat.
Proof.
  unfold truncHex, maxBytesInString, len. destruct (Z.of_nat (length b) <=? 8) eqn:E; breflect; [lia|].
  rewrite length_take. lia.
Qed.

(** [k] characters are enough for the fields. *)
Definition room (fs : list labelled) (k : nat) : Prop := (String.length (tail_text fs) <= k)%nat.

Lemma room_app fs gs k1 k2 : room fs k1 -> room gs k2 -> room (fs ++ gs) (k1 + k2).
Proof. unfold room. rewrite tail_app, str_length_app. lia. Qed.

Lemma room_cons f gs k1 k2 : room [f] k1 -> room gs k2 -> room (f :: gs) (k1 + k2).
Proof. apply (room_app [f] gs). Qed.

Lemma room_one l v k : (String.length (field_text v) <= k)%nat -> room [(l, v)] (String.length l + 2 + k).
Proof. unfold room. rewrite tail_one, !str_length_app. cbn [String.length]. lia. Qed.

Lemma room_num l n k : (0 < k)%nat -> 0 <= n < 10 ^ Z.of_nat k -> room [(l, Num n)] (String.length l + 2 + k).
Proof. intros. apply room_one. by apply fmt_d_length. Qed.

Lemma room_u8 l n : is_u8 n -> room [(l, Num n)] (String.length l + 5).
Proof. unfold is_u8. intros. eapply Nat.le_trans; [apply (room_num l n 3); [lia|cbn; lia]|lia]. Qed.

Lemma room_u16 l n : is_u16 n -> room [(l, Num n)] (String.length l + 7).
Proof. unfold is_u16. intros. eapply Nat.le_trans; [apply (room_num l n 5); [lia|cbn; lia]|lia]. Qed.

Definition fits_int (n : Z) : Prop := 0 <= n < 2 ^ 63.

Lemma room_int l n : fits_int n -> room [(l, Num n)] (String.length l + 21).
Proof. unfold fits_int. intros. eapply Nat.le_trans; [apply (room_num l n 19); [lia|cbn; lia]|lia]. Qed.

Lemma room_len l n : fits_int n -> room (len_field l n) (String.length l + 21).
Proof. intros. unfold len_field. destruct (0 <? n); [by apply room_int|]. unfold room. cbn. lia. Qed.

Lemma room_opt8 l n : opt_typed is_u8 n -> room (num_field l n) (String.length l + 5).
Proof. destruct n; [apply room_u8|]. unfold room. cbn. lia. Qed.

Lemma room_opt16 l n : opt_typed is_u16 n -> room (num_field l n) (String.length l + 7).
Proof. destruct n; [apply room_u16|]. unfold room. cbn. lia. Qed.

Lemma room_opt32 l n : opt_typed is_u32 n -> room (num_field l n) (String.length l + 12).
Proof.
  destruct n as [n|]; [|unfold room; cbn; lia]. unfold opt_typed, is_u32. intros.
  eapply Nat.le_trans; [apply (room_num l n 10); [lia|cbn; lia]|lia].
Qed.

Lemma room_hex l b : room (hex_field l b) (String.length l + 18).
Proof.
  destruct b as [b|]; [|unfold room; cbn; lia].
  eapply Nat.le_trans; [apply (room_one l _ 16)|lia]. cbn [field_text]. rewrite fmt_x_length.
  pose proof (truncHex_length b). lia.
Qed.

Lemma room_flag l b : room [(l, Flag b)] (String.length l + 7).
Proof. eapply Nat.le_trans; [apply (room_one l _ 5)|lia]. by destruct b; cbn; lia. Qed.

Ltac rooms :=
  lazymatch goal with
  | |- room (_ ++ _) _ => eapply room_app; rooms
  | |- room [(_, Num _)] _ =>
      first [apply room_u8; assumption | apply room_u16; assumption | apply room_int; assumption]
  | |- room [(_, Flag _)] _ => apply room_flag
  | |- room (_ :: _) _ => eapply room_cons; rooms
  | |- room (hex_field _ _) _ => apply room_hex
  | |- room (len_field _ _) _ => apply room_len; assumption
  | |- room (num_field _ _) _ =>
      first [apply room_opt8; assumption | apply room_opt16; assumption | apply room_opt32; assumption]
  end.

Lemma render_length name fs k :
  room fs k -> (String.length name + Nat.max k 1 + 1 <= 171)%nat -> (String.length (render name (Some fs)) <= 171)%nat.
Proof.
  unfold room. intros Hk Hle. cbn [render]. rewrite !str_length_app. cbn [String.length].
  enough (String.length (fields_text fs) <= Nat.max (String.length (tail_text fs)) 1 - 1)%nat by lia.
  destruct fs as [|f fs]; [cbn; lia|]. cbn [fields_text tail_text]. rewrite !str_length_app. cbn [String.length]. lia.
Qed.

(** What [len] of the parameters and of the user data is. *)
Definition tpdu_lengths (t : tpdu) : list Z :=
  match t with
  | T_CR (Some c) => [count (CR_Parameters c); slen (CR_UserData c)]
  | T_CC (Some c) => [count (CC_Parameters c); slen (CC_UserData c)]
  | T_DT (Some d) => [count (DT_Parameters d); slen (DT_UserData d)]
  | T_DR (Some d) => [count (DR_Parameters d); slen (DR_UserData d)]
  | T_DC (Some d) => [count (DC_Parameters d)]
  | T_ER (Some e) => [count (ER_Parameters e)]
  | T_ED (Some e) => [count (ED_Parameters e); slen (ED_UserData e)]
  | T_AK (Some a) => [count (AK_Parameters a)]
  | T_EA (Some e) => [count (EA_Parameters e)]
  | _ => []
  end.

Lemma text_length t : tpdu_typed t -> Forall fits_int (tpdu_lengths t) -> (String.length (tpdu_String t) <= 171)%nat.
Proof.
  intros Ht Hl. destruct t as [[x|]|[x|]|[x|]|[x|]|[x|]|[x|]|[x|]|[x|]|[x|]|[x|]];
    try (apply leb_complete; vm_compute; reflexivity);
    rewrite text_rendered; pose proof (Ht x eq_refl) as Hx; cbn [tpdu_lengths] in Hl;
    repeat match goal with H : Forall _ (_ :: _) |- _ => apply Forall_cons in H as [? ?] end;
    unfold CR_typed, CC_typed, DT_typed, DR_typed, DC_typed, ER_typed, ED_typed, AK_typed, EA_typed, RJ_typed in Hx;
    destruct_and? Hx; cbn [summary fmap option_fmap option_map app]; unfold CR_summary, CC_summary; cbn [app];
    (eapply render_length; [rooms|apply leb_complete; vm_compute; reflexivity]).
Qed.

(** ** Properties *)

(** A debug text can be read back.  Two TPDUs with the same text are of the
    same type and agree on everything the text shows: each fixed field, the first
    eight octets of each selector, whether an optional field is there and its
    value, the number of parameters and of user octets.  The text of a nil
    pointer is that of no TPDU. *)
Theorem text_determines_summary t t' :
  tpdu_typed t -> tpdu_typed t' -> tpdu_String t = tpdu_String t' ->
  tpdu_type t = tpdu_type t' /\ summary t = summary t'.
Proof.
  intros Ht Ht' H. rewrite !text_rendered in H.
  apply render_inj in H as [Hn Hs]; [|apply type_name_clean..|intros l; by apply summary_fits|intros l; by apply summary_fits].
  split; [by apply type_name_inj|done].
Qed.

Definition sample_CR : CR := mkCR 0 0 7 0 [] (Some [1; 171]) None (Some 12) None (Some [1; 2]).

(** The same text for other user data of the same length. *)
Definition sample_DT (ud : bytes) : DT := mkDT true None (Some 9) [] (Some ud).

Lemma text_determines_summary_witness :
  TypeDT = TypeDT /\ summary (T_DT (Some (sample_DT [1; 2]))) = summary (T_DT (Some (sample_DT [3; 4]))).
Proof.
  apply (text_determines_summary (T_DT (Some (sample_DT [1; 2]))) (T_DT (Some (sample_DT [3; 4]))));
    [intros ? [= <-]; decide_now|intros ? [= <-]; decide_now|reflexivity].
Defined.

(** A debug text is short, whatever was received: at most 171 characters for
    any TPDU, since selectors are cut at eight octets and parameters and user
    data are only counted. *)
Theorem text_bounded t :
  tpdu_typed t -> Forall fits_int (tpdu_lengths t) ->
  (1 <= String.length (tpdu_String t) <= 171)%nat.
Proof.
  intros Ht Hl. split; [|by apply text_length].
  rewrite text_rendered. destruct (summary t); cbn [render]; rewrite !str_length_app; cbn [String.length]; lia.
Qed.

Lemma text_bounded_witness :
  (1 <= String.length (tpdu_String (T_CR (Some sample_CR))) <= 171)%nat.
Proof.
  apply (text_bounded (T_CR (Some sample_CR))); [intros ? [= <-]; decide_now|].
  repeat constructor; vm_compute; congruence.
Defined.
