(* ===== verification/ErrorText.v ===== *)
(** * Texts and unwrapping of errors: errors.go, conn_errors.go

    The [Error] methods write the text of an error, the [Unwrap] methods give what
    [errors.Is] goes on with.  Errors.v has the tree and the walk; here are the
    methods themselves, nil receivers included, and the walk is shown to be the one
    of the standard library over them. *)

From stdpp Require Import pretty.
From S2P Require Import Prelude Errors Types Text.

(** ** Error *)

Definition sentinel_Error (s : sentinel) : string :=
  match s with
  | ErrTooShort => "cotp: buffer too short"
  | ErrInvalidLI => "cotp: invalid length indicator"
  | ErrLengthMismatch => "cotp: length mismatch"
  | ErrUnknownTPDUType => "cotp: unknown TPDU type"
  | ErrInvalidTPDUCode => "cotp: invalid TPDU code"
  | ErrReservedTPDU => "cotp: reserved TPDU type"
  | ErrMalformedParameter => "cotp: malformed parameter"
  | ErrUnexpectedParameterLength => "cotp: unexpected parameter length"
  | ErrUnsupportedTPDU => "cotp: unsupported TPDU type"
  | ErrUnsupportedDTVariant => "cotp: unsupported DT variant"
  | ErrInvalidClassOption => "cotp: invalid class option"
  | ErrDuplicateKnownParameter => "cotp: duplicate known parameter"
  | ErrInvalidEDUserDataLength => "cotp: invalid ED user data length"
  | ErrNilReceiver => "cotp: nil receiver"
  | ErrMissingRequiredField => "cotp: missing required field"
  | ErrInvalidConfig => "cotp: invalid configuration"
  | ErrHandshake => "cotp: handshake failed"
  | ErrEmptyTSDU => "cotp: empty TSDU"
  | ErrTSDUTooLarge => "cotp: TSDU exceeds configured maximum"
  | ErrClosed => "cotp: connection closed"
  | ErrDisconnected => "cotp: peer disconnected"
  | ErrConnectionRefused => "cotp: connection refused"
  | ErrUnexpectedTPDU => "cotp: unexpected TPDU"
  | ErrIncompleteTSDU => "cotp: incomplete TSDU"
  end.

(** The receivers are pointers: [None] is nil. *)
Definition RejectionError_Error (e : option (Z * goslice)) : string :=
  match e with
  | None => "cotp: connection refused"
  | Some (reason, _) => "cotp: connection refused (reason " +:+ fmt_d reason +:+ ")"
  end.

Definition UnexpectedTPDUError_Error (e : option (Z * ConnectionPhase)) : string :=
  match e with
  | None => "cotp: unexpected TPDU"
  | Some (ty, ph) =>
      let phase := if bool_decide (ph = PhaseDataTransfer) then "data transfer" else "handshake" in
      "cotp: unexpected " +:+ TPDUType_String ty +:+ " during " +:+ phase
  end.

(** [text] is the [Error] method of the cause. *)
Definition DisconnectError_Error (text : error -> string) (e : option (option error)) : string :=
  match e with
  | None | Some None => sentinel_Error ErrDisconnected
  | Some (Some cause) => sentinel_Error ErrDisconnected +:+ ": " +:+ text cause
  end.

(** ** Unwrap *)

Definition RejectionError_Unwrap (e : option (Z * goslice)) : error := ErrConnectionRefused.

Definition UnexpectedTPDUError_Unwrap (e : option (Z * ConnectionPhase)) : error := ErrUnexpectedTPDU.

Definition DisconnectError_Unwrap (e : option (option error)) : list error :=
  match e with
  | None => [Sentinel ErrDisconnected]
  | Some None => [Sentinel ErrDisconnected]
  | Some (Some cause) => [Sentinel ErrDisconnected; cause]
  end.

(** What an error unwraps to; those of fmt and errors give their operands. *)
Definition Unwrap (e : error) : list error :=
  match e with
  | Sentinel _ | Foreign _ _ => []
  | Errorf _ es | Join es => es
  | RejectionError reason info => [RejectionError_Unwrap (Some (reason, info))]
  | UnexpectedTPDUError ty ph => [UnexpectedTPDUError_Unwrap (Some (ty, ph))]
  | DisconnectError cause => DisconnectError_Unwrap (Some cause)
  end.

(** ** Properties *)

(** The comparison [err == target] of [errors.Is]. *)
Definition is_target (e : error) (t : target) : bool :=
  match e, t with
  | Sentinel s, TSentinel s' => bool_decide (s = s')
  | Foreign f _, TForeign f' => bool_decide (f = f')
  | _, _ => false
  end.

(** [errors_Is] compares, and else walks what the error unwraps to. *)
Lemma errors_Is_walks e t : errors_Is e t = is_target e t || existsb (fun e' => errors_Is e' t) (Unwrap e).
Proof.
  destruct e as [s|f net|fmt es|es|r i|ty ph|[c|]], t as [s'|f']; cbn -[bool_decide]; rewrite ?orb_false_r, ?orb_true_r; try done;
    by apply bool_decide_ext.
Qed.

(** Two sentinels never have the same text. *)
Lemma sentinel_Error_inj s s' : sentinel_Error s = sentinel_Error s' -> s = s'.
Proof. destruct s, s'; intros H; (reflexivity || discriminate H). Qed.

(** The text of an unexpected TPDU tells which it was, and when. *)
Lemma UnexpectedTPDUError_Error_inj ty ty' ph ph' :
  UnexpectedTPDUError_Error (Some (ty, ph)) = UnexpectedTPDUError_Error (Some (ty', ph')) ->
  TPDUType_String ty = TPDUType_String ty' /\ ph = ph'.
Proof.
  unfold UnexpectedTPDUError_Error, TPDUType_String. intros H.
  repeat (case_match; subst); destruct ph, ph'; vm_compute in H; (discriminate H || by split).
Qed.

(** A refusal says the reason of the peer. *)
Lemma closed_inj a b : a +:+ ")" = b +:+ ")" -> a = b.
Proof.
  revert b. induction a as [|x a IH]; intros [|y b] H; cbn in H; try done.
  - destruct b; discriminate H.
  - destruct a; discriminate H.
  - injection H as -> H. f_equal. by apply IH.
Qed.

Lemma RejectionError_Error_inj r r' i i' :
  RejectionError_Error (Some (r, i)) = RejectionError_Error (Some (r', i')) -> r = r'.
Proof.
  unfold RejectionError_Error. intros H. apply (inj (String.append _)), closed_inj in H. by apply (inj fmt_d).
Qed.

(** A typed error is its sentinel, also when it is wrapped. *)
Lemma typed_error_Is e s es fmt :
  match e with
  | RejectionError _ _ => s = ErrConnectionRefused
  | UnexpectedTPDUError _ _ => s = ErrUnexpectedTPDU
  | DisconnectError _ => s = ErrDisconnected
  | _ => False
  end -> e ∈ es -> errors_Is (Errorf fmt es) s = true.
Proof.
  intros He Hin. cbn [errors_Is]. apply existsb_exists. exists e. split; [by apply list_elem_of_In|].
  destruct e as [| | | |r i|ty ph|[c|]]; try done; subst s; reflexivity.
Qed.
