(* ===== verification/Wire.v ===== *)
(** * Header primitives: wire.go *)

From S2P Require Import Prelude Errors Types.

Definition ReadLI (b : bytes) : outcome Z :=
  if len b <? 1 then Err (Errorf "read LI: %w" [Sentinel ErrTooShort]) else
  let! li := index b 0 in
  if MaxLI <? li then Err (Errorf "read LI: value %d: %w" [Sentinel ErrInvalidLI]) else
  Ok li.

Definition HeaderLength (b : bytes) : outcome Z :=
  let! li := ReadLI b in
  let headerLen := 1 + li in
  if len b <? headerLen
  then Err (Errorf "header length: need %d bytes, have %d: %w" [Sentinel ErrTooShort])
  else Ok headerLen.

Definition headerBounds (b : bytes) (li fixedPartLength : Z) : outcome Z :=
  if li <? fixedPartLength
  then Err (Errorf "LI %d shorter than fixed part %d: %w" [Sentinel ErrInvalidLI]) else
  let headerLen := 1 + li in
  if len b <? headerLen
  then Err (Errorf "header length %d exceeds buffer %d: %w" [Sentinel ErrTooShort])
  else Ok headerLen.

(** The switch of [PeekType] on octet 2. *)
Definition PeekType (b : bytes) : outcome Z :=
  if len b <? MinHeaderLength then Err (Errorf "peek type: %w" [Sentinel ErrTooShort]) else
  let! _ := wrapf "peek type: %w" (ReadLI b) in
  let! code := index b 1 in
  if Z.land code 240 =? 224 then Ok TypeCR
  else if Z.land code 240 =? 208 then Ok TypeCC
  else if code =? 128 then Ok TypeDR
  else if code =? 192 then Ok TypeDC
  else if Z.land code 254 =? 240 then Ok TypeDT
  else if code =? 112 then Ok TypeER
  else if code =? 16 then Ok TypeED
  else if Z.land code 240 =? 96 then Ok TypeAK
  else if code =? 32 then Ok TypeEA
  else if Z.land code 240 =? 80 then Ok TypeRJ
  else if (code =? 0) || (code =? 48)
  then Err (Errorf "peek type: reserved code 0x%02x: %w" [Sentinel ErrReservedTPDU])
  else Err (Errorf "peek type: invalid code 0x%02x: %w" [Sentinel ErrInvalidTPDUCode]).

(** ** Facts *)

Lemma ReadLI_Ok b li :
  ReadLI b = Ok li <-> exists rest, b = li :: rest /\ li <= MaxLI.
Proof.
  split.
  - intros H. unfold ReadLI in H. go_inv H.
    injection H as ->.
    apply index_Ok_inv in E as [_ E]. destruct b as [|x rest]; [done|].
    cbn in E. injection E as ->. exists rest. split; [done|blia].
  - intros (rest & -> & Hli). unfold ReadLI. rewrite len_cons. len_pose. if_false.
    go_index. by if_false.
Qed.

Lemma ReadLI_cons li rest : li <= MaxLI -> ReadLI (li :: rest) = Ok li.
Proof. intros. apply ReadLI_Ok. eauto. Qed.

Lemma ReadLI_returns b : returns (ReadLI b).
Proof.
  unfold ReadLI. destruct (len b <? 1) eqn:?; [done|].
  apply returns_bind; [apply index_returns; blia|]. intros. by repeat split_goal.
Qed.

Lemma ReadLI_range b li : bytes_ok b -> ReadLI b = Ok li -> 0 <= li <= 254.
Proof.
  intros Hb (rest & -> & Hli)%ReadLI_Ok. apply bytes_ok_cons in Hb as [H _].
  unfold is_u8, MaxLI in *. lia.
Qed.

Lemma headerBounds_Ok b li n h :
  headerBounds b li n = Ok h <-> n <= li /\ 1 + li <= len b /\ h = 1 + li.
Proof.
  unfold headerBounds. destruct (li <? n) eqn:?; [split; [done|intros; blia]|].
  destruct (len b <? 1 + li) eqn:?; [split; [done|intros; blia]|].
  breflect. split; [intros [= <-]; lia|intros (? & ? & ->); done].
Qed.

Lemma headerBounds_returns b li n : returns (headerBounds b li n).
Proof. unfold headerBounds. by repeat split_goal. Qed.

Lemma PeekType_returns b : returns (PeekType b).
Proof.
  unfold PeekType. destruct (len b <? MinHeaderLength) eqn:?; [done|].
  unfold MinHeaderLength in *. go_returns.
  - apply ReadLI_returns.
  - apply index_returns. blia.
Qed.

#[export] Hint Resolve ReadLI_returns headerBounds_returns PeekType_returns : cotp.

(** The header octets of a classified buffer. *)
Lemma PeekType_Ok_shape b t :
  PeekType b = Ok t -> exists li code rest, b = li :: code :: rest /\ li <= MaxLI.
Proof.
  intros H. unfold PeekType in H. go_inv H.
  apply ReadLI_Ok in E as (rest & -> & Hli).
  destruct rest as [|c rest]; [by apply index_Ok_inv in E0 as [_ ?]|]. eauto.
Qed.

(** Whatever [PeekType] answers is one of the ten types, and the octet carries
    the type code it answers, up to the credit and ROA bits. *)
Definition type_matches (code t : Z) : bool :=
  if (t =? TypeCR) || (t =? TypeCC) || (t =? TypeAK) || (t =? TypeRJ)
  then Z.land code 240 =? t
  else if t =? TypeDT then Z.land code 254 =? t
  else code =? t.

(** The switch of [PeekType], as an option. *)
Definition peek_code (code : Z) : option Z :=
  if Z.land code 240 =? 224 then Some TypeCR
  else if Z.land code 240 =? 208 then Some TypeCC
  else if code =? 128 then Some TypeDR
  else if code =? 192 then Some TypeDC
  else if Z.land code 254 =? 240 then Some TypeDT
  else if code =? 112 then Some TypeER
  else if code =? 16 then Some TypeED
  else if Z.land code 240 =? 96 then Some TypeAK
  else if code =? 32 then Some TypeEA
  else if Z.land code 240 =? 80 then Some TypeRJ
  else None.

Lemma PeekType_peek_code li code rest t :
  li <= MaxLI -> PeekType (li :: code :: rest) = Ok t <-> peek_code code = Some t.
Proof.
  intros Hli. unfold PeekType, MinHeaderLength. rewrite !len_cons. len_pose. if_false.
  rewrite ReadLI_cons by done. cbn [wrapf obind]. go_index. unfold peek_code.
  repeat match goal with |- context [if ?c then _ else _] => destruct c end;
    split; congruence.
Qed.

Lemma peek_code_spec code t :
  is_u8 code -> peek_code code = Some t <-> t ∈ tpdu_types /\ type_matches code t = true.
Proof.
  intros Hc.
  assert (forallb (fun t => bool_decide (peek_code code = Some t <-> type_matches code t = true))
            tpdu_types = true) as Hall.
  { revert code Hc. apply octet_forall. vm_compute. reflexivity. }
  rewrite forallb_forall in Hall. split.
  - intros Hp. assert (t ∈ tpdu_types) as Ht.
    { unfold peek_code in Hp. unfold tpdu_types.
      repeat match type of Hp with (if ?c then _ else _) = _ => destruct c end;
        try discriminate Hp; injection Hp as <-; set_solver. }
    split; [done|]. apply list_elem_of_In in Ht. specialize (Hall t Ht).
    apply bool_decide_eq_true in Hall. by apply Hall.
  - intros [Ht Hm]. apply list_elem_of_In in Ht. specialize (Hall t Ht).
    apply bool_decide_eq_true in Hall. by apply Hall.
Qed.

Lemma PeekType_Ok li code rest t :
  is_u8 code -> li <= MaxLI ->
  PeekType (li :: code :: rest) = Ok t <-> t ∈ tpdu_types /\ type_matches code t = true.
Proof. intros. rewrite PeekType_peek_code, peek_code_spec; done. Qed.

Lemma PeekType_In b t :
  PeekType b = Ok t ->
  t = TypeCR \/ t = TypeCC \/ t = TypeDT \/ t = TypeDR \/ t = TypeDC \/ t = TypeER \/
  t = TypeED \/ t = TypeAK \/ t = TypeEA \/ t = TypeRJ.
Proof.
  intros H. destruct (PeekType_Ok_shape b t H) as (li & code & rest & -> & Hli).
  apply PeekType_peek_code in H; [|done]. unfold peek_code in H.
  repeat match type of H with (if ?c then _ else _) = _ => destruct c end;
    try discriminate H; injection H as <-; tauto.
Qed.
