(* ===== verification/PreferredMax.v ===== *)
(** * Preferred maximum TPDU size: preferred_max.go

    The 0xF0 parameter carries a number of 128-octet units in one to four
    big-endian octets. *)

From S2P Require Import Prelude Errors Types.

Definition PreferredMaxTPDULength (units : Z) : outcome Z :=
  if units =? 0
  then Err (Errorf "preferred max TPDU length: zero units: %w" [Sentinel ErrUnexpectedParameterLength])
  else Ok (units * 128).

Definition PreferredMaxTPDUUnits (length : Z) : outcome Z :=
  if length =? 0
  then Err (Errorf "preferred max TPDU units: zero length: %w" [Sentinel ErrUnexpectedParameterLength])
  else if negb (length mod 128 =? 0)
  then Err (Errorf "preferred max TPDU units: length %d not multiple of 128: %w" [Sentinel ErrUnexpectedParameterLength])
  else
  let units := length / 128 in
  if 4294967295 <? units
  then Err (Errorf "preferred max TPDU units: length %d overflows uint32 units: %w" [Sentinel ErrUnexpectedParameterLength])
  else Ok (u32 units).

(** [units = (units << 8) | uint32(b)] at 32 bits. *)
Definition units_step (units b : Z) : Z := Z.lor (u32 (Z.shiftl units 8)) b.

Definition decodePreferredMaxUnits (value : bytes) : outcome Z :=
  if (len value <? 1) || (4 <? len value)
  then Err (Errorf "preferred max TPDU size: length %d: %w" [Sentinel ErrUnexpectedParameterLength])
  else
  let units := fold_left units_step value 0 in
  if units =? 0
  then Err (Errorf "preferred max TPDU size: zero value: %w" [Sentinel ErrUnexpectedParameterLength])
  else Ok units.

(** One round of [for buf[lead] == 0 { lead++ }]. *)
Definition lead_body (buf : bytes) (lead : Z) : outcome (Z + Z) :=
  let! x := index buf lead in
  if x =? 0 then Ok (inl (lead + 1)) else Ok (inr lead).

(** The loop stops within four rounds, since some octet of [units] is not zero. *)
Definition encodePreferredMaxUnits (units : Z) : outcome bytes :=
  if units =? 0
  then Err (Errorf "preferred max TPDU size: zero units: %w" [Sentinel ErrUnexpectedParameterLength])
  else
  let buf := BigEndian_PutUint32 units in
  let! lead := iterate 5 (lead_body buf) 0 in
  slice buf lead (len buf).

(** ** The big-endian value of an octet string *)

Definition be_value (l : bytes) : Z := fold_left (fun a b => a * 256 + b) l 0.

Lemma be_fold_acc l a : fold_left (fun a b => a * 256 + b) l a = a * 256 ^ len l + be_value l.
Proof.
  unfold be_value. revert a. induction l as [|x l IH]; intros a; cbn [fold_left].
  - rewrite len_nil, Z.pow_0_r. lia.
  - rewrite IH, (IH (0 * 256 + x)), len_cons, Z.pow_add_r by (pose proof (len_nonneg l); lia). lia.
Qed.

Lemma be_value_cons x l : be_value (x :: l) = x * 256 ^ len l + be_value l.
Proof. unfold be_value at 1. cbn [fold_left]. rewrite be_fold_acc. ring. Qed.

Lemma be_value_range l : bytes_ok l -> 0 <= be_value l < 256 ^ len l.
Proof.
  induction 1 as [|x l Hx Hl IH]; [by vm_compute|].
  rewrite be_value_cons, len_cons, Z.pow_add_r by (pose proof (len_nonneg l); lia).
  unfold is_u8 in Hx. nia.
Qed.

Lemma units_step_add a b :
  0 <= a < 16777216 -> is_u8 b -> units_step a b = a * 256 + b.
Proof.
  intros Ha Hb. unfold units_step, u32. rewrite Z.mod_small.
  - apply (lor_shiftl_add a b 8); [lia|done].
  - rewrite Z.shiftl_mul_pow2 by lia. lia.
Qed.

(** At most four octets never overflow the 32-bit accumulator. *)
Lemma fold_units l a :
  bytes_ok l -> 0 <= a -> a * 256 ^ len l + 256 ^ len l <= 4294967296 ->
  fold_left units_step l a = fold_left (fun a b => a * 256 + b) l a.
Proof.
  intros Hl. revert a. induction Hl as [|x l Hx Hl IH]; intros a Ha Hb; [done|].
  cbn [fold_left]. pose proof (len_nonneg l) as Hn.
  rewrite len_cons, Z.pow_add_r in Hb by lia.
  assert (0 < 256 ^ len l) by (apply Z.pow_pos_nonneg; lia).
  unfold is_u8 in Hx. rewrite units_step_add by (unfold is_u8; nia).
  apply IH; nia.
Qed.

Lemma decode_units_value l :
  bytes_ok l -> 1 <= len l <= 4 ->
  decodePreferredMaxUnits l =
    if be_value l =? 0
    then Err (Errorf "preferred max TPDU size: zero value: %w" [Sentinel ErrUnexpectedParameterLength])
    else Ok (be_value l).
Proof.
  intros Hl Hlen. unfold decodePreferredMaxUnits.
  assert ((len l <? 1) || (4 <? len l) = false) as ->.
  { rewrite orb_false_iff, !Z.ltb_ge. lia. }
  rewrite fold_units; [done|done|lia|].
  pose proof (Z.pow_le_mono_r 256 (len l) 4). lia.
Qed.

Lemma decodePreferredMaxUnits_Ok l u :
  bytes_ok l ->
  decodePreferredMaxUnits l = Ok u <-> 1 <= len l <= 4 /\ be_value l = u /\ u <> 0.
Proof.
  intros Hl. split.
  - intros H. unfold decodePreferredMaxUnits in H. go_inv H.
    assert (1 <= len l <= 4) as Hlen by blia. split; [done|].
    pose proof (decode_units_value l Hl Hlen) as Hd.
    unfold decodePreferredMaxUnits in Hd. rewrite Heqb in Hd.
    injection H as Hu. rewrite Heqb0 in Hd.
    destruct (be_value l =? 0) eqn:?; [done|]. injection Hd as Hd. split; [congruence|blia].
  - intros (Hlen & <- & Hne). rewrite decode_units_value by done. by if_false.
Qed.

Lemma decodePreferredMaxUnits_range l u :
  bytes_ok l -> decodePreferredMaxUnits l = Ok u -> 0 < u < 4294967296.
Proof.
  intros Hl (Hlen & <- & Hne)%decodePreferredMaxUnits_Ok; [|done].
  pose proof (be_value_range l Hl). pose proof (Z.pow_le_mono_r 256 (len l) 4). lia.
Qed.

Lemma decodePreferredMaxUnits_returns l : returns (decodePreferredMaxUnits l).
Proof. unfold decodePreferredMaxUnits. by repeat split_goal. Qed.

(** ** Encoding *)

Lemma PutUint32_value u : is_u32 u -> be_value (BigEndian_PutUint32 u) = u.
Proof.
  intros Hu. unfold BigEndian_PutUint32, be_value, u8, is_u32 in *. cbn [fold_left].
  rewrite !Z.shiftr_div_pow2 by lia.
  change (2 ^ 24) with 16777216. change (2 ^ 16) with 65536. change (2 ^ 8) with 256.
  replace (u / 16777216) with (u / 256 / 256 / 256) by (rewrite !Z.div_div; done).
  replace (u / 65536) with (u / 256 / 256) by (rewrite !Z.div_div; done).
  assert (u / 256 / 256 / 256 < 256).
  { rewrite !Z.div_div by lia. apply Z.div_lt_upper_bound; lia. }
  assert (0 <= u / 256 / 256 / 256) by (rewrite !Z.div_div by lia; apply Z.div_pos; lia).
  rewrite (Z.mod_small (u / 256 / 256 / 256)) by lia.
  pose proof (Z.div_mod u 256). pose proof (Z.div_mod (u / 256) 256).
  pose proof (Z.div_mod (u / 256 / 256) 256). lia.
Qed.

Lemma PutUint32_ok u : bytes_ok (BigEndian_PutUint32 u).
Proof. repeat constructor; apply u8_range. Qed.

(** What the encoder returns: the non-zero-led suffix of the four octets. *)
Lemma encodePreferredMaxUnits_suffix u :
  is_u32 u -> u <> 0 ->
  exists z l, encodePreferredMaxUnits u = Ok l /\ BigEndian_PutUint32 u = replicate z 0 ++ l /\
    exists x l', l = x :: l' /\ x <> 0.
Proof.
  intros Hu Hne. pose proof (PutUint32_value u Hu) as Hv.
  unfold encodePreferredMaxUnits. if_false.
  unfold BigEndian_PutUint32 in *.
  set (a := u8 (Z.shiftr u 24)) in *. set (b := u8 (Z.shiftr u 16)) in *.
  set (c := u8 (Z.shiftr u 8)) in *. set (d := u8 u) in *.
  clearbody a b c d.
  cbn [iterate]. unfold lead_body at 1. go_index.
  destruct (a =? 0) eqn:Ea; [breflect; subst|exists 0%nat, [a; b; c; d]; breflect; split_and!; [reflexivity|reflexivity|eauto]].
  unfold lead_body at 1. go_index.
  destruct (b =? 0) eqn:Eb; [breflect; subst|exists 1%nat, [b; c; d]; breflect; split_and!; [reflexivity|reflexivity|eauto]].
  unfold lead_body at 1. go_index.
  destruct (c =? 0) eqn:Ec; [breflect; subst|exists 2%nat, [c; d]; breflect; split_and!; [reflexivity|reflexivity|eauto]].
  unfold lead_body at 1. go_index.
  destruct (d =? 0) eqn:Ed; [breflect; subst|exists 3%nat, [d]; breflect; split_and!; [reflexivity|reflexivity|eauto]].
  by cbn in Hne.
Qed.

Lemma be_value_zeros z l : be_value (replicate z 0 ++ l) = be_value l.
Proof. induction z as [|z IH]; [done|]. cbn [replicate app]. rewrite be_value_cons. lia. Qed.

Lemma encodePreferredMaxUnits_value u l :
  is_u32 u -> encodePreferredMaxUnits u = Ok l ->
  be_value l = u /\ 1 <= len l <= 4 /\ bytes_ok l /\ u <> 0.
Proof.
  intros Hu Hl.
  assert (u <> 0) as Hne by (intros ->; done).
  destruct (encodePreferredMaxUnits_suffix u Hu Hne) as (z & l' & Hl' & Hbuf & x & k & -> & Hx).
  rewrite Hl in Hl'. injection Hl' as ->.
  pose proof (PutUint32_value u Hu) as Hv. rewrite Hbuf, be_value_zeros in Hv.
  pose proof (PutUint32_ok u) as Hok. rewrite Hbuf in Hok. apply bytes_ok_app in Hok as [_ Hok].
  pose proof (f_equal len Hbuf) as Hlen. rewrite len_app in Hlen.
  pose proof (len_nonneg (replicate z 0)). repeat split; try done.
  - rewrite len_cons. len_lia.
  - change (len (BigEndian_PutUint32 u)) with 4 in Hlen. lia.
Qed.

Lemma encodePreferredMaxUnits_total u :
  is_u32 u -> u <> 0 -> is_Ok (encodePreferredMaxUnits u).
Proof.
  intros Hu Hne. destruct (encodePreferredMaxUnits_suffix u Hu Hne) as (z & l & Hl & _).
  by exists l.
Qed.

(** No shorter octet string, and no other one of its length, decodes to the
    same units: the encoder is canonical. *)
Lemma encode_minimal u l v :
  is_u32 u -> encodePreferredMaxUnits u = Ok l ->
  bytes_ok v -> decodePreferredMaxUnits v = Ok u -> len l <= len v.
Proof.
  intros Hu Hl Hv (Hlen & Hval & Hne)%decodePreferredMaxUnits_Ok; [|done].
  destruct (encodePreferredMaxUnits_suffix u Hu Hne) as (z & l' & Hl' & Hbuf & x & k & -> & Hx).
  rewrite Hl in Hl'. injection Hl' as ->.
  destruct (encodePreferredMaxUnits_value u _ Hu Hl) as (Hval' & _ & Hok & _).
  rewrite be_value_cons in Hval'. apply bytes_ok_cons in Hok as [Hx8 Hk].
  pose proof (be_value_range k Hk). pose proof (be_value_range v Hv).
  rewrite len_cons. destruct (Z.le_gt_cases (1 + len k) (len v)) as [?|Hgt]; [done|].
  assert (256 ^ len v <= 256 ^ len k) by (apply Z.pow_le_mono_r; lia).
  unfold is_u8 in Hx8. nia.
Qed.

(** The shortest octet string of a value: without leading zeros. *)
Fixpoint strip_zeros (l : bytes) : bytes :=
  match l with
  | [] => []
  | x :: l' => if x =? 0 then strip_zeros l' else l
  end.

Lemma strip_zeros_spec l :
  bytes_ok l -> be_value l <> 0 ->
  be_value (strip_zeros l) = be_value l /\ bytes_ok (strip_zeros l) /\
  exists x l', strip_zeros l = x :: l' /\ x <> 0.
Proof.
  induction 1 as [|x l Hx Hl IH]; [done|]. cbn [strip_zeros]. rewrite be_value_cons.
  destruct (Z.eqb_spec x 0) as [->|Hne]; intros Hv.
  - destruct IH as (IHv & ? & ?); [lia|]. by split_and!.
  - split_and!; [by rewrite be_value_cons|by apply bytes_ok_cons|by exists x, l].
Qed.

(** Octet strings of one length are told apart by their values. *)
Lemma be_value_inj a b : bytes_ok a -> bytes_ok b -> len a = len b -> be_value a = be_value b -> a = b.
Proof.
  intros Ha. revert b. induction Ha as [|x a Hx Ha IH]; intros b Hb Hlen Hv.
  - destruct b; [done|]. rewrite len_cons in Hlen. pose proof (len_nonneg b). change (len []) with 0 in Hlen. lia.
  - destruct b as [|y b]; [rewrite len_cons in Hlen; pose proof (len_nonneg a); change (len []) with 0 in Hlen; lia|].
    apply bytes_ok_cons in Hb as [Hy Hb]. rewrite !len_cons in Hlen. rewrite !be_value_cons in Hv.
    assert (len a = len b) as Hl by lia. rewrite Hl in Hv.
    pose proof (be_value_range a Ha) as Ra. pose proof (be_value_range b Hb) as Rb. rewrite Hl in Ra.
    assert (x = y) as -> by nia. f_equal. apply IH; [done|done|lia].
Qed.

Lemma led_length x l : bytes_ok (x :: l) -> x <> 0 -> 256 ^ len l <= be_value (x :: l) < 256 ^ (1 + len l).
Proof.
  intros Hok Hne. pose proof (be_value_range _ Hok) as Hr. rewrite len_cons in Hr. split; [|lia].
  apply bytes_ok_cons in Hok as [Hx Hl]. rewrite be_value_cons. pose proof (be_value_range l Hl). unfold is_u8 in Hx. nia.
Qed.

(** What the encoder makes of the value of some octets. *)
Lemma encode_strips v e :
  bytes_ok v -> is_u32 (be_value v) -> encodePreferredMaxUnits (be_value v) = Ok e -> e = strip_zeros v.
Proof.
  intros Hv Hu He. destruct (encodePreferredMaxUnits_value _ _ Hu He) as (Hval & _ & Hok & Hne).
  destruct (encodePreferredMaxUnits_suffix _ Hu Hne) as (z & l & Hl & _ & x & k & -> & Hx).
  rewrite He in Hl. injection Hl as ->.
  destruct (strip_zeros_spec v Hv Hne) as (Hsv & Hsok & y & m & Hs & Hy). rewrite Hs in *.
  apply be_value_inj; [done|done| |congruence]. rewrite !len_cons.
  pose proof (led_length x k Hok Hx) as R1. pose proof (led_length y m Hsok Hy) as R2. rewrite Hval, <- Hsv in R1.
  pose proof (len_nonneg k). pose proof (len_nonneg m).
  destruct (Z.lt_trichotomy (len k) (len m)) as [Hlt|[->|Hlt]]; [|done|].
  - pose proof (Z.pow_le_mono_r 256 (1 + len k) (len m)). lia.
  - pose proof (Z.pow_le_mono_r 256 (1 + len m) (len k)). lia.
Qed.
