(* ===== verification/Params.v ===== *)
(** * Variable part of a TPDU: params.go

    The two parsers walk a buffer of code-length-value triples; the encoders
    append them.  The theory below relates both to the octet string [tlvs ps] of
    a parameter list, so that the TPDU codecs reason about parameter lists
    only. *)

From S2P Require Import Prelude Errors Types PreferredMax.

(** crccVariableResult *)
Record crccVariableResult := mkCrcc {
  callingSelector : goslice;
  calledSelector : goslice;
  tpduSize : option Z;
  preferredMaxTPDUSize : option Z;
  parameters : list Param
}.

Definition empty_crcc : crccVariableResult := mkCrcc None None None None [].

(** ** Parsers *)

(** The [switch code] of parseCRCCVariablePart. *)
Definition crcc_switch (r : crccVariableResult) (code length : Z) (value : bytes) :
    outcome crccVariableResult :=
  if code =? ParamCallingSelector then
    Ok (mkCrcc (Some value) (calledSelector r) (tpduSize r) (preferredMaxTPDUSize r) (parameters r))
  else if code =? ParamCalledSelector then
    Ok (mkCrcc (callingSelector r) (Some value) (tpduSize r) (preferredMaxTPDUSize r) (parameters r))
  else if code =? ParamTPDUSize then
    if negb (length =? 1)
    then Err (Errorf "variable part: TPDU size length %d: %w" [Sentinel ErrUnexpectedParameterLength])
    else
    let! v := index value 0 in
    Ok (mkCrcc (callingSelector r) (calledSelector r) (Some v) (preferredMaxTPDUSize r) (parameters r))
  else if code =? ParamPreferredMaxTPDUSize then
    let! units := wrapf "variable part: %w" (decodePreferredMaxUnits value) in
    Ok (mkCrcc (callingSelector r) (calledSelector r) (tpduSize r) (Some units) (parameters r))
  else
    Ok (mkCrcc (callingSelector r) (calledSelector r) (tpduSize r) (preferredMaxTPDUSize r)
          (parameters r ++ [mkParam code (Some value)])).

(** One round of the loop of parseCRCCVariablePart; the state is [(r, pos)]. *)
Definition parseCRCC_body (b : bytes) (st : crccVariableResult * Z) :
    outcome (crccVariableResult * Z + crccVariableResult) :=
  let '(r, pos) := st in
  if pos <? len b then
    if len b <? pos + 2
    then Err (Errorf "variable part: %w" [Sentinel ErrMalformedParameter]) else
    let! code := index b pos in
    let! length := index b (pos + 1) in
    let pos := pos + 2 in
    if len b <? pos + length
    then Err (Errorf "variable part: length overrun: %w" [Sentinel ErrMalformedParameter]) else
    let! value := slice b pos (pos + length) in
    let pos := pos + length in
    let! r := crcc_switch r code length value in
    Ok (inl (r, pos))
  else Ok (inr r).

(** Every round consumes at least two octets: [length b + 1] rounds suffice. *)
Definition parseCRCCVariablePart (b : bytes) : outcome crccVariableResult :=
  iterate (S (length b)) (parseCRCC_body b) (empty_crcc, 0).

Definition parseVariable_body (b : bytes) (st : list Param * Z) :
    outcome (list Param * Z + list Param) :=
  let '(params, pos) := st in
  if pos <? len b then
    if len b <? pos + 2
    then Err (Errorf "variable part: %w" [Sentinel ErrMalformedParameter]) else
    let! code := index b pos in
    let! length := index b (pos + 1) in
    let pos := pos + 2 in
    if len b <? pos + length
    then Err (Errorf "variable part: length overrun: %w" [Sentinel ErrMalformedParameter]) else
    let! value := slice b pos (pos + length) in
    let params := params ++ [mkParam code (Some value)] in
    Ok (inl (params, pos + length))
  else Ok (inr params).

Definition parseVariablePart (b : bytes) : outcome (list Param) :=
  iterate (S (length b)) (parseVariable_body b) ([], 0).

(** ** Encoders *)

Definition appendParameter (dst : bytes) (code : Z) (value : bytes) : outcome bytes :=
  let n := len value in
  if MaxParameterValueLength <? n
  then Err (Errorf "parameter 0x%02x value length %d: %w" [Sentinel ErrUnexpectedParameterLength]) else
  let dst := dst ++ [code; u8 n] in
  Ok (dst ++ value).

(** The [range params] loop, [varPart] being the octets appended so far. *)
Fixpoint encodeVariable_range (varPart : bytes) (params : list Param) : outcome bytes :=
  match params with
  | [] => Ok varPart
  | p :: params =>
      let! varPart := appendParameter varPart (Code p) (content (Value p)) in
      encodeVariable_range varPart params
  end.

Definition encodeVariablePart (params : list Param) : outcome bytes :=
  encodeVariable_range [] params.

(** The four codes the CR/CC encoder owns. *)
Definition known_code (code : Z) : bool :=
  (code =? ParamCallingSelector) || (code =? ParamCalledSelector) ||
  (code =? ParamTPDUSize) || (code =? ParamPreferredMaxTPDUSize).

Fixpoint encodeCRCC_range (what : string) (varPart : bytes) (params : list Param) : outcome bytes :=
  match params with
  | [] => Ok varPart
  | p :: params =>
      if known_code (Code p) then encodeCRCC_range what varPart params else
      let! varPart := wrapf ("marshal " +:+ what +:+ ": %w")
                        (appendParameter varPart (Code p) (content (Value p))) in
      encodeCRCC_range what varPart params
  end.

Definition encodeCRCCVariablePart (calling called : goslice) (tpduSize preferredMax : option Z)
    (params : list Param) (what : string) : outcome bytes :=
  let varPart : bytes := [] in
  let! varPart :=
    match calling with
    | Some calling =>
        let n := len calling in
        if MaxParameterValueLength <? n
        then Err (Errorf ("marshal " +:+ what +:+ ": calling selector length %d: %w")
                    [Sentinel ErrUnexpectedParameterLength])
        else Ok ((varPart ++ [ParamCallingSelector; u8 n]) ++ calling)
    | None => Ok varPart
    end in
  let! varPart :=
    match called with
    | Some called =>
        let n := len called in
        if MaxParameterValueLength <? n
        then Err (Errorf ("marshal " +:+ what +:+ ": called selector length %d: %w")
                    [Sentinel ErrUnexpectedParameterLength])
        else Ok ((varPart ++ [ParamCalledSelector; u8 n]) ++ called)
    | None => Ok varPart
    end in
  let varPart :=
    match tpduSize with
    | Some size => varPart ++ [ParamTPDUSize; 1; size]
    | None => varPart
    end in
  let! varPart :=
    match preferredMax with
    | Some units =>
        let! enc := wrapf ("marshal " +:+ what +:+ ": %w") (encodePreferredMaxUnits units) in
        wrapf ("marshal " +:+ what +:+ ": %w") (appendParameter varPart ParamPreferredMaxTPDUSize enc)
    | None => Ok varPart
    end in
  encodeCRCC_range what varPart params.

(** ** Octets of a parameter list *)

Definition tlv (p : Param) : bytes := Code p :: slen (Value p) :: content (Value p).

Definition tlvs (ps : list Param) : bytes := flat_map tlv ps.

(** A parameter as the parsers return it: the value present, at most 255
    octets. *)
Definition parsed (p : Param) : Prop :=
  is_u8 (Code p) /\ exists v, Value p = Some v /\ len v <= 255 /\ bytes_ok v.

(** A nil value and an empty one encode alike; decoding gives the empty one. *)
Definition norm_param (p : Param) : Param := mkParam (Code p) (Some (content (Value p))).

(** A parameter the encoders accept. *)
Definition fits (p : Param) : Prop := slen (Value p) <= 255.

Lemma tlvs_cons p ps : tlvs (p :: ps) = Code p :: slen (Value p) :: content (Value p) ++ tlvs ps.
Proof. done. Qed.

Lemma tlvs_app ps qs : tlvs (ps ++ qs) = tlvs ps ++ tlvs qs.
Proof. apply flat_map_app. Qed.

Lemma tlvs_norm ps : tlvs (map norm_param ps) = tlvs ps.
Proof. induction ps as [|p ps IH]; [done|]. cbn [map]. by rewrite !tlvs_cons, IH. Qed.

Lemma len_tlv p : len (tlv p) = 2 + slen (Value p).
Proof. unfold tlv, slen. rewrite !len_cons. lia. Qed.

Lemma length_tlvs ps : (length ps <= length (tlvs ps))%nat.
Proof.
  induction ps as [|p ps IH]; [done|]. rewrite tlvs_cons. cbn. rewrite length_app. lia.
Qed.

Lemma parsed_norm p : parsed p -> norm_param p = p.
Proof. intros (_ & v & Hv & _). destruct p as [c w]. cbn in *. by subst. Qed.

Lemma map_norm_parsed ps : Forall parsed ps -> map norm_param ps = ps.
Proof.
  induction 1 as [|p ps Hp Hps IH]; [done|]. cbn [map]. by rewrite IH, parsed_norm.
Qed.

Lemma parsed_fits p : parsed p -> fits p.
Proof. intros (_ & v & Hv & Hl & _). unfold fits. by rewrite Hv. Qed.

Lemma tlvs_bytes_ok ps : Forall parsed ps -> bytes_ok (tlvs ps).
Proof.
  induction 1 as [|p ps (Hc & v & Hv & Hl & Hok) Hps IH]; [constructor|].
  rewrite tlvs_cons, Hv. apply bytes_ok_cons. split; [done|]. apply bytes_ok_cons.
  split; [unfold slen; cbn; pose proof (len_nonneg v); unfold is_u8; lia|].
  by apply bytes_ok_app.
Qed.

Lemma parsed_typed p : parsed p -> Param_typed p.
Proof. intros (? & v & Hv & _ & ?). split; [done|]. unfold goslice_ok. by rewrite Hv. Qed.

(** ** Theory of the parsing loop

    Both parsers are this loop, at different steps. *)

Definition errOverrun : error :=
  Errorf "variable part: length overrun: %w" [Sentinel ErrMalformedParameter].
Definition errTruncated : error := Errorf "variable part: %w" [Sentinel ErrMalformedParameter].

Section TlvLoop.
Context {S : Type} (step : S -> Z -> Z -> bytes -> outcome S).

Definition tlv_body (b : bytes) (st : S * Z) : outcome (S * Z + S) :=
  let '(s, pos) := st in
  if pos <? len b then
    if len b <? pos + 2 then Err errTruncated else
    let! code := index b pos in
    let! length := index b (pos + 1) in
    let pos := pos + 2 in
    if len b <? pos + length then Err errOverrun else
    let! value := slice b pos (pos + length) in
    let! s := step s code length value in
    Ok (inl (s, pos + length))
  else Ok (inr s).

(** The steps of a parameter list, in order. *)
Fixpoint fold_tlv (s : S) (ps : list Param) : outcome S :=
  match ps with
  | [] => Ok s
  | p :: ps =>
      let! s := step s (Code p) (slen (Value p)) (content (Value p)) in
      fold_tlv s ps
  end.

Lemma fold_tlv_app s ps qs :
  fold_tlv s (ps ++ qs) = obind (fold_tlv s ps) (fun s' => fold_tlv s' qs).
Proof.
  revert s. induction ps as [|p ps IH]; intros s; [done|]. cbn.
  destruct (step s _ _ _); cbn; auto.
Qed.

(** One round, on a buffer split at the current position. *)
Lemma tlv_body_nil pre s : tlv_body (pre ++ []) (s, len pre) = Ok (inr s).
Proof. unfold tlv_body. rewrite app_nil_r. by if_false. Qed.

Lemma tlv_body_one pre c s : tlv_body (pre ++ [c]) (s, len pre) = Err errTruncated.
Proof. unfold tlv_body. rewrite len_app, len_cons, len_nil. if_true. by if_true. Qed.

Lemma tlv_body_more pre c l rest s :
  0 <= l ->
  tlv_body (pre ++ c :: l :: rest) (s, len pre) =
    if len rest <? l then Err errOverrun
    else let! s' := step s c l (take (Z.to_nat l) rest) in
         Ok (inl (s', len pre + 2 + l)).
Proof.
  intros Hl. unfold tlv_body. rewrite len_app, !len_cons. len_pose. if_true. if_false.
  rewrite (index_Ok _ (len pre) c), (index_Ok _ (len pre + 1) l); [|lia| |lia|].
  2:{ unfold len. rewrite lookup_app_r by lia.
      by replace (Z.to_nat _ - length pre)%nat with 1%nat by lia. }
  2:{ unfold len. rewrite lookup_app_r by lia.
      by replace (Z.to_nat _ - length pre)%nat with 0%nat by lia. }
  cbn [obind]. destruct (len rest <? l) eqn:E; [by if_true|]. breflect. if_false.
  set (v := take (Z.to_nat l) rest).
  assert (len v = l) as Hv by (unfold v, len in *; rewrite length_take; lia).
  replace (pre ++ c :: l :: rest) with ((pre ++ [c; l]) ++ v ++ drop (Z.to_nat l) rest).
  2:{ unfold v. rewrite take_drop, <- app_assoc. done. }
  by rewrite slice_app by (rewrite ?len_app, ?len_cons, ?len_nil; lia).
Qed.

(** The loop over the octets of a parameter list is its fold. *)
Lemma tlv_loop_complete ps : Forall parsed ps ->
  forall n pre s, (length ps < n)%nat ->
  iterate n (tlv_body (pre ++ tlvs ps)) (s, len pre) = fold_tlv s ps.
Proof.
  induction 1 as [|p ps Hp Hps IH]; intros [|n] pre s Hn; try lia; cbn [iterate].
  { change (tlvs []) with (@nil Z). by rewrite tlv_body_nil. }
  destruct p as [c w]. destruct Hp as (_ & v & Hv & Hlen & _). cbn in Hv. subst w.
  rewrite tlvs_cons. cbn [Code Value content fold_tlv].
  change (slen (Some v)) with (len v).
  rewrite tlv_body_more by apply len_nonneg. rewrite len_app. len_pose. if_false.
  replace (take _ (v ++ tlvs ps)) with v
    by (unfold len; by rewrite Nat2Z.id, take_app_length).
  destruct (step s c (len v) v) as [s'|e| |]; cbn [obind]; try done.
  replace (pre ++ c :: len v :: v ++ tlvs ps) with ((pre ++ c :: len v :: v) ++ tlvs ps)
    by (by rewrite <- app_assoc).
  replace (len pre + 2 + len v) with (len (pre ++ c :: len v :: v))
    by (rewrite len_app, !len_cons; lia).
  apply IH. cbn in Hn. lia.
Qed.

(** A successful run has read a parameter list to the end of the buffer. *)
Lemma tlv_loop_sound n pre suf s r :
  bytes_ok suf ->
  iterate n (tlv_body (pre ++ suf)) (s, len pre) = Ok r ->
  exists ps, suf = tlvs ps /\ Forall parsed ps.
Proof.
  revert pre suf s. induction n as [|n IH]; intros pre suf s Hok H; [done|].
  cbn [iterate] in H.
  destruct suf as [|c [|l rest]].
  - exists []. by split.
  - by rewrite tlv_body_one in H.
  - apply bytes_ok_cons in Hok as [Hc [Hl Hrest]%bytes_ok_cons].
    rewrite tlv_body_more in H by (unfold is_u8 in Hl; lia).
    destruct (len rest <? l) eqn:E; [done|]. breflect.
    set (v := take (Z.to_nat l) rest) in *.
    assert (len v = l) as Hv by (unfold is_u8, v, len in *; rewrite length_take; lia).
    destruct (step s c l v) as [s'|e| |]; try done. cbn in H.
    rewrite <- (take_drop (Z.to_nat l) rest) in H. fold v in H.
    replace (pre ++ c :: l :: v ++ drop (Z.to_nat l) rest)
      with ((pre ++ c :: l :: v) ++ drop (Z.to_nat l) rest) in H by (by rewrite <- app_assoc).
    replace (len pre + 2 + l) with (len (pre ++ c :: l :: v)) in H
      by (rewrite len_app, !len_cons; lia).
    apply IH in H as (ps & Hps & Hall); [|by apply bytes_ok_drop].
    exists (mkParam c (Some v) :: ps). split.
    + rewrite tlvs_cons, <- Hps. unfold slen. cbn. rewrite Hv. unfold v. by rewrite take_drop.
    + constructor; [|done]. split; [done|]. exists v. unfold is_u8 in Hl.
      split_and!; [done|lia|unfold v; by apply bytes_ok_take].
Qed.

(** The loop returns, and fails only as a step does or on a malformed buffer. *)
Lemma tlv_loop_returns b :
  bytes_ok b -> (forall s c l v, is_u8 c -> len v = l -> returns (step s c l v)) ->
  forall s, returns (iterate (Datatypes.S (length b)) (tlv_body b) (s, 0)).
Proof.
  intros Hb Hstep s.
  apply (iterate_returns (fun st => 0 <= snd st <= len b)
           (fun st => Z.to_nat (len b - snd st))); [| |].
  2:{ cbn. len_pose. lia. }
  2:{ cbn. unfold len. lia. }
  intros [s' pos] Hpos. cbn [snd] in *. unfold tlv_body.
  destruct (pos <? len b) eqn:E1; [|by split].
  destruct (len b <? pos + 2) eqn:E2; [by split|]. breflect.
  destruct (index_is_Ok b pos) as [c Hc]; [lia|].
  destruct (index_is_Ok b (pos + 1)) as [l Hl]; [lia|]. rewrite Hc, Hl. cbn [obind].
  apply index_ok_byte in Hl; [|done]. apply index_ok_byte in Hc; [|done]. unfold is_u8 in Hl.
  destruct (len b <? pos + 2 + l) eqn:E3; [by split|]. breflect.
  destruct (slice_is_Ok b (pos + 2) (pos + 2 + l)) as [v Ev]; [lia|lia|]. rewrite Ev.
  apply slice_length in Ev. cbn [obind].
  pose proof (Hstep s' c l v Hc ltac:(lia)) as Hr.
  destruct (step s' c l v); try done. split; [done|].
  intros st [= <-]. cbn [snd]. lia.
Qed.
End TlvLoop.

(** ** The two parsers *)

Definition param_step (params : list Param) (code _ : Z) (value : bytes) : outcome (list Param) :=
  Ok (params ++ [mkParam code (Some value)]).

Lemma parseVariablePart_loop b :
  parseVariablePart b = iterate (S (length b)) (tlv_body param_step b) ([], 0).
Proof. apply iterate_ext. by intros [ps pos]. Qed.

Lemma parseCRCC_loop b :
  parseCRCCVariablePart b = iterate (S (length b)) (tlv_body crcc_switch b) (empty_crcc, 0).
Proof. apply iterate_ext. by intros [r pos]. Qed.

Lemma fold_param_step ps qs :
  Forall parsed qs -> fold_tlv param_step ps qs = Ok (ps ++ qs).
Proof.
  intros Hqs. revert ps. induction Hqs as [|q qs Hq Hqs IH]; intros ps; cbn.
  - by rewrite app_nil_r.
  - change (mkParam (Code q) (Some (content (Value q)))) with (norm_param q).
    rewrite parsed_norm by done. by rewrite IH, <- app_assoc.
Qed.

Lemma crcc_switch_returns r c l v : len v = l -> returns (crcc_switch r c l v).
Proof.
  intros Hv. unfold crcc_switch. repeat (case_match; [done|]).
  destruct (c =? ParamTPDUSize).
  - destruct (negb (l =? 1)) eqn:E; [done|]. apply returns_bind; [|done].
    apply index_returns. blia.
  - destruct (c =? ParamPreferredMaxTPDUSize); [|done].
    apply returns_bind; [|done]. apply returns_wrapf, decodePreferredMaxUnits_returns.
Qed.

Lemma parseVariablePart_returns b : bytes_ok b -> returns (parseVariablePart b).
Proof. intros. rewrite parseVariablePart_loop. by apply tlv_loop_returns. Qed.

Lemma parseCRCC_returns b : bytes_ok b -> returns (parseCRCCVariablePart b).
Proof.
  intros. rewrite parseCRCC_loop. apply tlv_loop_returns; [done|].
  intros. by apply crcc_switch_returns.
Qed.

(** The generic parser accepts exactly the octets of parameter lists, and
    returns the list. *)
Lemma parseVariablePart_Ok b ps :
  bytes_ok b -> parseVariablePart b = Ok ps <-> b = tlvs ps /\ Forall parsed ps.
Proof.
  intros Hb. rewrite parseVariablePart_loop.
  assert (forall qs, Forall parsed qs ->
    iterate (S (length (tlvs qs))) (tlv_body param_step (tlvs qs)) ([], 0) = Ok qs) as Hqs.
  { intros qs Hqs. pose proof (length_tlvs qs).
    rewrite (tlv_loop_complete param_step qs Hqs _ [] []) by lia.
    by rewrite fold_param_step. }
  split.
  - intros H. destruct (tlv_loop_sound param_step _ [] b [] ps Hb H) as (qs & -> & Hall).
    cbn [app] in H. change (len []) with 0 in H. rewrite Hqs in H by done.
    by injection H as ->.
  - intros [-> Hall]. by apply Hqs.
Qed.

Lemma parseCRCC_fold b r :
  bytes_ok b ->
  parseCRCCVariablePart b = Ok r <->
  exists ps, b = tlvs ps /\ Forall parsed ps /\ fold_tlv crcc_switch empty_crcc ps = Ok r.
Proof.
  intros Hb. rewrite parseCRCC_loop.
  assert (forall qs, Forall parsed qs ->
    iterate (S (length (tlvs qs))) (tlv_body crcc_switch (tlvs qs)) (empty_crcc, 0)
    = fold_tlv crcc_switch empty_crcc qs) as Hqs.
  { intros qs Hqs. pose proof (length_tlvs qs).
    by rewrite (tlv_loop_complete crcc_switch qs Hqs _ [] empty_crcc) by lia. }
  split.
  - intros H. destruct (tlv_loop_sound crcc_switch _ [] b empty_crcc r Hb H) as (qs & -> & Hall).
    cbn [app] in H. change (len []) with 0 in H. rewrite Hqs in H by done. eauto.
  - intros (ps & -> & Hall & Hr). by rewrite Hqs.
Qed.

(** Every failure of the generic parser is [ErrMalformedParameter]. *)
Lemma parseVariablePart_err b e :
  parseVariablePart b = Err e -> errors_Is e ErrMalformedParameter = true.
Proof.
  apply (iterate_err (fun e => errors_Is e ErrMalformedParameter = true)).
  intros [ps pos] e'. unfold parseVariable_body.
  destruct (pos <? len b); [|done].
  destruct (len b <? pos + 2); [by intros [= <-]|].
  destruct (index b pos) as [c|e1| |] eqn:Ec; cbn [obind]; try done.
  2:{ unfold index in Ec. by repeat split_hyp Ec. }
  destruct (index b (pos + 1)) as [l|e1| |] eqn:El; cbn [obind]; try done.
  2:{ unfold index in El. by repeat split_hyp El. }
  destruct (len b <? pos + 2 + l); [by intros [= <-]|].
  destruct (slice b _ _) as [v|e1| |] eqn:Ev; cbn [obind]; try done.
  unfold slice in Ev. by repeat split_hyp Ev.
Qed.

(** ** Last value wins *)

(** The values of a code in a parameter list, in order. *)
Definition values_of (code : Z) (ps : list Param) : list bytes :=
  omap (fun p => if Code p =? code then Some (content (Value p)) else None) ps.

(** The last parameter of a code decides. *)
Definition last_value (code : Z) (ps : list Param) : goslice := last (values_of code ps).

Definition unknown_params (ps : list Param) : list Param :=
  List.filter (fun p => negb (known_code (Code p))) ps.

(** What the CR/CC parser makes of a parameter list. *)
Definition crcc_of (ps : list Param) : crccVariableResult :=
  mkCrcc (last_value ParamCallingSelector ps) (last_value ParamCalledSelector ps)
    (option_map (fun v => List.hd 0 v) (last_value ParamTPDUSize ps))
    (option_map be_value (last_value ParamPreferredMaxTPDUSize ps))
    (unknown_params ps).

(** The length rules of the two size parameters. *)
Definition sizes_ok (p : Param) : Prop :=
  (Code p = ParamTPDUSize -> slen (Value p) = 1) /\
  (Code p = ParamPreferredMaxTPDUSize ->
     1 <= slen (Value p) <= 4 /\ be_value (content (Value p)) <> 0).

Lemma last_value_snoc code ps p :
  last_value code (ps ++ [p]) =
    if Code p =? code then Some (content (Value p)) else last_value code ps.
Proof.
  unfold last_value, values_of. rewrite omap_app. cbn.
  destruct (Code p =? code); cbn; [by rewrite last_snoc|by rewrite app_nil_r].
Qed.

Lemma unknown_params_snoc ps p :
  unknown_params (ps ++ [p]) =
    if known_code (Code p) then unknown_params ps else unknown_params ps ++ [p].
Proof.
  unfold unknown_params. rewrite List.filter_app. cbn.
  destruct (known_code (Code p)); cbn; by rewrite ?app_nil_r.
Qed.

Lemma crcc_switch_of ps p r :
  parsed p ->
  crcc_switch (crcc_of ps) (Code p) (slen (Value p)) (content (Value p)) = Ok r <->
  sizes_ok p /\ r = crcc_of (ps ++ [p]).
Proof.
  intros Hp. destruct p as [c w]. destruct Hp as (Hc & v & Hv & Hlen & Hok). cbn in Hv. subst w.
  unfold crcc_of, sizes_ok, crcc_switch. rewrite !last_value_snoc, unknown_params_snoc.
  unfold known_code. cbn [Code Value content]. change (slen (Some v)) with (len v).
  unfold ParamCallingSelector, ParamCalledSelector, ParamTPDUSize, ParamPreferredMaxTPDUSize in *.
  destruct (Z.eqb_spec c 193) as [->|]; [cbn; naive_solver lia|].
  destruct (Z.eqb_spec c 194) as [->|]; [cbn; naive_solver lia|].
  destruct (Z.eqb_spec c 192) as [->|].
  { destruct (Z.eqb_spec (len v) 1) as [Hv|Hv]; cbn [negb]; [|naive_solver lia].
    destruct v as [|x [|]]; [done| |rewrite !len_cons in Hv; len_lia].
    go_index. cbn. naive_solver lia. }
  destruct (Z.eqb_spec c 240) as [->|]; [|cbn; naive_solver lia].
  rewrite obind_Ok. setoid_rewrite wrapf_Ok.
  setoid_rewrite (decodePreferredMaxUnits_Ok v); [|done]. cbn. naive_solver lia.
Qed.

Lemma fold_crcc ps r :
  Forall parsed ps ->
  fold_tlv crcc_switch empty_crcc ps = Ok r <-> Forall sizes_ok ps /\ r = crcc_of ps.
Proof.
  intros Hps. revert r. induction ps as [|p ps IH] using rev_ind; intros r.
  { cbn. split; [intros [= <-]; by split|by intros [_ ->]]. }
  apply Forall_app in Hps as [Hps [Hp _]%Forall_cons].
  rewrite fold_tlv_app, obind_Ok, Forall_app, Forall_singleton. cbn [fold_tlv].
  setoid_rewrite (IH Hps). split.
  - intros (r' & [Hall ->] & H). rewrite obind_Ok in H. destruct H as (r'' & H & [= ->]).
    apply crcc_switch_of in H as [? ->]; done.
  - intros [[Hall Hsz] ->]. exists (crcc_of ps). split; [done|].
    rewrite obind_Ok. eexists. split; [|done]. by apply crcc_switch_of.
Qed.

(** The CR/CC parser accepts exactly the octets of parameter lists whose size
    parameters have legal lengths, and keeps the last value of each known
    code and every unknown parameter in order. *)
Lemma parseCRCC_Ok b r :
  bytes_ok b ->
  parseCRCCVariablePart b = Ok r <->
  exists ps, b = tlvs ps /\ Forall parsed ps /\ Forall sizes_ok ps /\ r = crcc_of ps.
Proof.
  intros Hb. rewrite parseCRCC_fold by done. split; intros (ps & -> & Hall & H);
    exists ps; [apply fold_crcc in H|rewrite fold_crcc]; naive_solver.
Qed.

(** ** The encoders *)

Lemma appendParameter_Ok dst code value v :
  appendParameter dst code value = Ok v <->
  len value <= 255 /\ v = dst ++ tlv (mkParam code (Some value)).
Proof.
  unfold appendParameter, MaxParameterValueLength, tlv. cbn [Code Value content].
  change (slen (Some value)) with (len value).
  destruct (255 <? len value) eqn:E; breflect; [split; [done|lia]|].
  rewrite u8_id by (pose proof (len_nonneg value); unfold is_u8; lia).
  rewrite <- app_assoc. split; [intros [= <-]|intros [_ ->]]; by try split.
Qed.

Lemma encodeVariable_range_Ok dst ps v :
  encodeVariable_range dst ps = Ok v <-> Forall fits ps /\ v = dst ++ tlvs ps.
Proof.
  revert dst. induction ps as [|p ps IH]; intros dst; cbn [encodeVariable_range].
  - cbn. rewrite app_nil_r. split; [intros [= <-]; by split|by intros [_ ->]].
  - rewrite obind_Ok, Forall_cons. setoid_rewrite appendParameter_Ok. setoid_rewrite IH.
    unfold fits at 2. unfold slen.
    rewrite tlvs_cons. split.
    + intros (w & [Hl ->] & Hps & ->). split_and!; [done|done|]. by rewrite <- app_assoc.
    + intros [[Hl Hps] ->]. eexists. split; [split; [done|reflexivity]|]. split; [done|].
      by rewrite <- app_assoc.
Qed.

(** The generic encoder succeeds exactly when every value fits its one-octet
    length, and emits the parameters in order. *)
Lemma encodeVariablePart_Ok ps v :
  encodeVariablePart ps = Ok v <-> Forall fits ps /\ v = tlvs ps.
Proof. apply encodeVariable_range_Ok. Qed.

Lemma encodeVariable_range_returns dst ps : returns (encodeVariable_range dst ps).
Proof.
  revert dst. induction ps as [|p ps IH]; intros dst; [done|]. cbn.
  apply returns_bind; [|auto]. unfold appendParameter. by repeat split_goal.
Qed.

Lemma encodeVariablePart_returns ps : returns (encodeVariablePart ps).
Proof. apply encodeVariable_range_returns. Qed.

Lemma encodeCRCC_range_Ok what dst ps v :
  encodeCRCC_range what dst ps = Ok v <->
  Forall fits (unknown_params ps) /\ v = dst ++ tlvs (unknown_params ps).
Proof.
  rewrite <- encodeVariable_range_Ok. revert dst.
  induction ps as [|p ps IH]; intros dst; [done|]. cbn.
  destruct (known_code (Code p)); cbn; [apply IH|].
  rewrite !obind_Ok. setoid_rewrite wrapf_Ok. by setoid_rewrite IH.
Qed.

Lemma encodeCRCC_range_returns what dst ps : returns (encodeCRCC_range what dst ps).
Proof.
  revert dst. induction ps as [|p ps IH]; intros dst; [done|]. cbn.
  destruct (known_code (Code p)); [done|].
  apply returns_bind; [|auto]. apply returns_wrapf. unfold appendParameter. by repeat split_goal.
Qed.

(** At most one parameter of a code. *)
Definition opt_param (code : Z) (v : goslice) : list Param :=
  match v with Some v => [mkParam code (Some v)] | None => [] end.

(** The canonical parameter list of a CR or CC: 0xC1, 0xC2, 0xC0, 0xF0, then
    the unknown parameters. *)
Definition canonical (calling called : goslice) (size : option Z) (enc : goslice)
    (params : list Param) : list Param :=
  opt_param ParamCallingSelector calling ++ opt_param ParamCalledSelector called ++
  opt_param ParamTPDUSize (option_map (fun s => [s]) size) ++
  opt_param ParamPreferredMaxTPDUSize enc ++ unknown_params params.

(** [enc] encodes the optional units [pm]. *)
Definition units_encoded (pm : option Z) (enc : goslice) : Prop :=
  match pm, enc with
  | Some u, Some e => encodePreferredMaxUnits u = Ok e
  | None, None => True
  | _, _ => False
  end.

Lemma tlvs_opt_param code v :
  tlvs (opt_param code v) = match v with Some v => code :: len v :: v | None => [] end.
Proof. destruct v; [|done]. cbn. by rewrite app_nil_r. Qed.

(** Either selector block of the encoder. *)
Lemma selector_block dst code (c : goslice) err :
  (match c with
   | Some s => if 255 <? len s then Err err else Ok ((dst ++ [code; u8 (len s)]) ++ s)
   | None => Ok dst
   end : outcome bytes) =
  if 255 <? slen c then Err err else Ok (dst ++ tlvs (opt_param code c)).
Proof.
  destruct c as [s|]; [|cbn; by rewrite app_nil_r].
  change (slen (Some s)) with (len s). rewrite tlvs_opt_param.
  destruct (255 <? len s) eqn:E; [done|]. breflect.
  rewrite u8_id by (pose proof (len_nonneg s); unfold is_u8; lia). by rewrite <- app_assoc.
Qed.

(** Equal octets, up to the bracketing of appends. *)
Ltac tlvs_assoc sz :=
  rewrite !tlvs_app, !tlvs_opt_param, <- ?app_assoc; destruct sz; cbn [option_map];
  by rewrite <- ?app_assoc.

(** The CR/CC encoder emits the canonical list, and fails only for a value that
    does not fit or for zero units. *)
Lemma encodeCRCC_Ok c1 c2 sz pm ps what v :
  opt_typed is_u32 pm ->
  encodeCRCCVariablePart c1 c2 sz pm ps what = Ok v <->
  exists enc, units_encoded pm enc /\ slen c1 <= 255 /\ slen c2 <= 255 /\
    Forall fits (unknown_params ps) /\ v = tlvs (canonical c1 c2 sz enc ps).
Proof.
  intros Hpm. unfold encodeCRCCVariablePart, canonical, MaxParameterValueLength.
  rewrite !obind_Ok. setoid_rewrite selector_block. split.
  - intros (a & Ha & H). destruct (255 <? slen c1) eqn:E1; [done|]. injection Ha as <-.
    go_inv H. destruct (255 <? slen c2) eqn:E2; [done|]. injection E as <-. breflect.
    apply encodeCRCC_range_Ok in H as [Hps ->]. destruct pm as [u|].
    + rewrite obind_Ok in E0. destruct E0 as (enc & Henc & E0). rewrite wrapf_Ok in Henc, E0.
      apply appendParameter_Ok in E0 as [Hl ->]. exists (Some enc).
      split_and!; try done. tlvs_assoc sz.
    + injection E0 as <-. exists None. split_and!; try done. tlvs_assoc sz.
  - intros (enc & Henc & H1 & H2 & Hps & ->). eexists. if_false. split; [done|].
    rewrite obind_Ok. eexists. if_false. split; [done|]. rewrite obind_Ok.
    destruct pm as [u|], enc as [e|]; try done; cbn in Henc.
    + eexists. rewrite Henc. cbn [wrapf obind].
      destruct (encodePreferredMaxUnits_value u e Hpm Henc) as (_ & Hl & _).
      rewrite wrapf_Ok, appendParameter_Ok. split; [split; [lia|done]|].
      apply encodeCRCC_range_Ok. split; [done|]. tlvs_assoc sz.
    + eexists. split; [done|]. apply encodeCRCC_range_Ok. split; [done|]. tlvs_assoc sz.
Qed.

Lemma encodeCRCC_returns c1 c2 sz pm ps what :
  opt_typed is_u32 pm -> returns (encodeCRCCVariablePart c1 c2 sz pm ps what).
Proof.
  intros Hpm. unfold encodeCRCCVariablePart.
  apply returns_bind; [by repeat split_goal|]. intros v1 _.
  apply returns_bind; [by repeat split_goal|]. intros v2 _.
  apply returns_bind; [|intros; apply encodeCRCC_range_returns].
  destruct pm as [u|]; [|done]. apply returns_bind.
  - apply returns_wrapf. destruct (Z.eq_dec u 0) as [->|Hne]; [done|].
    by destruct (encodePreferredMaxUnits_total u Hpm Hne) as [e ->].
  - intros. apply returns_wrapf. unfold appendParameter. by repeat split_goal.
Qed.

(** ** Round trips of the CR/CC variable part *)

Lemma values_of_app code ps qs : values_of code (ps ++ qs) = values_of code ps ++ values_of code qs.
Proof. apply omap_app. Qed.

Lemma values_of_unknown code ps :
  known_code code = true -> values_of code (unknown_params ps) = [].
Proof.
  intros Hk. induction ps as [|p ps IH]; [done|]. unfold unknown_params in *. cbn.
  destruct (known_code (Code p)) eqn:Hp; cbn; [done|].
  destruct (Z.eqb_spec (Code p) code) as [<-|]; [congruence|done].
Qed.

Lemma unknown_params_idem ps : unknown_params (unknown_params ps) = unknown_params ps.
Proof.
  unfold unknown_params. induction ps as [|p ps IH]; [done|]. cbn.
  destruct (negb (known_code (Code p))) eqn:E; [|done]. cbn. by rewrite E, IH.
Qed.

Lemma unknown_params_norm ps :
  unknown_params (map norm_param ps) = map norm_param (unknown_params ps).
Proof.
  unfold unknown_params. induction ps as [|p ps IH]; [done|]. cbn.
  destruct (negb (known_code (Code p))); cbn; by rewrite IH.
Qed.

(** Reading the canonical list gives the fields back. *)
Lemma crcc_of_canonical c1 c2 sz enc ps :
  crcc_of (canonical c1 c2 sz enc ps) =
    mkCrcc c1 c2 sz (option_map be_value enc) (unknown_params ps).
Proof.
  unfold crcc_of, canonical, last_value. rewrite !values_of_app, !values_of_unknown by done.
  f_equal; [destruct c1, c2, sz, enc; done|destruct c1, c2, sz, enc; done|
            destruct c1, c2, sz, enc; done|destruct c1, c2, sz, enc; done|].
  unfold unknown_params at 1. rewrite !List.filter_app.
  replace (List.filter _ (unknown_params ps)) with (unknown_params (unknown_params ps)) by done.
  rewrite unknown_params_idem. destruct c1, c2, sz, enc; done.
Qed.

(** What [Forall] of the canonical list comes down to. *)
Lemma Forall_canonical (P : Param -> Prop) c1 c2 sz enc ps :
  Forall P (canonical c1 c2 sz enc ps) <->
  Forall P (opt_param ParamCallingSelector c1) /\ Forall P (opt_param ParamCalledSelector c2) /\
  Forall P (opt_param ParamTPDUSize (option_map (fun s => [s]) sz)) /\
  Forall P (opt_param ParamPreferredMaxTPDUSize enc) /\ Forall P (unknown_params ps).
Proof. unfold canonical. by rewrite !Forall_app. Qed.

Lemma Forall_opt_param (P : Param -> Prop) code v :
  Forall P (opt_param code v) <-> forall x, v = Some x -> P (mkParam code (Some x)).
Proof. destruct v; cbn; rewrite ?Forall_singleton, ?Forall_nil; naive_solver. Qed.

Lemma parsed_intro code v : is_u8 code -> len v <= 255 -> bytes_ok v -> parsed (mkParam code (Some v)).
Proof. intros. split; [done|]. eauto. Qed.

Lemma Forall_unknown (P : Param -> Prop) ps :
  Forall P ps -> Forall P (unknown_params ps).
Proof.
  intros H. unfold unknown_params. apply List.Forall_forall. intros p Hp.
  apply List.filter_In in Hp as [Hp _]. by eapply List.Forall_forall in H.
Qed.

Lemma unknown_sizes_ok ps : Forall sizes_ok (unknown_params ps).
Proof.
  apply List.Forall_forall. intros p Hp. unfold unknown_params in Hp.
  apply List.filter_In in Hp as [_ Hp]. apply negb_true_iff in Hp.
  split; intros E; by rewrite E in Hp.
Qed.

(** Encode then parse: the fields come back, the unknown parameters with their
    nil values made empty. *)
Lemma CRCC_encode_parse c1 c2 sz pm ps what v :
  goslice_ok c1 -> goslice_ok c2 -> opt_typed is_u8 sz -> opt_typed is_u32 pm ->
  Forall Param_typed ps ->
  encodeCRCCVariablePart c1 c2 sz pm ps what = Ok v ->
  bytes_ok v /\
  parseCRCCVariablePart v = Ok (mkCrcc c1 c2 sz pm (map norm_param (unknown_params ps))).
Proof.
  intros Hc1 Hc2 Hsz Hpm Hps Hv.
  apply encodeCRCC_Ok in Hv as (enc & Henc & H1 & H2 & Hfit & ->); [|done].
  assert (option_map be_value enc = pm /\
          forall e, enc = Some e -> 1 <= len e <= 4 /\ bytes_ok e /\ be_value e <> 0)
    as [Hbe Hlen].
  { destruct pm as [u|], enc as [e|]; try done. cbn in Henc.
    destruct (encodePreferredMaxUnits_value u e Hpm Henc) as (<- & ? & ? & ?). naive_solver. }
  replace (tlvs (canonical c1 c2 sz enc ps))
    with (tlvs (canonical c1 c2 sz enc (map norm_param ps)))
    by (unfold canonical; by rewrite unknown_params_norm, !tlvs_app, tlvs_norm).
  assert (Forall parsed (canonical c1 c2 sz enc (map norm_param ps))) as Hparsed.
  { rewrite Forall_canonical, !Forall_opt_param, unknown_params_norm. split_and!.
    - intros x ->. by apply parsed_intro.
    - intros x ->. by apply parsed_intro.
    - intros x Hx. destruct sz; [|done]. injection Hx as <-.
      apply parsed_intro; [done|by vm_compute|by apply Forall_singleton].
    - intros x ->. destruct (Hlen x) as (? & ? & ?); [done|]. apply parsed_intro; [done|lia|done].
    - apply Forall_fmap. eapply Forall_impl; [apply Forall_and; split;
        [exact Hfit|apply Forall_unknown, Hps]|].
      intros p [Hf [Hc Hok]]. by apply parsed_intro. }
  split; [by apply tlvs_bytes_ok|].
  apply parseCRCC_Ok; [by apply tlvs_bytes_ok|].
  exists (canonical c1 c2 sz enc (map norm_param ps)). split_and!; [done|done| |].
  - rewrite Forall_canonical, !Forall_opt_param. split_and!; try done.
    + intros x Hx. destruct sz; [|done]. injection Hx as <-. by split.
    + intros x ->. destruct (Hlen x) as (? & ? & ?); [done|]. by split.
    + apply unknown_sizes_ok.
  - by rewrite crcc_of_canonical, Hbe, unknown_params_norm.
Qed.

(** A parsed variable part never grows when it is encoded again: duplicates of
    known codes go, and 0xF0 gets its shortest form. *)
Definition canonical_len (r : crccVariableResult) (enc : goslice) : Z :=
  len (tlvs (canonical (callingSelector r) (calledSelector r) (tpduSize r) enc (parameters r))).

Definition tlv_len (v : goslice) : Z := match v with Some v => 2 + len v | None => 0 end.

Lemma canonical_len_sum c1 c2 sz enc ps :
  len (tlvs (canonical c1 c2 sz enc ps)) =
    tlv_len c1 + tlv_len c2 + match sz with Some _ => 3 | None => 0 end + tlv_len enc
    + len (tlvs (unknown_params ps)).
Proof.
  unfold canonical. rewrite !tlvs_app, !len_app, !tlvs_opt_param.
  destruct c1, c2, sz, enc; cbn [option_map tlv_len]; rewrite ?len_cons, ?len_nil; lia.
Qed.

(** Octets the values of one code take in a list. *)
Definition code_len (code : Z) (ps : list Param) : Z :=
  len (tlvs (List.filter (fun p => Code p =? code) ps)).

Lemma last_value_len code ps : tlv_len (last_value code ps) <= code_len code ps.
Proof.
  unfold code_len. induction ps as [|p ps IH] using rev_ind; [done|].
  rewrite last_value_snoc, List.filter_app, tlvs_app, len_app. cbn [List.filter].
  destruct (Code p =? code); cbn [tlv_len].
  - change (tlvs [p]) with (tlv p ++ []). rewrite app_nil_r, len_tlv. pose proof (len_nonneg (tlvs (List.filter (fun p => Code p =? code) ps))).
    unfold slen. lia.
  - change (len (tlvs [])) with 0. lia.
Qed.

Lemma codes_len ps :
  code_len ParamCallingSelector ps + code_len ParamCalledSelector ps + code_len ParamTPDUSize ps
  + code_len ParamPreferredMaxTPDUSize ps + len (tlvs (unknown_params ps)) = len (tlvs ps).
Proof.
  unfold code_len, unknown_params, known_code, ParamCallingSelector, ParamCalledSelector,
    ParamTPDUSize, ParamPreferredMaxTPDUSize.
  induction ps as [|p ps IH]; [done|]. cbn [List.filter].
  destruct (Code p =? 193) eqn:E1, (Code p =? 194) eqn:E2, (Code p =? 192) eqn:E3,
    (Code p =? 240) eqn:E4; breflect; try lia; cbn [orb negb];
    rewrite !tlvs_cons, !len_cons, !len_app; lia.
Qed.

Lemma last_value_parsed code ps v :
  Forall parsed ps -> last_value code ps = Some v ->
  exists p, p ∈ ps /\ Code p = code /\ Value p = Some v /\ len v <= 255 /\ bytes_ok v.
Proof.
  intros Hps. induction ps as [|p ps IH] using rev_ind; [done|].
  apply Forall_app in Hps as [Hps [(Hc & w & Hw & Hl & Hok) _]%Forall_cons].
  rewrite last_value_snoc. destruct (Z.eqb_spec (Code p) code) as [<-|].
  - rewrite Hw. intros [= <-]. exists p. split_and!; [set_solver|done..].
  - intros H. destruct (IH Hps H) as (q & ? & ?). exists q. split; [set_solver|done].
Qed.

Lemma last_value_fits code ps : Forall parsed ps -> slen (last_value code ps) <= 255.
Proof.
  intros Hps. destruct (last_value code ps) as [v|] eqn:E; [|done].
  by apply last_value_parsed in E as (p & _ & _ & _ & ? & _).
Qed.

(** The parser's result has the field widths of the Go struct. *)
Lemma crcc_of_typed ps :
  Forall parsed ps -> Forall sizes_ok ps ->
  goslice_ok (last_value ParamCallingSelector ps) /\ goslice_ok (last_value ParamCalledSelector ps) /\
  opt_typed is_u8 (tpduSize (crcc_of ps)) /\ opt_typed is_u32 (preferredMaxTPDUSize (crcc_of ps)) /\
  Forall parsed (unknown_params ps).
Proof.
  intros Hps Hsz. rewrite Forall_forall in Hsz.
  assert (forall code, goslice_ok (last_value code ps)) as Hok.
  { intros code. destruct (last_value code ps) as [v|] eqn:E; [|constructor].
    by apply last_value_parsed in E as (p & _ & _ & _ & _ & ?). }
  split_and!; auto using Forall_unknown; cbn.
  - destruct (last_value ParamTPDUSize ps) as [v|] eqn:E; [|done].
    apply last_value_parsed in E as (p & Hp & Hc & Hv & _ & Hv8); [|done].
    pose proof (proj1 (Hsz p Hp) Hc) as Hl. rewrite Hv in Hl.
    destruct v as [|x v]; [done|]. by apply bytes_ok_cons in Hv8 as [? _].
  - destruct (last_value ParamPreferredMaxTPDUSize ps) as [v|] eqn:E; [|done].
    apply last_value_parsed in E as (p & Hp & Hc & Hv & _ & Hv8); [|done].
    destruct (proj2 (Hsz p Hp) Hc) as [Hl _]. rewrite Hv in Hl.
    change (slen (Some v)) with (len v) in Hl. cbn. unfold is_u32.
    pose proof (be_value_range v Hv8). pose proof (Z.pow_le_mono_r 256 (len v) 4). lia.
Qed.

(** The normal form of a parameter list: the known parameters first, each once,
    with its last value, that of 0xF0 without leading zeros; then the others. *)
Definition normal_params (ps : list Param) : list Param :=
  opt_param ParamCallingSelector (last_value ParamCallingSelector ps) ++
  opt_param ParamCalledSelector (last_value ParamCalledSelector ps) ++
  opt_param ParamTPDUSize (last_value ParamTPDUSize ps) ++
  opt_param ParamPreferredMaxTPDUSize (option_map strip_zeros (last_value ParamPreferredMaxTPDUSize ps)) ++
  unknown_params ps.

(** The decoded units can be encoded, in no more octets than they came in. *)
Lemma last_units_encoded ps :
  Forall parsed ps -> Forall sizes_ok ps ->
  let enc := option_map strip_zeros (last_value ParamPreferredMaxTPDUSize ps) in
  units_encoded (preferredMaxTPDUSize (crcc_of ps)) enc /\
  tlv_len enc <= code_len ParamPreferredMaxTPDUSize ps.
Proof.
  intros Hps Hsz. pose proof (crcc_of_typed ps Hps Hsz) as (_ & _ & _ & Hpm & _).
  pose proof (last_value_len ParamPreferredMaxTPDUSize ps) as Hlast. revert Hpm. cbn.
  destruct (last_value ParamPreferredMaxTPDUSize ps) as [v|] eqn:E; [|done].
  apply last_value_parsed in E as (p & Hp & Hc & Hv & _ & Hv8); [|done].
  rewrite Forall_forall in Hsz. destruct (proj2 (Hsz p Hp) Hc) as [Hl Hne].
  rewrite Hv in Hl, Hne. change (slen (Some v)) with (len v) in Hl. cbn in *. intros Hpm.
  destruct (encodePreferredMaxUnits_total (be_value v) Hpm Hne) as [e He].
  rewrite <- (encode_strips v e Hv8 Hpm He). split; [done|].
  enough (len e <= len v) by lia. eapply encode_minimal; [exact Hpm|exact He|exact Hv8|].
  by apply decodePreferredMaxUnits_Ok.
Qed.

(** The canonical list of a parser's result is the normal form. *)
Lemma canonical_normal ps :
  Forall parsed ps -> Forall sizes_ok ps ->
  let r := crcc_of ps in
  canonical (callingSelector r) (calledSelector r) (tpduSize r)
    (option_map strip_zeros (last_value ParamPreferredMaxTPDUSize ps)) (parameters r) = normal_params ps.
Proof.
  intros Hps Hsz. unfold canonical, normal_params. cbn [crcc_of callingSelector calledSelector tpduSize parameters].
  rewrite unknown_params_idem. do 3 f_equal.
  destruct (last_value ParamTPDUSize ps) as [v|] eqn:E; [|done].
  apply last_value_parsed in E as (p & Hp & Hc & Hv & _ & _); [|done].
  rewrite Forall_forall in Hsz. pose proof (proj1 (Hsz p Hp) Hc) as Hl. rewrite Hv in Hl.
  change (slen (Some v)) with (len v) in Hl. destruct v as [|x [|y v]]; [done|done|]. rewrite !len_cons in Hl. pose proof (len_nonneg v). lia.
Qed.

(** Parse then encode: always possible, the normal form of what was parsed, never
    longer, and parsed back to the same result. *)
Lemma CRCC_parse_encode b r what :
  bytes_ok b -> parseCRCCVariablePart b = Ok r ->
  exists ps, b = tlvs ps /\ Forall parsed ps /\
    encodeCRCCVariablePart (callingSelector r) (calledSelector r) (tpduSize r)
      (preferredMaxTPDUSize r) (parameters r) what = Ok (tlvs (normal_params ps)) /\
    len (tlvs (normal_params ps)) <= len b /\ parseCRCCVariablePart (tlvs (normal_params ps)) = Ok r.
Proof.
  intros Hb Hr. destruct (proj1 (parseCRCC_Ok b r Hb) Hr) as (ps & -> & Hps & Hsz & ->).
  destruct (crcc_of_typed ps Hps Hsz) as (Hc1 & Hc2 & Hs & Hpm & Hun).
  destruct (last_units_encoded ps Hps Hsz) as (Henc & Hlen). exists ps. split; [done|]. split; [done|].
  rewrite <- (canonical_normal ps Hps Hsz).
  set (enc := option_map strip_zeros _) in *.
  set (r := crcc_of ps) in *. pose proof (last_value_len ParamTPDUSize ps) as Hsize.
  assert (encodeCRCCVariablePart (callingSelector r) (calledSelector r) (tpduSize r)
            (preferredMaxTPDUSize r) (parameters r) what
          = Ok (tlvs (canonical (callingSelector r) (calledSelector r) (tpduSize r) enc (parameters r))))
    as Hv.
  { apply encodeCRCC_Ok; [done|]. exists enc. split_and!; [done| | | |done].
    - by apply last_value_fits.
    - by apply last_value_fits.
    - eapply Forall_impl; [apply Forall_unknown, Hun|]. apply parsed_fits. }
  split; [exact Hv|]. split.
  - rewrite canonical_len_sum, <- (codes_len ps). cbn [r crcc_of parameters callingSelector calledSelector].
    rewrite unknown_params_idem. pose proof (last_value_len ParamCallingSelector ps).
    pose proof (last_value_len ParamCalledSelector ps).
    enough (match tpduSize r with Some _ => 3 | None => 0 end <= code_len ParamTPDUSize ps) by lia.
    cbn. destruct (last_value ParamTPDUSize ps) as [v|] eqn:E; [|apply len_nonneg].
    apply last_value_parsed in E as (p & Hp & Hc & Hv' & _ & _); [|done].
    rewrite Forall_forall in Hsz. pose proof (proj1 (Hsz p Hp) Hc) as Hl. rewrite Hv' in Hl.
    change (slen (Some v)) with (len v) in Hl. cbn in *. lia.
  - apply CRCC_encode_parse in Hv as [_ ->]; [|done..|by eapply Forall_impl; [exact Hun|apply parsed_typed]].
    f_equal. cbn. rewrite unknown_params_idem.
    unfold r, crcc_of. f_equal. by apply map_norm_parsed.
Qed.
