(* ===== verification/Decode.v ===== *)
(** * TPDU decoders: decode.go, decode_raw.go and decode_*.go

    One definition per Go function, in the order of its guards.  The facts at
    the end are what every decoder shares: it never panics and never loops, and
    the header it accepted has a known shape. *)

From S2P Require Import Prelude Errors Types Wire PreferredMax Params.

Definition crFixedPartLength := 6.
Definition ccFixedPartLength := 6.
Definition drFixedPartLength := 6.
Definition dcFixedPartLength := 5.
Definition dtMinimalFixedLength := 2.
Definition dtNormalFixedLength := 4.
Definition edFixedPartLength := 4.
Definition akFixedPartLength := 4.
Definition eaFixedPartLength := 4.
Definition rjFixedPartLength := 4.
Definition erFixedPartLength := 4.
Definition MinEDUserDataLen := 1.
Definition MaxEDUserDataLen := 16.

Definition DecodeCR (b : bytes) : outcome CR :=
  if len b <? 1 + crFixedPartLength then Err (Errorf "decode CR: %w" [Sentinel ErrTooShort]) else
  if MaxCRTPDULength <? len b
  then Err (Errorf "decode CR: length %d > %d: %w" [Sentinel ErrLengthMismatch]) else
  let! li := wrapf "decode CR: %w" (ReadLI b) in
  let! headerLen := wrapf "decode CR: %w" (headerBounds b li crFixedPartLength) in
  let! octet2 := index b 1 in
  if negb (Z.land octet2 240 =? 224)
  then Err (Errorf "decode CR: not a CR TPDU (code 0x%02x): %w" [Sentinel ErrInvalidTPDUCode]) else
  let cdt := Z.land octet2 15 in
  let! dst := slice b 2 4 in
  let! dstRef := BigEndian_Uint16 dst in
  let! src := slice b 4 6 in
  let! srcRef := BigEndian_Uint16 src in
  let! classOption := index b 6 in
  let! res :=
    if 7 <? headerLen then
      let! variable := slice b 7 headerLen in
      wrapf "decode CR: %w" (parseCRCCVariablePart variable)
    else Ok empty_crcc in
  let! userData := slice b headerLen (len b) in
  Ok {| CR_CDT := cdt; CR_DestinationRef := dstRef; CR_SourceRef := srcRef;
        CR_ClassOption := classOption; CR_Parameters := parameters res;
        CR_CallingSelector := callingSelector res; CR_CalledSelector := calledSelector res;
        CR_TPDUSize := tpduSize res; CR_PreferredMaxTPDUSize := preferredMaxTPDUSize res;
        CR_UserData := Some userData |}.

Definition DecodeCC (b : bytes) : outcome CC :=
  if len b <? 1 + ccFixedPartLength then Err (Errorf "decode CC: %w" [Sentinel ErrTooShort]) else
  let! li := wrapf "decode CC: %w" (ReadLI b) in
  let! headerLen := wrapf "decode CC: %w" (headerBounds b li ccFixedPartLength) in
  let! octet2 := index b 1 in
  if negb (Z.land octet2 240 =? 208)
  then Err (Errorf "decode CC: not a CC TPDU (code 0x%02x): %w" [Sentinel ErrInvalidTPDUCode]) else
  let cdt := Z.land octet2 15 in
  let! dst := slice b 2 4 in
  let! dstRef := BigEndian_Uint16 dst in
  let! src := slice b 4 6 in
  let! srcRef := BigEndian_Uint16 src in
  let! classOption := index b 6 in
  let! res :=
    if 7 <? headerLen then
      let! variable := slice b 7 headerLen in
      wrapf "decode CC: %w" (parseCRCCVariablePart variable)
    else Ok empty_crcc in
  let! userData := slice b headerLen (len b) in
  Ok {| CC_CDT := cdt; CC_DestinationRef := dstRef; CC_SourceRef := srcRef;
        CC_ClassOption := classOption; CC_Parameters := parameters res;
        CC_CallingSelector := callingSelector res; CC_CalledSelector := calledSelector res;
        CC_TPDUSize := tpduSize res; CC_PreferredMaxTPDUSize := preferredMaxTPDUSize res;
        CC_UserData := Some userData |}.

(** The variable part of the other TPDUs: parsed when the header goes past the
    fixed part, which ends at index [from]. *)
Definition decodeParameters (what : string) (b : bytes) (from headerLen : Z) :
    outcome (list Param) :=
  if from <? headerLen then
    let! variable := slice b from headerLen in
    wrapf ("decode " +:+ what +:+ ": %w") (parseVariablePart variable)
  else Ok [].

Definition DecodeDR (b : bytes) : outcome DR :=
  if len b <? 1 + drFixedPartLength then Err (Errorf "decode DR: %w" [Sentinel ErrTooShort]) else
  let! li := wrapf "decode DR: %w" (ReadLI b) in
  let! headerLen := wrapf "decode DR: %w" (headerBounds b li drFixedPartLength) in
  let! octet2 := index b 1 in
  if negb (octet2 =? 128)
  then Err (Errorf "decode DR: not a DR TPDU (code 0x%02x): %w" [Sentinel ErrInvalidTPDUCode]) else
  let! dst := slice b 2 4 in
  let! dstRef := BigEndian_Uint16 dst in
  let! src := slice b 4 6 in
  let! srcRef := BigEndian_Uint16 src in
  let! reason := index b 6 in
  let! params := decodeParameters "DR" b 7 headerLen in
  let! userData := slice b headerLen (len b) in
  Ok {| DR_DestinationRef := dstRef; DR_SourceRef := srcRef; DR_Reason := reason;
        DR_Parameters := params; DR_UserData := Some userData |}.

Definition DecodeDC (b : bytes) : outcome DC :=
  if len b <? 1 + dcFixedPartLength then Err (Errorf "decode DC: %w" [Sentinel ErrTooShort]) else
  let! li := wrapf "decode DC: %w" (ReadLI b) in
  let! headerLen := wrapf "decode DC: %w" (headerBounds b li dcFixedPartLength) in
  let! octet2 := index b 1 in
  if negb (octet2 =? 192)
  then Err (Errorf "decode DC: not a DC TPDU (code 0x%02x): %w" [Sentinel ErrInvalidTPDUCode]) else
  let! dst := slice b 2 4 in
  let! dstRef := BigEndian_Uint16 dst in
  let! src := slice b 4 6 in
  let! srcRef := BigEndian_Uint16 src in
  let! params := decodeParameters "DC" b 6 headerLen in
  Ok {| DC_DestinationRef := dstRef; DC_SourceRef := srcRef; DC_Parameters := params |}.

Definition DecodeDT (b : bytes) : outcome DT :=
  if len b <? MinHeaderLength then Err (Errorf "decode DT: %w" [Sentinel ErrTooShort]) else
  let! li := wrapf "decode DT: %w" (ReadLI b) in
  let headerLen := 1 + li in
  if len b <? headerLen
  then Err (Errorf "decode DT: header length %d exceeds buffer %d: %w" [Sentinel ErrTooShort]) else
  let! octet2 := index b 1 in
  if negb (Z.land octet2 254 =? 240)
  then Err (Errorf "decode DT: not a DT TPDU (code 0x%02x): %w" [Sentinel ErrInvalidTPDUCode]) else
  if li =? 2 then
    if headerLen <? 1 + dtMinimalFixedLength
    then Err (Errorf "decode DT: %w" [Sentinel ErrUnsupportedDTVariant]) else
    let! octet3 := index b 2 in
    let nr := Z.land octet3 127 in
    let eot := negb (Z.land octet3 128 =? 0) in
    let! params := decodeParameters "DT" b 3 headerLen in
    let! userData := slice b headerLen (len b) in
    Ok {| DT_EOT := eot; DT_TPDUNR := Some nr; DT_DestinationRef := None;
          DT_Parameters := params; DT_UserData := Some userData |}
  else if 4 <=? li then
    if headerLen <? 1 + dtNormalFixedLength
    then Err (Errorf "decode DT: %w" [Sentinel ErrUnsupportedDTVariant]) else
    let! dst := slice b 2 4 in
    let! dstRef := BigEndian_Uint16 dst in
    let! octet5 := index b 4 in
    let nr := Z.land octet5 127 in
    let eot := negb (Z.land octet5 128 =? 0) in
    let! params := decodeParameters "DT" b 5 headerLen in
    let! userData := slice b headerLen (len b) in
    Ok {| DT_EOT := eot; DT_TPDUNR := Some nr; DT_DestinationRef := Some dstRef;
          DT_Parameters := params; DT_UserData := Some userData |}
  else Err (Errorf "decode DT: LI=%d: %w" [Sentinel ErrUnsupportedDTVariant]).

Definition DecodeED (b : bytes) : outcome ED :=
  if len b <? 1 + edFixedPartLength then Err (Errorf "decode ED: %w" [Sentinel ErrTooShort]) else
  let! li := wrapf "decode ED: %w" (ReadLI b) in
  let! headerLen := wrapf "decode ED: %w" (headerBounds b li edFixedPartLength) in
  let! octet2 := index b 1 in
  if negb (octet2 =? 16)
  then Err (Errorf "decode ED: not an ED TPDU (code 0x%02x): %w" [Sentinel ErrInvalidTPDUCode]) else
  let! dst := slice b 2 4 in
  let! dstRef := BigEndian_Uint16 dst in
  let! nrEot := index b 4 in
  let nr := Z.land nrEot 127 in
  let eot := negb (Z.land nrEot 128 =? 0) in
  let! params := decodeParameters "ED" b 5 headerLen in
  let! userData := slice b headerLen (len b) in
  if (len userData <? MinEDUserDataLen) || (MaxEDUserDataLen <? len userData)
  then Err (Errorf "decode ED: user data length %d: %w" [Sentinel ErrInvalidEDUserDataLength]) else
  Ok {| ED_DestinationRef := Some dstRef; ED_TPDUNR := Some nr; ED_EOT := eot;
        ED_Parameters := params; ED_UserData := Some userData |}.

Definition DecodeAK (b : bytes) : outcome AK :=
  if len b <? 1 + akFixedPartLength then Err (Errorf "decode AK: %w" [Sentinel ErrTooShort]) else
  let! li := wrapf "decode AK: %w" (ReadLI b) in
  let! headerLen := wrapf "decode AK: %w" (headerBounds b li akFixedPartLength) in
  let! octet2 := index b 1 in
  if negb (Z.land octet2 240 =? 96)
  then Err (Errorf "decode AK: not an AK TPDU (code 0x%02x): %w" [Sentinel ErrInvalidTPDUCode]) else
  let! dst := slice b 2 4 in
  let! dstRef := BigEndian_Uint16 dst in
  let! nr := index b 4 in
  let! params := decodeParameters "AK" b 5 headerLen in
  Ok {| AK_CDT := Z.land octet2 15; AK_DestinationRef := dstRef; AK_YRTUNR := nr;
        AK_Parameters := params |}.

Definition DecodeEA (b : bytes) : outcome EA :=
  if len b <? 1 + eaFixedPartLength then Err (Errorf "decode EA: %w" [Sentinel ErrTooShort]) else
  let! li := wrapf "decode EA: %w" (ReadLI b) in
  let! headerLen := wrapf "decode EA: %w" (headerBounds b li eaFixedPartLength) in
  let! octet2 := index b 1 in
  if negb (octet2 =? 32)
  then Err (Errorf "decode EA: not an EA TPDU (code 0x%02x): %w" [Sentinel ErrInvalidTPDUCode]) else
  let! dst := slice b 2 4 in
  let! dstRef := BigEndian_Uint16 dst in
  let! nr := index b 4 in
  let! params := decodeParameters "EA" b 5 headerLen in
  Ok {| EA_DestinationRef := dstRef; EA_YREDTUNR := nr; EA_Parameters := params |}.

Definition DecodeRJ (b : bytes) : outcome RJ :=
  if len b <? 1 + rjFixedPartLength then Err (Errorf "decode RJ: %w" [Sentinel ErrTooShort]) else
  let! li := wrapf "decode RJ: %w" (ReadLI b) in
  if rjFixedPartLength <? li
  then Err (Errorf "decode RJ: LI=%d (RJ has no variable part): %w" [Sentinel ErrMalformedParameter]) else
  let! _ := wrapf "decode RJ: %w" (headerBounds b li rjFixedPartLength) in
  let! octet2 := index b 1 in
  if negb (Z.land octet2 240 =? 80)
  then Err (Errorf "decode RJ: not an RJ TPDU (code 0x%02x): %w" [Sentinel ErrInvalidTPDUCode]) else
  let! dst := slice b 2 4 in
  let! dstRef := BigEndian_Uint16 dst in
  let! nr := index b 4 in
  Ok {| RJ_CDT := Z.land octet2 15; RJ_DestinationRef := dstRef; RJ_YRTUNR := nr |}.

Definition DecodeER (b : bytes) : outcome ER :=
  if len b <? 1 + erFixedPartLength then Err (Errorf "decode ER: %w" [Sentinel ErrTooShort]) else
  let! li := wrapf "decode ER: %w" (ReadLI b) in
  let! headerLen := wrapf "decode ER: %w" (headerBounds b li erFixedPartLength) in
  let! octet2 := index b 1 in
  if negb (octet2 =? 112)
  then Err (Errorf "decode ER: not an ER TPDU (code 0x%02x): %w" [Sentinel ErrInvalidTPDUCode]) else
  let! dst := slice b 2 4 in
  let! dstRef := BigEndian_Uint16 dst in
  let! cause := index b 4 in
  let! params := decodeParameters "ER" b 5 headerLen in
  Ok {| ER_DestinationRef := dstRef; ER_RejectCause := cause; ER_Parameters := params |}.

(** ** Decode *)

Definition zero_Decoded : Decoded :=
  mkDecoded 0 None None None None None None None None None None None.

Definition Decode (b : bytes) : outcome Decoded :=
  if len b <? MinHeaderLength then Err (Errorf "decode: %w" [Sentinel ErrTooShort]) else
  let! t := wrapf "decode: %w" (PeekType b) in
  if t =? TypeCR then
    let! cr := wrapf "decode: %w" (DecodeCR b) in
    Ok (mkDecoded TypeCR (Some cr) None None None None None None None None None None)
  else if t =? TypeCC then
    let! cc := wrapf "decode: %w" (DecodeCC b) in
    Ok (mkDecoded TypeCC None (Some cc) None None None None None None None None None)
  else if t =? TypeDT then
    let! dt := wrapf "decode: %w" (DecodeDT b) in
    Ok (mkDecoded TypeDT None None (Some dt) None None None None None None None None)
  else if t =? TypeDR then
    let! dr := wrapf "decode: %w" (DecodeDR b) in
    Ok (mkDecoded TypeDR None None None (Some dr) None None None None None None None)
  else if t =? TypeDC then
    let! dc := wrapf "decode: %w" (DecodeDC b) in
    Ok (mkDecoded TypeDC None None None None (Some dc) None None None None None None)
  else if t =? TypeER then
    let! er := wrapf "decode: %w" (DecodeER b) in
    Ok (mkDecoded TypeER None None None None None (Some er) None None None None None)
  else if t =? TypeED then
    let! ed := wrapf "decode: %w" (DecodeED b) in
    Ok (mkDecoded TypeED None None None None None None (Some ed) None None None None)
  else if t =? TypeAK then
    let! ak := wrapf "decode: %w" (DecodeAK b) in
    Ok (mkDecoded TypeAK None None None None None None None (Some ak) None None None)
  else if t =? TypeEA then
    let! ea := wrapf "decode: %w" (DecodeEA b) in
    Ok (mkDecoded TypeEA None None None None None None None None (Some ea) None None)
  else if t =? TypeRJ then
    let! rj := wrapf "decode: %w" (DecodeRJ b) in
    Ok (mkDecoded TypeRJ None None None None None None None None None (Some rj) None)
  else Err (Errorf "decode: %w" [Sentinel ErrUnsupportedTPDU]).

(** The Go function returns the zero [Decoded] on error, and [Err] carries no
    value at all. *)
Definition DecodeWithRaw (b : bytes) : outcome Decoded :=
  let! d := Decode b in
  Ok (mkDecoded (D_Type d) (D_CR d) (D_CC d) (D_DT d) (D_DR d) (D_DC d) (D_ER d) (D_ED d)
        (D_AK d) (D_EA d) (D_RJ d) (Some b)).
