(* ===== verification/Encode.v ===== *)
(** * TPDU encoders: encode_*.go

    [T_MarshalBinary] models the method of [*T]; the receiver is an option,
    [None] being the nil pointer.  [out] is built by appending, as in the code. *)

From S2P Require Import Prelude Errors Types PreferredMax Params Decode.

Definition CR_MarshalBinary (c : option CR) : outcome bytes :=
  match c with
  | None => Err (Errorf "marshal CR: %w" [Sentinel ErrNilReceiver])
  | Some c =>
      let! varPart := encodeCRCCVariablePart (CR_CallingSelector c) (CR_CalledSelector c)
                        (CR_TPDUSize c) (CR_PreferredMaxTPDUSize c) (CR_Parameters c) "CR" in
      let li := 6 + len varPart in
      if MaxLI <? li
      then Err (Errorf "marshal CR: header length %d > %d: %w" [Sentinel ErrInvalidLI]) else
      let total := 1 + li + slen (CR_UserData c) in
      if MaxCRTPDULength <? total
      then Err (Errorf "marshal CR: length %d > %d: %w" [Sentinel ErrLengthMismatch]) else
      Ok ([u8 li; Z.lor 224 (Z.land (CR_CDT c) 15)]
          ++ BigEndian_PutUint16 (CR_DestinationRef c)
          ++ BigEndian_PutUint16 (CR_SourceRef c)
          ++ [CR_ClassOption c] ++ varPart ++ content (CR_UserData c))
  end.

Definition CC_MarshalBinary (c : option CC) : outcome bytes :=
  match c with
  | None => Err (Errorf "marshal CC: %w" [Sentinel ErrNilReceiver])
  | Some c =>
      let! varPart := encodeCRCCVariablePart (CC_CallingSelector c) (CC_CalledSelector c)
                        (CC_TPDUSize c) (CC_PreferredMaxTPDUSize c) (CC_Parameters c) "CC" in
      let li := 6 + len varPart in
      if MaxLI <? li
      then Err (Errorf "marshal CC: header length %d > %d: %w" [Sentinel ErrInvalidLI]) else
      Ok ([u8 li; Z.lor 208 (Z.land (CC_CDT c) 15)]
          ++ BigEndian_PutUint16 (CC_DestinationRef c)
          ++ BigEndian_PutUint16 (CC_SourceRef c)
          ++ [CC_ClassOption c] ++ varPart ++ content (CC_UserData c))
  end.

Definition DR_MarshalBinary (d : option DR) : outcome bytes :=
  match d with
  | None => Err (Errorf "marshal DR: %w" [Sentinel ErrNilReceiver])
  | Some d =>
      let! varPart := wrapf "marshal DR: %w" (encodeVariablePart (DR_Parameters d)) in
      let li := 6 + len varPart in
      if MaxLI <? li
      then Err (Errorf "marshal DR: header length %d > %d: %w" [Sentinel ErrInvalidLI]) else
      Ok ([u8 li; 128]
          ++ BigEndian_PutUint16 (DR_DestinationRef d)
          ++ BigEndian_PutUint16 (DR_SourceRef d)
          ++ [DR_Reason d] ++ varPart ++ content (DR_UserData d))
  end.

Definition DC_MarshalBinary (d : option DC) : outcome bytes :=
  match d with
  | None => Err (Errorf "marshal DC: %w" [Sentinel ErrNilReceiver])
  | Some d =>
      let! varPart := wrapf "marshal DC: %w" (encodeVariablePart (DC_Parameters d)) in
      let li := 5 + len varPart in
      if MaxLI <? li
      then Err (Errorf "marshal DC: header length %d > %d: %w" [Sentinel ErrInvalidLI]) else
      Ok ([u8 li; 192]
          ++ BigEndian_PutUint16 (DC_DestinationRef d)
          ++ BigEndian_PutUint16 (DC_SourceRef d)
          ++ varPart)
  end.

(** [nr], masked to seven bits, with EOT in the high bit. *)
Definition nr_eot (nr : option Z) (eot : bool) : Z :=
  let nr := match nr with Some nr => Z.land nr 127 | None => 0 end in
  if eot then Z.lor nr 128 else nr.

Definition DT_MarshalBinary (d : option DT) : outcome bytes :=
  match d with
  | None => Err (Errorf "marshal DT: %w" [Sentinel ErrNilReceiver])
  | Some d =>
      let '(fixedPart, li) :=
        match DT_DestinationRef d with
        | None => ([240; nr_eot (DT_TPDUNR d) (DT_EOT d)], 2)
        | Some ref => ([240] ++ BigEndian_PutUint16 ref ++ [nr_eot (DT_TPDUNR d) (DT_EOT d)], 4)
        end in
      let! varPart := wrapf "marshal DT: %w" (encodeVariablePart (DT_Parameters d)) in
      let li := li + len varPart in
      if MaxLI <? li
      then Err (Errorf "marshal DT: header length %d > %d: %w" [Sentinel ErrInvalidLI]) else
      Ok ([u8 li] ++ fixedPart ++ varPart ++ content (DT_UserData d))
  end.

Definition ED_MarshalBinary (e : option ED) : outcome bytes :=
  match e with
  | None => Err (Errorf "marshal ED: %w" [Sentinel ErrNilReceiver])
  | Some e =>
      match ED_DestinationRef e, ED_TPDUNR e with
      | Some ref, Some nr =>
          if (slen (ED_UserData e) <? MinEDUserDataLen) || (MaxEDUserDataLen <? slen (ED_UserData e))
          then Err (Errorf "marshal ED: user data length %d: %w" [Sentinel ErrInvalidEDUserDataLength])
          else
          let! varPart := wrapf "marshal ED: %w" (encodeVariablePart (ED_Parameters e)) in
          let li := 4 + len varPart in
          if MaxLI <? li
          then Err (Errorf "marshal ED: header length %d > %d: %w" [Sentinel ErrInvalidLI]) else
          Ok ([u8 li; 16] ++ BigEndian_PutUint16 ref ++ [nr_eot (Some nr) (ED_EOT e)]
              ++ varPart ++ content (ED_UserData e))
      | _, _ => Err (Errorf "marshal ED: DestinationRef and TPDUNR required: %w"
                       [Sentinel ErrMissingRequiredField])
      end
  end.

Definition AK_MarshalBinary (a : option AK) : outcome bytes :=
  match a with
  | None => Err (Errorf "marshal AK: %w" [Sentinel ErrNilReceiver])
  | Some a =>
      let! varPart := wrapf "marshal AK: %w" (encodeVariablePart (AK_Parameters a)) in
      let li := 4 + len varPart in
      if MaxLI <? li
      then Err (Errorf "marshal AK: header length %d > %d: %w" [Sentinel ErrInvalidLI]) else
      Ok ([u8 li; Z.lor 96 (Z.land (AK_CDT a) 15)]
          ++ BigEndian_PutUint16 (AK_DestinationRef a) ++ [AK_YRTUNR a] ++ varPart)
  end.

Definition EA_MarshalBinary (e : option EA) : outcome bytes :=
  match e with
  | None => Err (Errorf "marshal EA: %w" [Sentinel ErrNilReceiver])
  | Some e =>
      let! varPart := wrapf "marshal EA: %w" (encodeVariablePart (EA_Parameters e)) in
      let li := 4 + len varPart in
      if MaxLI <? li
      then Err (Errorf "marshal EA: header length %d > %d: %w" [Sentinel ErrInvalidLI]) else
      Ok ([u8 li; 32]
          ++ BigEndian_PutUint16 (EA_DestinationRef e) ++ [EA_YREDTUNR e] ++ varPart)
  end.

Definition RJ_MarshalBinary (r : option RJ) : outcome bytes :=
  match r with
  | None => Err (Errorf "marshal RJ: %w" [Sentinel ErrNilReceiver])
  | Some r =>
      Ok ([4; Z.lor 80 (Z.land (RJ_CDT r) 15)]
          ++ BigEndian_PutUint16 (RJ_DestinationRef r) ++ [RJ_YRTUNR r])
  end.

Definition ER_MarshalBinary (e : option ER) : outcome bytes :=
  match e with
  | None => Err (Errorf "marshal ER: %w" [Sentinel ErrNilReceiver])
  | Some e =>
      let! varPart := wrapf "marshal ER: %w" (encodeVariablePart (ER_Parameters e)) in
      let li := 4 + len varPart in
      if MaxLI <? li
      then Err (Errorf "marshal ER: header length %d > %d: %w" [Sentinel ErrInvalidLI]) else
      Ok ([u8 li; 112]
          ++ BigEndian_PutUint16 (ER_DestinationRef e) ++ [ER_RejectCause e] ++ varPart)
  end.
