(* ===== verification/Codec.v ===== *)
(** * Decoders and encoders against the wire format

    For every TPDU type, the octets of a well-formed TPDU are written once
    ([DR_wire] and its siblings); a decoder accepts exactly those octets and an
    encoder produces them.  Round trips, in both directions, follow. *)

From S2P Require Import Prelude Errors Types Wire PreferredMax Params Decode Encode.

(** ** The tail of a TPDU: variable part, then user data *)

(** The variable part and user data of a buffer, for a parser [parse] of the
    variable part. *)
Lemma split_tail (hdr rest : bytes) h :
  len hdr <= h <= len hdr + len rest ->
  exists var ud, rest = var ++ ud /\ h = len hdr + len var /\
    slice (hdr ++ rest) (len hdr) h = Ok var /\
    slice (hdr ++ rest) h (len (hdr ++ rest)) = Ok ud.
Proof.
  intros Hh. exists (take (Z.to_nat (h - len hdr)) rest), (drop (Z.to_nat (h - len hdr)) rest).
  assert (h = len hdr + len (take (Z.to_nat (h - len hdr)) rest)) as Hlen.
  { unfold len in *. rewrite length_take. lia. }
  split_and!; [by rewrite take_drop|done| |].
  - rewrite <- (take_drop (Z.to_nat (h - len hdr)) rest) at 1. by apply slice_app.
  - rewrite <- (take_drop (Z.to_nat (h - len hdr)) rest) at 1 2. rewrite app_assoc.
    apply slice_suffix; rewrite !len_app; lia.
Qed.

Lemma decodeParameters_Ok what hdr rest h ps :
  bytes_ok rest -> len hdr <= h <= len hdr + len rest ->
  decodeParameters what (hdr ++ rest) (len hdr) h = Ok ps <->
  exists ud, rest = tlvs ps ++ ud /\ h = len hdr + len (tlvs ps) /\ Forall parsed ps /\
    slice (hdr ++ rest) h (len (hdr ++ rest)) = Ok ud.
Proof.
  intros Hok Hh. destruct (split_tail hdr rest h Hh) as (var & ud & -> & -> & Hvar & Hud).
  apply bytes_ok_app in Hok as [Hv _]. unfold decodeParameters. rewrite Hvar. cbn [obind].
  destruct (len hdr <? len hdr + len var) eqn:E.
  - rewrite wrapf_Ok, parseVariablePart_Ok by done. split.
    + intros [-> Hps]. exists ud. by split_and!.
    + intros (ud' & Heq & Hlen & Hps & _). split; [|done].
      apply (f_equal (take (length var))) in Heq. rewrite take_app_length in Heq. rewrite Heq.
      replace (length var) with (length (tlvs ps)) by (unfold len in *; lia).
      by rewrite take_app_length.
  - assert (var = []) as -> by (apply len_zero; len_pose; blia). split.
    + intros [= <-]. exists ud. by split_and!.
    + intros (ud' & _ & Hlen & _ & _). rewrite len_nil in Hlen.
      destruct ps as [|p ps]; [done|]. rewrite tlvs_cons, !len_cons in Hlen. len_lia.
Qed.

(** The two directions of the tail, for a header of [n] octets. *)
Lemma params_tail_inv what hdr rest n h ps :
  n = len hdr -> bytes_ok rest -> n <= h <= n + len rest ->
  decodeParameters what (hdr ++ rest) n h = Ok ps ->
  exists ud, rest = tlvs ps ++ ud /\ h = n + len (tlvs ps) /\ Forall parsed ps /\
    forall ud', slice (hdr ++ rest) h (len (hdr ++ rest)) = Ok ud' -> ud' = ud.
Proof.
  intros -> Hok Hh H. apply decodeParameters_Ok in H as (ud & ? & ? & ? & Hud); [|done|done].
  exists ud. split_and!; try done. intros ud'. rewrite Hud. by intros [= ->].
Qed.

Lemma params_tail what hdr ps ud n h :
  n = len hdr -> h = n + len (tlvs ps) -> Forall parsed ps -> bytes_ok ud ->
  decodeParameters what (hdr ++ tlvs ps ++ ud) n h = Ok ps /\
  slice (hdr ++ tlvs ps ++ ud) h (len (hdr ++ tlvs ps ++ ud)) = Ok ud.
Proof.
  intros -> -> Hps Hud.
  assert (slice (hdr ++ tlvs ps ++ ud) (len hdr + len (tlvs ps)) (len (hdr ++ tlvs ps ++ ud)) = Ok ud)
    as Hs by (rewrite app_assoc; apply slice_suffix; rewrite !len_app; lia).
  split; [|done]. apply decodeParameters_Ok.
  - apply bytes_ok_app. split; [by apply tlvs_bytes_ok|done].
  - rewrite len_app. len_pose. lia.
  - by exists ud.
Qed.

(** The same for the CR/CC variable part. *)
Definition decodeCRCC (what : string) (b : bytes) (headerLen : Z) : outcome crccVariableResult :=
  if 7 <? headerLen then
    let! variable := slice b 7 headerLen in
    wrapf what (parseCRCCVariablePart variable)
  else Ok empty_crcc.

Lemma decodeCRCC_Ok what hdr rest h r :
  len hdr = 7 -> 7 <= h <= 7 + len rest ->
  decodeCRCC what (hdr ++ rest) h = Ok r <->
  exists var ud, rest = var ++ ud /\ h = 7 + len var /\ parseCRCCVariablePart var = Ok r /\
    slice (hdr ++ rest) h (len (hdr ++ rest)) = Ok ud.
Proof.
  intros H7 Hh. destruct (split_tail hdr rest h) as (var & ud & -> & -> & Hvar & Hud); [lia|].
  unfold decodeCRCC. rewrite <- H7 in *. rewrite Hvar. cbn [obind].
  assert (forall var' ud', var ++ ud = var' ++ ud' -> len hdr + len var = len hdr + len var' ->
            var = var') as Hsplit.
  { intros var' ud' Heq Hlen. apply app_inj_1 in Heq as [? _]; [done|]. unfold len in *. lia. }
  destruct (len hdr <? len hdr + len var) eqn:E.
  - rewrite wrapf_Ok. split; [intros H; by exists var, ud|].
    intros (var' & ud' & Heq & Hlen & Hp & _). by rewrite (Hsplit var' ud').
  - assert (var = []) as -> by (apply len_zero; len_pose; blia). split.
    + intros [= <-]. by exists [], ud.
    + intros (var' & ud' & Heq & Hlen & Hp & _).
      rewrite <- (Hsplit var' ud') in Hp by done. cbn in Hp. by injection Hp as <-.
Qed.

(** ** Wire formats *)

Definition DR_wire (dst src reason : Z) (ps : list Param) (ud : bytes) : bytes :=
  [6 + len (tlvs ps); 128] ++ BigEndian_PutUint16 dst ++ BigEndian_PutUint16 src ++ [reason]
  ++ tlvs ps ++ ud.

Definition DC_wire (dst src : Z) (ps : list Param) (trail : bytes) : bytes :=
  [5 + len (tlvs ps); 192] ++ BigEndian_PutUint16 dst ++ BigEndian_PutUint16 src ++ tlvs ps ++ trail.

(** ER, AK and EA share a layout: octet 2, a reference, one octet, parameters;
    octets beyond the header are ignored by the decoders. *)
Definition ref_octet_wire (octet2 dst x : Z) (ps : list Param) (trail : bytes) : bytes :=
  [4 + len (tlvs ps); octet2] ++ BigEndian_PutUint16 dst ++ [x] ++ tlvs ps ++ trail.

(** A TPDU number of seven bits with EOT in the eighth. *)
Definition nr_octet (nr : Z) (eot : bool) : Z := if eot then Z.lor nr 128 else nr.

Definition DT_minimal_wire (roa nr : Z) (eot : bool) (ud : bytes) : bytes :=
  [2; 240 + roa; nr_octet nr eot] ++ ud.

Definition DT_normal_wire (roa dst nr : Z) (eot : bool) (ps : list Param) (ud : bytes) : bytes :=
  ref_octet_wire (240 + roa) dst (nr_octet nr eot) ps ud.

(** The CR/CC layout around a variable part. *)
Definition CRCC_wire (octet2 dst src class : Z) (var ud : bytes) : bytes :=
  [6 + len var; octet2] ++ BigEndian_PutUint16 dst ++ BigEndian_PutUint16 src ++ [class]
  ++ var ++ ud.

(** Take a buffer apart octet by octet, the missing octets being refuted by a
    length hypothesis. *)
Ltac octets b n :=
  lazymatch n with
  | O => idtac
  | S ?m =>
      let x := fresh "x" in let b' := fresh "rest" in
      destruct b as [|x b']; [exfalso; rewrite ?len_cons, ?len_nil in *; len_pose; lia|];
      octets b' m
  end.

(** The octets of a list known to be octets. *)
Ltac bytes_split :=
  repeat match goal with
  | H : bytes_ok (_ :: _) |- _ => apply bytes_ok_cons in H as [? H]
  end.

(** Evaluate the fixed part of a decoder on explicit octets, in a goal or in
    the equations of a run. *)
Ltac decode_fixed :=
  repeat first
    [ progress go_index
    | progress cbn [obind wrapf]
    | rewrite slice_2_4 | rewrite slice_4_6
    | rewrite BigEndian_Uint16_pair by assumption ].

Ltac decode_inv H :=
  go_inv H;
  repeat match goal with
  | E : index (?a :: ?l) ?i = Ok ?v |- _ =>
      erewrite (index_Ok (a :: l) i) in E by (lia || reflexivity); injection E as <-
  | E : slice (_ :: _) 2 4 = Ok _ |- _ => rewrite slice_2_4 in E; injection E as <-
  | E : slice (_ :: _) 4 6 = Ok _ |- _ => rewrite slice_4_6 in E; injection E as <-
  | E : BigEndian_Uint16 [_; _] = Ok _ |- _ =>
      rewrite BigEndian_Uint16_pair in E by assumption; injection E as <-
  | E : headerBounds _ _ _ = Ok _ |- _ => apply headerBounds_Ok in E as (? & ? & ->)
  | E : ReadLI (_ :: _) = Ok _ |- _ =>
      apply ReadLI_Ok in E as (? & E & ?); injection E as <- <-
  end;
  injection H as <-; breflect.

(** Lengths of explicit buffers, then arithmetic. *)
Ltac buf_lia := rewrite ?len_cons, ?len_app, ?len_nil in *; len_pose; lia.

(** Pass the guards of a decoder on a wire-format buffer. *)
Ltac decode_guards :=
  repeat first
    [ match goal with
      | |- context [if (len ?b <? ?n) then _ else _] =>
          let H := fresh in
          assert ((len b <? n) = false) as H by (apply Z.ltb_ge; buf_lia); rewrite H; clear H
      | |- context [if (?n <? len ?b) then _ else _] =>
          let H := fresh in
          assert ((n <? len b) = false) as H by (apply Z.ltb_ge; buf_lia); rewrite H; clear H
      | |- context [ReadLI (?x :: ?l)] => rewrite (ReadLI_cons x l) by (unfold MaxLI; lia)
      | |- context [headerBounds ?b ?li ?n] =>
          rewrite (proj2 (headerBounds_Ok b li n (1 + li)))
            by (split_and!; [buf_lia|buf_lia|reflexivity])
      end
    | rewrite Z.eqb_refl; cbn [negb]
    | progress decode_fixed ].

(** Split the two octets of the words of a wire format. *)
Ltac split_words :=
  repeat match goal with
  | H : is_u16 ?v |- context [BigEndian_PutUint16 ?v] =>
      let h := fresh "h" in let l := fresh "l" in let E := fresh in
      destruct (BigEndian_PutUint16_inv v H) as (h & l & E & ? & ? & ->);
      rewrite E in *; clear E H
  end; cbn [app] in *; bytes_split.

(** Read the tail of a wire-format buffer, whatever the length of its fixed
    part. *)
Ltac decode_tail :=
  let go w hdr ps ud n h :=
    let Hp := fresh in let Hu := fresh in
    destruct (params_tail w hdr ps ud n h) as [Hp Hu];
      [reflexivity|lia|assumption
      |first [by constructor
             |match goal with H : bytes_ok (tlvs _ ++ _) |- _ => by apply bytes_ok_app in H as [_ ?] end]
      |]; cbn [app] in *; rewrite Hp; cbn [obind]; (try rewrite Hu) in
  match goal with
  | |- context [decodeParameters ?w (?a :: ?b :: ?c :: ?d :: ?e :: ?f :: ?g :: tlvs ?ps ++ ?ud) ?n ?h] =>
      go w [a; b; c; d; e; f; g] ps ud n h
  | |- context [decodeParameters ?w (?a :: ?b :: ?c :: ?d :: ?e :: ?f :: tlvs ?ps ++ ?ud) ?n ?h] =>
      go w [a; b; c; d; e; f] ps ud n h
  | |- context [decodeParameters ?w (?a :: ?b :: ?c :: ?d :: ?e :: tlvs ?ps ++ ?ud) ?n ?h] =>
      go w [a; b; c; d; e] ps ud n h
  | |- context [decodeParameters ?w (?a :: ?b :: ?c :: tlvs ?ps ++ ?ud) ?n ?h] =>
      go w [a; b; c] ps ud n h
  end; cbn [obind].

(** Read the tail off a successful run. *)
Ltac decode_tail_inv :=
  let go E hdr :=
    apply (params_tail_inv _ hdr) in E
      as (? & -> & ? & ? & ?); [|reflexivity|assumption|rewrite ?len_cons in *; lia] in
  match goal with
  | E : decodeParameters _ (?a :: ?b :: ?c :: ?d :: ?e :: ?f :: ?g :: _) 7 _ = Ok _ |- _ =>
      go E [a; b; c; d; e; f; g]
  | E : decodeParameters _ (?a :: ?b :: ?c :: ?d :: ?e :: ?f :: _) 6 _ = Ok _ |- _ =>
      go E [a; b; c; d; e; f]
  | E : decodeParameters _ (?a :: ?b :: ?c :: ?d :: ?e :: _) 5 _ = Ok _ |- _ =>
      go E [a; b; c; d; e]
  | E : decodeParameters _ (?a :: ?b :: ?c :: _) 3 _ = Ok _ |- _ => go E [a; b; c]
  end;
  try match goal with
  | Hu : forall u, slice _ _ _ = Ok u -> u = _, E : slice _ _ _ = Ok _ |- _ =>
      apply Hu in E as ->
  end.

(** The bit fields of octet 2 and of the TPDU number octet. *)
Lemma nibbles c : is_u8 c -> c = Z.lor (Z.land c 240) (Z.land c 15) /\ 0 <= Z.land c 15 < 16.
Proof.
  intros Hc. split; [|by apply land_low_range with (n := 4)].
  revert c Hc. enough (forall c, is_u8 c -> (c =? Z.lor (Z.land c 240) (Z.land c 15)) = true) as H.
  { intros c Hc. specialize (H c Hc). blia. }
  by apply octet_forall.
Qed.

(** A type nibble and a credit put together, for the four types with credit. *)
Lemma credit_octet k cdt :
  k ∈ [96; 80; 208; 224] -> 0 <= cdt < 16 ->
  Z.land (Z.lor k cdt) 240 = k /\ Z.land (Z.lor k cdt) 15 = cdt /\ is_u8 (Z.lor k cdt).
Proof.
  intros Hk Hcdt.
  assert (forall c, is_u8 c -> forallb (fun k => (16 <=? c) || ((Z.land (Z.lor k c) 240 =? k) &&
    (Z.land (Z.lor k c) 15 =? c) && (0 <=? Z.lor k c) && (Z.lor k c <? 256))) [96; 80; 208; 224] = true)
    as Hall by (by apply octet_forall).
  specialize (Hall cdt ltac:(unfold is_u8; lia)). rewrite forallb_forall in Hall.
  specialize (Hall k ltac:(by apply list_elem_of_In)).
  apply orb_prop in Hall as [?|?]; [blia|]. breflect. unfold is_u8. lia.
Qed.

Lemma nr_octet_fields nr eot :
  0 <= nr < 128 ->
  Z.land (nr_octet nr eot) 127 = nr /\ negb (Z.land (nr_octet nr eot) 128 =? 0) = eot /\
  is_u8 (nr_octet nr eot).
Proof.
  intros Hnr.
  assert (forall c, is_u8 c -> forallb (fun eot => (128 <=? c) ||
    ((Z.land (nr_octet c eot) 127 =? c) && (Bool.eqb (negb (Z.land (nr_octet c eot) 128 =? 0)) eot)
     && (0 <=? nr_octet c eot) && (nr_octet c eot <? 256))) [true; false] = true)
    as Hall by (by apply octet_forall).
  specialize (Hall nr ltac:(unfold is_u8; lia)). rewrite forallb_forall in Hall.
  specialize (Hall eot ltac:(destruct eot; cbn; auto)).
  apply orb_prop in Hall as [?|?]; [blia|]. breflect. unfold is_u8.
  split_and!; [lia| |lia|lia]. by apply Bool.eqb_prop.
Qed.

Lemma nr_octet_of c :
  is_u8 c -> c = nr_octet (Z.land c 127) (negb (Z.land c 128 =? 0)) /\ 0 <= Z.land c 127 < 128.
Proof.
  intros Hc. split; [|by apply land_low_range with (n := 7)]. revert c Hc.
  enough (forall c, is_u8 c -> (c =? nr_octet (Z.land c 127) (negb (Z.land c 128 =? 0))) = true) as H.
  { intros c Hc. specialize (H c Hc). blia. }
  by apply octet_forall.
Qed.

Lemma roa_octet c : is_u8 c -> Z.land c 254 = 240 <-> c = 240 \/ c = 241.
Proof.
  intros Hc. enough (Bool.eqb (Z.land c 254 =? 240) ((c =? 240) || (c =? 241)) = true) as H.
  { destruct (Z.eqb_spec (Z.land c 254) 240), (Z.eqb_spec c 240), (Z.eqb_spec c 241);
      try discriminate H; tauto. }
  revert c Hc. by apply octet_forall.
Qed.

Lemma DecodeDR_Ok b d :
  bytes_ok b ->
  DecodeDR b = Ok d <->
  exists dst src reason ps ud,
    b = DR_wire dst src reason ps ud /\ is_u16 dst /\ is_u16 src /\ Forall parsed ps /\
    6 + len (tlvs ps) <= 254 /\ d = mkDR dst src reason ps (Some ud).
Proof.
  intros Hb. unfold DecodeDR, drFixedPartLength, MaxLI in *. split.
  - intros H. destruct (len b <? 1 + 6) eqn:Hlen; [done|]. breflect. octets b 7%nat. bytes_split.
    decode_inv H. subst x0.
    decode_tail_inv.
    unfold MaxLI in *.
    eexists (x1 * 256 + x2), (x3 * 256 + x4), x5, _, _. split_and!; [|auto with cotp|auto with cotp|eassumption|lia|].
    + unfold DR_wire. rewrite !BigEndian_PutUint16_pair by done. cbn. repeat f_equal. lia.
    + done.
  - intros (dst & src & reason & ps & ud & -> & Hdst & Hsrc & Hps & Hlen & ->).
    unfold DR_wire in *. split_words. decode_guards. by decode_tail.
Qed.

Lemma DecodeDC_Ok b d :
  bytes_ok b ->
  DecodeDC b = Ok d <->
  exists dst src ps trail,
    b = DC_wire dst src ps trail /\ is_u16 dst /\ is_u16 src /\ Forall parsed ps /\
    5 + len (tlvs ps) <= 254 /\ d = mkDC dst src ps.
Proof.
  intros Hb. unfold DecodeDC, dcFixedPartLength, MaxLI in *. split.
  - intros H. destruct (len b <? 1 + 5) eqn:Hlen; [done|]. breflect. octets b 6%nat. bytes_split.
    decode_inv H. subst x0.
    decode_tail_inv. unfold MaxLI in *.
    eexists (x1 * 256 + x2), (x3 * 256 + x4), _, _.
    split_and!; [|auto with cotp|auto with cotp|eassumption|lia|done].
    unfold DC_wire. rewrite !BigEndian_PutUint16_pair by done. cbn. repeat f_equal. lia.
  - intros (dst & src & ps & ud & -> & Hdst & Hsrc & Hps & Hlen & ->).
    unfold DC_wire in *. split_words. decode_guards. by decode_tail.
Qed.

(** Close the wire equation of a layout with one word. *)
Ltac wire_eq w :=
  unfold w; rewrite !BigEndian_PutUint16_pair by assumption; cbn; repeat f_equal; lia.

Lemma DecodeER_Ok b e :
  bytes_ok b ->
  DecodeER b = Ok e <->
  exists dst cause ps trail,
    b = ref_octet_wire 112 dst cause ps trail /\ is_u16 dst /\ Forall parsed ps /\
    4 + len (tlvs ps) <= 254 /\ e = mkER dst cause ps.
Proof.
  intros Hb. unfold DecodeER, erFixedPartLength. split.
  - intros H. destruct (len b <? 1 + 4) eqn:Hlen; [done|]. breflect. octets b 5%nat. bytes_split.
    decode_inv H. subst x0. decode_tail_inv. unfold MaxLI in *.
    eexists (x1 * 256 + x2), x3, _, _. split_and!; [|auto with cotp|eassumption|lia|done].
    wire_eq ref_octet_wire.
  - intros (dst & cause & ps & ud & -> & Hdst & Hps & Hlen & ->).
    unfold ref_octet_wire in *. split_words. decode_guards. by decode_tail.
Qed.

Lemma DecodeEA_Ok b e :
  bytes_ok b ->
  DecodeEA b = Ok e <->
  exists dst nr ps trail,
    b = ref_octet_wire 32 dst nr ps trail /\ is_u16 dst /\ Forall parsed ps /\
    4 + len (tlvs ps) <= 254 /\ e = mkEA dst nr ps.
Proof.
  intros Hb. unfold DecodeEA, eaFixedPartLength. split.
  - intros H. destruct (len b <? 1 + 4) eqn:Hlen; [done|]. breflect. octets b 5%nat. bytes_split.
    decode_inv H. subst x0. decode_tail_inv. unfold MaxLI in *.
    eexists (x1 * 256 + x2), x3, _, _. split_and!; [|auto with cotp|eassumption|lia|done].
    wire_eq ref_octet_wire.
  - intros (dst & nr & ps & ud & -> & Hdst & Hps & Hlen & ->).
    unfold ref_octet_wire in *. split_words. decode_guards. by decode_tail.
Qed.

(** Replace octet 2 of a run by its type nibble and credit. *)
Ltac credit_inv x :=
  let Hn := fresh in let Hr := fresh in
  destruct (nibbles x ltac:(assumption)) as [Hn Hr];
  match goal with H : Z.land x 240 = _ |- _ => rewrite H in Hn end.

Lemma DecodeAK_Ok b a :
  bytes_ok b ->
  DecodeAK b = Ok a <->
  exists cdt dst nr ps trail,
    b = ref_octet_wire (Z.lor 96 cdt) dst nr ps trail /\ 0 <= cdt < 16 /\ is_u16 dst /\
    Forall parsed ps /\ 4 + len (tlvs ps) <= 254 /\ a = mkAK cdt dst nr ps.
Proof.
  intros Hb. unfold DecodeAK, akFixedPartLength. split.
  - intros H. destruct (len b <? 1 + 4) eqn:Hlen; [done|]. breflect. octets b 5%nat. bytes_split.
    decode_inv H. credit_inv x0. decode_tail_inv. unfold MaxLI in *.
    eexists (Z.land x0 15), (x1 * 256 + x2), x3, _, _.
    split_and!; [|lia|lia|auto with cotp|eassumption|lia|done].
    wire_eq ref_octet_wire.
  - intros (cdt & dst & nr & ps & ud & -> & Hcdt & Hdst & Hps & Hlen & ->).
    destruct (credit_octet 96 cdt) as (Ek & Ec & _); [set_solver|done|].
    unfold ref_octet_wire in *. split_words. decode_guards. rewrite Ek, Ec. decode_guards.
    by decode_tail.
Qed.

Lemma DecodeRJ_Ok b r :
  bytes_ok b ->
  DecodeRJ b = Ok r <->
  exists cdt dst nr trail,
    b = ref_octet_wire (Z.lor 80 cdt) dst nr [] trail /\ 0 <= cdt < 16 /\ is_u16 dst /\
    r = mkRJ cdt dst nr.
Proof.
  intros Hb. unfold DecodeRJ, rjFixedPartLength. split.
  - intros H. destruct (len b <? 1 + 4) eqn:Hlen; [done|]. breflect. octets b 5%nat. bytes_split.
    decode_inv H. credit_inv x0.
    eexists (Z.land x0 15), (x1 * 256 + x2), x3, _.
    split_and!; [|lia|lia|auto with cotp|done]. replace x with 4 by lia.
    wire_eq ref_octet_wire.
  - intros (cdt & dst & nr & ud & -> & Hcdt & Hdst & ->).
    destruct (credit_octet 80 cdt) as (Ek & Ec & _); [set_solver|done|].
    unfold ref_octet_wire in *. change (4 + len (tlvs [])) with 4 in *. cbn [tlvs flat_map app] in *.
    split_words. decode_guards. change (4 <? 4) with false. decode_guards.
    rewrite Ek, Ec. by decode_guards.
Qed.

Lemma DecodeED_Ok b e :
  bytes_ok b ->
  DecodeED b = Ok e <->
  exists dst nr eot ps ud,
    b = ref_octet_wire 16 dst (nr_octet nr eot) ps ud /\ is_u16 dst /\ 0 <= nr < 128 /\
    Forall parsed ps /\ 4 + len (tlvs ps) <= 254 /\ 1 <= len ud <= 16 /\
    e = mkED (Some dst) (Some nr) eot ps (Some ud).
Proof.
  intros Hb. unfold DecodeED, edFixedPartLength, MinEDUserDataLen, MaxEDUserDataLen. split.
  - intros H. destruct (len b <? 1 + 4) eqn:Hlen; [done|]. breflect. octets b 5%nat. bytes_split.
    decode_inv H. subst x0. decode_tail_inv. unfold MaxLI in *.
    destruct (nr_octet_of x3) as [Hnr Hr]; [done|].
    eexists (x1 * 256 + x2), (Z.land x3 127), (negb (Z.land x3 128 =? 0)), _, _.
    split_and!; [|auto with cotp|lia|lia|eassumption|lia| | |reflexivity]; [|blia|blia].
    rewrite <- Hnr. wire_eq ref_octet_wire.
  - intros (dst & nr & eot & ps & ud & -> & Hdst & Hnr & Hps & Hlen & Hud & ->).
    destruct (nr_octet_fields nr eot Hnr) as (En & Ee & _).
    unfold ref_octet_wire in *. split_words. decode_guards. rewrite En, Ee. decode_tail.
    assert ((len ud <? 1) || (16 <? len ud) = false) as -> by (rewrite orb_false_iff, !Z.ltb_ge; lia).
    done.
Qed.

(** ** DT: the minimal and the normal format *)

Lemma tlvs_len_zero ps : len (tlvs ps) = 0 -> ps = [].
Proof. destruct ps as [|p ps]; [done|]. rewrite tlvs_cons. intros. exfalso. buf_lia. Qed.

Lemma roa_cases c : is_u8 c -> Z.land c 254 = 240 -> exists roa, c = 240 + roa /\ (roa = 0 \/ roa = 1).
Proof. intros Hc [->| ->]%roa_octet; [exists 0|exists 1|]; auto. Qed.

Lemma roa_land roa : roa = 0 \/ roa = 1 -> Z.land (240 + roa) 254 = 240.
Proof. by intros [->| ->]. Qed.

Lemma DecodeDT_Ok b d :
  bytes_ok b ->
  DecodeDT b = Ok d <->
  exists roa nr eot ps ud, (roa = 0 \/ roa = 1) /\ 0 <= nr < 128 /\
    ((b = DT_minimal_wire roa nr eot ud /\ ps = [] /\ d = mkDT eot (Some nr) None ps (Some ud)) \/
     (exists dst, b = DT_normal_wire roa dst nr eot ps ud /\ is_u16 dst /\ Forall parsed ps /\
        4 + len (tlvs ps) <= 254 /\ d = mkDT eot (Some nr) (Some dst) ps (Some ud))).
Proof.
  intros Hb. unfold DecodeDT, MinHeaderLength, dtMinimalFixedLength, dtNormalFixedLength. split.
  - intros H. destruct (len b <? 2) eqn:Hlen; [done|]. breflect.
    rewrite obind_Ok in H. destruct H as (li & Hli & H). rewrite wrapf_Ok in Hli.
    apply ReadLI_Ok in Hli as (rest & -> & Hli). unfold MaxLI in Hli.
    destruct (len (li :: rest) <? 1 + li) eqn:Hh; [done|]. breflect.
    destruct (li =? 2) eqn:E2; [|destruct (4 <=? li) eqn:E4; [|by go_inv H]]; breflect.
    + subst li. octets rest 2%nat. bytes_split. decode_inv H.
      destruct (roa_cases x) as (roa & -> & Hroa); [done|done|].
      destruct (nr_octet_of x0) as [Hnr Hr]; [done|].
      decode_tail_inv.
      match goal with H : _ = 3 + len (tlvs ?p) |- _ =>
        assert (p = []) as -> by (apply tlvs_len_zero; lia) end.
      eexists roa, (Z.land x0 127), _, [], _. split_and!; [done|lia|lia|].
      left. split_and!; [|done|reflexivity]. unfold DT_minimal_wire. rewrite <- Hnr. done.
    + octets rest 4%nat. bytes_split. decode_inv H.
      destruct (roa_cases x) as (roa & -> & Hroa); [done|done|].
      destruct (nr_octet_of x2) as [Hnr Hr]; [done|]. decode_tail_inv.
      eexists roa, (Z.land x2 127), (negb (Z.land x2 128 =? 0)), _, _. split_and!; [done|lia|lia|].
      right. eexists (x0 * 256 + x1). split_and!; [|auto with cotp|eassumption|lia|reflexivity].
      unfold DT_normal_wire. rewrite <- Hnr. wire_eq ref_octet_wire.
  - intros (roa & nr & eot & ps & ud & Hroa & Hnr & [(-> & -> & ->)|(dst & -> & Hdst & Hps & Hlen & ->)]);
      destruct (nr_octet_fields nr eot Hnr) as (En & Ee & _); pose proof (roa_land roa Hroa) as Er.
    + unfold DT_minimal_wire in *. cbn [app] in *. bytes_split. decode_guards.
      rewrite Er. decode_guards. change (2 =? 2) with true. cbn iota.
      change (1 + 2 <? 1 + 2) with false. cbn iota. decode_guards. rewrite En, Ee.
      unfold decodeParameters. change (3 <? 1 + 2) with false. cbn [obind].
      by rewrite (slice_suffix [2; 240 + roa; nr_octet nr eot] ud) by (cbn; buf_lia).
    + unfold DT_normal_wire, ref_octet_wire in *. split_words. decode_guards.
      rewrite Er. decode_guards. len_pose. if_false. if_true. if_false. decode_guards.
      rewrite En, Ee. by decode_tail.
Qed.

(** ** CR and CC *)

Lemma crcc_tail_inv what hdr rest h r :
  len hdr = 7 -> 7 <= h <= 7 + len rest ->
  decodeCRCC what (hdr ++ rest) h = Ok r ->
  exists var ud, rest = var ++ ud /\ h = 7 + len var /\ parseCRCCVariablePart var = Ok r /\
    forall ud', slice (hdr ++ rest) h (len (hdr ++ rest)) = Ok ud' -> ud' = ud.
Proof.
  intros H7 Hh H. apply decodeCRCC_Ok in H as (var & ud & ? & ? & ? & Hud); [|done|done].
  exists var, ud. split_and!; try done. intros ud'. rewrite Hud. by intros [= ->].
Qed.

Lemma crcc_tail what hdr var ud h r :
  len hdr = 7 -> h = 7 + len var -> parseCRCCVariablePart var = Ok r ->
  decodeCRCC what (hdr ++ var ++ ud) h = Ok r /\
  slice (hdr ++ var ++ ud) h (len (hdr ++ var ++ ud)) = Ok ud.
Proof.
  intros H7 -> Hr.
  assert (slice (hdr ++ var ++ ud) (7 + len var) (len (hdr ++ var ++ ud)) = Ok ud)
    as Hs by (rewrite app_assoc; apply slice_suffix; rewrite !len_app; lia).
  split; [|done]. apply decodeCRCC_Ok; [done|rewrite len_app; len_pose; lia|].
  by exists var, ud.
Qed.

(** The decoders, with the variable part folded into [decodeCRCC]. *)
Ltac fold_crcc what :=
  repeat match goal with
  | H : context [if 7 <? ?h then let! v := slice ?b 7 ?h in wrapf _ (parseCRCCVariablePart v)
                 else Ok empty_crcc] |- _ =>
      change (if 7 <? h then let! v := slice b 7 h in wrapf what (parseCRCCVariablePart v)
              else Ok empty_crcc) with (decodeCRCC what b h) in H
  | |- context [if 7 <? ?h then let! v := slice ?b 7 ?h in wrapf _ (parseCRCCVariablePart v)
                else Ok empty_crcc] =>
      change (if 7 <? h then let! v := slice b 7 h in wrapf what (parseCRCCVariablePart v)
              else Ok empty_crcc) with (decodeCRCC what b h)
  end.

Ltac decode_crcc_tail r :=
  match goal with
  | |- context [decodeCRCC ?w (?a :: ?b :: ?c :: ?d :: ?e :: ?f :: ?g :: ?var ++ ?ud) ?h] =>
      let Hp := fresh in let Hu := fresh in
      destruct (crcc_tail w [a; b; c; d; e; f; g] var ud h r) as [Hp Hu]; [done|lia|done|];
      cbn [app] in Hp, Hu; rewrite Hp; cbn [obind]; rewrite Hu; clear Hp Hu
  end.

Lemma DecodeCR_Ok b c :
  bytes_ok b ->
  DecodeCR b = Ok c <->
  exists cdt dst src class var ud r,
    b = CRCC_wire (Z.lor 224 cdt) dst src class var ud /\ 0 <= cdt < 16 /\ is_u16 dst /\
    is_u16 src /\ 6 + len var <= 254 /\ len b <= 128 /\ parseCRCCVariablePart var = Ok r /\
    c = mkCR cdt dst src class (parameters r) (callingSelector r) (calledSelector r)
          (tpduSize r) (preferredMaxTPDUSize r) (Some ud).
Proof.
  intros Hb. unfold DecodeCR, crFixedPartLength, MaxCRTPDULength. split.
  - intros H. destruct (len b <? 1 + 6) eqn:Hlen; [done|].
    destruct (128 <? len b) eqn:Hmax; [done|]. breflect. octets b 7%nat. bytes_split.
    decode_inv H. credit_inv x0. fold_crcc "decode CR: %w".
    match goal with E : decodeCRCC _ _ _ = Ok _ |- _ =>
      apply (crcc_tail_inv _ [x; x0; x1; x2; x3; x4; x5]) in E as (var & ud & -> & ? & Hp & Hud);
        [|done|rewrite ?len_cons in *; lia] end.
    match goal with E : slice _ _ _ = Ok _ |- _ => apply Hud in E as -> end. unfold MaxLI in *.
    eexists (Z.land x0 15), (x1 * 256 + x2), (x3 * 256 + x4), x5, var, ud, _.
    split_and!; [|lia|lia|auto with cotp|auto with cotp|lia|done|eassumption|reflexivity].
    wire_eq CRCC_wire.
  - intros (cdt & dst & src & class & var & ud & r & -> & Hcdt & Hdst & Hsrc & Hlen & Hmax & Hr & ->).
    destruct (credit_octet 224 cdt) as (Ek & Ec & _); [set_solver|done|].
    unfold CRCC_wire in *. split_words. decode_guards. rewrite Ek, Ec. decode_guards.
    fold_crcc "decode CR: %w".
    by decode_crcc_tail r.
Qed.

Lemma DecodeCC_Ok b c :
  bytes_ok b ->
  DecodeCC b = Ok c <->
  exists cdt dst src class var ud r,
    b = CRCC_wire (Z.lor 208 cdt) dst src class var ud /\ 0 <= cdt < 16 /\ is_u16 dst /\
    is_u16 src /\ 6 + len var <= 254 /\ parseCRCCVariablePart var = Ok r /\
    c = mkCC cdt dst src class (parameters r) (callingSelector r) (calledSelector r)
          (tpduSize r) (preferredMaxTPDUSize r) (Some ud).
Proof.
  intros Hb. unfold DecodeCC, ccFixedPartLength. split.
  - intros H. destruct (len b <? 1 + 6) eqn:Hlen; [done|]. breflect. octets b 7%nat. bytes_split.
    decode_inv H. credit_inv x0. fold_crcc "decode CC: %w".
    match goal with E : decodeCRCC _ _ _ = Ok _ |- _ =>
      apply (crcc_tail_inv _ [x; x0; x1; x2; x3; x4; x5]) in E as (var & ud & -> & ? & Hp & Hud);
        [|done|rewrite ?len_cons in *; lia] end.
    match goal with E : slice _ _ _ = Ok _ |- _ => apply Hud in E as -> end. unfold MaxLI in *.
    eexists (Z.land x0 15), (x1 * 256 + x2), (x3 * 256 + x4), x5, var, ud, _.
    split_and!; [|lia|lia|auto with cotp|auto with cotp|lia|eassumption|reflexivity].
    wire_eq CRCC_wire.
  - intros (cdt & dst & src & class & var & ud & r & -> & Hcdt & Hdst & Hsrc & Hlen & Hr & ->).
    destruct (credit_octet 208 cdt) as (Ek & Ec & _); [set_solver|done|].
    unfold CRCC_wire in *. split_words. decode_guards. rewrite Ek, Ec. decode_guards.
    fold_crcc "decode CC: %w".
    by decode_crcc_tail r.
Qed.
