(* ===== verification/RoundTrip.v ===== *)
(** * The codec as a whole

    [TPDU] is the sum of the ten structures; [Marshal] dispatches to the ten
    [MarshalBinary] methods and [decoded] is the [Decoded] value [Decode] fills
    for a structure.  The theorems: [Decode] never panics, it fills exactly one
    structure, it inverts [Marshal], and [Marshal] inverts it. *)

From S2P Require Import Prelude Errors Types Wire PreferredMax Params Decode Encode Codec.

(** ** Decode always returns *)

Lemma decodeParameters_returns what b from h :
  bytes_ok b -> 0 <= from -> h <= len b -> returns (decodeParameters what b from h).
Proof.
  intros Hb H0 Hh. unfold decodeParameters. destruct (from <? h) eqn:E; [|done]. breflect.
  apply returns_bind; [apply slice_returns; lia|]. intros v Hv.
  apply returns_wrapf, parseVariablePart_returns. by eapply slice_ok_bytes.
Qed.

(** What the guards passed so far say about lengths. *)
Ltac length_facts :=
  repeat match goal with
  | H : wrapf _ _ = Ok _ |- _ => rewrite wrapf_Ok in H
  | H : headerBounds _ _ _ = Ok _ |- _ => apply headerBounds_Ok in H as (? & ? & ->)
  | H : slice ?b ?i ?j = Ok ?s |- _ =>
      lazymatch goal with
      | _ : len s = _ |- _ => fail
      | _ => pose proof (slice_length b i j s H)
      end
  | H : ReadLI ?b = Ok ?li, Hb : bytes_ok ?b |- _ =>
      apply (ReadLI_range b li Hb) in H
  end; breflect.

Ltac decode_returns :=
  go_returns; length_facts;
  try first
    [ apply ReadLI_returns | apply headerBounds_returns
    | apply index_returns; lia | apply slice_returns; lia
    | apply BigEndian_Uint16_returns; lia
    | apply decodeParameters_returns; [assumption|lia|lia]
    | apply parseCRCC_returns; eapply slice_ok_bytes; eassumption ].

Lemma DecodeDR_returns b : bytes_ok b -> returns (DecodeDR b).
Proof. intros Hb. unfold DecodeDR, drFixedPartLength. decode_returns. Qed.

Lemma DecodeDC_returns b : bytes_ok b -> returns (DecodeDC b).
Proof. intros Hb. unfold DecodeDC, dcFixedPartLength. decode_returns. Qed.

Lemma DecodeER_returns b : bytes_ok b -> returns (DecodeER b).
Proof. intros Hb. unfold DecodeER, erFixedPartLength. decode_returns. Qed.

Lemma DecodeEA_returns b : bytes_ok b -> returns (DecodeEA b).
Proof. intros Hb. unfold DecodeEA, eaFixedPartLength. decode_returns. Qed.

Lemma DecodeAK_returns b : bytes_ok b -> returns (DecodeAK b).
Proof. intros Hb. unfold DecodeAK, akFixedPartLength. decode_returns. Qed.

Lemma DecodeRJ_returns b : bytes_ok b -> returns (DecodeRJ b).
Proof. intros Hb. unfold DecodeRJ, rjFixedPartLength. decode_returns. Qed.

Lemma DecodeED_returns b : bytes_ok b -> returns (DecodeED b).
Proof. intros Hb. unfold DecodeED, edFixedPartLength. decode_returns. Qed.

Lemma DecodeDT_returns b : bytes_ok b -> returns (DecodeDT b).
Proof.
  intros Hb. unfold DecodeDT, MinHeaderLength, dtMinimalFixedLength, dtNormalFixedLength.
  decode_returns.
Qed.

Lemma DecodeCR_returns b : bytes_ok b -> returns (DecodeCR b).
Proof.
  intros Hb. unfold DecodeCR, crFixedPartLength. decode_returns.
Qed.

Lemma DecodeCC_returns b : bytes_ok b -> returns (DecodeCC b).
Proof.
  intros Hb. unfold DecodeCC, ccFixedPartLength. decode_returns.
Qed.

#[export] Hint Resolve DecodeCR_returns DecodeCC_returns DecodeDT_returns DecodeDR_returns
  DecodeDC_returns DecodeER_returns DecodeED_returns DecodeAK_returns DecodeEA_returns
  DecodeRJ_returns : cotp.

(** ** The sum of the ten structures *)

Inductive TPDU :=
  | T_CR (c : CR)
  | T_CC (c : CC)
  | T_DT (d : DT)
  | T_DR (d : DR)
  | T_DC (d : DC)
  | T_ER (e : ER)
  | T_ED (e : ED)
  | T_AK (a : AK)
  | T_EA (e : EA)
  | T_RJ (r : RJ).

Definition Marshal (t : TPDU) : outcome bytes :=
  match t with
  | T_CR c => CR_MarshalBinary (Some c)
  | T_CC c => CC_MarshalBinary (Some c)
  | T_DT d => DT_MarshalBinary (Some d)
  | T_DR d => DR_MarshalBinary (Some d)
  | T_DC d => DC_MarshalBinary (Some d)
  | T_ER e => ER_MarshalBinary (Some e)
  | T_ED e => ED_MarshalBinary (Some e)
  | T_AK a => AK_MarshalBinary (Some a)
  | T_EA e => EA_MarshalBinary (Some e)
  | T_RJ r => RJ_MarshalBinary (Some r)
  end.

Definition tpdu_type (t : TPDU) : Z :=
  match t with
  | T_CR _ => TypeCR | T_CC _ => TypeCC | T_DT _ => TypeDT | T_DR _ => TypeDR
  | T_DC _ => TypeDC | T_ER _ => TypeER | T_ED _ => TypeED | T_AK _ => TypeAK
  | T_EA _ => TypeEA | T_RJ _ => TypeRJ
  end.

(** The [Decoded] value with this structure and nothing else. *)
Definition decoded (t : TPDU) : Decoded :=
  match t with
  | T_CR c => mkDecoded TypeCR (Some c) None None None None None None None None None None
  | T_CC c => mkDecoded TypeCC None (Some c) None None None None None None None None None
  | T_DT d => mkDecoded TypeDT None None (Some d) None None None None None None None None
  | T_DR d => mkDecoded TypeDR None None None (Some d) None None None None None None None
  | T_DC d => mkDecoded TypeDC None None None None (Some d) None None None None None None
  | T_ER e => mkDecoded TypeER None None None None None (Some e) None None None None None
  | T_ED e => mkDecoded TypeED None None None None None None (Some e) None None None None
  | T_AK a => mkDecoded TypeAK None None None None None None None (Some a) None None None
  | T_EA e => mkDecoded TypeEA None None None None None None None None (Some e) None None
  | T_RJ r => mkDecoded TypeRJ None None None None None None None None None (Some r) None
  end.

Definition TPDU_typed (t : TPDU) : Prop :=
  match t with
  | T_CR c => CR_typed c | T_CC c => CC_typed c | T_DT d => DT_typed d | T_DR d => DR_typed d
  | T_DC d => DC_typed d | T_ER e => ER_typed e | T_ED e => ED_typed e | T_AK a => AK_typed a
  | T_EA e => EA_typed e | T_RJ r => RJ_typed r
  end.

(** The decoder of each type, by type code. *)
Definition decode_as (t : Z) (b : bytes) : outcome TPDU :=
  if t =? TypeCR then let! x := DecodeCR b in Ok (T_CR x)
  else if t =? TypeCC then let! x := DecodeCC b in Ok (T_CC x)
  else if t =? TypeDT then let! x := DecodeDT b in Ok (T_DT x)
  else if t =? TypeDR then let! x := DecodeDR b in Ok (T_DR x)
  else if t =? TypeDC then let! x := DecodeDC b in Ok (T_DC x)
  else if t =? TypeER then let! x := DecodeER b in Ok (T_ER x)
  else if t =? TypeED then let! x := DecodeED b in Ok (T_ED x)
  else if t =? TypeAK then let! x := DecodeAK b in Ok (T_AK x)
  else if t =? TypeEA then let! x := DecodeEA b in Ok (T_EA x)
  else let! x := DecodeRJ b in Ok (T_RJ x).

(** ** Decode, by way of the sum *)

Lemma Decode_Ok b d :
  Decode b = Ok d <->
  exists code t, PeekType b = Ok code /\ decode_as code b = Ok t /\ d = decoded t.
Proof.
  unfold Decode. destruct (len b <? MinHeaderLength) eqn:Hlen.
  { split; [done|]. intros (code & t & Hp & _). unfold PeekType in Hp. by rewrite Hlen in Hp. }
  rewrite obind_Ok. setoid_rewrite wrapf_Ok. split.
  - intros (code & Hp & H). exists code. revert H. unfold decode_as.
    destruct (PeekType_In b code Hp) as [->|[->|[->|[->|[->|[->|[->|[->|[->| ->]]]]]]]]];
      cbn; rewrite obind_Ok; intros (x & Hx & [= <-]); rewrite wrapf_Ok in Hx; rewrite Hx; eauto.
  - intros (code & t & Hp & Ht & ->). exists code. split; [done|]. revert Ht. unfold decode_as.
    destruct (PeekType_In b code Hp) as [->|[->|[->|[->|[->|[->|[->|[->|[->| ->]]]]]]]]];
      cbn; rewrite obind_Ok; intros (x & Hx & [= <-]); by rewrite Hx.
Qed.

Lemma Decode_total b : bytes_ok b -> returns (Decode b).
Proof.
  intros Hb. unfold Decode. go_returns; [apply PeekType_returns|..]; auto with cotp.
Qed.

(** ** Canonical structures: what decoding gives back *)

Definition nr7 (nr : option Z) : Z := match nr with Some nr => Z.land nr 127 | None => 0 end.

(** Credits keep four bits, TPDU numbers seven; nil octet strings come back
    empty; a CR or CC loses the known codes of its unknown-parameter list. *)
Definition canon (t : TPDU) : TPDU :=
  match t with
  | T_CR c => T_CR (mkCR (Z.land (CR_CDT c) 15) (CR_DestinationRef c) (CR_SourceRef c)
      (CR_ClassOption c) (map norm_param (unknown_params (CR_Parameters c)))
      (CR_CallingSelector c) (CR_CalledSelector c) (CR_TPDUSize c) (CR_PreferredMaxTPDUSize c)
      (Some (content (CR_UserData c))))
  | T_CC c => T_CC (mkCC (Z.land (CC_CDT c) 15) (CC_DestinationRef c) (CC_SourceRef c)
      (CC_ClassOption c) (map norm_param (unknown_params (CC_Parameters c)))
      (CC_CallingSelector c) (CC_CalledSelector c) (CC_TPDUSize c) (CC_PreferredMaxTPDUSize c)
      (Some (content (CC_UserData c))))
  | T_DT d => T_DT (mkDT (DT_EOT d) (Some (nr7 (DT_TPDUNR d))) (DT_DestinationRef d)
      (map norm_param (DT_Parameters d)) (Some (content (DT_UserData d))))
  | T_DR d => T_DR (mkDR (DR_DestinationRef d) (DR_SourceRef d) (DR_Reason d)
      (map norm_param (DR_Parameters d)) (Some (content (DR_UserData d))))
  | T_DC d => T_DC (mkDC (DC_DestinationRef d) (DC_SourceRef d) (map norm_param (DC_Parameters d)))
  | T_ER e => T_ER (mkER (ER_DestinationRef e) (ER_RejectCause e)
      (map norm_param (ER_Parameters e)))
  | T_ED e => T_ED (mkED (ED_DestinationRef e) (Some (nr7 (ED_TPDUNR e))) (ED_EOT e)
      (map norm_param (ED_Parameters e)) (Some (content (ED_UserData e))))
  | T_AK a => T_AK (mkAK (Z.land (AK_CDT a) 15) (AK_DestinationRef a) (AK_YRTUNR a)
      (map norm_param (AK_Parameters a)))
  | T_EA e => T_EA (mkEA (EA_DestinationRef e) (EA_YREDTUNR e) (map norm_param (EA_Parameters e)))
  | T_RJ r => T_RJ (mkRJ (Z.land (RJ_CDT r) 15) (RJ_DestinationRef r) (RJ_YRTUNR r))
  end.

(** A DT whose format is what its fields say: the minimal format has no room
    for parameters. *)
Definition format_ok (t : TPDU) : Prop :=
  match t with
  | T_DT d => DT_DestinationRef d = None -> DT_Parameters d = []
  | _ => True
  end.

Lemma nr_eot_octet nr eot : nr_eot nr eot = nr_octet (nr7 nr) eot.
Proof. by destruct nr, eot. Qed.

Lemma nr7_range nr : 0 <= nr7 nr < 128.
Proof. destruct nr as [nr|]; [|done]. cbn [nr7]. by apply land_low_range with (n := 7). Qed.

Lemma land15_range x : 0 <= Z.land x 15 < 16.
Proof. by apply land_low_range with (n := 4). Qed.

Lemma parsed_norm_params ps :
  Forall Param_typed ps -> Forall fits ps -> Forall parsed (map norm_param ps).
Proof.
  intros Ht Hf. apply Forall_fmap. eapply Forall_impl; [apply Forall_and; split; [exact Ht|exact Hf]|].
  intros p [[Hc Hv] Hl]. by apply parsed_intro.
Qed.

(** The octets of a generic variable part, as the decoders read them. *)
Lemma varpart_ok ps v :
  Forall Param_typed ps -> encodeVariablePart ps = Ok v ->
  v = tlvs (map norm_param ps) /\ Forall parsed (map norm_param ps) /\ bytes_ok v.
Proof.
  intros Ht [Hf ->]%encodeVariablePart_Ok. rewrite tlvs_norm.
  pose proof (parsed_norm_params ps Ht Hf) as Hp. split_and!; [done|done|].
  rewrite <- tlvs_norm. by apply tlvs_bytes_ok.
Qed.

Lemma peek_credit k cdt :
  0 <= cdt < 16 -> k ∈ [224; 208; 96; 80] -> peek_code (Z.lor k cdt) = Some k.
Proof.
  intros Hc Hk.
  assert (forall c, is_u8 c -> forallb (fun k => (16 <=? c) || bool_decide (peek_code (Z.lor k c) = Some k))
    [224; 208; 96; 80] = true) as Hall by (apply octet_forall; by vm_compute).
  specialize (Hall cdt ltac:(unfold is_u8; lia)). rewrite forallb_forall in Hall.
  specialize (Hall k ltac:(by apply list_elem_of_In)). apply orb_prop in Hall as [?|H]; [blia|].
  by apply bool_decide_eq_true in H.
Qed.

Lemma PutUint16_bytes v l : bytes_ok l -> bytes_ok (BigEndian_PutUint16 v ++ l).
Proof. intros. apply bytes_ok_app. auto with cotp. Qed.

(** Octets of a fixed part: one at a time, words included. *)
Ltac wire_bytes :=
  repeat first
    [ assumption | apply PutUint16_bytes | apply bytes_ok_nil
    | apply bytes_ok_cons; split | apply bytes_ok_app; split ];
  try (unfold is_u8; len_pose; lia).

(** Peel an encoder: the variable part, the LI guard, the wire octets. *)
Ltac marshal_inv H :=
  cbn [Marshal CR_MarshalBinary CC_MarshalBinary DT_MarshalBinary DR_MarshalBinary
       DC_MarshalBinary ER_MarshalBinary ED_MarshalBinary AK_MarshalBinary EA_MarshalBinary
       RJ_MarshalBinary ED_DestinationRef ED_TPDUNR ED_EOT ED_Parameters ED_UserData
       DT_EOT DT_TPDUNR DT_DestinationRef DT_Parameters DT_UserData] in H;
  go_inv H; injection H as <-; unfold MaxLI in *; breflect;
  repeat match goal with
  | E : encodeVariablePart ?ps = Ok ?v, Ht : Forall Param_typed ?ps |- _ =>
      let Hv := fresh "Hvar" in let Hp := fresh "Hparsed" in let Hb := fresh "Hbytes" in
      destruct (varpart_ok ps v Ht E) as (Hv & Hp & Hb); clear E
  end;
  rewrite ?u8_id by (unfold is_u8; len_pose; lia).

(** What a round trip shows of one type. *)
Definition round_trips (t : TPDU) (b : bytes) : Prop :=
  bytes_ok b /\ PeekType b = Ok (tpdu_type t) /\ decode_as (tpdu_type t) b = Ok (canon t).

(** The three parts of a round trip, given the decoder's characterisation. *)
Ltac round_trip lemma :=
  let Hwire := fresh "Hwire" in
  match goal with |- round_trips _ ?b => assert (bytes_ok b) as Hwire by wire_bytes end;
  split_and!; [exact Hwire
    |apply PeekType_peek_code;
       [unfold MaxLI; len_pose; lia
       |first [reflexivity|apply peek_credit; [apply land15_range|set_solver]]]
    |cbn; rewrite obind_Ok; eexists; split; [apply lemma; [exact Hwire|]|reflexivity]];
  subst.

Lemma DR_round_trips d b : DR_typed d -> Marshal (T_DR d) = Ok b -> round_trips (T_DR d) b.
Proof.
  intros (Hd & Hs & Hr & Hps & Hu) H. marshal_inv H. round_trip DecodeDR_Ok.
  eexists _, _, _, _, _. split_and!; [reflexivity|done..].
Qed.

Lemma DC_round_trips d b : DC_typed d -> Marshal (T_DC d) = Ok b -> round_trips (T_DC d) b.
Proof.
  intros (Hd & Hs & Hps) H. marshal_inv H. round_trip DecodeDC_Ok.
  eexists _, _, _, []. unfold DC_wire. rewrite app_nil_r. split_and!; [reflexivity|done..].
Qed.

Lemma ER_round_trips e b : ER_typed e -> Marshal (T_ER e) = Ok b -> round_trips (T_ER e) b.
Proof.
  intros (Hd & Hc & Hps) H. marshal_inv H. round_trip DecodeER_Ok.
  eexists _, _, _, []. unfold ref_octet_wire. rewrite app_nil_r. split_and!; [reflexivity|done..].
Qed.

Lemma EA_round_trips e b : EA_typed e -> Marshal (T_EA e) = Ok b -> round_trips (T_EA e) b.
Proof.
  intros (Hd & Hc & Hps) H. marshal_inv H. round_trip DecodeEA_Ok.
  eexists _, _, _, []. unfold ref_octet_wire. rewrite app_nil_r. split_and!; [reflexivity|done..].
Qed.

(** A type nibble with a masked credit is an octet. *)
Lemma credit_is_u8 k x : k ∈ [96; 80; 208; 224] -> is_u8 (Z.lor k (Z.land x 15)).
Proof. intros Hk. by destruct (credit_octet k (Z.land x 15) Hk (land15_range x)) as (_ & _ & ?). Qed.

Lemma nr_octet_is_u8 nr eot : is_u8 (nr_octet (nr7 nr) eot).
Proof. by destruct (nr_octet_fields (nr7 nr) eot (nr7_range nr)) as (_ & _ & ?). Qed.

Lemma AK_round_trips a b : AK_typed a -> Marshal (T_AK a) = Ok b -> round_trips (T_AK a) b.
Proof.
  intros (Hc & Hd & Hn & Hps) H. marshal_inv H.
  pose proof (credit_is_u8 96 (AK_CDT a) ltac:(set_solver)). round_trip DecodeAK_Ok.
  eexists _, _, _, _, []. unfold ref_octet_wire. rewrite app_nil_r.
  split_and!; [reflexivity|apply land15_range|apply land15_range|done..].
Qed.

Lemma RJ_round_trips r b : RJ_typed r -> Marshal (T_RJ r) = Ok b -> round_trips (T_RJ r) b.
Proof.
  intros (Hc & Hd & Hn) H. marshal_inv H.
  pose proof (credit_is_u8 80 (RJ_CDT r) ltac:(set_solver)). round_trip DecodeRJ_Ok.
  eexists _, _, _, [].
  split_and!; [reflexivity|apply land15_range|apply land15_range|done..].
Qed.

Lemma ED_round_trips e b : ED_typed e -> Marshal (T_ED e) = Ok b -> round_trips (T_ED e) b.
Proof.
  destruct e as [[dst|] [nr|] eot ps ud]; intros (Hd & Hn & Hps & Hu) H;
    [|discriminate H..]. marshal_inv H. unfold MinEDUserDataLen, MaxEDUserDataLen in *.
  rewrite nr_eot_octet. pose proof (nr_octet_is_u8 (Some nr) eot). round_trip DecodeED_Ok.
  eexists _, _, _, _, _. pose proof (nr7_range (Some nr)) as [? ?].
  unfold slen in *. split_and!; [reflexivity|done|done|done|done|lia|blia|blia|reflexivity].
Qed.

Lemma DT_round_trips d b :
  DT_typed d -> format_ok (T_DT d) -> Marshal (T_DT d) = Ok b -> round_trips (T_DT d) b.
Proof.
  destruct d as [eot nr [dst|] ps ud]; intros (Hn & Hd & Hps & Hu) Hf H; cbn in Hf, Hd, Hn, Hps, Hu.
  - marshal_inv H. rewrite nr_eot_octet. pose proof (nr_octet_is_u8 nr eot).
    round_trip DecodeDT_Ok. eexists 0, _, _, _, _. pose proof (nr7_range nr) as [? ?].
    split_and!; [by left| | |right]. 3: { eexists.
      split_and!; [reflexivity|done|done|lia|reflexivity]. } all: done.
  - rewrite (Hf eq_refl) in *. marshal_inv H. cbn in Hvar. subst v.
    rewrite nr_eot_octet. pose proof (nr_octet_is_u8 nr eot).
    round_trip DecodeDT_Ok. eexists 0, _, _, _, _. pose proof (nr7_range nr) as [? ?].
    split_and!; [by left| | |left]. 3: { split_and!; reflexivity. } all: done.
Qed.

Lemma CR_round_trips c b : CR_typed c -> Marshal (T_CR c) = Ok b -> round_trips (T_CR c) b.
Proof.
  intros (Hc & Hd & Hs & Hcl & Hps & Hc1 & Hc2 & Hsz & Hpm & Hu) H. marshal_inv H.
  unfold MaxCRTPDULength in *.
  match goal with E : encodeCRCCVariablePart _ _ _ _ _ _ = Ok _ |- _ =>
    apply CRCC_encode_parse in E as [Hvb Hvp]; [|done..] end.
  pose proof (credit_is_u8 224 (CR_CDT c) ltac:(set_solver)). round_trip DecodeCR_Ok.
  eexists _, _, _, _, _, _, _. unfold slen in *.
  split_and!; [reflexivity|apply land15_range|apply land15_range|done|done|done| |exact Hvp|done].
  unfold BigEndian_PutUint16. cbn [app]. buf_lia.
Qed.

Lemma CC_round_trips c b : CC_typed c -> Marshal (T_CC c) = Ok b -> round_trips (T_CC c) b.
Proof.
  intros (Hc & Hd & Hs & Hcl & Hps & Hc1 & Hc2 & Hsz & Hpm & Hu) H. marshal_inv H.
  match goal with E : encodeCRCCVariablePart _ _ _ _ _ _ = Ok _ |- _ =>
    apply CRCC_encode_parse in E as [Hvb Hvp]; [|done..] end.
  pose proof (credit_is_u8 208 (CC_CDT c) ltac:(set_solver)). round_trip DecodeCC_Ok.
  eexists _, _, _, _, _, _, _.
  split_and!; [reflexivity|apply land15_range|apply land15_range|done|done|done|exact Hvp|done].
Qed.

(** ** What a decoder returns is typed and canonical *)

Lemma parsed_typed_params ps : Forall parsed ps -> Forall Param_typed ps.
Proof. intros H. eapply Forall_impl; [exact H|apply parsed_typed]. Qed.

Lemma parsed_fit_params ps : Forall parsed ps -> Forall fits ps.
Proof. intros H. eapply Forall_impl; [exact H|apply parsed_fits]. Qed.

Lemma land15_id x : 0 <= x < 16 -> Z.land x 15 = x.
Proof. intros. by apply land_low_id with (n := 4). Qed.

Lemma land127_id x : 0 <= x < 128 -> Z.land x 127 = x.
Proof. intros. by apply land_low_id with (n := 7). Qed.

Lemma app_bytes_r a b : bytes_ok (a ++ b) -> bytes_ok b.
Proof. by intros [_ ?]%bytes_ok_app. Qed.

(** Widths of a parsed CR/CC variable part. *)
Lemma parseCRCC_typed v r :
  bytes_ok v -> parseCRCCVariablePart v = Ok r ->
  goslice_ok (callingSelector r) /\ goslice_ok (calledSelector r) /\
  opt_typed is_u8 (tpduSize r) /\ opt_typed is_u32 (preferredMaxTPDUSize r) /\
  Forall parsed (parameters r) /\ unknown_params (parameters r) = parameters r.
Proof.
  intros Hv (ps & _ & Hps & Hsz & ->)%parseCRCC_Ok; [|done].
  destruct (crcc_of_typed ps Hps Hsz) as (? & ? & ? & ? & ?).
  split_and!; try done. apply unknown_params_idem.
Qed.

(** The octets of a wire format as hypotheses. *)
Ltac wire_octets :=
  repeat match goal with
  | H : bytes_ok (_ ++ _) |- _ => apply bytes_ok_app in H as [? H]
  | H : bytes_ok (_ :: _) |- _ => apply bytes_ok_cons in H as [? H]
  end.

(** A decoded structure: typed, in a format of its own, and canonical. *)
Definition canonical_tpdu (t : TPDU) : Prop :=
  TPDU_typed t /\ format_ok t /\ canon t = t.

Ltac canonical_fields :=
  split_and!; cbn [TPDU_typed format_ok canon CR_typed CC_typed DT_typed DR_typed DC_typed ER_typed
                   ED_typed AK_typed EA_typed RJ_typed];
  try done; repeat split; cbn; auto using parsed_typed_params; try (unfold is_u8, is_u16 in *; lia);
  rewrite ?map_norm_parsed by done; rewrite ?land15_id, ?land127_id by lia; try done.

Lemma DecodeDR_canonical b d : bytes_ok b -> DecodeDR b = Ok d -> canonical_tpdu (T_DR d).
Proof.
  intros Hb H. apply DecodeDR_Ok in H as (dst & src & r & ps & ud & -> & ? & ? & ? & ? & ->); [|done].
  unfold DR_wire in Hb. wire_octets. canonical_fields.
Qed.

Lemma DecodeDC_canonical b d : bytes_ok b -> DecodeDC b = Ok d -> canonical_tpdu (T_DC d).
Proof.
  intros Hb H. apply DecodeDC_Ok in H as (dst & src & ps & ud & -> & ? & ? & ? & ? & ->); [|done].
  unfold DC_wire in Hb. wire_octets. canonical_fields.
Qed.

Lemma DecodeER_canonical b e : bytes_ok b -> DecodeER b = Ok e -> canonical_tpdu (T_ER e).
Proof.
  intros Hb H. apply DecodeER_Ok in H as (dst & c & ps & ud & -> & ? & ? & ? & ->); [|done].
  unfold ref_octet_wire in Hb. wire_octets. canonical_fields.
Qed.

Lemma DecodeEA_canonical b e : bytes_ok b -> DecodeEA b = Ok e -> canonical_tpdu (T_EA e).
Proof.
  intros Hb H. apply DecodeEA_Ok in H as (dst & c & ps & ud & -> & ? & ? & ? & ->); [|done].
  unfold ref_octet_wire in Hb. wire_octets. canonical_fields.
Qed.

Lemma DecodeAK_canonical b a : bytes_ok b -> DecodeAK b = Ok a -> canonical_tpdu (T_AK a).
Proof.
  intros Hb H. apply DecodeAK_Ok in H as (cdt & dst & c & ps & ud & -> & ? & ? & ? & ? & ->); [|done].
  unfold ref_octet_wire in Hb. wire_octets. canonical_fields.
Qed.

Lemma DecodeRJ_canonical b r : bytes_ok b -> DecodeRJ b = Ok r -> canonical_tpdu (T_RJ r).
Proof.
  intros Hb H. apply DecodeRJ_Ok in H as (cdt & dst & c & ud & -> & ? & ? & ->); [|done].
  unfold ref_octet_wire in Hb. wire_octets. canonical_fields.
Qed.

Lemma DecodeED_canonical b e : bytes_ok b -> DecodeED b = Ok e -> canonical_tpdu (T_ED e).
Proof.
  intros Hb H. apply DecodeED_Ok in H as (dst & nr & eot & ps & ud & -> & ? & ? & ? & ? & ? & ->); [|done].
  unfold ref_octet_wire in Hb. wire_octets. canonical_fields.
Qed.

Lemma DecodeDT_canonical b d : bytes_ok b -> DecodeDT b = Ok d -> canonical_tpdu (T_DT d).
Proof.
  intros Hb H. apply DecodeDT_Ok in H as (roa & nr & eot & ps & ud & ? & ? &
    [(-> & -> & ->)|(dst & -> & ? & ? & ? & ->)]); [| |done].
  - unfold DT_minimal_wire in Hb. wire_octets. canonical_fields.
  - unfold DT_normal_wire, ref_octet_wire in Hb. wire_octets. canonical_fields.
Qed.

Lemma DecodeCR_canonical b c : bytes_ok b -> DecodeCR b = Ok c -> canonical_tpdu (T_CR c).
Proof.
  intros Hb H. apply DecodeCR_Ok in H as (cdt & dst & src & cl & var & ud & r & -> & ? & ? & ? & ? & ? & Hr & ->);
    [|done]. unfold CRCC_wire in Hb. wire_octets.
  apply parseCRCC_typed in Hr as (? & ? & ? & ? & ? & Hun); [|done].
  canonical_fields. unfold unknown_params in Hun. by rewrite Hun, map_norm_parsed.
Qed.

Lemma DecodeCC_canonical b c : bytes_ok b -> DecodeCC b = Ok c -> canonical_tpdu (T_CC c).
Proof.
  intros Hb H. apply DecodeCC_Ok in H as (cdt & dst & src & cl & var & ud & r & -> & ? & ? & ? & ? & Hr & ->);
    [|done]. unfold CRCC_wire in Hb. wire_octets.
  apply parseCRCC_typed in Hr as (? & ? & ? & ? & ? & Hun); [|done].
  canonical_fields. unfold unknown_params in Hun. by rewrite Hun, map_norm_parsed.
Qed.

Lemma decode_as_canonical b code t :
  bytes_ok b -> PeekType b = Ok code -> decode_as code b = Ok t ->
  canonical_tpdu t /\ tpdu_type t = code.
Proof.
  intros Hb Hp H. unfold decode_as in H.
  destruct (PeekType_In b code Hp) as [->|[->|[->|[->|[->|[->|[->|[->|[->| ->]]]]]]]]];
    cbn in H; rewrite obind_Ok in H; destruct H as (x & Hx & [= <-]); (split; [|done]).
  - by eapply DecodeCR_canonical.
  - by eapply DecodeCC_canonical.
  - by eapply DecodeDT_canonical.
  - by eapply DecodeDR_canonical.
  - by eapply DecodeDC_canonical.
  - by eapply DecodeER_canonical.
  - by eapply DecodeED_canonical.
  - by eapply DecodeAK_canonical.
  - by eapply DecodeEA_canonical.
  - by eapply DecodeRJ_canonical.
Qed.

(** ** Encoding again what was decoded *)

(** Of a CR or CC all but the parameters is the same. *)
Definition same_but_parameters (code : Z) (b b' : bytes) : Prop :=
  exists cdt dst src cl ps ud, 0 <= cdt < 16 /\ Forall parsed ps /\
    b = CRCC_wire (Z.lor code cdt) dst src cl (tlvs ps) ud /\
    b' = CRCC_wire (Z.lor code cdt) dst src cl (tlvs (normal_params ps)) ud /\ len b' <= len b.

(** How the octets of the second encoding relate to the octets decoded: the
    same for DR and ED; the same up to ignored trailing octets for DC, ER, EA,
    AK and RJ; the same up to the ROA bit for DT; for CR and CC, the same fixed
    part and user data around the normal form of the parameters, which is no
    longer. *)
Definition same_octets (t : TPDU) (b b' : bytes) : Prop :=
  match t with
  | T_DR _ | T_ED _ => b' = b
  | T_DC _ | T_ER _ | T_EA _ | T_AK _ | T_RJ _ => exists trail, b = b' ++ trail
  | T_DT _ => exists li roa rest, (roa = 0 \/ roa = 1) /\ b = li :: 240 + roa :: rest /\
                b' = li :: 240 :: rest
  | T_CR _ => same_but_parameters 224 b b'
  | T_CC _ => same_but_parameters 208 b b'
  end.

Lemma encode_parsed ps : Forall parsed ps -> encodeVariablePart ps = Ok (tlvs ps).
Proof. intros H. apply encodeVariablePart_Ok. split; [by apply parsed_fit_params|done]. Qed.

(** Run an encoder whose variable part is known. *)
Ltac remarshal :=
  cbn [Marshal CR_MarshalBinary CC_MarshalBinary DT_MarshalBinary DR_MarshalBinary
       DC_MarshalBinary ER_MarshalBinary ED_MarshalBinary AK_MarshalBinary EA_MarshalBinary
       RJ_MarshalBinary DR_Parameters DC_Parameters ER_Parameters EA_Parameters AK_Parameters
       ED_Parameters DT_Parameters ED_DestinationRef ED_TPDUNR ED_UserData DT_DestinationRef];
  rewrite ?encode_parsed by assumption; cbn [wrapf obind]; unfold MaxLI; try if_false;
  rewrite ?u8_id by (unfold is_u8; len_pose; lia); rewrite ?land15_id by assumption.

(** The CR/CC layout: the parameters come in normal form, the rest as it was. *)
Lemma CRCC_reencode b code cdt dst src cl var ud r what :
  b = CRCC_wire (Z.lor code cdt) dst src cl var ud -> 0 <= cdt < 16 -> bytes_ok b -> parseCRCCVariablePart var = Ok r ->
  exists v, encodeCRCCVariablePart (callingSelector r) (calledSelector r) (tpduSize r)
              (preferredMaxTPDUSize r) (parameters r) what = Ok v /\
    len v <= len var /\ len b = 7 + len var + len ud /\
    same_but_parameters code b (CRCC_wire (Z.lor code cdt) dst src cl v ud).
Proof.
  intros -> Hc Hb Hr. unfold CRCC_wire in Hb. wire_octets.
  destruct (CRCC_parse_encode var r what) as (ps & -> & Hps & Hv & Hl & _); [done|done|].
  exists (tlvs (normal_params ps)). split_and!; [done|done| |].
  - unfold CRCC_wire, BigEndian_PutUint16. cbn [app]. buf_lia.
  - exists cdt, dst, src, cl, ps, ud. split_and!; try done; [lia..|].
    unfold CRCC_wire, BigEndian_PutUint16. cbn [app]. buf_lia.
Qed.

Lemma reencode_CR b c :
  bytes_ok b -> DecodeCR b = Ok c ->
  exists b', Marshal (T_CR c) = Ok b' /\ same_octets (T_CR c) b b'.
Proof.
  intros Hb Hx. apply DecodeCR_Ok in Hx
    as (cdt & dst & src & cl & var & ud & r & Hw & ? & ? & ? & ? & Hmax & Hr & ->); [|done].
  destruct (CRCC_reencode _ _ _ _ _ _ _ _ _ "CR" Hw ltac:(done) Hb Hr) as (v & Hv & Hl & Hlen & Hsame).
  eexists. split; [|exact Hsame]. remarshal. cbn [CR_CallingSelector CR_CalledSelector CR_TPDUSize
    CR_PreferredMaxTPDUSize CR_Parameters CR_UserData]. rewrite Hv. cbn [obind].
  unfold MaxLI, MaxCRTPDULength. change (slen (Some ud)) with (len ud). len_pose.
  do 2 if_false. rewrite u8_id by (unfold is_u8; len_pose; lia). reflexivity.
Qed.

Lemma reencode_CC b c :
  bytes_ok b -> DecodeCC b = Ok c ->
  exists b', Marshal (T_CC c) = Ok b' /\ same_octets (T_CC c) b b'.
Proof.
  intros Hb Hx. apply DecodeCC_Ok in Hx
    as (cdt & dst & src & cl & var & ud & r & Hw & ? & ? & ? & ? & Hr & ->); [|done].
  destruct (CRCC_reencode _ _ _ _ _ _ _ _ _ "CC" Hw ltac:(done) Hb Hr) as (v & Hv & Hl & Hlen & Hsame).
  eexists. split; [|exact Hsame]. remarshal. cbn [CC_CallingSelector CC_CalledSelector CC_TPDUSize
    CC_PreferredMaxTPDUSize CC_Parameters CC_UserData]. rewrite Hv. cbn [obind].
  unfold MaxLI. if_false. rewrite u8_id by (unfold is_u8; len_pose; lia). reflexivity.
Qed.

Lemma reencode_DT b d :
  bytes_ok b -> DecodeDT b = Ok d ->
  exists b', Marshal (T_DT d) = Ok b' /\ same_octets (T_DT d) b b'.
Proof.
  intros Hb Hx. apply DecodeDT_Ok in Hx as (roa & nr & eot & ps & ud & Hroa & Hnr &
    [(-> & -> & ->)|(dst & -> & ? & ? & ? & ->)]); [| |done]; eexists.
  - remarshal. split; [reflexivity|]. cbn [same_octets]. rewrite nr_eot_octet.
    cbn [nr7 DT_TPDUNR DT_EOT]. rewrite land127_id by done.
    eexists 2, roa, _. by split_and!.
  - remarshal. split; [reflexivity|]. cbn [same_octets]. rewrite nr_eot_octet.
    cbn [nr7 DT_TPDUNR DT_EOT]. rewrite land127_id by done.
    eexists (4 + len (tlvs ps)), roa, _. by split_and!.
Qed.

Lemma reencode_ED b e :
  bytes_ok b -> DecodeED b = Ok e ->
  exists b', Marshal (T_ED e) = Ok b' /\ same_octets (T_ED e) b b'.
Proof.
  intros Hb Hx.
  apply DecodeED_Ok in Hx as (dst & nr & eot & ps & ud & -> & ? & ? & ? & ? & ? & ->); [|done].
  eexists. remarshal. change (slen (Some ud)) with (len ud).
  unfold MinEDUserDataLen, MaxEDUserDataLen.
  assert ((len ud <? 1) || (16 <? len ud) = false) as -> by (rewrite orb_false_iff, !Z.ltb_ge; lia).
  remarshal. split; [reflexivity|]. cbn [same_octets]. rewrite nr_eot_octet.
  cbn [nr7 ED_EOT]. by rewrite land127_id.
Qed.

Lemma reencode b code t :
  bytes_ok b -> PeekType b = Ok code -> decode_as code b = Ok t ->
  exists b', Marshal t = Ok b' /\ same_octets t b b'.
Proof.
  intros Hb Hp H. unfold decode_as in H.
  destruct (PeekType_In b code Hp) as [->|[->|[->|[->|[->|[->|[->|[->|[->| ->]]]]]]]]];
    cbn in H; rewrite obind_Ok in H; destruct H as (x & Hx & [= <-]).
  - by apply reencode_CR.
  - by apply reencode_CC.
  - by apply reencode_DT.
  - apply DecodeDR_Ok in Hx as (dst & src & r & ps & ud & -> & ? & ? & ? & ? & ->); [|done].
    eexists. remarshal. by split.
  - apply DecodeDC_Ok in Hx as (dst & src & ps & ud & -> & ? & ? & ? & ? & ->); [|done].
    eexists. remarshal. split; [reflexivity|]. exists ud. unfold DC_wire. by rewrite <- !app_assoc.
  - apply DecodeER_Ok in Hx as (dst & c & ps & ud & -> & ? & ? & ? & ->); [|done].
    eexists. remarshal. split; [reflexivity|]. exists ud. unfold ref_octet_wire.
    by rewrite <- !app_assoc.
  - by apply reencode_ED.
  - apply DecodeAK_Ok in Hx as (cdt & dst & c & ps & ud & -> & ? & ? & ? & ? & ->); [|done].
    eexists. remarshal. split; [reflexivity|]. exists ud. unfold ref_octet_wire.
    by rewrite <- !app_assoc.
  - apply DecodeEA_Ok in Hx as (dst & c & ps & ud & -> & ? & ? & ? & ->); [|done].
    eexists. remarshal. split; [reflexivity|]. exists ud. unfold ref_octet_wire.
    by rewrite <- !app_assoc.
  - apply DecodeRJ_Ok in Hx as (cdt & dst & c & ud & -> & ? & ? & ->); [|done].
    eexists. remarshal. split; [reflexivity|]. exists ud. unfold ref_octet_wire.
    by rewrite <- !app_assoc.
Qed.

(** ** When an encoder succeeds *)

(** Octets of the 0xF0 parameter and of a CR/CC variable part. *)
Definition units_octets (pm : option Z) : Z :=
  match pm with
  | None => 0
  | Some u => 2 + (if u <? 256 then 1 else if u <? 65536 then 2 else if u <? 16777216 then 3 else 4)
  end.

Definition crcc_octets (c1 c2 : goslice) (sz pm : option Z) (ps : list Param) : Z :=
  tlv_len c1 + tlv_len c2 + (match sz with Some _ => 3 | None => 0 end) + units_octets pm
  + len (tlvs (unknown_params ps)).

Definition crcc_fits (c1 c2 : goslice) (pm : option Z) (ps : list Param) : Prop :=
  slen c1 <= 255 /\ slen c2 <= 255 /\ pm <> Some 0 /\ Forall fits (unknown_params ps).

(** What a structure must satisfy to be encoded: values that fit their
    one-octet length, a header that fits LI, and the limits of CR and ED. *)
Definition encodable (t : TPDU) : Prop :=
  match t with
  | T_CR c =>
      crcc_fits (CR_CallingSelector c) (CR_CalledSelector c) (CR_PreferredMaxTPDUSize c) (CR_Parameters c) /\
      7 + crcc_octets (CR_CallingSelector c) (CR_CalledSelector c) (CR_TPDUSize c)
        (CR_PreferredMaxTPDUSize c) (CR_Parameters c) + slen (CR_UserData c) <= 128
  | T_CC c =>
      crcc_fits (CC_CallingSelector c) (CC_CalledSelector c) (CC_PreferredMaxTPDUSize c) (CC_Parameters c) /\
      6 + crcc_octets (CC_CallingSelector c) (CC_CalledSelector c) (CC_TPDUSize c)
        (CC_PreferredMaxTPDUSize c) (CC_Parameters c) <= 254
  | T_DT d =>
      Forall fits (DT_Parameters d) /\
      (match DT_DestinationRef d with Some _ => 4 | None => 2 end) + len (tlvs (DT_Parameters d)) <= 254
  | T_DR d => Forall fits (DR_Parameters d) /\ 6 + len (tlvs (DR_Parameters d)) <= 254
  | T_DC d => Forall fits (DC_Parameters d) /\ 5 + len (tlvs (DC_Parameters d)) <= 254
  | T_ER e => Forall fits (ER_Parameters e) /\ 4 + len (tlvs (ER_Parameters e)) <= 254
  | T_ED e =>
      ED_DestinationRef e <> None /\ ED_TPDUNR e <> None /\ 1 <= slen (ED_UserData e) <= 16 /\
      Forall fits (ED_Parameters e) /\ 4 + len (tlvs (ED_Parameters e)) <= 254
  | T_AK a => Forall fits (AK_Parameters a) /\ 4 + len (tlvs (AK_Parameters a)) <= 254
  | T_EA e => Forall fits (EA_Parameters e) /\ 4 + len (tlvs (EA_Parameters e)) <= 254
  | T_RJ _ => True
  end.

Lemma is_Ok_bind {A B} (m : outcome A) (k : A -> outcome B) :
  is_Ok (obind m k) <-> exists a, m = Ok a /\ is_Ok (k a).
Proof.
  unfold is_Ok. split.
  - intros (r & H). rewrite obind_Ok in H. naive_solver.
  - intros (a & -> & r & Hr). by exists r.
Qed.

Lemma is_Ok_if_Err {A} (c : bool) e (m : outcome A) :
  is_Ok (if c then Err e else m) <-> c = false /\ is_Ok m.
Proof.
  destruct c; [|tauto]. split; [intros (? & ?); discriminate|intros [? _]; discriminate].
Qed.

Lemma is_Ok_Ok {A} (a : A) : is_Ok (Ok a) <-> True.
Proof. split; [done|]. intros _. by exists a. Qed.

(** Encoders with a generic variable part. *)
Lemma generic_encodable {A} fixed fmt ps e (f : bytes -> A) :
  is_Ok (let! v := wrapf fmt (encodeVariablePart ps) in
         if MaxLI <? fixed + len v then Err e else Ok (f v)) <->
  Forall fits ps /\ fixed + len (tlvs ps) <= 254.
Proof.
  rewrite is_Ok_bind. setoid_rewrite wrapf_Ok. setoid_rewrite encodeVariablePart_Ok.
  unfold MaxLI. split.
  - intros (v & [Hf ->] & H). rewrite is_Ok_if_Err, Z.ltb_ge in H. naive_solver.
  - intros [Hf Hl]. eexists. split; [by split|]. rewrite is_Ok_if_Err, Z.ltb_ge, is_Ok_Ok. by split; [lia|].
Qed.

(** The encoder's octet count for units. *)
Lemma encode_units_len u e :
  is_u32 u -> encodePreferredMaxUnits u = Ok e -> 2 + len e = units_octets (Some u).
Proof.
  intros Hu He. destruct (encodePreferredMaxUnits_value u e Hu He) as (Hv & Hl & Hok & Hne).
  destruct (encodePreferredMaxUnits_suffix u Hu Hne) as (z & e' & He' & _ & x & k & -> & Hx).
  rewrite He in He'. injection He' as ->. rewrite be_value_cons in Hv.
  apply bytes_ok_cons in Hok as [Hx8 Hk]. pose proof (be_value_range k Hk) as Hr.
  rewrite len_cons in *. cbn [units_octets]. unfold is_u8 in Hx8.
  assert (len k = 0 \/ len k = 1 \/ len k = 2 \/ len k = 3) as [E|[E|[E|E]]]
    by (pose proof (len_nonneg k); lia); rewrite E in *;
    change (256 ^ 0) with 1 in *; change (256 ^ 1) with 256 in *;
    change (256 ^ 2) with 65536 in *; change (256 ^ 3) with 16777216 in *;
    repeat match goal with |- context [if ?a <? ?b then _ else _] => destruct (Z.ltb_spec a b) end; lia.
Qed.

(** Encoders with a CR/CC variable part, [limit] being the rest of the body. *)
Lemma crcc_encodable {A} c1 c2 sz pm ps what (k : bytes -> outcome A) (P : Z -> Prop) :
  opt_typed is_u32 pm -> (forall v, is_Ok (k v) <-> P (len v)) ->
  is_Ok (let! v := encodeCRCCVariablePart c1 c2 sz pm ps what in k v) <->
  crcc_fits c1 c2 pm ps /\ P (crcc_octets c1 c2 sz pm ps).
Proof.
  intros Hpm Hk. rewrite is_Ok_bind. setoid_rewrite Hk.
  assert (forall enc, units_encoded pm enc -> tlv_len enc = units_octets pm) as Hlen.
  { intros [e|] He; destruct pm as [u|]; try done. exact (encode_units_len u e Hpm He). }
  setoid_rewrite encodeCRCC_Ok; [|done]. unfold crcc_fits, crcc_octets. split.
  - intros (v & (enc & Henc & H1 & H2 & Hps & ->) & HP).
    rewrite canonical_len_sum, (Hlen enc Henc) in HP. split_and!; try done.
    intros ->. by destruct enc.
  - intros [(H1 & H2 & Hne & Hps) HP].
    assert (exists enc, units_encoded pm enc) as [enc Henc].
    { destruct pm as [u|]; [|by exists None].
      destruct (encodePreferredMaxUnits_total u Hpm ltac:(congruence)) as [e He]. by exists (Some e). }
    eexists. split; [exists enc; by split_and!|]. by rewrite canonical_len_sum, (Hlen enc Henc).
Qed.

Lemma Marshal_is_Ok t : TPDU_typed t -> is_Ok (Marshal t) <-> encodable t.
Proof.
  destruct t as [c|c|d|d|d|e|e|a|e|r]; intros Ht.
  - destruct Ht as (_ & _ & _ & _ & _ & _ & _ & _ & Hpm & _). cbn [encodable Marshal CR_MarshalBinary].
    apply (crcc_encodable _ _ _ _ _ "CR" _ (fun n => 7 + n + slen (CR_UserData c) <= 128) Hpm).
    intros v. rewrite !is_Ok_if_Err, is_Ok_Ok, !Z.ltb_ge. unfold MaxLI, MaxCRTPDULength, slen.
    len_pose. lia.
  - destruct Ht as (_ & _ & _ & _ & _ & _ & _ & _ & Hpm & _). cbn [encodable Marshal CC_MarshalBinary].
    apply (crcc_encodable _ _ _ _ _ "CC" _ (fun n => 6 + n <= 254) Hpm).
    intros v. rewrite !is_Ok_if_Err, is_Ok_Ok, !Z.ltb_ge. unfold MaxLI. lia.
  - cbn [encodable Marshal DT_MarshalBinary]. destruct (DT_DestinationRef d); apply generic_encodable.
  - apply generic_encodable.
  - apply generic_encodable.
  - apply generic_encodable.
  - cbn [encodable Marshal ED_MarshalBinary].
    destruct (ED_DestinationRef e), (ED_TPDUNR e);
      try (split; [intros [? ?]; discriminate|naive_solver]).
    rewrite is_Ok_if_Err, generic_encodable, orb_false_iff, !Z.ltb_ge.
    unfold MinEDUserDataLen, MaxEDUserDataLen. naive_solver lia.
  - apply generic_encodable.
  - apply generic_encodable.
  - split; [done|]. intros _. by eexists.
Qed.
