(* ===== verification/CodecSpec.v ===== *)
(** * The contract of the codec

    The abstract specification of the codec is a grammar: [wire t b] says that
    the octets [b] are a legal encoding of the structure [t], without any
    computation.  [Decode] accepts exactly that grammar and [MarshalBinary]
    produces sentences of it; the two invert each other.  The errors of [Decode]
    are the nine sentinels below. *)

From S2P Require Import Prelude Errors Types Wire PreferredMax Params Decode Encode Codec.
From S2P Require Import RoundTrip.

(** ** The grammar *)

(** A CR/CC variable part is a list of code-length-value triples; the last one
    of each known code counts. *)
Inductive wire : TPDU -> bytes -> Prop :=
  | wire_CR cdt dst src cl ps ud :
      0 <= cdt < 16 -> is_u16 dst -> is_u16 src -> Forall parsed ps -> Forall sizes_ok ps ->
      6 + len (tlvs ps) <= 254 -> 7 + len (tlvs ps) + len ud <= 128 ->
      wire (T_CR (mkCR cdt dst src cl (unknown_params ps)
                    (callingSelector (crcc_of ps)) (calledSelector (crcc_of ps))
                    (tpduSize (crcc_of ps)) (preferredMaxTPDUSize (crcc_of ps)) (Some ud)))
        (CRCC_wire (Z.lor 224 cdt) dst src cl (tlvs ps) ud)
  | wire_CC cdt dst src cl ps ud :
      0 <= cdt < 16 -> is_u16 dst -> is_u16 src -> Forall parsed ps -> Forall sizes_ok ps ->
      6 + len (tlvs ps) <= 254 ->
      wire (T_CC (mkCC cdt dst src cl (unknown_params ps)
                    (callingSelector (crcc_of ps)) (calledSelector (crcc_of ps))
                    (tpduSize (crcc_of ps)) (preferredMaxTPDUSize (crcc_of ps)) (Some ud)))
        (CRCC_wire (Z.lor 208 cdt) dst src cl (tlvs ps) ud)
  | wire_DT_minimal roa nr eot ud :
      roa = 0 \/ roa = 1 -> 0 <= nr < 128 ->
      wire (T_DT (mkDT eot (Some nr) None [] (Some ud))) (DT_minimal_wire roa nr eot ud)
  | wire_DT_normal roa dst nr eot ps ud :
      roa = 0 \/ roa = 1 -> is_u16 dst -> 0 <= nr < 128 -> Forall parsed ps ->
      4 + len (tlvs ps) <= 254 ->
      wire (T_DT (mkDT eot (Some nr) (Some dst) ps (Some ud))) (DT_normal_wire roa dst nr eot ps ud)
  | wire_DR dst src reason ps ud :
      is_u16 dst -> is_u16 src -> Forall parsed ps -> 6 + len (tlvs ps) <= 254 ->
      wire (T_DR (mkDR dst src reason ps (Some ud))) (DR_wire dst src reason ps ud)
  | wire_DC dst src ps trail :
      is_u16 dst -> is_u16 src -> Forall parsed ps -> 5 + len (tlvs ps) <= 254 ->
      wire (T_DC (mkDC dst src ps)) (DC_wire dst src ps trail)
  | wire_ER dst cause ps trail :
      is_u16 dst -> Forall parsed ps -> 4 + len (tlvs ps) <= 254 ->
      wire (T_ER (mkER dst cause ps)) (ref_octet_wire 112 dst cause ps trail)
  | wire_ED dst nr eot ps ud :
      is_u16 dst -> 0 <= nr < 128 -> Forall parsed ps -> 4 + len (tlvs ps) <= 254 ->
      1 <= len ud <= 16 ->
      wire (T_ED (mkED (Some dst) (Some nr) eot ps (Some ud)))
        (ref_octet_wire 16 dst (nr_octet nr eot) ps ud)
  | wire_AK cdt dst nr ps trail :
      0 <= cdt < 16 -> is_u16 dst -> Forall parsed ps -> 4 + len (tlvs ps) <= 254 ->
      wire (T_AK (mkAK cdt dst nr ps)) (ref_octet_wire (Z.lor 96 cdt) dst nr ps trail)
  | wire_EA dst nr ps trail :
      is_u16 dst -> Forall parsed ps -> 4 + len (tlvs ps) <= 254 ->
      wire (T_EA (mkEA dst nr ps)) (ref_octet_wire 32 dst nr ps trail)
  | wire_RJ cdt dst nr trail :
      0 <= cdt < 16 -> is_u16 dst ->
      wire (T_RJ (mkRJ cdt dst nr)) (ref_octet_wire (Z.lor 80 cdt) dst nr [] trail).

#[export] Hint Constructors wire : cotp.

Lemma CRCC_wire_len c dst src cl var ud : len (CRCC_wire c dst src cl var ud) = 7 + len var + len ud.
Proof. unfold CRCC_wire, BigEndian_PutUint16. cbn [app]. buf_lia. Qed.

(** What each decoder accepts is in the grammar. *)
Lemma decode_as_wire code b t :
  bytes_ok b -> PeekType b = Ok code -> decode_as code b = Ok t -> wire t b.
Proof.
  intros Hb Hp H. unfold decode_as in H.
  destruct (PeekType_In b code Hp) as [->|[->|[->|[->|[->|[->|[->|[->|[->| ->]]]]]]]]];
    cbn in H; rewrite obind_Ok in H; destruct H as (x & Hx & [= <-]).
  - apply DecodeCR_Ok in Hx as (cdt & dst & src & cl & var & ud & r & -> & ? & ? & ? & ? & Hl & Hr & ->);
      [|done]. unfold CRCC_wire in Hb. wire_octets.
    apply parseCRCC_Ok in Hr as (ps & -> & ? & ? & ->); [|done].
    rewrite CRCC_wire_len in Hl. by apply wire_CR.
  - apply DecodeCC_Ok in Hx as (cdt & dst & src & cl & var & ud & r & -> & ? & ? & ? & ? & Hr & ->);
      [|done]. unfold CRCC_wire in Hb. wire_octets.
    apply parseCRCC_Ok in Hr as (ps & -> & ? & ? & ->); [|done]. by apply wire_CC.
  - apply DecodeDT_Ok in Hx as (roa & nr & eot & ps & ud & Hroa & Hnr &
      [(-> & -> & ->)|(dst & -> & ? & ? & ? & ->)]); auto with cotp.
  - apply DecodeDR_Ok in Hx as (dst & src & r & ps & ud & -> & ? & ? & ? & ? & ->); auto with cotp.
  - apply DecodeDC_Ok in Hx as (dst & src & ps & ud & -> & ? & ? & ? & ? & ->); auto with cotp.
  - apply DecodeER_Ok in Hx as (dst & c & ps & ud & -> & ? & ? & ? & ->); auto with cotp.
  - apply DecodeED_Ok in Hx as (dst & nr & eot & ps & ud & -> & ? & ? & ? & ? & ? & ->); auto with cotp.
  - apply DecodeAK_Ok in Hx as (cdt & dst & c & ps & ud & -> & ? & ? & ? & ? & ->); auto with cotp.
  - apply DecodeEA_Ok in Hx as (dst & c & ps & ud & -> & ? & ? & ? & ->); auto with cotp.
  - apply DecodeRJ_Ok in Hx as (cdt & dst & c & ud & -> & ? & ? & ->); auto with cotp.
Qed.

(** Octet 2 of a sentence carries its type. *)
Lemma wire_PeekType t b : wire t b -> PeekType b = Ok (tpdu_type t).
Proof.
  destruct 1; apply PeekType_peek_code;
    try (unfold MaxLI; change (len (tlvs [])) with 0; len_pose; lia);
    try (apply peek_credit; [lia|set_solver]); try reflexivity.
  all: by match goal with H : _ \/ _ |- _ => destruct H as [->| ->] end.
Qed.

Lemma wire_decode_as t b : bytes_ok b -> wire t b -> decode_as (tpdu_type t) b = Ok t.
Proof.
  intros Hb Hw. destruct Hw; cbn; rewrite obind_Ok; eexists; (split; [|reflexivity]).
  - apply DecodeCR_Ok; [done|]. assert (bytes_ok (tlvs ps)) by by apply tlvs_bytes_ok.
    eexists _, _, _, _, _, _, (crcc_of ps).
    split; [reflexivity|]. split_and!; try done; try lia;
      [change (len (CRCC_wire (Z.lor 224 cdt) dst src cl (tlvs ps) ud) <= 128); by rewrite CRCC_wire_len|].
    apply parseCRCC_Ok; [done|]. by exists ps.
  - apply DecodeCC_Ok; [done|]. assert (bytes_ok (tlvs ps)) by by apply tlvs_bytes_ok.
    eexists _, _, _, _, _, _, (crcc_of ps).
    split; [reflexivity|]. split_and!; try done; try lia. apply parseCRCC_Ok; [done|]. by exists ps.
  - apply DecodeDT_Ok; [done|]. eexists _, _, _, [], _. split; [done|]. split; [done|]. by left.
  - apply DecodeDT_Ok; [done|]. eexists _, _, _, _, _. split; [done|]. split; [done|]. right.
    eexists. by split_and!.
  - apply DecodeDR_Ok; [done|]. eexists _, _, _, _, _. split; [reflexivity|]. by split_and!.
  - apply DecodeDC_Ok; [done|]. eexists _, _, _, _. split; [reflexivity|]. by split_and!.
  - apply DecodeER_Ok; [done|]. eexists _, _, _, _. split; [reflexivity|]. by split_and!.
  - apply DecodeED_Ok; [done|]. eexists _, _, _, _, _. split; [reflexivity|]. split_and!; try done; lia.
  - apply DecodeAK_Ok; [done|]. eexists _, _, _, _, _. split; [reflexivity|]. split_and!; try done; lia.
  - apply DecodeEA_Ok; [done|]. eexists _, _, _, _. split; [reflexivity|]. by split_and!.
  - apply DecodeRJ_Ok; [done|]. eexists _, _, _, _. split; [reflexivity|]. split_and!; try done; lia.
Qed.

(** ** The errors of the codec *)

(** The sentinel at the end of a chain of single wraps. *)
Fixpoint rooted (e : error) : option sentinel :=
  match e with
  | Sentinel s => Some s
  | Errorf _ [e] => rooted e
  | _ => None
  end.

(** It is the one and only thing [errors.Is] finds. *)
Lemma rooted_Is e s t : rooted e = Some s -> errors_Is e t = true <-> t = TSentinel s.
Proof.
  revert e. fix IH 1. intros [s'|f n|fmt [|e [|e' es]]|es|r i|ty ph|c] H; try discriminate H.
  - clear IH. injection H as ->. cbn. destruct t as [s''|]; [|by split].
    rewrite bool_decide_eq_true. by split; [intros ->|intros [= ->]].
  - cbn. rewrite orb_false_r. exact (IH e H).
Qed.

(** What [Decode] and the ten decoders can fail with. *)
Definition decode_sentinels : list sentinel :=
  [ErrTooShort; ErrInvalidLI; ErrLengthMismatch; ErrInvalidTPDUCode; ErrReservedTPDU;
   ErrMalformedParameter; ErrUnexpectedParameterLength; ErrUnsupportedDTVariant;
   ErrInvalidEDUserDataLength].

Definition errs_in {A} (l : list sentinel) (m : outcome A) : Prop :=
  forall e, m = Err e -> exists s, s ∈ l /\ rooted e = Some s.

Section ErrsIn.
Context (l : list sentinel).

Lemma errs_in_Ok {A} (a : A) : errs_in l (Ok a).
Proof. done. Qed.

Lemma errs_in_Panic {A} : errs_in l (@Panic A).
Proof. done. Qed.

Lemma errs_in_NoFuel {A} : errs_in l (@NoFuel A).
Proof. done. Qed.

Lemma errs_in_Err {A} e s : rooted e = Some s -> s ∈ l -> errs_in l (@Err A e).
Proof. intros Hr Hs e' [= <-]. eauto. Qed.

Lemma errs_in_bind {A B} (m : outcome A) (k : A -> outcome B) :
  errs_in l m -> (forall a, errs_in l (k a)) -> errs_in l (obind m k).
Proof. intros Hm Hk e. destruct m as [a|e'| |]; try done; [apply Hk|]. intros [= <-]. by apply Hm. Qed.

Lemma errs_in_wrapf {A} fmt (m : outcome A) : errs_in l m -> errs_in l (wrapf fmt m).
Proof.
  intros Hm e. destruct m as [a|e'| |]; try done. intros [= <-].
  destruct (Hm e' eq_refl) as (s & Hs & Hr). by exists s.
Qed.

Lemma errs_in_index b i : errs_in l (index b i).
Proof. unfold errs_in, index. repeat split_goal; done. Qed.

Lemma errs_in_slice b i j : errs_in l (slice b i j).
Proof. unfold errs_in, slice. by destruct (_ && _). Qed.

Lemma errs_in_iterate {S R} (body : S -> outcome (S + R)) n s :
  (forall s, errs_in l (body s)) -> errs_in l (iterate n body s).
Proof.
  intros Hb e. apply (iterate_err (fun e => exists s, s ∈ l /\ rooted e = Some s)).
  intros s' e'. apply Hb.
Qed.
End ErrsIn.

#[export] Hint Resolve errs_in_Ok errs_in_Panic errs_in_NoFuel errs_in_index errs_in_slice errs_in_wrapf : cotp.

(** Walk a body, every [Err] of it being a wrapped sentinel of the list. *)
Ltac errs_in :=
  repeat first
    [ solve [auto with cotp nocore] | apply errs_in_Ok | apply errs_in_index | apply errs_in_slice
    | eapply errs_in_Err; [reflexivity|unfold decode_sentinels; set_solver]
    | apply errs_in_bind; [|intros ?] | apply errs_in_wrapf | apply errs_in_iterate; intros ?
    | match goal with
      | |- errs_in _ (if ?c then _ else _) => destruct c
      | |- errs_in _ (match ?x with _ => _ end) => destruct x
      end ].

Lemma Uint16_errs b : errs_in decode_sentinels (BigEndian_Uint16 b).
Proof. unfold BigEndian_Uint16. errs_in. Qed.
Lemma ReadLI_errs b : errs_in decode_sentinels (ReadLI b).
Proof. unfold ReadLI. errs_in. Qed.
Lemma headerBounds_errs b li n : errs_in decode_sentinels (headerBounds b li n).
Proof. unfold headerBounds. errs_in. Qed.
#[export] Hint Resolve Uint16_errs ReadLI_errs headerBounds_errs : cotp.

Lemma PeekType_errs b : errs_in decode_sentinels (PeekType b).
Proof. unfold PeekType. errs_in. Qed.
Lemma parseVariablePart_errs b : errs_in decode_sentinels (parseVariablePart b).
Proof. unfold parseVariablePart, parseVariable_body. errs_in. Qed.
Lemma decodeUnits_errs b : errs_in decode_sentinels (decodePreferredMaxUnits b).
Proof. unfold decodePreferredMaxUnits. errs_in. Qed.
#[export] Hint Resolve PeekType_errs parseVariablePart_errs decodeUnits_errs : cotp.

Lemma parseCRCC_errs b : errs_in decode_sentinels (parseCRCCVariablePart b).
Proof. unfold parseCRCCVariablePart, parseCRCC_body, crcc_switch. errs_in. Qed.
Lemma decodeParameters_errs what b i h : errs_in decode_sentinels (decodeParameters what b i h).
Proof. unfold decodeParameters. errs_in. Qed.
#[export] Hint Resolve parseCRCC_errs decodeParameters_errs : cotp.

Lemma DecodeCR_errs b : errs_in decode_sentinels (DecodeCR b).
Proof. unfold DecodeCR. errs_in. Qed.
Lemma DecodeCC_errs b : errs_in decode_sentinels (DecodeCC b).
Proof. unfold DecodeCC. errs_in. Qed.
Lemma DecodeDT_errs b : errs_in decode_sentinels (DecodeDT b).
Proof. unfold DecodeDT. errs_in. Qed.
Lemma DecodeDR_errs b : errs_in decode_sentinels (DecodeDR b).
Proof. unfold DecodeDR. errs_in. Qed.
Lemma DecodeDC_errs b : errs_in decode_sentinels (DecodeDC b).
Proof. unfold DecodeDC. errs_in. Qed.
Lemma DecodeED_errs b : errs_in decode_sentinels (DecodeED b).
Proof. unfold DecodeED. errs_in. Qed.
Lemma DecodeER_errs b : errs_in decode_sentinels (DecodeER b).
Proof. unfold DecodeER. errs_in. Qed.
Lemma DecodeAK_errs b : errs_in decode_sentinels (DecodeAK b).
Proof. unfold DecodeAK. errs_in. Qed.
Lemma DecodeEA_errs b : errs_in decode_sentinels (DecodeEA b).
Proof. unfold DecodeEA. errs_in. Qed.
Lemma DecodeRJ_errs b : errs_in decode_sentinels (DecodeRJ b).
Proof. unfold DecodeRJ. errs_in. Qed.
#[export] Hint Resolve DecodeCR_errs DecodeCC_errs DecodeDT_errs DecodeDR_errs DecodeDC_errs
  DecodeED_errs DecodeER_errs DecodeAK_errs DecodeEA_errs DecodeRJ_errs : cotp.

(** The last branch of [Decode], an unsupported type, is never taken. *)
Lemma Decode_errs b : errs_in decode_sentinels (Decode b).
Proof.
  unfold Decode. destruct (len b <? MinHeaderLength); [errs_in|].
  destruct (PeekType b) as [t|e| |] eqn:Hp; cbn [wrapf obind]; try done.
  - destruct (PeekType_In b t Hp) as [->|[->|[->|[->|[->|[->|[->|[->|[->| ->]]]]]]]]]; cbn; errs_in.
  - intros e' [= <-]. apply (PeekType_errs b e Hp).
Qed.

(** ** Properties of the codec *)

Lemma Marshal_decodes t b :
  TPDU_typed t -> format_ok t -> Marshal t = Ok b -> Decode b = Ok (decoded (canon t)).
Proof.
  intros Ht Hf H. assert (round_trips t b) as (_ & Hp & Hd).
  { destruct t; eauto using CR_round_trips, CC_round_trips, DT_round_trips, DR_round_trips,
      DC_round_trips, ER_round_trips, ED_round_trips, AK_round_trips, EA_round_trips, RJ_round_trips. }
  apply Decode_Ok. eauto.
Qed.

(** A DT without destination reference has no room for parameters, yet
    [DT_MarshalBinary] encodes one that has some: the octets it emits are those
    of a normal-format DT, and [DecodeDT] reads a destination reference (made of
    the TPDU-NR octet and a parameter code) that the structure never had. *)
Theorem DT_parameters_without_reference d b d' :
  DT_typed d -> DT_DestinationRef d = None -> DT_Parameters d <> [] ->
  DT_MarshalBinary (Some d) = Ok b -> DecodeDT b = Ok d' ->
  DT_DestinationRef d' <> None /\ T_DT d' <> canon (T_DT d).
Proof.
  intros (Hn & _ & Hps & Hu) Href Hne H Hd'. destruct d as [eot nr ref ps ud].
  cbn [DT_DestinationRef DT_Parameters DT_TPDUNR DT_UserData] in *. subst ref. marshal_inv H.
  enough (DT_DestinationRef d' <> None) as Hr.
  { split; [done|]. intros [= ->]. by apply Hr. }
  apply DecodeDT_Ok in Hd' as (roa & nr' & eot' & ps' & ud' & _ & _ &
    [(Hw & _ & _)|(dst & _ & _ & _ & _ & ->)]); [|done|].
  - exfalso. unfold DT_minimal_wire in Hw. injection Hw as Hli _. rewrite u8_id in Hli by (unfold is_u8; len_pose; lia).
    destruct ps as [|p ps]; [done|]. cbn [map] in Hvar. rewrite tlvs_cons in Hvar. subst v.
    cbn [norm_param Code Value] in *. unfold slen in *. rewrite ?len_cons in *. len_pose. lia.
  - rewrite nr_eot_octet. pose proof (nr_octet_is_u8 nr eot). wire_bytes; apply u8_range.
Qed.

(** Parameters of one empty value: the reference is 0x8085 and EOT is lost. *)
Lemma DT_parameters_without_reference_witness :
  let d := mkDT true (Some 0) None [mkParam 133 None] (Some [9]) in
  let d' := mkDT false (Some 0) (Some 32901) [] (Some [9]) in
  DT_MarshalBinary (Some d) = Ok [4; 240; 128; 133; 0; 9] /\ DecodeDT [4; 240; 128; 133; 0; 9] = Ok d' /\
  DT_DestinationRef d' <> None /\ T_DT d' <> canon (T_DT d).
Proof.
  intros d d'. split; [reflexivity|]. split; [vm_compute; reflexivity|].
  apply (DT_parameters_without_reference d [4; 240; 128; 133; 0; 9] d');
    [decide_now|reflexivity|discriminate|reflexivity|vm_compute; reflexivity].
Defined.

Lemma decode_as_DT code b d : decode_as code b = Ok (T_DT d) -> DecodeDT b = Ok d.
Proof.
  unfold decode_as. intros H. repeat (destruct (code =? _); [rewrite obind_Ok in H; destruct H as (x & Hx & H); congruence|]).
  rewrite obind_Ok in H. destruct H as (x & Hx & H). congruence.
Qed.

(** C3: what an encoder emits, [Decode] reads back as the same structure, up to
    the canonical form (four-bit credits, seven-bit TPDU numbers, nil octet
    strings read back empty, known codes dropped from the unknown parameters),
    with one exception: a DT that has parameters and no DestinationRef, which the
    encoder does not refuse, is never read back. *)
Theorem Decode_Marshal t b :
  TPDU_typed t -> Marshal t = Ok b -> Decode b = Ok (decoded (canon t)) <-> format_ok t.
Proof.
  intros Ht Hm. split; [|intros Hf; by apply Marshal_decodes]. intros Hd. destruct t as [| |d| | | | | | |]; try done.
  intros Href. destruct (decide (DT_Parameters d = [])) as [|Hne]; [done|]. exfalso.
  destruct (proj1 (Decode_Ok _ _) Hd) as (code & t' & Hp & Hdec & Heq).
  destruct t'; try discriminate Heq. injection Heq as Heq.
  destruct (DT_parameters_without_reference d b d0) as [_ Hno]; [done|done|done|exact Hm|by eapply decode_as_DT|].
  apply Hno. cbn [canon]. by rewrite Heq.
Qed.

Definition sample_CR : CR :=
  mkCR 0 0 4660 0 [mkParam 133 (Some [1; 2; 3])] (Some [0; 1]) (Some [0; 2]) (Some 10) (Some 511) None.

Lemma Decode_Marshal_witness :
  exists b, Marshal (T_CR sample_CR) = Ok b /\ Decode b = Ok (decoded (canon (T_CR sample_CR))).
Proof.
  eexists. split; [vm_compute; reflexivity|].
  apply (Decode_Marshal (T_CR sample_CR));
      [cbn [TPDU_typed]; decide_now|vm_compute; reflexivity|exact I].
Defined.

(** C31: what [Decode] accepts can be encoded again, and decodes to the same value.
    The octets are the same for DR and ED; the same but for ignored trailing
    octets for DC, ER, EA, AK and RJ; but for the ROA bit for DT.  A CR or CC keeps
    its fixed part and user data, and its parameters come in normal form: the
    known ones first, each once, with its last value, that of 0xF0 without leading
    zeros, then the unknown ones as they were. *)
Theorem Marshal_Decode b d :
  bytes_ok b -> Decode b = Ok d ->
  exists t b', d = decoded t /\ Marshal t = Ok b' /\ same_octets t b b' /\ Decode b' = Ok d.
Proof.
  intros Hb (code & t & Hp & Ht & ->)%Decode_Ok.
  destruct (reencode b code t Hb Hp Ht) as (b' & Hm & Hs).
  destruct (decode_as_canonical b code t Hb Hp Ht) as [(Hty & Hf & Hc) _].
  exists t, b'. split_and!; try done. rewrite <- Hc.
  assert (round_trips t b') as (_ & Hp' & Hd').
  { destruct t; eauto using CR_round_trips, CC_round_trips, DT_round_trips, DR_round_trips,
      DC_round_trips, ER_round_trips, ED_round_trips, AK_round_trips, EA_round_trips, RJ_round_trips. }
  apply Decode_Ok. eauto.
Qed.

(** A CR with its selector twice, a leading zero in 0xF0 and an unknown parameter
    in front. *)
Definition sample_CR_octets : bytes := [20; 224; 0; 0; 0; 1; 0; 133; 2; 7; 7; 240; 2; 0; 5; 193; 1; 9; 193; 1; 8; 66].
Definition sample_CR_decoded : CR := mkCR 0 0 1 0 [mkParam 133 (Some [7; 7])] (Some [8]) None None (Some 5) (Some [66]).

Lemma Marshal_Decode_witness :
  exists t b', decoded (T_CR sample_CR_decoded) = decoded t /\ Marshal t = Ok b' /\
    same_octets t sample_CR_octets b' /\ Decode b' = Ok (decoded (T_CR sample_CR_decoded)).
Proof. apply Marshal_Decode; [decide_now|vm_compute; reflexivity]. Defined.

Example sample_CR_again :
  Marshal (T_CR sample_CR_decoded) = Ok [16; 224; 0; 0; 0; 1; 0; 193; 1; 8; 240; 1; 5; 133; 2; 7; 7; 66].
Proof. vm_compute. reflexivity. Qed.

(** C4: [Decode] accepts exactly the sentences of the grammar, and its value is
    the structure they encode. *)
Theorem Decode_refines_wire b d :
  bytes_ok b -> Decode b = Ok d <-> exists t, d = decoded t /\ wire t b.
Proof.
  intros Hb. split.
  - intros (code & t & Hp & Ht & ->)%Decode_Ok. exists t. split; [done|].
    by eapply decode_as_wire.
  - intros (t & -> & Hw). apply Decode_Ok. exists (tpdu_type t), t.
    split_and!; [by apply wire_PeekType|by apply wire_decode_as|done].
Qed.

Lemma Decode_refines_wire_witness :
  Decode [2; 240; 128; 1; 2] = Ok (decoded (T_DT (mkDT true (Some 0) None [] (Some [1; 2])))).
Proof.
  apply Decode_refines_wire; [decide_now|]. eexists. split; [reflexivity|].
  apply (wire_DT_minimal 0 0 true [1; 2]); [by left|lia].
Defined.

(** C32: [Decode] always returns, on every octet string: either one structure,
    well-typed and of the type octet 2 announces, or an error in whose chain
    [errors.Is] finds exactly one of the nine codec sentinels (never
    ErrUnknownTPDUType nor ErrUnsupportedTPDU). *)
Theorem Decode_total_and_classified b :
  bytes_ok b ->
  (exists t, Decode b = Ok (decoded t) /\ canonical_tpdu t /\ PeekType b = Ok (tpdu_type t)) \/
  (exists e s, Decode b = Err e /\ s ∈ decode_sentinels /\
     forall x, errors_Is e x = true <-> x = TSentinel s).
Proof.
  intros Hb. pose proof (Decode_total b Hb) as Hr. destruct (Decode b) as [d|e| |] eqn:Hd; try done.
  - left. apply Decode_Ok in Hd as (code & t & Hp & Ht & ->). exists t. split; [done|].
    destruct (decode_as_canonical b code t Hb Hp Ht) as [? <-]. done.
  - right. destruct (Decode_errs b e Hd) as (s & Hs & He). exists e, s.
    split_and!; [done|done|]. intros x. by apply rooted_Is.
Qed.

Lemma Decode_total_and_classified_witness :
  (exists t, Decode [1; 48] = Ok (decoded t) /\ canonical_tpdu t /\ PeekType [1; 48] = Ok (tpdu_type t)) \/
  (exists e s, Decode [1; 48] = Err e /\ s ∈ decode_sentinels /\
     forall x, errors_Is e x = true <-> x = TSentinel s).
Proof. apply Decode_total_and_classified. decide_now. Defined.

(** ** When an encoder fails *)

Definition encode_sentinels : list sentinel :=
  [ErrInvalidLI; ErrLengthMismatch; ErrUnexpectedParameterLength; ErrMissingRequiredField;
   ErrInvalidEDUserDataLength].

(** Walk an encoder body. *)
Ltac encode_errs :=
  repeat first
    [ eapply errs_in_Err; [reflexivity|unfold encode_sentinels; set_solver]
    | progress errs_in ].

Lemma appendParameter_errs dst c v : errs_in encode_sentinels (appendParameter dst c v).
Proof. unfold appendParameter. encode_errs. Qed.
#[export] Hint Resolve appendParameter_errs : cotp.

Lemma encodeVariable_range_errs dst ps : errs_in encode_sentinels (encodeVariable_range dst ps).
Proof.
  revert dst. induction ps as [|p ps IH]; intros dst; cbn [encodeVariable_range]; [errs_in|].
  apply errs_in_bind; auto with cotp.
Qed.

Lemma encodeVariablePart_errs ps : errs_in encode_sentinels (encodeVariablePart ps).
Proof. apply encodeVariable_range_errs. Qed.

Lemma encodeCRCC_range_errs what dst ps : errs_in encode_sentinels (encodeCRCC_range what dst ps).
Proof.
  revert dst. induction ps as [|p ps IH]; intros dst; cbn [encodeCRCC_range]; [errs_in|].
  destruct (known_code (Code p)); [done|]. apply errs_in_bind; auto with cotp.
Qed.

Lemma encodeUnits_errs u : errs_in encode_sentinels (encodePreferredMaxUnits u).
Proof. unfold encodePreferredMaxUnits, lead_body. encode_errs. Qed.
#[export] Hint Resolve encodeVariablePart_errs encodeCRCC_range_errs encodeUnits_errs : cotp.

Lemma encodeCRCC_errs c1 c2 sz pm ps what :
  errs_in encode_sentinels (encodeCRCCVariablePart c1 c2 sz pm ps what).
Proof. unfold encodeCRCCVariablePart. encode_errs. Qed.
#[export] Hint Resolve encodeCRCC_errs : cotp.

Lemma Marshal_errs t : errs_in encode_sentinels (Marshal t).
Proof.
  destruct t; cbn [Marshal CR_MarshalBinary CC_MarshalBinary DT_MarshalBinary DR_MarshalBinary
    DC_MarshalBinary ER_MarshalBinary ED_MarshalBinary AK_MarshalBinary EA_MarshalBinary
    RJ_MarshalBinary]; encode_errs.
Qed.

Lemma Marshal_returns t : TPDU_typed t -> returns (Marshal t).
Proof.
  destruct t; intros Ht; cbn [Marshal CR_MarshalBinary CC_MarshalBinary DT_MarshalBinary
    DR_MarshalBinary DC_MarshalBinary ER_MarshalBinary ED_MarshalBinary AK_MarshalBinary
    EA_MarshalBinary RJ_MarshalBinary]; repeat split_goal; try done; go_returns;
    auto using encodeVariablePart_returns.
  all: by apply encodeCRCC_returns; destruct Ht as (_ & _ & _ & _ & _ & _ & _ & _ & ? & _).
Qed.

(** C37: an encoder succeeds exactly on an encodable structure (values and header
    within their length octets, the 128-octet limit of a CR, the 1..16 octets of
    an ED); otherwise it returns one of five sentinels.  It never panics. *)
Theorem Marshal_succeeds_iff_encodable t :
  TPDU_typed t ->
  (encodable t /\ exists b, Marshal t = Ok b) \/
  (~ encodable t /\ exists e s, Marshal t = Err e /\ s ∈ encode_sentinels /\
     forall x, errors_Is e x = true <-> x = TSentinel s).
Proof.
  intros Ht. pose proof (Marshal_returns t Ht) as Hr. rewrite <- (Marshal_is_Ok t Ht).
  destruct (Marshal t) as [b|e| |] eqn:Hm; try done.
  - left. split; by exists b.
  - right. split; [by intros [? ?]|]. destruct (Marshal_errs t e Hm) as (s & Hs & He).
    exists e, s. split_and!; [done|done|]. intros x. by apply rooted_Is.
Qed.

Lemma Marshal_succeeds_iff_encodable_witness :
  let t := T_RJ (mkRJ 3 5 9) in
  (encodable t /\ exists b, Marshal t = Ok b) \/
  (~ encodable t /\ exists e s, Marshal t = Err e /\ s ∈ encode_sentinels /\
     forall x, errors_Is e x = true <-> x = TSentinel s).
Proof. apply Marshal_succeeds_iff_encodable. cbn. unfold RJ_typed, is_u8, is_u16. cbn. lia. Defined.

(** Preferred-maximum units (0xF0) are encoded in the least number of
    octets and decode to the same value; only zero cannot be encoded. *)
Theorem preferred_units_roundtrip u :
  is_u32 u ->
  if u =? 0 then fails_with (encodePreferredMaxUnits u) ErrUnexpectedParameterLength
  else exists l, encodePreferredMaxUnits u = Ok l /\ bytes_ok l /\ decodePreferredMaxUnits l = Ok u /\
         forall v, bytes_ok v -> decodePreferredMaxUnits v = Ok u -> len l <= len v.
Proof.
  intros Hu. destruct (Z.eqb_spec u 0) as [->|Hne].
  { eexists. by split. }
  destruct (encodePreferredMaxUnits_total u Hu Hne) as [l Hl]. exists l.
  destruct (encodePreferredMaxUnits_value u l Hu Hl) as (Hv & Hlen & Hok & _).
  split_and!; [done|done|by apply decodePreferredMaxUnits_Ok|].
  intros v Hvok Hdec. by eapply encode_minimal.
Qed.

Lemma preferred_units_roundtrip_witness :
  exists l, encodePreferredMaxUnits 511 = Ok l /\ bytes_ok l /\ decodePreferredMaxUnits l = Ok 511 /\
    forall v, bytes_ok v -> decodePreferredMaxUnits v = Ok 511 -> len l <= len v.
Proof. refine (preferred_units_roundtrip 511 _). unfold is_u32. lia. Defined.

(** The CR/CC variable part is accepted exactly when it is a list of
    code-length-value triples whose size parameters are well-formed; a code that
    is repeated counts once, with its last value (last-wins), and the unknown
    parameters keep their order. *)
Theorem parseCRCC_last_wins b r :
  bytes_ok b ->
  parseCRCCVariablePart b = Ok r <->
  exists ps, b = tlvs ps /\ Forall parsed ps /\ Forall sizes_ok ps /\
    callingSelector r = last (values_of ParamCallingSelector ps) /\
    calledSelector r = last (values_of ParamCalledSelector ps) /\
    tpduSize r = option_map (List.hd 0) (last (values_of ParamTPDUSize ps)) /\
    preferredMaxTPDUSize r = option_map be_value (last (values_of ParamPreferredMaxTPDUSize ps)) /\
    parameters r = List.filter (fun p => negb (known_code (Code p))) ps.
Proof.
  intros Hb. rewrite parseCRCC_Ok by done. split.
  - intros (ps & -> & ? & ? & ->). exists ps. by split_and!.
  - intros (ps & -> & ? & ? & H1 & H2 & H3 & H4 & H5). exists ps. split_and!; try done.
    destruct r. cbn in *. by subst.
Qed.

(** Two calling selectors, the second of them empty. *)
Lemma parseCRCC_last_wins_witness :
  parseCRCCVariablePart [193; 1; 7; 133; 0; 193; 0] = Ok (mkCrcc (Some []) None None None [mkParam 133 (Some [])]).
Proof.
  apply parseCRCC_last_wins; [decide_now|].
  exists [mkParam 193 (Some [7]); mkParam 133 (Some []); mkParam 193 (Some [])].
  split; [reflexivity|]. split.
  { repeat constructor; cbn; try lia; eexists; (split; [reflexivity|]); split; try decide_now; cbn; lia. }
  split; [|by split_and!].
  repeat constructor; cbn; discriminate.
Defined.
