(* ===== verification/Detect.v ===== *)
(** * Classification and extraction: detect.go and extract.go

    The ten [LooksLike] functions share one body and differ in the test of octet
    2.  Together they are a partition: a buffer with a complete header is
    recognised by the function of the type [PeekType] answers, and by no
    other. *)

From S2P Require Import Prelude Errors Types Wire PreferredMax Params Decode Encode Codec.
From S2P Require Import RoundTrip CodecSpec.

(** [if err != nil { return d }] *)
Definition or_return {A B} (d : B) (m : outcome A) (k : A -> outcome B) : outcome B :=
  match m with
  | Ok a => k a
  | Err _ => Ok d
  | Panic => Panic
  | NoFuel => NoFuel
  end.

Definition looksLike (test : Z -> bool) (b : bytes) : outcome bool :=
  if len b <? MinHeaderLength then Ok false else
  or_return false (ReadLI b) (fun li =>
  if len b <? 1 + li then Ok false else
  let! c := index b 1 in
  Ok (test c)).

Definition LooksLikeCR : bytes -> outcome bool := looksLike (fun c => Z.land c 240 =? 224).
Definition LooksLikeCC : bytes -> outcome bool := looksLike (fun c => Z.land c 240 =? 208).
Definition LooksLikeDR : bytes -> outcome bool := looksLike (fun c => c =? 128).
Definition LooksLikeDC : bytes -> outcome bool := looksLike (fun c => c =? 192).
Definition LooksLikeDT : bytes -> outcome bool := looksLike (fun c => Z.land c 254 =? 240).
Definition LooksLikeER : bytes -> outcome bool := looksLike (fun c => c =? 112).
Definition LooksLikeED : bytes -> outcome bool := looksLike (fun c => c =? 16).
Definition LooksLikeAK : bytes -> outcome bool := looksLike (fun c => Z.land c 240 =? 96).
Definition LooksLikeEA : bytes -> outcome bool := looksLike (fun c => c =? 32).
Definition LooksLikeRJ : bytes -> outcome bool := looksLike (fun c => Z.land c 240 =? 80).

Definition IsConnectionOriented (b : bytes) : outcome bool :=
  or_return false (PeekType b) (fun t =>
  Ok ((t =? TypeCR) || (t =? TypeCC) || (t =? TypeDR) || (t =? TypeDC))).

Definition IsAckType (t : Z) : bool := (t =? TypeAK) || (t =? TypeRJ).

Definition ExtractUserData (b : bytes) : outcome goslice :=
  let! t := wrapf "extract user data: %w" (PeekType b) in
  if t =? TypeDT then
    let! dt := wrapf "extract user data: %w" (DecodeDT b) in Ok (DT_UserData dt)
  else if t =? TypeED then
    let! ed := wrapf "extract user data: %w" (DecodeED b) in Ok (ED_UserData ed)
  else Err (Errorf "extract user data: not DT or ED (type %s): %w" [Sentinel ErrInvalidTPDUCode]).

(** The function of each type, by type code. *)
Definition LooksLike (t : Z) : bytes -> outcome bool :=
  if t =? TypeCR then LooksLikeCR
  else if t =? TypeCC then LooksLikeCC
  else if t =? TypeDR then LooksLikeDR
  else if t =? TypeDC then LooksLikeDC
  else if t =? TypeDT then LooksLikeDT
  else if t =? TypeER then LooksLikeER
  else if t =? TypeED then LooksLikeED
  else if t =? TypeAK then LooksLikeAK
  else if t =? TypeEA then LooksLikeEA
  else LooksLikeRJ.

(** ** Facts *)

Lemma LooksLike_test t :
  t ∈ tpdu_types -> LooksLike t = looksLike (fun c => type_matches c t).
Proof.
  unfold tpdu_types. intros H. repeat (apply elem_of_cons in H as [->|H]; [reflexivity|]).
  by apply not_elem_of_nil in H.
Qed.

Lemma HeaderLength_cases b :
  (exists li rest, b = li :: rest /\ li <= MaxLI /\ 1 + li <= len b /\ HeaderLength b = Ok (1 + li)) \/
  fails_with (HeaderLength b) ErrTooShort \/ fails_with (HeaderLength b) ErrInvalidLI.
Proof.
  unfold HeaderLength. destruct (ReadLI b) as [li|e| |] eqn:H.
  - apply ReadLI_Ok in H as (rest & -> & Hli). cbn [obind].
    destruct (len (li :: rest) <? 1 + li) eqn:E.
    + right. left. eexists. by split.
    + left. exists li, rest. split_and!; [done|done|blia|done].
  - cbn [obind]. right. revert H. unfold ReadLI.
    destruct (len b <? 1) eqn:?; [intros [= <-]; left; eexists; by split|].
    destruct (index_is_Ok b 0) as [li ->]; [blia|]. cbn [obind].
    destruct (MaxLI <? li); [intros [= <-]; right; eexists; by split|done].
  - exfalso. pose proof (ReadLI_returns b) as Hr. by rewrite H in Hr.
  - exfalso. pose proof (ReadLI_returns b) as Hr. by rewrite H in Hr.
Qed.

(** A function answers yes exactly when the header is whole and octet 2 passes. *)
Lemma looksLike_true test b :
  looksLike test b = Ok true <->
  exists li c rest, b = li :: c :: rest /\ li <= MaxLI /\ 1 + li <= len b /\ test c = true.
Proof.
  unfold looksLike, MinHeaderLength. destruct (len b <? 2) eqn:Hl.
  { split; [done|]. intros (li & c & rest & -> & _). breflect. rewrite !len_cons in Hl. len_pose. lia. }
  destruct (ReadLI b) as [li|e| |] eqn:Hli; cbn [or_return].
  - apply ReadLI_Ok in Hli as (rest & -> & Hli). destruct rest as [|c rest]; [done|].
    destruct (_ <? 1 + li) eqn:E; go_index.
    + split; [done|]. intros (? & ? & ? & [= <- <- <-] & ? & ? & ?). blia.
    + split; [intros [= Ht]|intros (? & ? & ? & [= <- <- <-] & _ & _ & ->); done].
      exists li, c, rest. split_and!; [done|done|blia|done].
  - split; [done|]. intros (li & c & rest & -> & Hm & _). by rewrite ReadLI_cons in Hli.
  - split; [done|]. intros (li & c & rest & -> & Hm & _). by rewrite ReadLI_cons in Hli.
  - split; [done|]. intros (li & c & rest & -> & Hm & _). by rewrite ReadLI_cons in Hli.
Qed.

Lemma looksLike_bool test b : looksLike test b = Ok true \/ looksLike test b = Ok false.
Proof.
  unfold looksLike, MinHeaderLength. destruct (len b <? 2) eqn:Hl; [by right|].
  pose proof (ReadLI_returns b) as Hr. destruct (ReadLI b) as [li|e| |]; try done; cbn [or_return]; [|by right].
  destruct (len b <? 1 + li); [by right|].
  destruct (index_is_Ok b 1) as [c ->]; [blia|]. cbn [obind]. destruct (test c); auto.
Qed.

(** [PeekType] with a whole header is the recognised type. *)
Lemma PeekType_LooksLike b t :
  bytes_ok b -> t ∈ tpdu_types ->
  looksLike (fun c => type_matches c t) b = Ok true <->
  PeekType b = Ok t /\ is_Ok (HeaderLength b).
Proof.
  intros Hb Ht. rewrite looksLike_true. split.
  - intros (li & c & rest & -> & Hli & Hlen & Hm).
    apply bytes_ok_cons in Hb as [_ [Hc _]%bytes_ok_cons]. split.
    + apply PeekType_peek_code; [done|]. by apply peek_code_spec.
    + unfold HeaderLength. rewrite ReadLI_cons by done. cbn [obind]. if_false. by eexists.
  - intros [Hp [h Hh]]. destruct (PeekType_Ok_shape b t Hp) as (li & c & rest & -> & Hli).
    exists li, c, rest. apply bytes_ok_cons in Hb as [_ [Hc _]%bytes_ok_cons].
    split_and!; [done|done| |].
    + unfold HeaderLength in Hh. rewrite ReadLI_cons in Hh by done. cbn [obind] in Hh.
      destruct (_ <? 1 + li) eqn:E; [done|blia].
    + apply PeekType_peek_code in Hp; [|done]. by apply peek_code_spec in Hp as [_ ?].
Qed.

(** ** Properties *)

(** The ten [LooksLike] functions never panic, and each answers yes exactly
    when the header is complete and [PeekType] announces its type; so at most one
    of them recognises a buffer. *)
Theorem LooksLike_partition b t :
  bytes_ok b -> t ∈ tpdu_types ->
  (LooksLike t b = Ok true \/ LooksLike t b = Ok false) /\
  (LooksLike t b = Ok true <-> PeekType b = Ok t /\ is_Ok (HeaderLength b)) /\
  (forall t', t' ∈ tpdu_types -> LooksLike t b = Ok true -> LooksLike t' b = Ok true -> t = t').
Proof.
  intros Hb Ht. rewrite (LooksLike_test t Ht).
  split_and!; [apply looksLike_bool|by apply PeekType_LooksLike|].
  intros t' Ht'. rewrite (LooksLike_test t' Ht').
  intros [Hp _]%PeekType_LooksLike [Hp' _]%PeekType_LooksLike; try done. congruence.
Qed.

Lemma LooksLike_partition_witness :
  (LooksLike TypeDT [2; 241; 0] = Ok true \/ LooksLike TypeDT [2; 241; 0] = Ok false) /\
  (LooksLike TypeDT [2; 241; 0] = Ok true <->
     PeekType [2; 241; 0] = Ok TypeDT /\ is_Ok (HeaderLength [2; 241; 0])) /\
  (forall t', t' ∈ tpdu_types -> LooksLike TypeDT [2; 241; 0] = Ok true ->
     LooksLike t' [2; 241; 0] = Ok true -> TypeDT = t').
Proof. apply LooksLike_partition; decide_now. Defined.

(** A decoder only accepts a whole header. *)
Lemma wire_header t b : wire t b -> is_Ok (HeaderLength b).
Proof.
  intros Hw. assert (exists li rest, b = li :: rest /\ li <= MaxLI /\ li <= len rest) as
    (li & rest & -> & Hli & Hlen).
  { destruct Hw; eexists _, _; (split; [reflexivity|]);
      unfold MaxLI, BigEndian_PutUint16; cbn [app]; split; try lia; first [buf_lia|done]. }
  unfold HeaderLength. rewrite ReadLI_cons by done. cbn [obind]. rewrite len_cons.
  if_false. by eexists.
Qed.

(** Whatever [Decode] accepts is recognised by the [LooksLike] function of
    its type and by no other, and it is connection-oriented exactly for CR, CC,
    DR and DC. *)
Theorem Decode_LooksLike b d :
  bytes_ok b -> Decode b = Ok d ->
  LooksLike (D_Type d) b = Ok true /\
  (forall t, t ∈ tpdu_types -> t <> D_Type d -> LooksLike t b = Ok false) /\
  IsConnectionOriented b = Ok (bool_decide (D_Type d ∈ [TypeCR; TypeCC; TypeDR; TypeDC])).
Proof.
  intros Hb (code & t & Hp & Ht & ->)%Decode_Ok.
  destruct (decode_as_canonical b code t Hb Hp Ht) as [_ <-].
  pose proof (wire_header t b (decode_as_wire _ b t Hb Hp Ht)) as Hh.
  assert (D_Type (decoded t) = tpdu_type t) as -> by (by destruct t).
  assert (tpdu_type t ∈ tpdu_types) as Hin by (unfold tpdu_types; destruct t; set_solver).
  split_and!.
  - rewrite LooksLike_test by done. by apply PeekType_LooksLike.
  - intros t' Ht' Hne. rewrite LooksLike_test by done.
    destruct (looksLike_bool (fun c => type_matches c t') b) as [H|H]; [|done].
    apply PeekType_LooksLike in H as [H _]; [congruence|done|done].
  - unfold IsConnectionOriented. rewrite Hp. by destruct t.
Qed.

Lemma Decode_LooksLike_witness :
  LooksLike TypeDR [6; 128; 0; 1; 0; 2; 0] = Ok true /\
  (forall t, t ∈ tpdu_types -> t <> TypeDR -> LooksLike t [6; 128; 0; 1; 0; 2; 0] = Ok false) /\
  IsConnectionOriented [6; 128; 0; 1; 0; 2; 0] = Ok true.
Proof.
  apply (Decode_LooksLike [6; 128; 0; 1; 0; 2; 0] (decoded (T_DR (mkDR 1 2 0 [] (Some [])))));
    [decide_now|vm_compute; reflexivity].
Defined.

(** [ExtractUserData] gives the user data of exactly the buffers [Decode]
    reads as a DT or an ED; it never panics, and its errors are codec sentinels. *)
Theorem ExtractUserData_spec b :
  bytes_ok b ->
  (forall ud, ExtractUserData b = Ok ud <->
     (exists d, Decode b = Ok (decoded (T_DT d)) /\ ud = DT_UserData d) \/
     (exists e, Decode b = Ok (decoded (T_ED e)) /\ ud = ED_UserData e)) /\
  returns (ExtractUserData b) /\ errs_in decode_sentinels (ExtractUserData b).
Proof.
  intros Hb. split_and!.
  - intros ud. unfold ExtractUserData. setoid_rewrite Decode_Ok.
    rewrite obind_Ok. setoid_rewrite wrapf_Ok. split.
    + intros (t & Hp & H). destruct (t =? TypeDT) eqn:E; [|destruct (t =? TypeED) eqn:E'; [|done]]; breflect; subst t.
      * go_inv H. injection H as <-. left. exists v. split; [|done]. exists TypeDT, (T_DT v).
        split_and!; [done|cbn; by rewrite E|done].
      * go_inv H. injection H as <-. right. exists v. split; [|done]. exists TypeED, (T_ED v).
        split_and!; [done|cbn; by rewrite E0|done].
    + intros [(d & (code & t & Hp & Ht & Hd) & ->)|(d & (code & t & Hp & Ht & Hd) & ->)];
        destruct (decode_as_canonical b code t Hb Hp Ht) as [_ <-];
        destruct t; try discriminate Hd; injection Hd as ->; eexists; (split; [exact Hp|]);
        cbn in Ht |- *; rewrite obind_Ok in Ht; destruct Ht as (x & Hx & [= ->]); by rewrite Hx.
  - unfold ExtractUserData. go_returns; auto with cotp.
  - unfold ExtractUserData. errs_in.
Qed.

Lemma ExtractUserData_spec_witness :
  ExtractUserData [2; 240; 128; 5; 6] = Ok (Some [5; 6]).
Proof.
  apply (ExtractUserData_spec [2; 240; 128; 5; 6]); [decide_now|].
  left. exists (mkDT true (Some 0) None [] (Some [5; 6])). split; [vm_compute; reflexivity|reflexivity].
Defined.
