(* ===== verification/SizeNego.v ===== *)
(** * TPDU size negotiation: size_nego.go

    The client builds a size offer ([buildSizeOffer]), the server reads it from
    the CR ([decodeSizeOffer]) and selects ([selectSize]), the client interprets
    the selection of the CC ([interpretCCSize]).  A Go [int] is a [Z]; its
    division truncates, as [Z.quot]. *)

From S2P Require Import Prelude Errors Types.

(** ** Data *)

(** class0StandardSizes: (code, size), largest first. *)
Definition class0StandardSizes : list (Z * Z) :=
  [(16, 65536); (15, 32768); (14, 16384); (13, 8192); (12, 4096); (11, 2048); (10, 1024);
   (9, 512); (8, 256); (7, 128)].

Inductive sizePath :=
  | sizePathOmitted
  | sizePathStandard
  | sizePathPreferred.

Record sizeOffer := mkOffer {
  Standard : option Z;
  Preferred : option Z;
  Omitted : bool
}.

Record sizeSelection := mkSelection {
  Path : sizePath;
  Effective : Z;
  sel_StandardCode : option Z;
  sel_PreferredUnits : option Z
}.

Record sizeCRBuild := mkCRBuild {
  Offer : sizeOffer;
  cr_StandardCode : option Z;
  cr_PreferredUnits : option Z
}.

(** [p == nil] *)
Definition is_nil {A} (p : option A) : bool := match p with None => true | Some _ => false end.

(** ** Operations *)

Definition normalizeConfiguredMax (configured : Z) : outcome Z :=
  if configured =? 0 then Ok DefaultMaxTPDULength
  else if (configured <? MinTPDULength) || (MaxITOTTPDULength <? configured)
  then Err (Errorf "MaxTPDULength %d: %w" [Sentinel ErrInvalidConfig])
  else Ok configured.

Definition preferredUnitsAndEffective (configured : Z) : outcome (Z * Z) :=
  let! ceiling := normalizeConfiguredMax configured in
  let u := Z.quot ceiling 128 in
  if u <? 1 then Err (Errorf "preferred units for %d: %w" [Sentinel ErrInvalidConfig]) else
  let u := if MaxPreferredUnitsITOT <? u then MaxPreferredUnitsITOT else u in
  let units := u32 u in
  Ok (units, units * 128).

(** The [range class0StandardSizes] loops. *)
Fixpoint find_size (table : list (Z * Z)) (size : Z) : option Z :=
  match table with
  | [] => None
  | (code, s) :: table => if s =? size then Some code else find_size table size
  end.

Fixpoint find_code (table : list (Z * Z)) (code : Z) : option Z :=
  match table with
  | [] => None
  | (c, size) :: table => if c =? code then Some size else find_code table code
  end.

Fixpoint find_fallback (table : list (Z * Z)) (limit : Z) : option (Z * Z) :=
  match table with
  | [] => None
  | (code, size) :: table => if size <=? limit then Some (size, code) else find_fallback table limit
  end.

Definition class0StandardCode (size : Z) : option Z := find_size class0StandardSizes size.
Definition class0StandardSize (code : Z) : option Z := find_code class0StandardSizes code.

(** [(size, code)] *)
Definition fallbackStandard (preferredEffective : Z) : outcome (Z * Z) :=
  if preferredEffective <? MinTPDULength
  then Err (Errorf "fallback for preferred %d: %w" [Sentinel ErrInvalidConfig]) else
  match find_fallback class0StandardSizes preferredEffective with
  | Some r => Ok r
  | None => Err (Errorf "fallback for preferred %d: %w" [Sentinel ErrInvalidConfig])
  end.

Definition normalizePreferredCeiling (ceiling : Z) : outcome Z :=
  let! '(_, effective) := preferredUnitsAndEffective ceiling in
  Ok effective.

Definition normalizeStandardCeiling (ceiling : Z) : outcome (Z * Z) :=
  let! c := normalizeConfiguredMax ceiling in
  fallbackStandard c.

Definition errProfile : error := Errorf "SizeProfile %d: %w" [Sentinel ErrInvalidConfig].

(** [profile != SizeProfileRFC1006Compat && profile != SizeProfilePreferredMaximum] *)
Definition bad_profile (profile : Z) : bool :=
  negb (profile =? SizeProfileRFC1006Compat) && negb (profile =? SizeProfilePreferredMaximum).

(** An offer with both parameters, the standard one being the floor of the
    preferred one. *)
Definition fallback_offer (units effective : Z) : outcome sizeCRBuild :=
  let! '(fbSize, fbCode) := fallbackStandard effective in
  Ok (mkCRBuild (mkOffer (Some fbSize) (Some effective) false) (Some fbCode) (Some units)).

Definition buildSizeOffer (configured profile : Z) : outcome sizeCRBuild :=
  if bad_profile profile then Err errProfile else
  let! ceiling := normalizeConfiguredMax configured in
  if profile =? SizeProfileRFC1006Compat then
    if ceiling =? DefaultMaxTPDULength then Ok (mkCRBuild (mkOffer None None true) None None) else
    match class0StandardCode ceiling with
    | Some code => Ok (mkCRBuild (mkOffer (Some ceiling) None false) (Some code) None)
    | None =>
        let! '(units, effective) := preferredUnitsAndEffective ceiling in
        fallback_offer units effective
    end
  else if profile =? SizeProfilePreferredMaximum then
    let! '(units, effective) := preferredUnitsAndEffective ceiling in
    match class0StandardCode ceiling with
    | Some code =>
        if ceiling =? effective
        then Ok (mkCRBuild (mkOffer (Some ceiling) (Some effective) false) (Some code) (Some units))
        else fallback_offer units effective
    | None => fallback_offer units effective
    end
  else Err errProfile.

Definition decodeSizeOffer (standardCode preferredUnits : option Z) : outcome sizeOffer :=
  match standardCode, preferredUnits with
  | None, None => Ok (mkOffer None None true)
  | _, _ =>
      let! standard :=
        match standardCode with
        | Some code =>
            match class0StandardSize code with
            | Some size => Ok (Some size)
            | None => Err (Errorf "TPDU size code 0x%02x not allowed in class 0: %w" [Sentinel ErrHandshake])
            end
        | None => Ok None
        end in
      let! preferred :=
        match preferredUnits with
        | Some units =>
            if (units =? 0) || (MaxPreferredUnitsITOT <? units)
            then Err (Errorf "preferred units %d: %w" [Sentinel ErrHandshake])
            else Ok (Some (units * 128))
        | None => Ok None
        end in
      Ok (mkOffer standard preferred false)
  end.

Definition selectOmittedCR (serverCeiling callbackCeiling profile : Z) : outcome sizeSelection :=
  let ceiling := serverCeiling in
  let ceiling :=
    if negb (callbackCeiling =? 0)
    then if callbackCeiling <? ceiling then callbackCeiling else ceiling
    else ceiling in
  if ceiling =? DefaultMaxTPDULength
  then Ok (mkSelection sizePathOmitted DefaultMaxTPDULength None None) else
  match class0StandardCode ceiling with
  | Some code => Ok (mkSelection sizePathStandard ceiling (Some code) None)
  | None =>
      let! '(size, code) := normalizeStandardCeiling ceiling in
      Ok (mkSelection sizePathStandard size (Some code) None)
  end.

Definition selectPreferredPath (peerPreferred serverCeiling callbackCeiling : Z) :
    outcome sizeSelection :=
  let! serverEff := normalizePreferredCeiling serverCeiling in
  let selected := Z.min serverEff peerPreferred in
  let! selected :=
    if negb (callbackCeiling =? 0) then
      let! cbEff := normalizePreferredCeiling callbackCeiling in
      Ok (if cbEff <? selected then cbEff else selected)
    else Ok selected in
  if selected <? MinTPDULength
  then Err (Errorf "selected preferred %d: %w" [Sentinel ErrHandshake]) else
  let n := Z.quot selected 128 in
  if (n <=? 0) || (MaxPreferredUnitsITOT <? n)
  then Err (Errorf "selected preferred units %d: %w" [Sentinel ErrHandshake]) else
  let selected := n * 128 in
  Ok (mkSelection sizePathPreferred selected None (Some (u32 n))).

Definition selectStandardPath (peerStandard serverCeiling callbackCeiling : Z) :
    outcome sizeSelection :=
  let! '(serverSize, serverCode) := normalizeStandardCeiling serverCeiling in
  let selected := Z.min serverSize peerStandard in
  let! selected :=
    if negb (callbackCeiling =? 0) then
      let! '(cbSize, _) := normalizeStandardCeiling callbackCeiling in
      Ok (if cbSize <? selected then cbSize else selected)
    else Ok selected in
  let! '(selected, code) :=
    match class0StandardCode selected with
    | Some code => Ok (selected, code)
    | None => fallbackStandard selected
    end in
  Ok (mkSelection sizePathStandard selected (Some code) None).

Definition selectSize (peer : sizeOffer) (serverCeiling callbackCeiling profile : Z) :
    outcome sizeSelection :=
  if bad_profile profile then Err errProfile else
  let! serverNorm := normalizeConfiguredMax serverCeiling in
  let! _ := if negb (callbackCeiling =? 0) then normalizeConfiguredMax callbackCeiling else Ok 0 in
  if Omitted peer || (is_nil (Standard peer) && is_nil (Preferred peer))
  then selectOmittedCR serverNorm callbackCeiling profile else
  match Preferred peer with
  | Some preferred => selectPreferredPath preferred serverNorm callbackCeiling
  | None =>
      match Standard peer with
      | Some standard => selectStandardPath standard serverNorm callbackCeiling
      | None => Err (Errorf "empty size offer: %w" [Sentinel ErrHandshake])
      end
  end.

Definition clientEffectiveProposal (sent : sizeOffer) : Z :=
  match Preferred sent with
  | Some p => p
  | None => match Standard sent with Some s => s | None => DefaultMaxTPDULength end
  end.

Definition indicationMaxTPDULength (offer : sizeOffer) : Z := clientEffectiveProposal offer.

Definition interpretCCSize (sent : sizeOffer) (ccStandardCode ccPreferredUnits : option Z)
    (profile : Z) : outcome Z :=
  if bad_profile profile then Err errProfile else
  match ccStandardCode, ccPreferredUnits with
  | Some _, Some _ => Err (Errorf "CC contains both 0xC0 and 0xF0: %w" [Sentinel ErrHandshake])
  | None, None =>
      if profile =? SizeProfilePreferredMaximum
      then Err (Errorf "CC omits size under PreferredMaximum: %w" [Sentinel ErrHandshake])
      else Ok (Z.min (clientEffectiveProposal sent) DefaultMaxTPDULength)
  | None, Some units =>
      match Preferred sent with
      | None => Err (Errorf "CC selects 0xF0 but CR did not offer preferred: %w" [Sentinel ErrHandshake])
      | Some preferred =>
          if (units =? 0) || (MaxPreferredUnitsITOT <? units)
          then Err (Errorf "CC preferred units %d: %w" [Sentinel ErrHandshake]) else
          let eff := units * 128 in
          if preferred <? eff
          then Err (Errorf "CC preferred %d exceeds offer %d: %w" [Sentinel ErrHandshake])
          else Ok eff
      end
  | Some code, None =>
      if is_nil (Standard sent) && negb (Omitted sent)
      then Err (Errorf "CC selects 0xC0 but CR did not offer standard: %w" [Sentinel ErrHandshake]) else
      match class0StandardSize code with
      | None => Err (Errorf "CC TPDU size code 0x%02x not allowed in class 0: %w" [Sentinel ErrHandshake])
      | Some size =>
          if Omitted sent then
            let local := clientEffectiveProposal sent in
            Ok (if local <? size then local else size)
          else
            match Standard sent with
            | None => Panic
            | Some standard =>
                if standard <? size
                then Err (Errorf "CC standard %d exceeds offer %d: %w" [Sentinel ErrHandshake])
                else Ok size
            end
      end
  end.

(** ** Facts about the tables *)

#[local] Ltac Zify.zify_post_hook ::= Z.to_euclidean_division_equations.

(** Split the comparison a goal is stuck on. *)
Ltac table_cases :=
  repeat match goal with
  | |- context [if ?a =? ?b then _ else _] => destruct (Z.eqb_spec a b)
  | |- context [if ?a <=? ?b then _ else _] => destruct (Z.leb_spec a b)
  end.

(** The code and the size of a table row determine each other. *)
Lemma class0_inverse c s : class0StandardCode s = Some c <-> class0StandardSize c = Some s.
Proof.
  unfold class0StandardCode, class0StandardSize, class0StandardSizes. cbn [find_size find_code].
  table_cases; split; intros [=]; subst; try reflexivity; lia.
Qed.

Lemma class0_size_range c s : class0StandardSize c = Some s -> 128 <= s <= 65536.
Proof. unfold class0StandardSize, class0StandardSizes. cbn [find_code]. table_cases; intros [= <-]; lia. Qed.

(** No standard size lies between the largest TPDU of a TPKT and 65536. *)
Lemma class0_size_gap c s : class0StandardSize c = Some s -> 128 <= s <= 65531 \/ s = 65536.
Proof. unfold class0StandardSize, class0StandardSizes. cbn [find_code]. table_cases; intros [= <-]; lia. Qed.

Definition is_standard (s : Z) : Prop := exists c, class0StandardCode s = Some c.

(** The largest standard size under a limit. *)
Definition standard_floor (limit : Z) : Z :=
  match find_fallback class0StandardSizes limit with Some (size, _) => size | None => 0 end.

(** The largest multiple of 128 under a limit that 0xF0 can carry on ITOT. *)
Definition preferred_floor (limit : Z) : Z := Z.min (limit / 128) 511 * 128.

Lemma fallback_Ok limit :
  128 <= limit ->
  exists code, fallbackStandard limit = Ok (standard_floor limit, code) /\
    class0StandardCode (standard_floor limit) = Some code.
Proof.
  intros H. unfold fallbackStandard, MinTPDULength. if_false.
  unfold standard_floor, class0StandardSizes. cbn [find_fallback].
  table_cases; try lia; eexists; split; reflexivity.
Qed.

Lemma standard_floor_spec limit :
  128 <= limit ->
  128 <= standard_floor limit <= limit /\
  forall s, is_standard s -> s <= limit -> s <= standard_floor limit.
Proof.
  intros H. split.
  - unfold standard_floor, class0StandardSizes. cbn [find_fallback]. table_cases; lia.
  - intros s [c Hc]. apply class0_inverse in Hc. revert Hc.
    unfold standard_floor, class0StandardSize, class0StandardSizes. cbn [find_fallback find_code].
    table_cases; intros [= <-]; lia.
Qed.

(** ** Ceilings *)

(** What a configured maximum means; zero is the default. *)
Definition norm_max (configured : Z) : Z :=
  if configured =? 0 then DefaultMaxTPDULength else configured.

Definition valid_max (configured : Z) : Prop := configured = 0 \/ 128 <= configured <= 65531.

Definition valid_profile (profile : Z) : Prop :=
  profile = SizeProfileRFC1006Compat \/ profile = SizeProfilePreferredMaximum.

Lemma valid_profile_good profile : bad_profile profile = false <-> valid_profile profile.
Proof.
  unfold bad_profile, valid_profile. rewrite andb_false_iff, !negb_false_iff, !Z.eqb_eq. tauto.
Qed.

Lemma normalize_valid c : valid_max c -> normalizeConfiguredMax c = Ok (norm_max c).
Proof.
  intros [->|H]; [done|]. unfold normalizeConfiguredMax, norm_max, MinTPDULength, MaxITOTTPDULength.
  destruct (Z.eqb_spec c 0); [lia|].
  assert ((c <? 128) || (65531 <? c) = false) as -> by (rewrite orb_false_iff, !Z.ltb_ge; lia). done.
Qed.

Lemma normalize_invalid c :
  ~ valid_max c -> fails_with (normalizeConfiguredMax c) ErrInvalidConfig.
Proof.
  intros H. unfold valid_max in H. unfold normalizeConfiguredMax, MinTPDULength, MaxITOTTPDULength.
  destruct (Z.eqb_spec c 0); [tauto|].
  destruct ((c <? 128) || (65531 <? c)) eqn:E; [by eexists|]. breflect. lia.
Qed.

Lemma norm_max_range c : valid_max c -> 128 <= norm_max c <= 65531.
Proof. unfold norm_max, DefaultMaxTPDULength. intros [->|H]; [done|]. destruct (c =? 0); lia. Qed.

(** A normalised ceiling is its own normal form. *)
Lemma valid_norm c : 128 <= c <= 65531 -> valid_max c /\ norm_max c = c.
Proof. intros H. split; [by right|]. unfold norm_max. destruct (Z.eqb_spec c 0); lia. Qed.

Lemma preferred_floor_range m : 128 <= m -> 128 <= preferred_floor m <= m.
Proof. unfold preferred_floor. lia. Qed.

Lemma preferred_floor_max m : m <= 65531 -> preferred_floor m = m / 128 * 128.
Proof. unfold preferred_floor. lia. Qed.

Lemma preferredUnits_Ok c :
  128 <= c <= 65531 ->
  preferredUnitsAndEffective c = Ok (preferred_floor c / 128, preferred_floor c) /\
  1 <= preferred_floor c / 128 <= 511.
Proof.
  intros H. destruct (valid_norm c H) as [Hv Hn].
  unfold preferredUnitsAndEffective. rewrite (normalize_valid c Hv), Hn. cbn [obind].
  assert (c ÷ 128 = c / 128) as -> by lia. if_false. unfold MaxPreferredUnitsITOT.
  assert ((if 511 <? c / 128 then 511 else c / 128) = c / 128) as -> by (if_false; done).
  unfold u32. rewrite Z.mod_small by lia. rewrite preferred_floor_max by lia.
  rewrite Z.div_mul by lia. split; [done|lia].
Qed.

Lemma normalizePreferred_Ok c :
  128 <= c <= 65531 -> normalizePreferredCeiling c = Ok (preferred_floor c).
Proof.
  intros H. unfold normalizePreferredCeiling. by rewrite (proj1 (preferredUnits_Ok c H)).
Qed.

Lemma normalizeStandard_Ok c :
  128 <= c <= 65531 ->
  exists code, normalizeStandardCeiling c = Ok (standard_floor c, code) /\
    class0StandardCode (standard_floor c) = Some code.
Proof.
  intros H. destruct (valid_norm c H) as [Hv Hn]. unfold normalizeStandardCeiling.
  rewrite (normalize_valid c Hv), Hn. cbn [obind]. apply fallback_Ok. lia.
Qed.

Lemma standard_floor_id s : is_standard s -> standard_floor s = s.
Proof.
  intros Hs. destruct Hs as [c Hc]. pose proof Hc as Hc'. apply class0_inverse, class0_size_range in Hc'.
  destruct (standard_floor_spec s) as [? Hmax]; [lia|].
  specialize (Hmax s (ex_intro _ c Hc)). lia.
Qed.

Lemma standard_floor_standard m : 128 <= m -> is_standard (standard_floor m).
Proof. intros H. destruct (fallback_Ok m H) as (c & _ & Hc). by exists c. Qed.

Lemma min_standard a b : is_standard a -> is_standard b -> is_standard (Z.min a b).
Proof. intros. by destruct (Z.min_spec a b) as [[_ ->]|[_ ->]]. Qed.

Lemma standard_floor_mono a b : 128 <= a -> a <= b -> standard_floor a <= standard_floor b.
Proof.
  intros Ha Hb. destruct (standard_floor_spec a Ha) as [? _].
  apply (standard_floor_spec b); [lia| |lia]. by apply standard_floor_standard.
Qed.

Lemma standard_floor_min a b :
  128 <= a -> 128 <= b -> standard_floor (Z.min a b) = Z.min (standard_floor a) (standard_floor b).
Proof.
  intros Ha Hb.
  destruct (Z.min_spec a b) as [[Hlt ->]|[Hlt ->]];
    [pose proof (standard_floor_mono a b)|pose proof (standard_floor_mono b a)]; lia.
Qed.

Lemma preferred_floor_min a b :
  preferred_floor (Z.min a b) = Z.min (preferred_floor a) (preferred_floor b).
Proof. unfold preferred_floor. lia. Qed.

(** ** What the server selects *)

(** The ceiling of the server and of the callback's decision. *)
Definition server_ceiling (configured callback : Z) : Z := Z.min (norm_max configured) (norm_max callback).

(** The size the server settles on for an offer, given its ceiling. *)
Definition negotiated (offer : sizeOffer) (m : Z) : Z :=
  match Preferred offer, Standard offer with
  | Some p, _ => Z.min (preferred_floor m) p
  | None, Some s => Z.min (standard_floor m) s
  | None, None => if m =? DefaultMaxTPDULength then m else standard_floor m
  end.

(** An offer as [decodeSizeOffer] produces it. *)
Definition offer_ok (o : sizeOffer) : Prop :=
  (Omitted o = true <-> Standard o = None /\ Preferred o = None) /\
  (forall s, Standard o = Some s -> is_standard s) /\
  (forall p, Preferred o = Some p -> exists n, p = n * 128 /\ 1 <= n <= 511).

(** A selection says one thing: no parameter, 0xC0 or 0xF0, of its size. *)
Definition selection_ok (sel : sizeSelection) : Prop :=
  match Path sel with
  | sizePathOmitted =>
      sel_StandardCode sel = None /\ sel_PreferredUnits sel = None /\ Effective sel = 65531
  | sizePathStandard =>
      sel_StandardCode sel = class0StandardCode (Effective sel) /\ is_standard (Effective sel) /\
      sel_PreferredUnits sel = None
  | sizePathPreferred =>
      sel_StandardCode sel = None /\ sel_PreferredUnits sel = Some (Effective sel / 128) /\
      Effective sel mod 128 = 0 /\ 1 <= Effective sel / 128 <= 511
  end.

Definition offered_path (o : sizeOffer) (p : sizePath) : Prop :=
  match p with
  | sizePathPreferred => Preferred o <> None
  | sizePathStandard => Preferred o = None
  | sizePathOmitted => Omitted o = true
  end.

Lemma decodeSizeOffer_ok sc pu o :
  opt_typed is_u8 sc -> opt_typed is_u32 pu -> decodeSizeOffer sc pu = Ok o -> offer_ok o.
Proof.
  intros Hsc Hpu H. unfold decodeSizeOffer, MaxPreferredUnitsITOT in H.
  assert ((sc = None /\ pu = None /\ o = mkOffer None None true) \/
    (exists st pr, o = mkOffer st pr false /\ (st <> None \/ pr <> None) /\
       (forall s, st = Some s -> is_standard s) /\
       (forall p, pr = Some p -> exists n, p = n * 128 /\ 1 <= n <= 511))) as
    [(-> & -> & ->)|(st & pr & -> & Hne & Hst & Hpr)].
  { destruct sc as [c|], pu as [u|]; cbn [obind opt_typed] in *; unfold is_u32 in *.
    4: left; by injection H as <-.
    all: right; go_inv H; repeat split_hyp E; try discriminate; go_inv H;
      repeat (split_hyp E0; try discriminate); simplify_eq; eexists _, _.
    all: split; [reflexivity|]; split; [naive_solver|]; split; intros ? [= <-]; breflect.
    all: try (eexists; by apply class0_inverse). all: try (eexists; split; [reflexivity|lia]). }
  - split; [done|]. split; discriminate.
  - unfold offer_ok. cbn. split_and!; [|done|done]. split; [done|]. by intros [-> ->]; destruct Hne.
Qed.

Lemma normalize_callback cb :
  valid_max cb ->
  (if negb (cb =? 0) then normalizeConfiguredMax cb else Ok 0) = Ok (if cb =? 0 then 0 else cb).
Proof.
  intros H. destruct (Z.eqb_spec cb 0); [done|]. cbn [negb].
  rewrite normalize_valid by done. unfold norm_max. by destruct (Z.eqb_spec cb 0).
Qed.

Lemma server_ceiling_range ls cb :
  valid_max ls -> valid_max cb -> 128 <= server_ceiling ls cb <= 65531.
Proof.
  intros H1%norm_max_range H2%norm_max_range. unfold server_ceiling. lia.
Qed.

Lemma norm_max_cases c : (c = 0 /\ norm_max c = 65531) \/ (c <> 0 /\ norm_max c = c).
Proof. unfold norm_max. destruct (Z.eqb_spec c 0); [left|right]; done. Qed.

(** The callback's ceiling, as the three paths combine it. *)
Lemma callback_min (s cb : Z) (f : Z -> Z) :
  (if f cb <? s then f cb else s) = Z.min s (f cb).
Proof. destruct (Z.ltb_spec (f cb) s); lia. Qed.

(** Read a selection's fields. *)
Ltac sel_fields := unfold selection_ok; cbn [Path Effective sel_StandardCode sel_PreferredUnits].

Lemma selectOmitted_Ok ls cb profile :
  valid_max ls -> valid_max cb ->
  exists sel, selectOmittedCR (norm_max ls) cb profile = Ok sel /\ selection_ok sel /\
    Path sel <> sizePathPreferred /\
    Effective sel = negotiated (mkOffer None None true) (server_ceiling ls cb).
Proof.
  intros Hl Hc. pose proof (server_ceiling_range ls cb Hl Hc) as Hr. unfold selectOmittedCR.
  assert ((if negb (cb =? 0) then if cb <? norm_max ls then cb else norm_max ls else norm_max ls)
    = server_ceiling ls cb) as ->.
  { pose proof (norm_max_range ls Hl). unfold server_ceiling.
    destruct (norm_max_cases cb) as [[-> ->]|[Hne ->]]; [cbn [Z.eqb negb]; lia|].
    apply Z.eqb_neq in Hne. rewrite Hne. cbn [negb]. destruct (Z.ltb_spec cb (norm_max ls)); lia. }
  set (m := server_ceiling ls cb) in *. unfold negotiated. cbn [Preferred Standard].
  destruct (Z.eqb_spec m DefaultMaxTPDULength) as [E|E].
  { eexists. split; [reflexivity|]. by cbn. }
  destruct (class0StandardCode m) as [code|] eqn:Ecode.
  - assert (is_standard m) as Hs by by exists code.
    eexists. split; [reflexivity|]. sel_fields. rewrite Ecode, standard_floor_id by done. by split_and!.
  - destruct (normalizeStandard_Ok m Hr) as (code & -> & Hcode). cbn [obind].
    eexists. split; [reflexivity|]. sel_fields. rewrite Hcode.
    split_and!; try done. by exists code.
Qed.

Lemma selectPreferred_Ok p ls cb :
  valid_max ls -> valid_max cb -> (exists n, p = n * 128 /\ 1 <= n <= 511) ->
  exists sel, selectPreferredPath p (norm_max ls) cb = Ok sel /\ selection_ok sel /\
    Path sel = sizePathPreferred /\
    Effective sel = Z.min (preferred_floor (server_ceiling ls cb)) p.
Proof.
  intros Hl Hc (n & -> & Hn). pose proof (norm_max_range ls Hl) as Hr.
  unfold selectPreferredPath. rewrite normalizePreferred_Ok by done. cbn [obind].
  assert ((if negb (cb =? 0)
    then let! cbEff := normalizePreferredCeiling cb in
         Ok (if cbEff <? Z.min (preferred_floor (norm_max ls)) (n * 128) then cbEff
             else Z.min (preferred_floor (norm_max ls)) (n * 128))
    else Ok (Z.min (preferred_floor (norm_max ls)) (n * 128)))
    = Ok (Z.min (preferred_floor (server_ceiling ls cb)) (n * 128))) as ->.
  { unfold server_ceiling. rewrite preferred_floor_min.
    destruct (norm_max_cases cb) as [[-> ->]|[Hne ->]];
      [cbn [Z.eqb negb]; f_equal; unfold preferred_floor; lia|].
    destruct Hc as [|Hc]; [done|]. apply Z.eqb_neq in Hne. rewrite Hne. cbn [negb].
    rewrite normalizePreferred_Ok by done.
    cbn [obind]. rewrite callback_min. f_equal. lia. }
  cbn [obind]. pose proof (server_ceiling_range ls cb Hl Hc) as Hm.
  set (m := server_ceiling ls cb) in *.
  assert (exists k, Z.min (preferred_floor m) (n * 128) = k * 128 /\ 1 <= k <= 511) as (k & -> & Hk).
  { exists (Z.min (Z.min (m / 128) 511) n). unfold preferred_floor. lia. }
  unfold MinTPDULength, MaxPreferredUnitsITOT. if_false. rewrite Z.quot_mul by lia.
  assert ((k <=? 0) || (511 <? k) = false) as -> by (rewrite orb_false_iff, Z.leb_gt, Z.ltb_ge; lia).
  eexists. split; [reflexivity|]. sel_fields. unfold u32. rewrite Z.mod_small, Z.div_mul by lia.
  split_and!; try done; lia.
Qed.

Lemma selectStandard_Ok s ls cb :
  valid_max ls -> valid_max cb -> is_standard s ->
  exists sel, selectStandardPath s (norm_max ls) cb = Ok sel /\ selection_ok sel /\
    Path sel = sizePathStandard /\
    Effective sel = Z.min (standard_floor (server_ceiling ls cb)) s.
Proof.
  intros Hl Hc Hs. pose proof (norm_max_range ls Hl) as Hr. unfold selectStandardPath.
  destruct (normalizeStandard_Ok (norm_max ls) Hr) as (code & -> & Hcode). cbn [obind].
  pose proof (server_ceiling_range ls cb Hl Hc) as Hm.
  assert ((if negb (cb =? 0)
    then let! '(cbSize, _) := normalizeStandardCeiling cb in
         Ok (if cbSize <? Z.min (standard_floor (norm_max ls)) s then cbSize
             else Z.min (standard_floor (norm_max ls)) s)
    else Ok (Z.min (standard_floor (norm_max ls)) s))
    = Ok (Z.min (standard_floor (server_ceiling ls cb)) s)) as ->.
  { unfold server_ceiling in *. pose proof (norm_max_range cb Hc).
    rewrite standard_floor_min by lia.
    destruct (norm_max_cases cb) as [[-> ->]|[Hne ->]]; [cbn [Z.eqb negb]; f_equal|].
    - pose proof (standard_floor_mono (norm_max ls) 65531). lia.
    - destruct Hc as [|Hc]; [done|]. apply Z.eqb_neq in Hne. rewrite Hne. cbn [negb].
      destruct (normalizeStandard_Ok cb Hc) as (? & -> & _). cbn [obind]. rewrite callback_min. f_equal. lia. }
  cbn [obind].
  destruct (min_standard (standard_floor (server_ceiling ls cb)) s) as [c Hc'];
    [apply standard_floor_standard; lia|done|].
  rewrite Hc'. cbn [obind]. eexists. split; [reflexivity|]. sel_fields. rewrite Hc'. split_and!; try done. by exists c.
Qed.

(** Server side, on any offer. *)
Lemma selectSize_Ok o ls cb profile :
  offer_ok o -> valid_max ls -> valid_max cb -> valid_profile profile ->
  exists sel, selectSize o ls cb profile = Ok sel /\ selection_ok sel /\
    offered_path o (Path sel) /\ Effective sel = negotiated o (server_ceiling ls cb).
Proof.
  intros (Hom & Hst & Hpr) Hl Hc Hp. unfold selectSize.
  rewrite (proj2 (valid_profile_good profile) Hp), (normalize_valid ls Hl). cbn [obind].
  rewrite (normalize_callback cb Hc). cbn [obind].
  destruct o as [st pr om]. cbn [Standard Preferred Omitted] in *.
  destruct st as [s|], pr as [p|]; cbn [is_nil andb];
    try (destruct om; [destruct (proj1 Hom eq_refl); discriminate|]); cbn [orb].
  - destruct (selectPreferred_Ok p ls cb Hl Hc (Hpr p eq_refl)) as (sel & -> & ? & Hpath & Heff).
    exists sel. rewrite Hpath, Heff. by split_and!.
  - destruct (selectStandard_Ok s ls cb Hl Hc (Hst s eq_refl)) as (sel & -> & ? & Hpath & Heff).
    exists sel. rewrite Hpath, Heff. by split_and!.
  - destruct (selectPreferred_Ok p ls cb Hl Hc (Hpr p eq_refl)) as (sel & -> & ? & Hpath & Heff).
    exists sel. rewrite Hpath, Heff. by split_and!.
  - rewrite orb_true_r, (proj2 Hom (conj eq_refl eq_refl)).
    destruct (selectOmitted_Ok ls cb profile Hl Hc) as (sel & -> & ? & Hpath & Heff).
    exists sel. rewrite Heff. destruct (Path sel); by split_and!.
Qed.

Lemma negotiated_range o m :
  offer_ok o -> 128 <= m <= 65531 -> 128 <= negotiated o m <= m.
Proof.
  intros (_ & Hst & Hpr) Hm. pose proof (standard_floor_spec m ltac:(lia)) as [Hs _].
  pose proof (preferred_floor_range m ltac:(lia)). unfold negotiated.
  destruct (Preferred o) as [p|]; [destruct (Hpr p eq_refl) as (n & -> & ?); lia|].
  destruct (Standard o) as [s|].
  - destruct (Hst s eq_refl) as [c Hc]. apply class0_inverse, class0_size_range in Hc. lia.
  - destruct (m =? DefaultMaxTPDULength); lia.
Qed.

(** ** What the client offers and accepts *)

(** The fallback offer of both profiles. *)
Lemma fallback_offer_Ok m :
  128 <= m <= 65531 ->
  exists code, fallback_offer (preferred_floor m / 128) (preferred_floor m) =
    Ok (mkCRBuild (mkOffer (Some (standard_floor (preferred_floor m))) (Some (preferred_floor m)) false)
          (Some code) (Some (preferred_floor m / 128))) /\
    class0StandardCode (standard_floor (preferred_floor m)) = Some code.
Proof.
  intros H. pose proof (preferred_floor_range m ltac:(lia)).
  destruct (fallback_Ok (preferred_floor m)) as (code & Hf & Hc); [lia|].
  exists code. unfold fallback_offer. rewrite Hf. by cbn [obind].
Qed.

(** What a client build is: the parameters of the CR say the offer, the offer is
    well-formed and its sizes stay below the ceiling. *)
Definition build_ok (b : sizeCRBuild) (ceiling profile : Z) : Prop :=
  offer_ok (Offer b) /\
  cr_StandardCode b = option_map (fun s => default 0 (class0StandardCode s)) (Standard (Offer b)) /\
  cr_PreferredUnits b = option_map (fun p => p / 128) (Preferred (Offer b)) /\
  (forall s, Standard (Offer b) = Some s -> s <= ceiling) /\
  (forall p, Preferred (Offer b) = Some p -> p = preferred_floor ceiling) /\
  (Omitted (Offer b) = true -> ceiling = 65531) /\
  (forall p, Preferred (Offer b) = Some p -> exists s, Standard (Offer b) = Some s /\ s <= p) /\
  (profile = SizeProfilePreferredMaximum -> Preferred (Offer b) <> None).

Lemma build_fallback_ok m profile code :
  128 <= m <= 65531 ->
  class0StandardCode (standard_floor (preferred_floor m)) = Some code ->
  build_ok (mkCRBuild (mkOffer (Some (standard_floor (preferred_floor m))) (Some (preferred_floor m)) false)
          (Some code) (Some (preferred_floor m / 128))) m profile.
Proof.
  intros Hm Hc. pose proof (preferred_floor_range m ltac:(lia)).
  pose proof (standard_floor_spec (preferred_floor m) ltac:(lia)) as [? _].
  unfold build_ok, offer_ok. cbn [Offer Standard Preferred Omitted cr_StandardCode cr_PreferredUnits option_map].
  rewrite Hc. cbn [default]. split_and!; try done.
  - split; [done|by intros [? _]].
  - by intros s [= <-]; exists code.
  - intros p [= <-]. exists (preferred_floor m / 128). pose proof (preferredUnits_Ok m Hm) as [_ ?].
    unfold preferred_floor in *. lia.
  - intros s [= <-]. lia.
  - by intros p [= <-].
  - intros p [= <-]. eexists. split; [reflexivity|lia].
Qed.

Lemma build_standard_ok m profile code pref :
  128 <= m <= 65531 -> class0StandardCode m = Some code ->
  (pref = None /\ profile = SizeProfileRFC1006Compat) \/ pref = Some m /\ m = preferred_floor m ->
  build_ok (mkCRBuild (mkOffer (Some m) pref false) (Some code)
    (option_map (fun p => p / 128) pref)) m profile.
Proof.
  intros Hm Hc Hpref. unfold build_ok, offer_ok.
  cbn [Offer Standard Preferred Omitted cr_StandardCode cr_PreferredUnits option_map].
  rewrite Hc. cbn [default]. split_and!; try done.
  - split; [done|by intros [? _]].
  - by intros s [= <-]; exists code.
  - intros p ->. destruct Hpref as [[? _]|[[= ->] Hf]]; [done|].
    exists (m / 128). unfold preferred_floor in Hf. lia.
  - intros s [= <-]. lia.
  - intros p ->. by destruct Hpref as [[? _]|[[= ->] Hf]].
  - intros p ->. destruct Hpref as [[? _]|[[= ->] Hf]]; [done|]. eexists. split; [reflexivity|lia].
  - intros ->. by destruct Hpref as [[_ ?]|[-> _]].
Qed.

Lemma buildSizeOffer_Ok configured profile :
  valid_max configured -> valid_profile profile ->
  exists b, buildSizeOffer configured profile = Ok b /\ build_ok b (norm_max configured) profile.
Proof.
  intros Hv Hp. pose proof (norm_max_range configured Hv) as Hm. unfold buildSizeOffer.
  rewrite (proj2 (valid_profile_good profile) Hp), (normalize_valid configured Hv). cbn [obind].
  set (m := norm_max configured) in *.
  destruct (preferredUnits_Ok m Hm) as [Hu _]. destruct (fallback_offer_Ok m Hm) as (fc & Hfb & Hfc).
  pose proof (build_fallback_ok m profile fc Hm Hfc) as Hfok.
  destruct Hp as [->| ->]; cbn [Z.eqb SizeProfileRFC1006Compat SizeProfilePreferredMaximum].
  - destruct (Z.eqb_spec m DefaultMaxTPDULength) as [E|E].
    { eexists. split; [reflexivity|]. unfold build_ok, offer_ok. cbn. split_and!; try done. }
    destruct (class0StandardCode m) as [code|] eqn:Ec.
    + eexists. split; [reflexivity|]. apply (build_standard_ok m _ code None); [done|done|by left].
    + rewrite Hu. cbn [obind]. rewrite Hfb. eauto.
  - rewrite Hu. cbn [obind].
    destruct (class0StandardCode m) as [code|] eqn:Ec; [|rewrite Hfb; eauto].
    destruct (Z.eqb_spec m (preferred_floor m)) as [E|E]; [|rewrite Hfb; eauto].
    eexists. split; [reflexivity|]. rewrite <- E.
    apply (build_standard_ok m _ code (Some m)); [done|done|by right].
Qed.

Lemma buildSizeOffer_valid configured profile b :
  buildSizeOffer configured profile = Ok b -> valid_max configured /\ valid_profile profile.
Proof.
  unfold buildSizeOffer. intros H. destruct (bad_profile profile) eqn:Hp; [done|].
  split; [|by apply valid_profile_good]. rewrite obind_Ok in H. destruct H as (c & Hc & _).
  destruct (decide (valid_max configured)) as [|Hn] || (assert (valid_max configured \/ ~ valid_max configured)
    as [?|Hn] by (unfold valid_max; lia)); [done|].
  destruct (normalize_invalid configured Hn) as (e & He & _). congruence.
Qed.

(** The server reads the client's offer back from the CR parameters. *)
Lemma decode_build b ceiling profile :
  build_ok b ceiling profile -> 128 <= ceiling <= 65531 ->
  decodeSizeOffer (cr_StandardCode b) (cr_PreferredUnits b) = Ok (Offer b).
Proof.
  intros ((Hom & Hst & Hpr) & Hsc & Hpu & _) Hm. destruct b as [[st pr om] sc pu].
  cbn [Offer Standard Preferred Omitted cr_StandardCode cr_PreferredUnits] in *. subst sc pu.
  assert (om = is_nil st && is_nil pr) as ->.
  { destruct st, pr, om; try done; by destruct (proj1 Hom eq_refl) || (by discriminate (proj2 Hom (conj eq_refl eq_refl))). }
  assert (forall p, pr = Some p -> (p / 128 =? 0) || (511 <? p / 128) = false /\ p / 128 * 128 = p) as Hunits.
  { intros p Hp. destruct (Hpr p Hp) as (n & -> & Hn). rewrite Z.div_mul by lia.
    rewrite orb_false_iff, Z.eqb_neq, Z.ltb_ge. lia. }
  assert (forall s, st = Some s -> class0StandardSize (default 0 (class0StandardCode s)) = Some s) as Hcode.
  { intros s Hs. destruct (Hst s Hs) as [c Hc]. rewrite Hc. by apply class0_inverse. }
  unfold decodeSizeOffer, MaxPreferredUnitsITOT.
  destruct st as [s|], pr as [p|]; cbn [option_map is_nil andb obind];
    rewrite ?(Hcode _ eq_refl); cbn [obind]; try done.
  all: by destruct (Hunits p eq_refl) as [-> ->].
Qed.

Lemma omitted_proposal o : offer_ok o -> Omitted o = true -> clientEffectiveProposal o = 65531.
Proof. intros (Hom & _) H. destruct (proj1 Hom H) as [Hs Hp]. unfold clientEffectiveProposal. by rewrite Hp, Hs. Qed.

(** The client accepts what the server selects, and reads the same size. *)
Lemma interpret_selected b ceiling profile m sel :
  build_ok b ceiling profile -> valid_profile profile -> 128 <= m <= 65531 ->
  selection_ok sel -> offered_path (Offer b) (Path sel) ->
  Effective sel = negotiated (Offer b) m ->
  interpretCCSize (Offer b) (sel_StandardCode sel) (sel_PreferredUnits sel) profile = Ok (Effective sel).
Proof.
  intros (Hok & _ & _ & _ & _ & _ & _ & Hpm) Hp Hm Hsel Hpath Heff.
  unfold interpretCCSize. rewrite (proj2 (valid_profile_good profile) Hp).
  pose proof (negotiated_range (Offer b) m Hok Hm) as Hr. rewrite <- Heff in Hr.
  pose proof Hok as (Hom & _ & _). unfold selection_ok in Hsel. unfold offered_path in Hpath.
  unfold negotiated in Heff. destruct (Path sel).
  - destruct Hsel as (-> & -> & E). rewrite (omitted_proposal _ Hok Hpath).
    destruct (Z.eqb_spec profile SizeProfilePreferredMaximum) as [->|_].
    + destruct (proj1 Hom Hpath) as [_ Hn]. by destruct (Hpm eq_refl).
    + by rewrite E.
  - destruct Hsel as (-> & [c Hc] & ->). rewrite Hc, Hpath in *.
    rewrite (proj1 (class0_inverse _ _) Hc). destruct (Standard (Offer b)) as [s|] eqn:Es; cbn [is_nil andb].
    + destruct (Omitted (Offer b)); [by destruct (proj1 Hom eq_refl)|]. if_false. done.
    + assert (Omitted (Offer b) = true) as Ho by tauto.
      rewrite (omitted_proposal _ Hok Ho), Ho. cbn [negb]. by if_false.
  - destruct Hsel as (-> & -> & Hmod & Hn). destruct (Preferred (Offer b)) as [p|]; [|done].
    unfold MaxPreferredUnitsITOT.
    assert ((Effective sel / 128 =? 0) || (511 <? Effective sel / 128) = false) as ->
      by (rewrite orb_false_iff, Z.eqb_neq, Z.ltb_ge; lia).
    assert (Effective sel / 128 * 128 = Effective sel) as -> by lia. by if_false.
Qed.

(** The proposal of a built offer. *)
Lemma proposal_range b ceiling profile :
  build_ok b ceiling profile -> 128 <= ceiling <= 65531 ->
  128 <= clientEffectiveProposal (Offer b) <= ceiling.
Proof.
  intros ((Hom & Hst & _) & _ & _ & Hst' & Hpr' & Hom' & _) Hm. unfold clientEffectiveProposal.
  pose proof (preferred_floor_range ceiling ltac:(lia)).
  destruct (Preferred (Offer b)) as [p|]; [rewrite (Hpr' p eq_refl); lia|].
  destruct (Standard (Offer b)) as [s|].
  - destruct (Hst s eq_refl) as [c Hc%class0_inverse%class0_size_range]. specialize (Hst' s eq_refl). lia.
  - rewrite Hom' by tauto. unfold DefaultMaxTPDULength. lia.
Qed.

(** Whatever the server's ceiling, the size stays within both. *)
Lemma negotiated_within b ceiling profile m :
  build_ok b ceiling profile -> 128 <= ceiling <= 65531 -> 128 <= m <= 65531 ->
  128 <= negotiated (Offer b) m <= Z.min ceiling m.
Proof.
  intros (Hok & _ & _ & Hst & Hpr & Hom & _) Hc Hm. pose proof (negotiated_range (Offer b) m Hok Hm).
  split; [lia|]. apply Z.min_glb; [|lia]. destruct Hok as ([_ Hom'] & _). unfold negotiated in *.
  destruct (Preferred (Offer b)) as [p|] eqn:Ep.
  { pose proof (preferred_floor_range ceiling ltac:(lia)). specialize (Hpr p eq_refl). lia. }
  destruct (Standard (Offer b)) as [s|] eqn:Es; [specialize (Hst s eq_refl); lia|].
  rewrite Hom by by apply Hom'. lia.
Qed.

Lemma interpret_Ok b ceiling profile sc pu n :
  build_ok b ceiling profile -> 128 <= ceiling <= 65531 ->
  opt_typed is_u8 sc -> opt_typed is_u32 pu ->
  interpretCCSize (Offer b) sc pu profile = Ok n ->
  128 <= n <= clientEffectiveProposal (Offer b) /\
  (pu <> None -> Preferred (Offer b) <> None) /\
  (sc <> None -> Standard (Offer b) <> None \/ Omitted (Offer b) = true).
Proof.
  intros Hok Hm Hsc Hpu H. pose proof (proposal_range b ceiling profile Hok Hm) as Hprop.
  unfold interpretCCSize in H. destruct (bad_profile profile); [done|].
  destruct sc as [c|], pu as [u|]; [done|..].
  - destruct (is_nil (Standard (Offer b)) && negb (Omitted (Offer b))) eqn:Eo; [done|].
    destruct (class0StandardSize c) as [size|] eqn:Ec; [|done]. apply class0_size_range in Ec.
    destruct (Omitted (Offer b)) eqn:Em.
    + injection H as <-. split; [|split; [done|by right]].
      destruct (Z.ltb_spec (clientEffectiveProposal (Offer b)) size); lia.
    + destruct (Standard (Offer b)) as [s|] eqn:Es; [|done].
      destruct (s <? size) eqn:El; [done|]. injection H as <-. breflect.
      split; [|split; [done|by left]]. destruct Hok as (_ & _ & _ & _ & _ & _ & Hps & _).
      unfold clientEffectiveProposal in *. rewrite Es in *.
      destruct (Preferred (Offer b)) as [p|]; [|lia].
      destruct (Hps p eq_refl) as (s' & Hs' & ?). simplify_eq. lia.
  - destruct (Preferred (Offer b)) as [p|] eqn:Ep; [|done].
    destruct ((u =? 0) || _) eqn:Eu; [done|]. destruct (p <? u * 128) eqn:El; [done|].
    injection H as <-. breflect. cbn [opt_typed] in Hpu. unfold is_u32 in Hpu.
    split; [|split; [done|done]]. unfold clientEffectiveProposal. rewrite Ep. lia.
  - destruct (profile =? SizeProfilePreferredMaximum); [done|]. injection H as <-.
    unfold DefaultMaxTPDULength. split; [lia|done].
Qed.

(** The dereference of the standard offer is guarded. *)
Lemma interpret_returns o sc pu profile : returns (interpretCCSize o sc pu profile).
Proof.
  unfold interpretCCSize. destruct (bad_profile profile); [done|].
  destruct sc as [c|], pu as [u|]; [done| | |by repeat split_goal].
  - destruct (Standard o) as [s|], (Omitted o); cbn [is_nil negb andb]; by repeat split_goal.
  - by repeat split_goal.
Qed.

(** ** Properties *)

(** C8: with any valid configuration of the two sides, negotiation succeeds and
    agrees: the server reads back exactly the offer the client built, selects a
    size, and the client computes the same size from the CC; it lies between 128
    and each side's configured maximum, the callback's included. *)
Theorem negotiation_agreement clientMax clientProfile serverMax callbackMax serverProfile :
  valid_max clientMax -> valid_profile clientProfile ->
  valid_max serverMax -> valid_max callbackMax -> valid_profile serverProfile ->
  exists b sel,
    buildSizeOffer clientMax clientProfile = Ok b /\
    decodeSizeOffer (cr_StandardCode b) (cr_PreferredUnits b) = Ok (Offer b) /\
    selectSize (Offer b) serverMax callbackMax serverProfile = Ok sel /\
    interpretCCSize (Offer b) (sel_StandardCode sel) (sel_PreferredUnits sel) clientProfile
      = Ok (Effective sel) /\
    128 <= Effective sel <= Z.min (norm_max clientMax) (server_ceiling serverMax callbackMax).
Proof.
  intros Hc Hcp Hs Hcb Hsp. pose proof (norm_max_range clientMax Hc) as Hm.
  pose proof (server_ceiling_range serverMax callbackMax Hs Hcb) as Hm'.
  destruct (buildSizeOffer_Ok clientMax clientProfile Hc Hcp) as (b & Hb & Hok).
  destruct (selectSize_Ok (Offer b) serverMax callbackMax serverProfile) as (sel & Hsel & Hselok & Hpath & Heff);
    [apply Hok|done..|].
  exists b, sel. split_and!; [done|by eapply decode_build|done|by eapply interpret_selected|..];
    rewrite Heff; apply (negotiated_within b _ clientProfile _ Hok Hm Hm').
Qed.

(** A client limited to 5000 octets with the preferred profile, a server of 2048. *)
Lemma negotiation_agreement_witness :
  exists b sel,
    buildSizeOffer 5000 1 = Ok b /\
    decodeSizeOffer (cr_StandardCode b) (cr_PreferredUnits b) = Ok (Offer b) /\
    selectSize (Offer b) 2048 0 0 = Ok sel /\
    interpretCCSize (Offer b) (sel_StandardCode sel) (sel_PreferredUnits sel) 1 = Ok (Effective sel) /\
    128 <= Effective sel <= 2048.
Proof.
  apply (negotiation_agreement 5000 1 2048 0 0);
    [right; lia|by right|right; lia|by left|by left].
Defined.

(** On any CR a peer may send, the server with a valid configuration either
    rejects the parameters with ErrHandshake or selects; the selection is the
    largest size its ceiling and the offer allow, it never answers with a
    parameter the peer did not offer, and it says exactly one thing (no
    parameter, a legal 0xC0 code or legal 0xF0 units, of the selected size). *)
Theorem selectSize_spec sc pu serverMax callbackMax profile :
  opt_typed is_u8 sc -> opt_typed is_u32 pu ->
  valid_max serverMax -> valid_max callbackMax -> valid_profile profile ->
  fails_with (decodeSizeOffer sc pu) ErrHandshake \/
  exists o sel, decodeSizeOffer sc pu = Ok o /\
    selectSize o serverMax callbackMax profile = Ok sel /\ selection_ok sel /\
    offered_path o (Path sel) /\
    Effective sel = negotiated o (server_ceiling serverMax callbackMax) /\
    128 <= Effective sel <= server_ceiling serverMax callbackMax.
Proof.
  intros Hsc Hpu Hs Hcb Hp. destruct (decodeSizeOffer sc pu) as [o|e| |] eqn:E.
  - right. pose proof (decodeSizeOffer_ok sc pu o Hsc Hpu E) as Hok.
    destruct (selectSize_Ok o serverMax callbackMax profile Hok Hs Hcb Hp) as (sel & ? & ? & ? & Heff).
    exists o, sel. split_and!; try done; rewrite Heff;
      apply (negotiated_range o); auto using server_ceiling_range.
  - left. exists e. split; [done|]. unfold decodeSizeOffer in E.
    repeat split_hyp E; cbn in *; simplify_eq; done.
  - exfalso. unfold decodeSizeOffer in E. repeat split_hyp E; cbn in *; simplify_eq.
  - exfalso. unfold decodeSizeOffer in E. repeat split_hyp E; cbn in *; simplify_eq.
Qed.

Lemma selectSize_spec_witness :
  fails_with (decodeSizeOffer (Some 13) (Some 100)) ErrHandshake \/
  exists o sel, decodeSizeOffer (Some 13) (Some 100) = Ok o /\
    selectSize o 0 4096 0 = Ok sel /\ selection_ok sel /\ offered_path o (Path sel) /\
    Effective sel = negotiated o (server_ceiling 0 4096) /\ 128 <= Effective sel <= 4096.
Proof.
  apply (selectSize_spec (Some 13) (Some 100) 0 4096 0); cbn; unfold is_u8, is_u32;
    [lia|lia|by left|right; lia|by left].
Defined.

(** Whatever CC a peer sends, the client that built the offer either fails
    with ErrHandshake or takes a size between 128 and its own proposal, which is
    at most its configured maximum; a CC may only use a parameter of the CR
    (0xC0 also answers an offer without parameters). *)
Theorem interpretCCSize_bounds configured profile b sc pu :
  buildSizeOffer configured profile = Ok b ->
  opt_typed is_u8 sc -> opt_typed is_u32 pu ->
  fails_with (interpretCCSize (Offer b) sc pu profile) ErrHandshake \/
  exists n, interpretCCSize (Offer b) sc pu profile = Ok n /\
    128 <= n <= clientEffectiveProposal (Offer b) /\
    clientEffectiveProposal (Offer b) <= norm_max configured /\
    (pu <> None -> Preferred (Offer b) <> None) /\
    (sc <> None -> Standard (Offer b) <> None \/ Omitted (Offer b) = true).
Proof.
  intros Hb Hsc Hpu. destruct (buildSizeOffer_valid _ _ _ Hb) as [Hv Hp].
  pose proof (norm_max_range _ Hv) as Hm.
  destruct (buildSizeOffer_Ok configured profile Hv Hp) as (b' & Hb' & Hok).
  rewrite Hb in Hb'. injection Hb' as <-. clear Hb.
  pose proof (proposal_range b _ profile Hok Hm) as Hprop.
  destruct (interpretCCSize (Offer b) sc pu profile) as [n|e| |] eqn:E.
  - right. exists n. destruct (interpret_Ok b _ profile sc pu n Hok Hm Hsc Hpu E) as (? & ? & ?).
    split_and!; try done; lia.
  - left. exists e. split; [done|]. revert E. unfold interpretCCSize.
    rewrite (proj2 (valid_profile_good profile) Hp). intros E.
    repeat (split_hyp E; try done); cbn in *; simplify_eq; done.
  - pose proof (interpret_returns (Offer b) sc pu profile) as Hr. by rewrite E in Hr.
  - pose proof (interpret_returns (Offer b) sc pu profile) as Hr. by rewrite E in Hr.
Qed.

(** A hostile CC: code 0x10 (65536) in answer to a CR without parameters. *)
Lemma interpretCCSize_bounds_witness :
  fails_with (interpretCCSize (mkOffer None None true) (Some 16) None 0) ErrHandshake \/
  exists n, interpretCCSize (mkOffer None None true) (Some 16) None 0 = Ok n /\
    128 <= n <= 65531 /\ 65531 <= norm_max 0 /\
    (@None Z <> None -> @None Z <> None) /\ (Some 16 <> None -> @None Z <> None \/ true = true).
Proof.
  apply (interpretCCSize_bounds 0 0 (mkCRBuild (mkOffer None None true) None None) (Some 16) None);
    [reflexivity|cbn; unfold is_u8; lia|exact I].
Defined.

(** A configuration is refused, with ErrInvalidConfig, exactly when its
    maximum is neither 0 nor in 128..65531 or its profile is unknown; otherwise
    the offer never exceeds the configured maximum. *)
Theorem buildSizeOffer_spec configured profile :
  (valid_max configured /\ valid_profile profile /\
   exists b, buildSizeOffer configured profile = Ok b /\ build_ok b (norm_max configured) profile) \/
  (~ (valid_max configured /\ valid_profile profile) /\
   fails_with (buildSizeOffer configured profile) ErrInvalidConfig).
Proof.
  destruct (bad_profile profile) eqn:Hp.
  - right. split; [intros [_ H%valid_profile_good]; congruence|].
    unfold buildSizeOffer. rewrite Hp. by eexists.
  - apply valid_profile_good in Hp as Hp'.
    assert (valid_max configured \/ ~ valid_max configured) as [Hv|Hn] by (unfold valid_max; lia).
    + left. split_and!; [done|done|]. by apply buildSizeOffer_Ok.
    + right. split; [tauto|]. unfold buildSizeOffer. rewrite Hp.
      destruct (normalize_invalid configured Hn) as (e & -> & ?). by exists e.
Qed.

(** C38: a policy may answer with the size it was shown, and the selection then
    stays within it, unless that size is 65536 octets, which a peer may offer
    (code 0x10) and which is refused as a configuration error. *)
Theorem indicated_size_can_be_given_back sc pu o serverMax profile :
  opt_typed is_u8 sc -> opt_typed is_u32 pu -> decodeSizeOffer sc pu = Ok o ->
  valid_max serverMax -> valid_profile profile ->
  let n := indicationMaxTPDULength o in
  128 <= n <= 65536 /\
  ((n <> 65536 /\ exists sel, selectSize o serverMax n profile = Ok sel /\ Effective sel <= n) \/
   (n = 65536 /\ fails_with (selectSize o serverMax n profile) ErrInvalidConfig)).
Proof.
  intros Hsc Hpu Ho Hs Hp n. pose proof (decodeSizeOffer_ok sc pu o Hsc Hpu Ho) as Hok.
  assert (128 <= n <= 65531 \/ n = 65536) as Hn.
  { destruct Hok as (_ & Hst & Hpr). unfold n, indicationMaxTPDULength, clientEffectiveProposal, DefaultMaxTPDULength.
    destruct (Preferred o) as [p|]; [destruct (Hpr p eq_refl) as (k & -> & ?); lia|].
    destruct (Standard o) as [s|]; [|lia].
    destruct (Hst s eq_refl) as [c Hc]. by apply (class0_size_gap c), class0_inverse. }
  split; [lia|]. clearbody n.
  assert (n = 65536 \/ (n <> 65536 /\ valid_max n)) as [E|[E Hv]] by (unfold valid_max; lia).
  - right. split; [done|]. unfold selectSize. rewrite (proj2 (valid_profile_good profile) Hp), (normalize_valid _ Hs).
    rewrite E. cbn [obind Z.eqb negb].
    destruct (normalize_invalid 65536) as (e & -> & ?); [unfold valid_max; lia|]. by exists e.
  - left. split; [done|].
    destruct (selectSize_Ok o serverMax n profile Hok Hs Hv Hp) as (sel & Hsel & _ & _ & Heff).
    exists sel. split; [done|].
    pose proof (negotiated_range o _ Hok (server_ceiling_range serverMax n Hs Hv)) as Hr. rewrite <- Heff in Hr.
    assert (server_ceiling serverMax n <= n) as Hle; [|lia].
    unfold server_ceiling. destruct (norm_max_cases n) as [[? _]|[_ E']]; lia.
Qed.

(** A peer that offers 65536 octets. *)
Lemma indicated_size_can_be_given_back_witness :
  let o := mkOffer (Some 65536) None false in
  fails_with (selectSize o 0 (indicationMaxTPDULength o) 0) ErrInvalidConfig.
Proof.
  intros o.
  destruct (indicated_size_can_be_given_back (Some 16) None o 0 0) as [_ [[Hn _]|[_ H]]];
    [cbn; unfold is_u8; lia|exact I|reflexivity|by left|by left|by destruct Hn|exact H].
Defined.
