(* ===== verification/Validate.v ===== *)
(** * Checks of the TP0 service: handshake_validate.go and open_dt.go

    The argument checks return [outcome unit]; [decodeOpenDT] is the gate every
    inbound packet of an open connection passes. *)

From S2P Require Import Prelude Errors Types Wire PreferredMax Params Decode Encode Codec.
From S2P Require Import RoundTrip CodecSpec SizeNego.

(** ** handshake_validate.go *)

Definition isKnownClass0ForbiddenParam (code : Z) : bool :=
  (code =? 195) || (code =? 196) || (code =? 197) || (code =? 198) || (code =? 199) ||
  (code =? 200) || (code =? 201) || (code =? 202) || (code =? 203) || (code =? 204) ||
  (code =? 205) || (code =? 206).

Definition validateClass0CRFixed (cdt classOption : Z) : outcome unit :=
  if negb (cdt =? 0) then Err (Errorf "class 0 CR CDT %d: %w" [Sentinel ErrHandshake])
  else if negb (classOption =? 0)
  then Err (Errorf "class 0 CR ClassOption 0x%02x: %w" [Sentinel ErrHandshake])
  else Ok tt.

Definition validateClass0CCFixed (cdt classOption : Z) : outcome unit :=
  if negb (cdt =? 0) then Err (Errorf "class 0 CC CDT %d: %w" [Sentinel ErrHandshake])
  else if negb (classOption =? 0)
  then Err (Errorf "class 0 CC ClassOption 0x%02x: %w" [Sentinel ErrHandshake])
  else Ok tt.

Definition validateCRReferences (dst src : Z) : outcome unit :=
  if negb (dst =? 0) then Err (Errorf "CR DST-REF %d want 0: %w" [Sentinel ErrHandshake])
  else if src =? 0 then Err (Errorf "CR SRC-REF is zero: %w" [Sentinel ErrHandshake])
  else Ok tt.

Definition validateCCReferences (ccDST ccSRC localSRC : Z) : outcome unit :=
  if negb (ccDST =? localSRC)
  then Err (Errorf "CC DST-REF %d != local SRC-REF %d: %w" [Sentinel ErrHandshake])
  else if ccSRC =? 0 then Err (Errorf "CC SRC-REF is zero: %w" [Sentinel ErrHandshake])
  else Ok tt.

Definition validateMinimalClass0DT (li typeOctet tpduNRAndEOT : Z) : outcome unit :=
  if negb (li =? 2) then Err (Errorf "class 0 DT LI %d want 2: %w" [Sentinel ErrHandshake])
  else if negb (typeOctet =? 240)
  then Err (Errorf "class 0 DT type 0x%02x want 0xF0: %w" [Sentinel ErrHandshake])
  else if negb (Z.land tpduNRAndEOT 127 =? 0)
  then Err (Errorf "class 0 DT TPDU-NR %d want 0: %w" [Sentinel ErrHandshake])
  else Ok tt.

Fixpoint validateCRParameters (params : list Param) : outcome unit :=
  match params with
  | [] => Ok tt
  | p :: params =>
      if isKnownClass0ForbiddenParam (Code p)
      then Err (Errorf "CR forbidden parameter 0x%02x: %w" [Sentinel ErrHandshake])
      else validateCRParameters params
  end.

Fixpoint validateCCParameters (params : list Param) : outcome unit :=
  match params with
  | [] => Ok tt
  | p :: params =>
      if isKnownClass0ForbiddenParam (Code p)
      then Err (Errorf "CC forbidden parameter 0x%02x: %w" [Sentinel ErrHandshake])
      else if negb (Code p =? ParamCallingSelector) && negb (Code p =? ParamCalledSelector) &&
              negb (Code p =? ParamTPDUSize) && negb (Code p =? ParamPreferredMaxTPDUSize)
      then Err (Errorf "CC unknown parameter 0x%02x: %w" [Sentinel ErrHandshake])
      else validateCCParameters params
  end.

Definition validateServerCalledSelector (localSelector crCalled : goslice) : outcome unit :=
  match localSelector with
  | None => Ok tt
  | Some l =>
      match crCalled with
      | None => Err (Errorf "called selector absent: %w" [Sentinel ErrHandshake])
      | Some c =>
          if bool_decide (l = c) then Ok tt
          else Err (Errorf "called selector mismatch: %w" [Sentinel ErrHandshake])
      end
  end.

Definition validateConnectDataLength (data : goslice) : outcome unit :=
  if MaxConnectDataLength <? slen data
  then Err (Errorf "connect data length %d > %d: %w" [Sentinel ErrInvalidConfig]) else Ok tt.

Definition validateSelectorLength (sel : goslice) : outcome unit :=
  if MaxParameterValueLength <? slen sel
  then Err (Errorf "%s length %d: %w" [Sentinel ErrInvalidConfig]) else Ok tt.

Definition validateMaxTSDULength (n : Z) : outcome unit :=
  if n <? 0 then Err (Errorf "MaxTSDULength %d: %w" [Sentinel ErrInvalidConfig]) else Ok tt.

Definition validateSizeProfile (p : Z) : outcome unit :=
  if bad_profile p then Err (Errorf "SizeProfile %d: %w" [Sentinel ErrInvalidConfig]) else Ok tt.

Definition validateConnectAction (a : Z) : outcome unit :=
  if negb (a =? ConnectReject) && negb (a =? ConnectAccept)
  then Err (Errorf "ConnectAction %d: %w" [Sentinel ErrInvalidConfig]) else Ok tt.

(** [if maxTSDU == 0 { maxTSDU = DefaultMaxTSDULength }] *)
Definition effective_max_tsdu (maxTSDU : Z) : Z :=
  if maxTSDU =? 0 then DefaultMaxTSDULength else maxTSDU.

Definition validateWriteTSDULength (tsduLen maxTSDU : Z) : outcome unit :=
  let maxTSDU := effective_max_tsdu maxTSDU in
  if tsduLen =? 0 then Err (Errorf "%w" [Sentinel ErrEmptyTSDU])
  else if maxTSDU <? tsduLen
  then Err (Errorf "TSDU length %d > %d: %w" [Sentinel ErrTSDUTooLarge])
  else Ok tt.

Definition validateReassemblyBound (reassembledLen maxTSDU : Z) : outcome unit :=
  let maxTSDU := effective_max_tsdu maxTSDU in
  if maxTSDU <? reassembledLen
  then Err (Errorf "reassembly length %d > %d: %w" [Sentinel ErrTSDUTooLarge])
  else Ok tt.

(** ** open_dt.go *)

Definition unexpectedOpenTPDU (t : Z) : error :=
  let u := UnexpectedTPDUError t PhaseDataTransfer in
  if t =? TypeDR then Join [u; DisconnectError None] else u.

Definition validateOpenDTParameters (params : list Param) : outcome unit :=
  match params with
  | [] => Ok tt
  | p :: _ =>
      if isKnownClass0ForbiddenParam (Code p)
      then Err (Errorf "DT forbidden parameter 0x%02x: %w" [Sentinel ErrHandshake])
      else Err (Errorf "DT unknown parameter 0x%02x: %w" [Sentinel ErrHandshake])
  end.

(** [fmt.Errorf("%w: %v", s, err)]: only the sentinel is wrapped. *)
Definition rewrap {A} (s : sentinel) (m : outcome A) : outcome A :=
  match m with
  | Err _ => Err (Errorf "%w: %v" [Sentinel s])
  | m => m
  end.

Definition decodeOpenDT (packet : bytes) (maxTPDU : Z) : outcome DT :=
  if maxTPDU <? len packet
  then Err (Errorf "TPDU length %d > negotiated %d: %w" [Sentinel ErrHandshake]) else
  if len packet <? MinHeaderLength
  then Err (Errorf "%w: %w" [Sentinel ErrHandshake; Sentinel ErrTooShort]) else
  let! decoded := rewrap ErrHandshake (Decode packet) in
  match D_DT decoded with
  | None => Err (unexpectedOpenTPDU (D_Type decoded))
  | Some dt =>
      if negb (D_Type decoded =? TypeDT) then Err (unexpectedOpenTPDU (D_Type decoded)) else
      let! li := rewrap ErrHandshake (ReadLI packet) in
      let! typeOctet := index packet 1 in
      let! tpduNRAndEOT := if 2 <? len packet then index packet 2 else Ok 0 in
      let! _ := validateMinimalClass0DT li typeOctet tpduNRAndEOT in
      match DT_DestinationRef dt with
      | Some _ => Err (Errorf "non-minimal DT: %w" [Sentinel ErrHandshake])
      | None =>
          let! _ := validateOpenDTParameters (DT_Parameters dt) in
          Ok dt
      end
  end.

(** ** Facts *)

Lemma rewrap_Ok {A} s (m : outcome A) r : rewrap s m = Ok r <-> m = Ok r.
Proof. by destruct m. Qed.

Lemma returns_rewrap {A} s (m : outcome A) : returns m -> returns (rewrap s m).
Proof. by destruct m. Qed.

(** The octets of an open-state DT. *)
Definition open_DT (eot : bool) (data : bytes) : bytes := [2; 240; if eot then 128 else 0] ++ data.

Lemma open_DT_wire eot data : open_DT eot data = DT_minimal_wire 0 0 eot data.
Proof. by destruct eot. Qed.

Lemma validateMinimal_Ok li ty nr :
  validateMinimalClass0DT li ty nr = Ok tt <-> li = 2 /\ ty = 240 /\ Z.land nr 127 = 0.
Proof.
  unfold validateMinimalClass0DT. destruct (Z.eqb_spec li 2), (Z.eqb_spec ty 240), (Z.eqb_spec (Z.land nr 127) 0);
    cbn [negb]; split; try done; tauto.
Qed.

Lemma nr_octet_zero nr eot : 0 <= nr < 128 -> Z.land (nr_octet nr eot) 127 = 0 -> nr = 0.
Proof. intros Hnr H. by destruct (nr_octet_fields nr eot Hnr) as [<- _]. Qed.

Lemma Decode_open_DT eot data :
  bytes_ok data ->
  Decode (open_DT eot data) = Ok (decoded (T_DT (mkDT eot (Some 0) None [] (Some data)))).
Proof.
  intros Hd. rewrite open_DT_wire.
  assert (wire (T_DT (mkDT eot (Some 0) None [] (Some data))) (DT_minimal_wire 0 0 eot data)) as Hw
    by (apply wire_DT_minimal; [by left|lia]).
  apply Decode_Ok. eexists _, _. split; [by apply wire_PeekType|]. split; [|done].
  apply wire_decode_as; [|done]. rewrite <- open_DT_wire.
  apply bytes_ok_app. split; [destruct eot; decide_now|done].
Qed.

Lemma decodeOpenDT_Ok packet maxTPDU dt :
  bytes_ok packet ->
  decodeOpenDT packet maxTPDU = Ok dt <->
  exists eot data, packet = open_DT eot data /\ 3 + len data <= maxTPDU /\
    dt = mkDT eot (Some 0) None [] (Some data).
Proof.
  intros Hb. unfold decodeOpenDT. split.
  - intros H. destruct (maxTPDU <? len packet) eqn:Hmax; [done|].
    destruct (len packet <? MinHeaderLength); [done|].
    rewrite obind_Ok in H. destruct H as (d & Hd & H). rewrite rewrap_Ok in Hd.
    apply Decode_Ok in Hd as (code & t & Hp & Ht & ->).
    destruct t as [| |dt'| | | | | | |]; try discriminate H. cbn [decoded D_DT D_Type] in H.
    rewrite Z.eqb_refl in H. cbn [negb] in H.
    pose proof (decode_as_wire _ packet _ Hb Hp Ht) as Hw. inversion Hw; subst.
    + go_inv H. rewrite rewrap_Ok in E. destruct v2. apply validateMinimal_Ok in E2 as (-> & -> & Hnr).
      cbn [DT_DestinationRef DT_Parameters validateOpenDTParameters obind] in H. injection H as <-.
      unfold DT_minimal_wire in *. cbn [app] in *.
      rewrite !len_cons in E1. len_pose. revert E1. if_true. go_index. intros [= <-].
      apply nr_octet_zero in Hnr as ->; [|done].
      exists eot, ud. rewrite !len_cons in Hmax.
      split_and!; [|breflect; lia|done].
      revert E0. go_index. intros [= ?]. rewrite open_DT_wire. unfold DT_minimal_wire.
      by replace roa with 0 by lia.
    + go_inv H. cbn [DT_DestinationRef] in H. done.
  - intros (eot & data & -> & Hlen & ->).
    assert (bytes_ok data) as Hd by (by apply bytes_ok_app in Hb as [_ ?]).
    rewrite (Decode_open_DT eot data Hd). unfold open_DT, MinHeaderLength. cbn [app].
    rewrite !len_cons. len_pose. do 2 if_false. cbn [rewrap obind decoded D_DT D_Type].
    rewrite Z.eqb_refl. cbn [negb]. rewrite ReadLI_cons by done. cbn [rewrap obind].
    go_index. if_true. go_index. by destruct eot.
Qed.

Lemma decodeOpenDT_returns packet maxTPDU : bytes_ok packet -> returns (decodeOpenDT packet maxTPDU).
Proof.
  intros Hb. unfold decodeOpenDT, MinHeaderLength. go_returns; auto using returns_rewrap, Decode_total.
  destruct (D_DT a) as [dt|]; [|done]. go_returns.
  - apply returns_rewrap, ReadLI_returns.
  - apply index_returns. blia.
  - apply index_returns. blia.
  - unfold validateMinimalClass0DT. by repeat split_goal.
  - destruct (DT_DestinationRef dt); [done|]. unfold validateOpenDTParameters. by repeat split_goal.
Qed.

Lemma validateCRParameters_Ok ps :
  validateCRParameters ps = Ok tt <-> Forall (fun p => isKnownClass0ForbiddenParam (Code p) = false) ps.
Proof.
  induction ps as [|p ps IH]; [by split|]. cbn [validateCRParameters]. rewrite Forall_cons, <- IH.
  destruct (isKnownClass0ForbiddenParam (Code p)); split; try done; [by intros [? _]|by intros [_ ?]].
Qed.

(** A CC keeps no known code in its parameter list, so that any parameter left
    in it is refused. *)
Lemma validateCCParameters_Ok ps :
  unknown_params ps = ps -> validateCCParameters ps = Ok tt <-> ps = [].
Proof.
  intros Hps. split; [|by intros ->]. destruct ps as [|p ps]; [done|]. cbn [validateCCParameters].
  assert (known_code (Code p) = false) as Hk.
  { revert Hps. unfold unknown_params. cbn [List.filter]. destruct (known_code (Code p)) eqn:E; [|done].
    cbn [negb]. intros Hps. exfalso. apply (f_equal length) in Hps. cbn in Hps.
    pose proof (List.filter_length_le (fun p => negb (known_code (Code p))) ps). lia. }
  destruct (isKnownClass0ForbiddenParam (Code p)); [done|].
  unfold known_code in Hk. rewrite !orb_false_iff in Hk. destruct Hk as [[[-> ->] ->] ->]. done.
Qed.

(** Errors of the gate. *)
Lemma decodeOpenDT_err packet maxTPDU e :
  decodeOpenDT packet maxTPDU = Err e ->
  errors_Is e ErrHandshake = true \/
  exists d, Decode packet = Ok d /\ D_Type d <> TypeDT /\ e = unexpectedOpenTPDU (D_Type d).
Proof.
  unfold decodeOpenDT. destruct (maxTPDU <? len packet); [intros [= <-]; by left|].
  destruct (len packet <? MinHeaderLength); [intros [= <-]; by left|].
  destruct (Decode packet) as [d|e'| |] eqn:Hd; cbn [rewrap obind]; try done; [|intros [= <-]; by left].
  apply Decode_Ok in Hd as Hd'. destruct Hd' as (code & t & _ & _ & ->).
  destruct t; try (intros [= <-]; right; eexists; by split_and!).
  cbn [decoded D_DT D_Type]. rewrite Z.eqb_refl. cbn [negb].
  destruct (ReadLI packet) as [li|?| |]; cbn [rewrap obind]; try done; [|intros [= <-]; by left].
  unfold validateMinimalClass0DT, validateOpenDTParameters, index.
  intros H. left. revert H. repeat (split_goal; cbn [obind]; try done); by intros [= <-].
Qed.

(** ** Properties *)

(** C20: [decodeOpenDT], through which every packet of an open connection goes
    first, accepts exactly the minimal class-0 DT packets within the negotiated
    size: LI 2, octet 0xF0, TPDU-NR 0 and the EOT bit, followed by the user data,
    which may be empty here ([ReadTSDU] itself then refuses an empty segment).
    Every other packet ends in an error, never a panic: ErrHandshake for a
    malformed or non-minimal DT, ErrUnexpectedTPDU for another TPDU, to which a DR
    adds ErrDisconnected. *)
Theorem decodeOpenDT_gate packet maxTPDU :
  bytes_ok packet ->
  (forall dt, decodeOpenDT packet maxTPDU = Ok dt <->
     exists eot data, packet = open_DT eot data /\ len packet <= maxTPDU /\
       dt = mkDT eot (Some 0) None [] (Some data)) /\
  returns (decodeOpenDT packet maxTPDU) /\
  forall e, decodeOpenDT packet maxTPDU = Err e ->
    errors_Is e ErrHandshake = true \/
    exists d, Decode packet = Ok d /\ D_Type d <> TypeDT /\ errors_Is e ErrUnexpectedTPDU = true /\
      errors_Is e ErrDisconnected = bool_decide (D_Type d = TypeDR).
Proof.
  intros Hb. split_and!; [|by apply decodeOpenDT_returns|].
  - intros dt. rewrite decodeOpenDT_Ok by done. unfold open_DT.
    split; intros (eot & data & -> & ? & ->); exists eot, data; split_and!; try done;
      revert H; cbn [app]; rewrite !len_cons; lia.
  - intros e [?|(d & Hd & Hne & ->)]%decodeOpenDT_err; [by left|]. right. exists d.
    unfold unexpectedOpenTPDU. split_and!; try done.
    + by destruct (D_Type d =? TypeDR).
    + destruct (Z.eqb_spec (D_Type d) TypeDR) as [->|Hr]; [done|]. by rewrite bool_decide_eq_false_2.
Qed.

Lemma decodeOpenDT_gate_witness :
  decodeOpenDT [2; 240; 128; 65; 66] 128 = Ok (mkDT true (Some 0) None [] (Some [65; 66])).
Proof.
  apply (decodeOpenDT_gate [2; 240; 128; 65; 66] 128); [decide_now|].
  exists true, [65; 66]. split_and!; [reflexivity|vm_compute; discriminate|reflexivity].
Defined.
