(* ===== verification/RefAlloc.v ===== *)
(** * The SRC-REF allocator: reference_allocator.go

    The state is the next candidate, a [uint16] that wraps, and the set of
    active references; a nil map reads as the empty set.  Every method runs
    under the allocator's mutex, so that a method is one step. *)

From S2P Require Import Prelude Errors.

Record referenceAllocator := mkAllocator {
  next : Z;
  active : gset Z
}.

Definition newReferenceAllocator : referenceAllocator := mkAllocator 1 ∅.

(** The [for range] loop of [Allocate], [n] rounds of it; the result is the
    reference, if one is found, and the next candidate. *)
Fixpoint allocate_loop (n : nat) (next : Z) (active : gset Z) : option Z * Z :=
  match n with
  | O => (None, next)
  | S n =>
      let cand := next in
      let next := u16 (next + 1) in
      if cand =? 0 then allocate_loop n next active
      else if bool_decide (cand ∈ active) then allocate_loop n next active
      else (Some cand, next)
  end.

Definition errExhausted : error := Errorf "reference allocator exhausted: %w" [Sentinel ErrInvalidConfig].

Definition Allocate (a : referenceAllocator) : outcome Z * referenceAllocator :=
  if 65535 <=? Z.of_nat (size (active a)) then (Err errExhausted, a) else
  match allocate_loop (Z.to_nat 65536) (next a) (active a) with
  | (Some cand, next') => (Ok cand, mkAllocator next' ({[cand]} ∪ active a))
  | (None, next') => (Err errExhausted, mkAllocator next' (active a))
  end.

Definition Release (a : referenceAllocator) (ref : Z) : referenceAllocator :=
  if ref =? 0 then a else mkAllocator (next a) (active a ∖ {[ref]}).

Definition Active (a : referenceAllocator) (ref : Z) : bool := bool_decide (ref ∈ active a).

Definition Len (a : referenceAllocator) : Z := Z.of_nat (size (active a)).

(** ** Facts *)

(** Well-formed: the candidate is a [uint16], active references are not zero. *)
Definition allocator_ok (a : referenceAllocator) : Prop :=
  is_u16 (next a) /\ forall r, r ∈ active a -> 1 <= r < 65536.

(** The candidate of round [k]. *)
Definition candidate (next k : Z) : Z := u16 (next + k).

(** A candidate the loop skips. *)
Definition blocked (active : gset Z) (r : Z) : Prop := r = 0 \/ r ∈ active.

Lemma candidate_succ next k : candidate (u16 (next + 1)) k = candidate next (k + 1).
Proof. unfold candidate, u16. rewrite Zplus_mod_idemp_l. f_equal. lia. Qed.

Lemma allocate_loop_spec n next act :
  is_u16 next ->
  match allocate_loop n next act with
  | (Some r, next') =>
      exists j, 0 <= j < Z.of_nat n /\ r = candidate next j /\ ~ blocked act r /\
        next' = candidate next (j + 1) /\ forall k, 0 <= k < j -> blocked act (candidate next k)
  | (None, next') =>
      next' = candidate next (Z.of_nat n) /\
      forall k, 0 <= k < Z.of_nat n -> blocked act (candidate next k)
  end.
Proof.
  revert next. induction n as [|n IH]; intros next Hn; cbn [allocate_loop].
  { split; [|lia]. unfold candidate, u16, is_u16 in *. rewrite Z.add_0_r, Z.mod_small; lia. }
  assert (candidate next 0 = next) as H0.
  { unfold candidate, u16, is_u16 in *. rewrite Z.add_0_r, Z.mod_small; lia. }
  assert (blocked act next -> match allocate_loop n (u16 (next + 1)) act with
    | (Some r, next') =>
        exists j, 0 <= j < Z.of_nat (S n) /\ r = candidate next j /\ ~ blocked act r /\
          next' = candidate next (j + 1) /\ forall k, 0 <= k < j -> blocked act (candidate next k)
    | (None, next') =>
        next' = candidate next (Z.of_nat (S n)) /\
        forall k, 0 <= k < Z.of_nat (S n) -> blocked act (candidate next k)
    end) as Hskip.
  { intros Hb. specialize (IH (u16 (next + 1)) (u16_range _)).
    assert (forall j, (forall k, 0 <= k < j -> blocked act (candidate (u16 (next + 1)) k)) ->
              forall k, 0 <= k < j + 1 -> blocked act (candidate next k)) as Hall.
    { intros j Hj k Hk. destruct (Z.eq_dec k 0) as [->|]; [by rewrite H0|].
      replace k with ((k - 1) + 1) by lia. rewrite <- candidate_succ. apply Hj. lia. }
    destruct (allocate_loop n (u16 (next + 1)) act) as [[r|] next'].
    - destruct IH as (j & Hj & -> & Hnb & -> & Hk). exists (j + 1). rewrite candidate_succ in *.
      split_and!; [lia|lia|done|done|by rewrite candidate_succ|by apply Hall].
    - destruct IH as [-> Hk]. rewrite candidate_succ. split; [f_equal; lia|].
      intros k Hk'. apply (Hall _ Hk). lia. }
  destruct (Z.eqb_spec next 0) as [E|E]; [apply Hskip; by left|].
  case_bool_decide as Hin; [apply Hskip; by right|].
  exists 0. split_and!; [lia|lia|done|intros [?|?]; done|done|lia].
Qed.

(** Sixty-five thousand five hundred and thirty-six rounds visit every value. *)
Lemma candidate_onto next r :
  is_u16 r -> exists k, 0 <= k < 65536 /\ candidate next k = r.
Proof.
  intros Hr. exists ((r - next) mod 65536). split; [apply Z.mod_pos_bound; lia|].
  unfold candidate, u16, is_u16 in *. rewrite Zplus_mod_idemp_r.
  replace (next + (r - next)) with r by lia. apply Z.mod_small. lia.
Qed.

(** There are 65535 references. *)
Lemma all_references :
  exists refs : gset Z, Z.of_nat (size refs) = 65535 /\ forall r, r ∈ refs <-> 1 <= r < 65536.
Proof.
  exists (list_to_set (seqZ 1 65535)). split.
  - rewrite size_list_to_set by apply NoDup_seqZ. rewrite length_seqZ. lia.
  - intros r. rewrite elem_of_list_to_set, elem_of_seqZ. lia.
Qed.

Lemma size_active_le a : allocator_ok a -> Z.of_nat (size (active a)) <= 65535.
Proof.
  intros [_ Ha]. destruct all_references as (refs & Hsize & Hrefs). rewrite <- Hsize.
  apply inj_le, subseteq_size. intros r Hr. by apply Hrefs, Ha.
Qed.

(** Below 65535 active references, some reference is free. *)
Lemma some_ref_free a :
  Z.of_nat (size (active a)) < 65535 -> exists r, 1 <= r < 65536 /\ r ∉ active a.
Proof.
  intros Hs. destruct all_references as (refs & Hsize & Hrefs).
  destruct (decide (refs ⊆ active a)) as [Hsub|Hn].
  - apply subseteq_size in Hsub. lia.
  - destruct (set_choose_or_empty (refs ∖ active a)) as [[r Hr]|Hempty].
    + apply elem_of_difference in Hr as [Hr Hna]. exists r. by rewrite <- Hrefs.
    + exfalso. apply Hn. intros r Hr. destruct (decide (r ∈ active a)); set_solver.
Qed.

Lemma Release_ok a ref : allocator_ok a -> allocator_ok (Release a ref).
Proof.
  intros [Hn Ha]. unfold Release. destruct (ref =? 0); [done|]. split; [done|].
  cbn [active]. intros r [Hr _]%elem_of_difference. by apply Ha.
Qed.

Lemma newReferenceAllocator_ok : allocator_ok newReferenceAllocator.
Proof. split; [done|]. intros r Hr. by apply not_elem_of_empty in Hr. Qed.

Lemma Allocate_free a :
  allocator_ok a -> Z.of_nat (size (active a)) < 65535 ->
  exists j r, 0 <= j < 65536 /\ r = candidate (next a) j /\ ~ blocked (active a) r /\
    (forall k, 0 <= k < j -> blocked (active a) (candidate (next a) k)) /\
    Allocate a = (Ok r, mkAllocator (candidate (next a) (j + 1)) ({[r]} ∪ active a)).
Proof.
  intros [Hn Ha] Hs. unfold Allocate. if_false.
  pose proof (allocate_loop_spec (Z.to_nat 65536) (next a) (active a) Hn) as H.
  rewrite Z2Nat.id in H by lia.
  destruct (allocate_loop (Z.to_nat 65536) (next a) (active a)) as [[r|] next'].
  - destruct H as (j & Hj & Hr & Hnb & -> & Hk). exists j, r. split_and!; try done; lia.
  - exfalso. destruct H as [_ H]. destruct (some_ref_free a Hs) as (r & Hr & Hna).
    destruct (candidate_onto (next a) r) as (k & Hk & Ek); [unfold is_u16; lia|].
    destruct (H k Hk) as [?|?]; rewrite Ek in *; [lia|done].
Qed.

(** What a caller relies on. *)
Lemma Allocate_Ok a r a' :
  allocator_ok a -> Allocate a = (Ok r, a') ->
  1 <= r < 65536 /\ (r ∉ active a) /\ active a' = {[r]} ∪ active a /\ allocator_ok a'.
Proof.
  intros Ha H. destruct (decide (Z.of_nat (size (active a)) < 65535)) as [Hs|Hs].
  - destruct (Allocate_free a Ha Hs) as (j & r' & Hj & Hr' & Hnb & _ & Heq).
    rewrite H in Heq. injection Heq as <- ->.
    assert (is_u16 r) as Hr16 by (subst r; apply u16_range).
    assert (1 <= r < 65536) as Hr.
    { unfold is_u16 in Hr16. assert (r <> 0) by (intros ->; apply Hnb; by left). lia. }
    split_and!; [lia|lia| |done|].
    + intros Hin. apply Hnb. by right.
    + split; [apply u16_range|]. cbn [active]. intros x [->%elem_of_singleton|?]%elem_of_union; [done|].
      by apply Ha.
  - exfalso. revert H. unfold Allocate. by if_true.
Qed.

Lemma Allocate_Err a e a' :
  allocator_ok a -> Allocate a = (Err e, a') ->
  errors_Is e ErrInvalidConfig = true /\ a' = a /\ Len a = 65535.
Proof.
  intros Ha H. pose proof (size_active_le a Ha) as Hle. unfold Len.
  destruct (decide (Z.of_nat (size (active a)) < 65535)) as [Hs|Hs].
  - destruct (Allocate_free a Ha Hs) as (j & r' & _ & _ & _ & _ & Heq). congruence.
  - revert H. unfold Allocate. if_true. intros [= <- <-]. split_and!; [done|done|lia].
Qed.

(** ** Users of the allocator

    A process holds the references its handshakes allocated and its connections
    have not released: each connection releases its own, once. *)

Inductive user_step : referenceAllocator * list Z -> referenceAllocator * list Z -> Prop :=
  | step_allocate a held r a' :
      Allocate a = (Ok r, a') -> user_step (a, held) (a', r :: held)
  | step_exhausted a held e a' :
      Allocate a = (Err e, a') -> user_step (a, held) (a', held)
  | step_release a held1 r held2 :
      user_step (a, held1 ++ r :: held2) (Release a r, held1 ++ held2).

Definition users_ok (st : referenceAllocator * list Z) : Prop :=
  allocator_ok (fst st) /\ NoDup (snd st) /\ active (fst st) = list_to_set (snd st).

Lemma user_step_ok st st' : users_ok st -> user_step st st' -> users_ok st'.
Proof.
  intros (Ha & Hnd & Heq) Hstep. destruct Hstep as [a held r a' H|a held e a' H|a h1 r h2];
    unfold users_ok; cbn [fst snd] in *.
  - destruct (Allocate_Ok a r a' Ha H) as (Hr & Hna & Hact & Ha').
    split_and!; [done| |by rewrite Hact, Heq]. apply NoDup_cons. split; [|done].
    intros Hin. apply Hna. rewrite Heq. by apply elem_of_list_to_set.
  - destruct (Allocate_Err a e a' Ha H) as (_ & -> & _). by split_and!.
  - split_and!; [by apply Release_ok| |].
    + apply NoDup_app in Hnd as (H1 & H12 & [_ H2]%NoDup_cons). apply NoDup_app. split_and!; try done.
      intros x Hx Hx2. apply (H12 x Hx). by right.
    + assert (r <> 0) as Hr0.
      { destruct Ha as [_ Ha]. assert (r ∈ active a) as Hin by (rewrite Heq; set_solver).
        specialize (Ha r Hin). lia. }
      unfold Release. apply Z.eqb_neq in Hr0. rewrite Hr0. cbn [active]. rewrite Heq.
      apply NoDup_app in Hnd as (_ & H12 & [Hr2 _]%NoDup_cons).
      assert (r ∉ h1) as Hr1 by (intros Hx; apply (H12 r Hx); by left).
      apply set_eq. intros x. rewrite elem_of_difference, !elem_of_list_to_set, !elem_of_app, elem_of_cons,
        elem_of_singleton. naive_solver.
Qed.

(** ** Properties *)

(** [Allocate] returns the first reference, counting cyclically from the
    next candidate, that is neither zero nor active, and marks it active; it
    fails, with ErrInvalidConfig and without a state change, exactly when all
    65535 references are active. *)
Theorem Allocate_first_free a :
  allocator_ok a ->
  (Len a < 65535 /\ exists j r a', Allocate a = (Ok r, a') /\
     0 <= j < 65536 /\ r = (next a + j) mod 65536 /\ r <> 0 /\ ~ r ∈ active a /\
     (forall k, 0 <= k < j -> (next a + k) mod 65536 = 0 \/ (next a + k) mod 65536 ∈ active a) /\
     active a' = {[r]} ∪ active a /\ next a' = (r + 1) mod 65536 /\ allocator_ok a') \/
  (Len a = 65535 /\ exists e, Allocate a = (Err e, a) /\ errors_Is e ErrInvalidConfig = true).
Proof.
  intros Ha. pose proof (size_active_le a Ha) as Hle. unfold Len.
  destruct (decide (Z.of_nat (size (active a)) < 65535)) as [Hs|Hs].
  - left. split; [done|]. destruct (Allocate_free a Ha Hs) as (j & r & Hj & Hr & Hnb & Hk & Heq).
    exists j, r. eexists. split; [exact Heq|].
    destruct (Allocate_Ok a r _ Ha Heq) as (Hr' & Hna & Hact & Ha').
    split_and!; try done; try lia. cbn [next]. subst r. unfold candidate, u16.
    rewrite Zplus_mod_idemp_l. f_equal. lia.
  - right. split; [lia|]. exists errExhausted. unfold Allocate. by if_true.
Qed.

Lemma Allocate_first_free_witness :
  exists j r a', Allocate (mkAllocator 65535 {[65535]}) = (Ok r, a') /\ j = 2 /\ r = 1.
Proof.
  assert (allocator_ok (mkAllocator 65535 {[65535]})) as Ha.
  { split; [decide_now|]. cbn [active]. intros r ->%elem_of_singleton. lia. }
  destruct (Allocate_first_free _ Ha) as [(_ & j & r & a' & H & _)|(H & _)].
  - exists 2, r, a'. split; [exact H|]. split; [reflexivity|].
    vm_compute in H. injection H as <- _. reflexivity.
  - exfalso. revert H. vm_compute. discriminate.
Defined.

(** Whatever handshakes and closes do, references held at the same time are
    pairwise distinct, in 1..65535, and are exactly the active set: a reference
    is never given out while a connection still holds it, and never leaks. *)
Theorem held_references_distinct st :
  rtc user_step (newReferenceAllocator, []) st ->
  NoDup (snd st) /\ (forall r, r ∈ snd st -> 1 <= r <= 65535) /\
  (forall r, Active (fst st) r = true <-> r ∈ snd st) /\ Len (fst st) = len (snd st).
Proof.
  intros H. assert (users_ok st) as (Ha & Hnd & Heq).
  { remember (newReferenceAllocator, []) as st0 eqn:E.
    assert (users_ok st0) as Hok by (subst; split_and!; [apply newReferenceAllocator_ok|constructor|done]).
    clear E. induction H; [done|]. eauto using user_step_ok. }
  split_and!.
  - done.
  - intros r Hr. destruct Ha as [_ Ha]. specialize (Ha r). rewrite Heq, elem_of_list_to_set in Ha.
    specialize (Ha Hr). lia.
  - intros r. unfold Active. by rewrite bool_decide_eq_true, Heq, elem_of_list_to_set.
  - unfold Len, len. rewrite Heq. by rewrite size_list_to_set.
Qed.

Lemma held_references_distinct_witness :
  NoDup [2] /\ (forall r, r ∈ [2] -> 1 <= r <= 65535) /\
  (forall r, Active (mkAllocator 3 ({[2]} ∪ {[1]} ∖ {[1]})) r = true <-> r ∈ [2]) /\
  Len (mkAllocator 3 ({[2]} ∪ {[1]} ∖ {[1]})) = 1.
Proof.
  refine (held_references_distinct (mkAllocator 3 ({[2]} ∪ {[1]} ∖ {[1]}), [2]) _).
  eapply rtc_l; [apply (step_allocate _ _ 1 (mkAllocator 2 {[1]})); vm_compute; reflexivity|].
  eapply rtc_l; [apply (step_release _ [] 1 [])|].
  eapply rtc_l; [apply (step_allocate _ _ 2 (mkAllocator 3 ({[2]} ∪ {[1]} ∖ {[1]}))); vm_compute; reflexivity|].
  apply rtc_refl.
Defined.
