(* ===== verification/Deadline.v ===== *)
(** * One direction's deadline: deadline.go

    A [directionDeadline] is shared by the operation that armed it and by the
    callbacks that [context.AfterFunc] runs in their own goroutines.  Each
    critical section of [d.mu] is one step; any interleaving of steps is a run.
    [current] is the last value given to [d.set]. *)

From S2P Require Import Prelude.

(** The values given to [SetReadDeadline] and its siblings. *)
Inductive deadline :=
  | no_deadline       (* time.Time{} *)
  | ctx_deadline (t : Z)
  | pastDeadline.     (* time.Unix(1, 0) *)

#[export] Instance deadline_eq_dec : EqDecision deadline.
Proof. solve_decision. Defined.

(** Where the operation that uses the direction is: the operations of one
    direction are serialised by its lock. *)
Inductive operation :=
  | idle
  | registering (g : Z)   (* armed, AfterFunc not yet called *)
  | running (g : Z)
  | stopped (g : Z).      (* stop() has returned *)

Record directionDeadline := mkDeadline {
  active : Z;             (* uint64 *)
  gen : Z;                (* uint64 *)
  current : deadline;
  op : operation;
  wanted : deadline;      (* what the operation's context asked for *)
  registered : gset Z;    (* callbacks that may still be started or stopped *)
  started : gset Z;       (* callbacks that run, before their critical section *)
  cancelled : gset Z      (* operations whose context is done and started its callback *)
}.

Definition u64 (x : Z) : Z := x mod 18446744073709551616.

Definition newDirectionDeadline : directionDeadline :=
  mkDeadline 0 0 no_deadline idle no_deadline ∅ ∅ ∅.

(** The steps.  [dl] is [ctx.Deadline()]; [done] tells whether [ctx.Done()] is
    not nil. *)
Inductive action :=
  | arm_lock (dl : option Z)      (* arm, up to d.mu.Unlock() *)
  | arm_register (done : bool)    (* the rest of arm *)
  | start (g : Z)                 (* the context is done: its callback starts *)
  | callback (g : Z)              (* the callback's critical section *)
  | disarm_stop                   (* stop() *)
  | disarm_lock.                  (* disarm's critical section *)

(** [None]: the step cannot happen. *)
Definition step (d : directionDeadline) (a : action) : option directionDeadline :=
  match a with
  | arm_lock dl =>
      match op d with
      | idle =>
          let g := u64 (gen d + 1) in
          let dl := match dl with Some t => Some (ctx_deadline t) | None => None end in
          Some (mkDeadline g g (default (current d) dl) (registering g) (default no_deadline dl)
                  (registered d) (started d) (cancelled d))
      | _ => None
      end
  | arm_register done =>
      match op d with
      | registering g =>
          Some (mkDeadline (active d) (gen d) (current d) (running g) (wanted d)
                  (if done then {[g]} ∪ registered d else registered d) (started d) (cancelled d))
      | _ => None
      end
  | start g =>
      if bool_decide (g ∈ registered d)
      then Some (mkDeadline (active d) (gen d) (current d) (op d) (wanted d)
                   (registered d ∖ {[g]}) ({[g]} ∪ started d) ({[g]} ∪ cancelled d))
      else None
  | callback g =>
      if bool_decide (g ∈ started d)
      then Some (mkDeadline (active d) (gen d) (if active d =? g then pastDeadline else current d)
                   (op d) (wanted d) (registered d) (started d ∖ {[g]}) (cancelled d))
      else None
  | disarm_stop =>
      match op d with
      | running g =>
          Some (mkDeadline (active d) (gen d) (current d) (stopped g) (wanted d)
                  (registered d ∖ {[g]}) (started d) (cancelled d))
      | _ => None
      end
  | disarm_lock =>
      match op d with
      | stopped g =>
          Some (if active d =? g
                then mkDeadline 0 (gen d) no_deadline idle (wanted d) (registered d) (started d) (cancelled d)
                else mkDeadline (active d) (gen d) (current d) idle (wanted d) (registered d) (started d)
                       (cancelled d))
      | _ => None
      end
  end.

Fixpoint run (d : directionDeadline) (acts : list action) : option directionDeadline :=
  match acts with
  | [] => Some d
  | a :: acts => match step d a with Some d => run d acts | None => None end
  end.

(** ** Facts *)

Definition op_gen (o : operation) : option Z :=
  match o with idle => None | registering g | running g | stopped g => Some g end.

(** Generations in use are those of the past; the direction shows what its
    operation's context wants, or the past deadline of that very context. *)
Definition deadline_inv (n : Z) (d : directionDeadline) : Prop :=
  0 <= gen d <= n /\
  (forall g, g ∈ registered d \/ g ∈ started d -> 1 <= g <= gen d) /\
  started d ⊆ cancelled d /\
  match op_gen (op d) with
  | None => active d = 0 /\ current d = no_deadline
  | Some g =>
      g = gen d /\ active d = gen d /\ 1 <= gen d /\
      (current d = wanted d \/ (current d = pastDeadline /\ g ∈ cancelled d))
  end.

Lemma newDirectionDeadline_inv : deadline_inv 0 newDirectionDeadline.
Proof. split_and!; try done. intros g [H|H]; set_solver. Qed.

(** Unless the generation counter wraps, every step keeps the invariant. *)
Lemma step_inv n d a d' :
  deadline_inv n d -> n < 18446744073709551615 -> step d a = Some d' -> deadline_inv (n + 1) d'.
Proof.
  intros (Hg & Hs & Hsub & Hop) Hn H. unfold deadline_inv. destruct a as [dl|dn|g|g| |]; cbn [step] in H.
  - destruct (op d) eqn:Eo; try done. injection H as <-. cbn in *.
    assert (u64 (gen d + 1) = gen d + 1) as -> by (apply Z.mod_small; lia).
    split_and!; try lia; try done; [|destruct Hop as [_ ->]; left; by destruct dl].
    intros g Hin. specialize (Hs g Hin). lia.
  - destruct (op d) as [|g| |] eqn:Eo; try done. injection H as <-. cbn in *. split; [lia|]. split; [|done].
    intros g' Hin. assert (g' = g \/ g' ∈ registered d \/ g' ∈ started d) as [->|Hin']
      by (destruct dn; set_solver); [lia|by apply Hs].
  - destruct (bool_decide_reflect (g ∈ registered d)) as [Hin|]; [|done]. injection H as <-. cbn.
    split; [lia|]. split; [intros g' Hin'; apply Hs; set_solver|]. split; [set_solver|].
    destruct (op_gen (op d)); [|done]. destruct Hop as (? & ? & ? & [?|[? ?]]); split_and!; try done; [by left|].
    right. set_solver.
  - destruct (bool_decide_reflect (g ∈ started d)) as [Hin|]; [|done]. injection H as <-. cbn.
    split; [lia|]. split; [intros g' Hin'; apply Hs; set_solver|]. split; [set_solver|].
    specialize (Hs g (or_intror Hin)). destruct (op_gen (op d)) as [g'|].
    + destruct Hop as (-> & Ha & ? & ?). split_and!; try done. destruct (Z.eqb_spec (active d) g) as [E|]; [|done].
      right. split; [done|]. rewrite <- Ha, E. set_solver.
    + destruct Hop as [Ha Hc]. rewrite Ha. destruct (Z.eqb_spec 0 g); [lia|done].
  - destruct (op d) as [| |g|] eqn:Eo; try done. injection H as <-. cbn in *. split; [lia|]. split; [|done].
    intros g' Hin. apply Hs. set_solver.
  - destruct (op d) as [| | |g] eqn:Eo; try done. injection H as <-. cbn in Hop.
    destruct Hop as (-> & -> & _). rewrite Z.eqb_refl. cbn. split; [lia|]. by split_and!.
Qed.

Lemma run_inv acts : forall n d d',
  deadline_inv n d -> n + len acts < 18446744073709551616 -> run d acts = Some d' -> deadline_inv (n + len acts) d'.
Proof.
  induction acts as [|a acts IH]; intros n d d' Hd Hn H; cbn [run] in H.
  { injection H as <-. by rewrite len_nil, Z.add_0_r. }
  rewrite len_cons in *. pose proof (len_nonneg acts).
  destruct (step d a) as [d1|] eqn:Es; [|done].
  rewrite Z.add_assoc. apply (IH _ d1); [apply (step_inv n d a d1 Hd); [lia|done]|lia|done].
Qed.

Lemma run_reachable acts d :
  len acts < 18446744073709551616 -> run newDirectionDeadline acts = Some d -> deadline_inv (len acts) d.
Proof. intros Hn H. by apply (run_inv acts 0 newDirectionDeadline); [apply newDirectionDeadline_inv|..]. Qed.

(** Between operations there is no deadline, and no callback gives one. *)
Lemma idle_clean n d :
  deadline_inv n d -> op_gen (op d) = None ->
  active d = 0 /\ current d = no_deadline /\ forall g d', step d (callback g) = Some d' -> current d' = no_deadline.
Proof.
  intros (_ & Hs & _ & Hop) Ho. rewrite Ho in Hop. destruct Hop as [Ha Hc]. split_and!; try done.
  intros g d' Hst. cbn [step] in Hst. destruct (bool_decide_reflect (g ∈ started d)) as [Hin|]; [|done].
  injection Hst as <-. cbn. rewrite Ha. specialize (Hs g (or_intror Hin)). by destruct (Z.eqb_spec 0 g); [lia|].
Qed.

(** A past deadline lasts as long as the operation. *)
Lemma past_lasts acts : forall d d',
  op d <> idle -> current d = pastDeadline -> disarm_lock ∉ acts -> run d acts = Some d' ->
  current d' = pastDeadline /\ op d' <> idle.
Proof.
  induction acts as [|a acts IH]; intros d d' Ho Hc Hnin H; cbn [run] in H; [by injection H as <-|].
  apply not_elem_of_cons in Hnin as [Hne Hnin]. destruct (step d a) as [d1|] eqn:Es; [|done].
  assert (op d1 <> idle /\ current d1 = pastDeadline) as [Ho1 Hc1]; [|by apply (IH d1)].
  destruct a as [dl|dn|g|g| |]; cbn [step] in Es; [| | | | |done].
  - destruct (op d); done.
  - destruct (op d); try done. by injection Es as <-.
  - destruct (bool_decide _); [|done]. by injection Es as <-.
  - destruct (bool_decide _); [|done]. injection Es as <-. cbn. split; [done|]. by destruct (active d =? g).
  - destruct (op d); try done. by injection Es as <-.
Qed.

(** ** Properties *)

(** A cancellation that races the end of an operation leaves no past deadline
    behind.  In every interleaving of the operations of a direction and of the
    cancellation callbacks, whenever no operation is in progress the direction
    has no deadline, and no callback still running can give it one; while an
    operation is in progress the deadline is the one its own context asked for,
    or the past one after its own context was cancelled. *)
Theorem no_deadline_left_behind acts d :
  len acts < 18446744073709551616 -> run newDirectionDeadline acts = Some d ->
  match op_gen (op d) with
  | None => active d = 0 /\ current d = no_deadline /\
      forall g d', step d (callback g) = Some d' -> current d' = no_deadline
  | Some g => active d = g /\ (current d = wanted d \/ (current d = pastDeadline /\ g ∈ cancelled d))
  end.
Proof.
  intros Hn H. pose proof (run_reachable acts d Hn H) as Hinv. pose proof Hinv as (_ & _ & _ & Hop).
  destruct (op_gen (op d)) as [g|] eqn:Ho; [|by eapply idle_clean].
  destruct Hop as (-> & ? & _ & ?). by split.
Qed.

(** The second operation is not cut by the late callback of the first. *)
Definition late_callback : list action :=
  [arm_lock (Some 5); arm_register true; start 1; disarm_stop; disarm_lock;
   arm_lock None; callback 1; arm_register false].

Lemma no_deadline_left_behind_witness :
  exists d, run newDirectionDeadline late_callback = Some d /\ current d = no_deadline /\
    active d = 2 /\ (current d = wanted d \/ (current d = pastDeadline /\ 2 ∈ cancelled d)).
Proof.
  exists (mkDeadline 2 2 no_deadline (running 2) no_deadline ∅ ∅ {[1]}).
  split; [vm_compute; reflexivity|]. split; [reflexivity|].
  apply (no_deadline_left_behind late_callback (mkDeadline 2 2 no_deadline (running 2) no_deadline ∅ ∅ {[1]}));
    [reflexivity|vm_compute; reflexivity].
Defined.

(** A cancellation interrupts the operation in progress: once its callback
    has run, the direction has the past deadline, and keeps it until the
    operation itself disarms, whatever other callbacks do. *)
Theorem cancellation_interrupts acts d g later d1 d2 :
  len acts < 18446744073709551616 -> run newDirectionDeadline acts = Some d ->
  op_gen (op d) = Some g -> step d (callback g) = Some d1 ->
  disarm_lock ∉ later -> run d1 later = Some d2 -> current d2 = pastDeadline.
Proof.
  intros Hn H Ho Hst Hl Hr. destruct (run_reachable acts d Hn H) as (_ & _ & _ & Hop). rewrite Ho in Hop.
  destruct Hop as (Hg & Ha & _). cbn [step] in Hst. destruct (bool_decide (g ∈ started d)); [|done].
  injection Hst as <-. eapply past_lasts; [| |exact Hl|exact Hr]; cbn; [by intros E; rewrite E in Ho|].
  by rewrite Ha, <- Hg, Z.eqb_refl.
Qed.

Lemma cancellation_interrupts_witness :
  exists d d1 d2,
    run newDirectionDeadline [arm_lock (Some 5); arm_register true; start 1] = Some d /\
    step d (callback 1) = Some d1 /\ run d1 [disarm_stop] = Some d2 /\ current d2 = pastDeadline.
Proof.
  exists (mkDeadline 1 1 (ctx_deadline 5) (running 1) (ctx_deadline 5) ∅ {[1]} {[1]}).
  exists (mkDeadline 1 1 pastDeadline (running 1) (ctx_deadline 5) ∅ ∅ {[1]}).
  exists (mkDeadline 1 1 pastDeadline (stopped 1) (ctx_deadline 5) ∅ ∅ {[1]}).
  split; [vm_compute; reflexivity|]. split; [vm_compute; reflexivity|]. split; [vm_compute; reflexivity|].
  apply (cancellation_interrupts [arm_lock (Some 5); arm_register true; start 1]
    (mkDeadline 1 1 (ctx_deadline 5) (running 1) (ctx_deadline 5) ∅ {[1]} {[1]}) 1 [disarm_stop]
    (mkDeadline 1 1 pastDeadline (running 1) (ctx_deadline 5) ∅ ∅ {[1]})
    (mkDeadline 1 1 pastDeadline (stopped 1) (ctx_deadline 5) ∅ ∅ {[1]}));
    [reflexivity|vm_compute; reflexivity|reflexivity|vm_compute; reflexivity|set_solver|vm_compute; reflexivity].
Defined.
