(* ===== verification/World.v ===== *)
(** * The world of one connection

    Stateful code runs in the monad [M]: a [world] in, an [outcome] and a world
    out.  What the code does not decide is an oracle of the world, a list of
    answers consumed in order: what go-tpkt's reader and writer answer, what
    [ctx.Err()] answers at each call, whether the lock is obtained, whether the
    context's deadline has passed.  Theorems quantify over all worlds, so over all
    behaviours of the peer, the stream, the context and the other goroutines.  The
    other fields record what the code did.

    Another goroutine can end the connection while this one is blocked in the
    stream: an answer of the stream carries what happened meanwhile, a [Close] or
    an [abort], if anything. *)

From S2P Require Import Prelude Errors RefAlloc.

(** connState and terminalKind of conn.go. *)
Inductive connState :=
  | stateConnecting
  | stateAccepting
  | stateOpen
  | stateClosing
  | stateClosed
  | stateAborted.

#[export] Instance connState_eq_dec : EqDecision connState.
Proof. solve_decision. Defined.

Inductive terminalKind :=
  | terminalNone
  | terminalClosed
  | terminalAborted.

#[export] Instance terminalKind_eq_dec : EqDecision terminalKind.
Proof. solve_decision. Defined.

(** The mutable fields of [Conn]: the state word, the terminal cause and the two
    [sync.Once] flags. *)
Record connTerm := mkTerm {
  state : connState;
  termKind : terminalKind;
  termErr : option error;
  termOnce : bool;
  refOnce : bool
}.

(** How another goroutine ends a connection. *)
Inductive ending :=
  | closed_by_user
  | aborted_with (e : error).

(** An answer of the stream: the octets that crossed it, what another goroutine
    did meanwhile and the result of the call. *)
Record answer (A : Type) := mkAnswer {
  moved : Z;
  meanwhile : option ending;
  result : A + error
}.
Arguments mkAnswer {A} moved meanwhile result.
Arguments moved {A} a.
Arguments meanwhile {A} a.
Arguments result {A} a.

Record world := mkWorld {
  (* oracles *)
  reads : list (answer bytes);
  writes : list (answer unit);
  ctx_errs : list (option error);
  lock_errs : list (option error);
  past_deadline : list bool;
  has_deadline : bool;
  reader_err : option error;
  writer_err : option error;
  (* the stream, seen by go-cotp *)
  sent : list bytes;
  nRead : Z;
  nWritten : Z;
  closes : nat;
  armed : bool;
  locked : bool;
  (* the process and the connection *)
  refs : referenceAllocator;
  term : connTerm
}.

(** ** The monad *)

Definition M (A : Type) : Type := world -> outcome A * world.

Definition ret {A} (a : A) : M A := fun w => (Ok a, w).
Definition fail {A} (e : error) : M A := fun w => (Err e, w).

Definition mbind_ {A B} (m : M A) (k : A -> M B) : M B := fun w =>
  match m w with
  | (Ok a, w') => k a w'
  | (Err e, w') => (Err e, w')
  | (Panic, w') => (Panic, w')
  | (NoFuel, w') => (NoFuel, w')
  end.

Declare Scope world_scope.
Notation "'do!' x ':=' m 'in' k" := (mbind_ m (fun x => k))
  (at level 10, x binder, m at level 100, k at level 200) : world_scope.
#[global] Open Scope world_scope.

(** A call that touches no state. *)
Definition lift {A} (m : outcome A) : M A := fun w => (m, w).

(** [defer f()]: [f] runs whatever the result. *)
Definition defer {A} (f : world -> world) (m : M A) : M A := fun w =>
  let '(r, w') := m w in (r, f w').

(** [defer func() { if !success { f() } }()], the body setting [success] just
    before it returns its value. *)
Definition unless_ok {A} (f : world -> world) (m : M A) : M A := fun w =>
  let '(r, w') := m w in
  match r with Ok _ => (r, w') | _ => (r, f w') end.

(** [return c.abort(err)] and the like: a nil error is a success. *)
Definition return_err {A} (zero : A) (e : option error) : M A :=
  match e with Some e => fail e | None => ret zero end.

(** [v, err := f()], the error left to the caller. *)
Definition attempt {A} (m : M A) : M (A + error) := fun w =>
  match m w with
  | (Ok a, w') => (Ok (inl a), w')
  | (Err e, w') => (Ok (inr e), w')
  | (Panic, w') => (Panic, w')
  | (NoFuel, w') => (NoFuel, w')
  end.

(** A loop in the monad, as [iterate]. *)
Fixpoint mloop {S R : Type} (fuel : nat) (body : S -> M (S + R)) (s : S) : M R :=
  match fuel with
  | O => fun w => (NoFuel, w)
  | Datatypes.S fuel =>
      do! r := body s in
      match r with
      | inl s => mloop fuel body s
      | inr r => ret r
      end
  end.

(** ** Field updates *)

Definition set_term (w : world) (t : connTerm) : world :=
  mkWorld (reads w) (writes w) (ctx_errs w) (lock_errs w) (past_deadline w) (has_deadline w)
    (reader_err w) (writer_err w) (sent w) (nRead w) (nWritten w) (closes w) (armed w) (locked w)
    (refs w) t.

Definition set_refs (w : world) (r : referenceAllocator) : world :=
  mkWorld (reads w) (writes w) (ctx_errs w) (lock_errs w) (past_deadline w) (has_deadline w)
    (reader_err w) (writer_err w) (sent w) (nRead w) (nWritten w) (closes w) (armed w) (locked w)
    r (term w).

Definition set_armed (w : world) (b : bool) : world :=
  mkWorld (reads w) (writes w) (ctx_errs w) (lock_errs w) (past_deadline w) (has_deadline w)
    (reader_err w) (writer_err w) (sent w) (nRead w) (nWritten w) (closes w) b (locked w)
    (refs w) (term w).

Definition set_locked (w : world) (b : bool) : world :=
  mkWorld (reads w) (writes w) (ctx_errs w) (lock_errs w) (past_deadline w) (has_deadline w)
    (reader_err w) (writer_err w) (sent w) (nRead w) (nWritten w) (closes w) (armed w) b
    (refs w) (term w).

(** [conn.Close()], whose error the code ignores. *)
Definition closeConn (w : world) : world :=
  mkWorld (reads w) (writes w) (ctx_errs w) (lock_errs w) (past_deadline w) (has_deadline w)
    (reader_err w) (writer_err w) (sent w) (nRead w) (nWritten w) (S (closes w)) (armed w) (locked w)
    (refs w) (term w).

(** ** Context and locks *)

(** [ctx.Err()]; a context whose answers run out is not done. *)
Definition ctx_Err : M (option error) := fun w =>
  match ctx_errs w with
  | [] => (Ok None, w)
  | e :: es =>
      (Ok e, mkWorld (reads w) (writes w) es (lock_errs w) (past_deadline w) (has_deadline w)
         (reader_err w) (writer_err w) (sent w) (nRead w) (nWritten w) (closes w) (armed w) (locked w)
         (refs w) (term w))
  end.

(** [if err := ctx.Err(); err != nil { return err }] *)
Definition check_ctx : M unit :=
  do! e := ctx_Err in
  match e with Some e => fail e | None => ret tt end.

(** [!time.Now().Before(dl)] *)
Definition deadline_has_passed : M bool := fun w =>
  match past_deadline w with
  | [] => (Ok false, w)
  | b :: bs =>
      (Ok b, mkWorld (reads w) (writes w) (ctx_errs w) (lock_errs w) bs (has_deadline w)
         (reader_err w) (writer_err w) (sent w) (nRead w) (nWritten w) (closes w) (armed w) (locked w)
         (refs w) (term w))
  end.

(** [ctx.Deadline()], as far as the code looks at it here. *)
Definition ctx_has_deadline : M bool := fun w => (Ok (has_deadline w), w).

(** ctxDoneErr of deadline.go. *)
Definition ctxDoneErr : M (option error) :=
  do! e := ctx_Err in
  match e with
  | Some e => ret (Some e)
  | None =>
      do! ok := ctx_has_deadline in
      if (ok : bool) then
        do! past := deadline_has_passed in
        ret (if (past : bool) then Some (Foreign context_DeadlineExceeded (Some true)) else None)
      else ret None
  end.

(** opLock.lock of conn.go: obtained, or given up with the context's error. *)
Definition opLock_lock : M unit := fun w =>
  match lock_errs w with
  | [] => (Ok tt, set_locked w true)
  | e :: es =>
      let w' := mkWorld (reads w) (writes w) (ctx_errs w) es (past_deadline w) (has_deadline w)
         (reader_err w) (writer_err w) (sent w) (nRead w) (nWritten w) (closes w) (armed w) (locked w)
         (refs w) (term w) in
      match e with
      | None => (Ok tt, set_locked w' true)
      | Some e => (Err e, w')
      end
  end.

Definition opLock_unlock (w : world) : world := set_locked w false.

(** directionDeadline.arm and the disarm function it returns, as an operation
    sees them; Deadline.v models their interplay with the cancellation
    callback. *)
Definition arm : M unit :=
  do! _ := check_ctx in
  fun w => (Ok tt, set_armed w true).

Definition disarm (w : world) : world := set_armed w false.

(** ** Weakest preconditions

    [wp m Q w]: run from [w], [m] ends in a result and a world that satisfy [Q]. *)

Definition wp {A} (m : M A) (Q : outcome A -> world -> Prop) (w : world) : Prop :=
  Q (fst (m w)) (snd (m w)).

Lemma wp_mono {A} (m : M A) (P Q : outcome A -> world -> Prop) w :
  wp m P w -> (forall r w', P r w' -> Q r w') -> wp m Q w.
Proof. unfold wp. auto. Qed.

Lemma wp_ret {A} (a : A) Q w : Q (Ok a) w -> wp (ret a) Q w.
Proof. done. Qed.

Lemma wp_fail {A} e (Q : outcome A -> world -> Prop) w : Q (Err e) w -> wp (fail e) Q w.
Proof. done. Qed.

Lemma wp_lift {A} (m : outcome A) Q w : Q m w -> wp (lift m) Q w.
Proof. done. Qed.

Lemma wp_bind {A B} (m : M A) (k : A -> M B) Q w :
  wp m (fun r w' => match r with
                    | Ok a => wp (k a) Q w'
                    | Err e => Q (Err e) w'
                    | Panic => Q Panic w'
                    | NoFuel => Q NoFuel w'
                    end) w ->
  wp (mbind_ m k) Q w.
Proof. unfold wp, mbind_. destruct (m w) as [[a|e| |] w']; done. Qed.

Lemma wp_defer {A} f (m : M A) Q w : wp m (fun r w' => Q r (f w')) w -> wp (defer f m) Q w.
Proof. unfold wp, defer. by destruct (m w). Qed.

Lemma wp_unless_ok {A} f (m : M A) Q w :
  wp m (fun r w' => match r with Ok _ => Q r w' | _ => Q r (f w') end) w -> wp (unless_ok f m) Q w.
Proof. unfold wp, unless_ok. by destruct (m w) as [[a|e| |] w']. Qed.

Lemma wp_attempt {A} (m : M A) Q w :
  wp m (fun r w' => match r with
                    | Ok a => Q (Ok (inl a)) w'
                    | Err e => Q (Ok (inr e)) w'
                    | Panic => Q Panic w'
                    | NoFuel => Q NoFuel w'
                    end) w ->
  wp (attempt m) Q w.
Proof. unfold wp, attempt. by destruct (m w) as [[a|e| |] w']. Qed.

(** The loop rule: an invariant with a measure that bounds the fuel. *)
Lemma wp_mloop {S R} (Inv : S -> world -> Prop) (measure : S -> Z) (body : S -> M (S + R)) Q :
  (forall s w, Inv s w ->
     wp (body s) (fun r w' => match r with
                              | Ok (inl s') => Inv s' w' /\ 0 <= measure s' < measure s
                              | Ok (inr a) => Q (Ok a) w'
                              | Err e => Q (Err e) w'
                              | Panic => Q Panic w'
                              | NoFuel => Q NoFuel w'
                              end) w) ->
  forall fuel s w, Inv s w -> 0 <= measure s -> (Z.to_nat (measure s) < fuel)%nat ->
  wp (mloop fuel body s) Q w.
Proof.
  intros Hbody. induction fuel as [|fuel IH]; intros s w Hs H0 Hf; [lia|]. cbn [mloop].
  apply wp_bind. eapply wp_mono; [by apply Hbody|].
  intros [[s'|a]|e| |] w'; try done. intros [Hs' Hm]. apply IH; [done|lia|lia].
Qed.

(** ** Relations every operation preserves

    [keeps R m]: whatever [m] does stays within the preorder [R]. *)

Section Keeps.
Context (R : world -> world -> Prop) `{!PreOrder R}.

Definition keeps {A} (m : M A) : Prop := forall w, R w (snd (m w)).

Lemma keeps_ret {A} (a : A) : keeps (ret a).
Proof. intros w. reflexivity. Qed.

Lemma keeps_fail {A} e : keeps (@fail A e).
Proof. intros w. reflexivity. Qed.

Lemma keeps_lift {A} (m : outcome A) : keeps (lift m).
Proof. intros w. reflexivity. Qed.

Lemma keeps_return_err {A} (a : A) e : keeps (return_err a e).
Proof. intros w. destruct e; reflexivity. Qed.

Lemma keeps_bind {A B} (m : M A) (k : A -> M B) :
  keeps m -> (forall a, keeps (k a)) -> keeps (mbind_ m k).
Proof.
  intros Hm Hk w. unfold mbind_. specialize (Hm w). destruct (m w) as [[a|e| |] w']; cbn in *; try done.
  etrans; [exact Hm|apply Hk].
Qed.

Lemma keeps_attempt {A} (m : M A) : keeps m -> keeps (attempt m).
Proof. intros Hm w. specialize (Hm w). unfold attempt. by destruct (m w) as [[a|e| |] w']. Qed.

Lemma keeps_defer {A} f (m : M A) : (forall w, R w (f w)) -> keeps m -> keeps (defer f m).
Proof.
  intros Hf Hm w. specialize (Hm w). unfold defer. destruct (m w) as [r w']. cbn in *.
  etrans; [exact Hm|apply Hf].
Qed.

Lemma keeps_mloop {S Res} (body : S -> M (S + Res)) fuel s :
  (forall s, keeps (body s)) -> keeps (mloop fuel body s).
Proof.
  intros Hb. revert s. induction fuel as [|fuel IH]; intros s; [intros w; reflexivity|].
  cbn [mloop]. apply keeps_bind; [done|]. intros [s'|r]; [apply IH|apply keeps_ret].
Qed.
End Keeps.

#[export] Hint Resolve keeps_attempt : cotp.

(** Walk a monadic body. *)
Ltac keeps_walk :=
  repeat first
    [ solve [apply keeps_ret; apply _ | apply keeps_fail; apply _ | apply keeps_lift; apply _
            | apply keeps_return_err; apply _ | eauto with cotp]
    | apply keeps_bind; [apply _| |intros ?]
    | apply keeps_defer; [apply _|intros ?|]
    | apply keeps_attempt
    | apply keeps_mloop; [apply _|intros ?]
    | match goal with
      | |- keeps _ (if ?c then _ else _) => destruct c
      | |- keeps _ (match ?x with _ => _ end) => destruct x
      end ].
