(* ===== verification/Conn.v ===== *)
(** * The connection and its end: conn.go

    [finish] runs once: it stores the terminal cause, closes the stream and
    releases the reference.  Every other way to end a connection goes through
    it. *)

From S2P Require Import Prelude Errors Types RefAlloc World.

(** NegotiatedParameters of config.go; the class is always 0. *)
Record NegotiatedParameters := mkNegotiated {
  Class : Z;
  MaxTPDULength : Z;
  LocalRef : Z;
  RemoteRef : Z;
  LocalSelector : goslice;
  RemoteSelector : goslice;
  PeerConnectData : goslice
}.

(** The fields of [Conn] that never change; the stream is the world's, and the
    allocator is the process's. *)
Record Conn := mkConn {
  negotiated : NegotiatedParameters;
  maxTSDU : Z;
  profile : Z;
  localRef : Z
}.

(** The mutable fields of a [Conn] just opened. *)
Definition open_term : connTerm := mkTerm stateOpen terminalNone None false false.

Definition newOpenConn (neg : NegotiatedParameters) (maxTSDU profile localRef : Z) : M Conn :=
  fun w => (Ok (mkConn neg maxTSDU profile localRef), set_term w open_term).

(** copyBytes of config.go: the content, nil staying nil. *)
Definition copyBytes (b : goslice) : goslice :=
  match b with
  | None => None
  | Some b => Some b
  end.

Definition zero_negotiated : NegotiatedParameters := mkNegotiated 0 0 0 0 None None None.

(** [None] is a nil [*Conn]. *)
Definition Negotiated (c : option Conn) : NegotiatedParameters :=
  match c with
  | None => zero_negotiated
  | Some c =>
      let n := negotiated c in
      mkNegotiated (Class n) (MaxTPDULength n) (LocalRef n) (RemoteRef n)
        (copyBytes (LocalSelector n)) (copyBytes (RemoteSelector n)) (copyBytes (PeerConnectData n))
  end.

Definition terminalError (w : world) : option error :=
  match termKind (term w) with
  | terminalNone => None
  | _ => termErr (term w)
  end.

(** The addresses of the stream, [raw] (nil or not); its own methods answer them. *)
Definition LocalAddr {Addr Raw : Type} (raw_LocalAddr : Raw -> option Addr) (raw : option Raw) (c : option Conn) : option Addr :=
  match c, raw with
  | Some _, Some raw => raw_LocalAddr raw
  | _, _ => None
  end.

Definition RemoteAddr {Addr Raw : Type} (raw_RemoteAddr : Raw -> option Addr) (raw : option Raw) (c : option Conn) : option Addr :=
  match c, raw with
  | Some _, Some raw => raw_RemoteAddr raw
  | _, _ => None
  end.

(** [refOnce.Do] *)
Definition releaseRef (c : Conn) (w : world) : world :=
  let t := term w in
  if refOnce t then w else
  let w := if negb (localRef c =? 0) then set_refs w (Release (refs w) (localRef c)) else w in
  set_term w (mkTerm (state t) (termKind t) (termErr t) (termOnce t) true).

Definition set_state (w : world) (s : connState) : world :=
  let t := term w in set_term w (mkTerm s (termKind t) (termErr t) (termOnce t) (refOnce t)).

(** [termOnce.Do]; the nested steps are those of the closure, in order. *)
Definition finish_ (c : Conn) (kind : terminalKind) (err : option error) (w : world) : world :=
  let t := term w in
  if termOnce t then w else
  let w := set_term w (mkTerm (state t) kind err true (refOnce t)) in
  let w := set_state w (if bool_decide (kind = terminalClosed) then stateClosing else stateAborted) in
  let w := closeConn w in
  let w := releaseRef c w in
  if bool_decide (kind = terminalClosed) then set_state w stateClosed else w.

Definition finish (c : Conn) (kind : terminalKind) (err : option error) : M (option error) := fun w =>
  let w := finish_ c kind err w in (Ok (terminalError w), w).

(** The result of a Go function whose only result is an error. *)
Definition as_error (m : M (option error)) : M unit :=
  do! e := m in return_err tt e.

Definition Close (c : option Conn) : M unit :=
  match c with
  | None => fail (Errorf "%w" [Sentinel ErrNilReceiver])
  | Some c => as_error (finish c terminalClosed (Some (Sentinel ErrClosed)))
  end.

Definition abort (c : Conn) (err : option error) : M (option error) :=
  let err := match err with None => Some (Sentinel ErrClosed) | Some e => Some e end in
  do! _ := finish c terminalAborted err in
  fun w => (Ok (terminalError w), w).

(** abortOpen of open_dt.go. *)
Definition abortOpen (c : Conn) (midTSDU : bool) (err : option error) : M (option error) :=
  let err := match err with None => Sentinel ErrHandshake | Some e => e end in
  let err :=
    if midTSDU && negb (errors_Is err ErrIncompleteTSDU)
    then Join [Sentinel ErrIncompleteTSDU; err] else err in
  abort c (Some err).

(** requireOpen of tsdu.go. *)
Definition requireOpen : M unit := fun w =>
  if negb (bool_decide (termKind (term w) = terminalNone))
  then return_err tt (terminalError w) w
  else if negb (bool_decide (state (term w) = stateOpen))
  then (Err (Errorf "%w" [Sentinel ErrClosed]), w)
  else (Ok tt, w).

(** ** The stream: go-tpkt's reader and writer

    [ReadPacket] answers a packet's payload or an error, [WritePacket] takes a
    payload; both move octets, and the connection may be ended meanwhile: [ends]
    says what that does. *)

Definition stream_read (ends : option ending -> world -> world) : M bytes := fun w =>
  match reads w with
  | [] => (Err (Foreign io_EOF None), w)
  | a :: rs =>
      let w := mkWorld rs (writes w) (ctx_errs w) (lock_errs w) (past_deadline w) (has_deadline w)
         (reader_err w) (writer_err w) (sent w) (nRead w + moved a) (nWritten w) (closes w) (armed w)
         (locked w) (refs w) (term w) in
      let w := ends (meanwhile a) w in
      match result a with
      | inl p => (Ok p, w)
      | inr e => (Err e, w)
      end
  end.

Definition add_sent (w : world) (p : bytes) : world :=
  mkWorld (reads w) (writes w) (ctx_errs w) (lock_errs w) (past_deadline w) (has_deadline w)
    (reader_err w) (writer_err w) (sent w ++ [p]) (nRead w) (nWritten w) (closes w) (armed w)
    (locked w) (refs w) (term w).

(** A writer whose answers run out succeeds; the TPKT header is four octets. *)
Definition stream_write (ends : option ending -> world -> world) (p : bytes) : M unit := fun w =>
  let '(a, ws) :=
    match writes w with
    | [] => (mkAnswer (4 + len p) None (inl tt), [])
    | a :: ws => (a, ws)
    end in
  let w := mkWorld (reads w) ws (ctx_errs w) (lock_errs w) (past_deadline w) (has_deadline w)
     (reader_err w) (writer_err w) (sent w) (nRead w) (nWritten w + moved a) (closes w) (armed w)
     (locked w) (refs w) (term w) in
  let w := ends (meanwhile a) w in
  match result a with
  | inl _ => (Ok tt, add_sent w p)
  | inr e => (Err e, w)
  end.

(** During the handshake there is no connection to end. *)
Definition no_conn : option ending -> world -> world := fun _ w => w.

(** Another goroutine's [Close] or [abort]. *)
Definition conn_ends (c : Conn) (o : option ending) (w : world) : world :=
  match o with
  | None => w
  | Some closed_by_user => finish_ c terminalClosed (Some (Sentinel ErrClosed)) w
  | Some (aborted_with e) => finish_ c terminalAborted (Some e) w
  end.

(** readProgress and writeProgress: the stream of a [Conn] is metered. *)
Definition readProgress : M Z := fun w => (Ok (nRead w), w).
Definition writeProgress : M Z := fun w => (Ok (nWritten w), w).

(** ** The life of a connection *)

Definition kind_of (e : ending) : terminalKind :=
  match e with closed_by_user => terminalClosed | aborted_with _ => terminalAborted end.

Definition cause_of (e : ending) : error :=
  match e with closed_by_user => Sentinel ErrClosed | aborted_with e => e end.

Definition final_state (e : ending) : connState :=
  match e with closed_by_user => stateClosed | aborted_with _ => stateAborted end.

(** The mutable fields of a connection that has ended. *)
Definition ended_term (e : ending) : connTerm :=
  mkTerm (final_state e) (kind_of e) (Some (cause_of e)) true true.

(** A connection is open, or has ended one way. *)
Definition term_ok (t : connTerm) : Prop := t = open_term \/ exists e, t = ended_term e.

Definition release_own (c : Conn) (a : referenceAllocator) : referenceAllocator :=
  if localRef c =? 0 then a else Release a (localRef c).

(** What any operation, alone or with others meanwhile, does to a connection:
    nothing, or end it once, which closes the stream and releases the reference. *)
Definition conn_step (c : Conn) (w w' : world) : Prop :=
  term_ok (term w) ->
  (term w' = term w /\ closes w' = closes w /\ refs w' = refs w) \/
  (term w = open_term /\ exists e, term w' = ended_term e /\
     closes w' = S (closes w) /\ refs w' = release_own c (refs w)).

#[export] Instance conn_step_preorder c : PreOrder (conn_step c).
Proof.
  split.
  - intros w _. by left.
  - intros w1 w2 w3 H1 H2 Ht. specialize (H1 Ht).
    destruct H1 as [(E1 & C1 & R1)|(E1 & e & E2 & C2 & R2)].
    + rewrite <- E1 in Ht. specialize (H2 Ht). rewrite C1, R1, E1 in H2. exact H2.
    + assert (term_ok (term w2)) as Ht2 by (rewrite E2; right; by exists e).
      specialize (H2 Ht2). right. split; [done|]. exists e.
      destruct H2 as [(E3 & C3 & R3)|(E3 & _)].
      * by rewrite E3, C3, R3.
      * exfalso. rewrite E2 in E3. destruct e; discriminate E3.
Qed.

Lemma copyBytes_id s : copyBytes s = s.
Proof. by destruct s. Qed.

Lemma conn_step_ok c w w' : conn_step c w w' -> term_ok (term w) -> term_ok (term w').
Proof.
  intros H Ht. destruct (H Ht) as [(-> & _)|(_ & e & -> & _)]; [done|]. right. by exists e.
Qed.

(** The first cause wins: an ended connection stays as it ended. *)
Lemma conn_step_ended c w w' e :
  conn_step c w w' -> term w = ended_term e ->
  term w' = ended_term e /\ closes w' = closes w /\ refs w' = refs w.
Proof.
  intros H Ht. assert (term_ok (term w)) as Hok by (right; by exists e).
  destruct (H Hok) as [(-> & -> & ->)|(Ho & _)]; [done|]. rewrite Ht in Ho. by destruct e.
Qed.

(** The parts of the world that the connection does not touch. *)
Definition same_conn (w w' : world) : Prop :=
  term w' = term w /\ closes w' = closes w /\ refs w' = refs w.

Lemma same_conn_step c w w' : same_conn w w' -> conn_step c w w'.
Proof. intros H _. by left. Qed.

#[export] Instance same_conn_preorder : PreOrder same_conn.
Proof. split; [by intros w|]. unfold same_conn. intros ??? (-> & -> & ->) (-> & -> & ->). done. Qed.

(** ** finish and its callers *)

Lemma finish_ended c e w :
  term w = open_term ->
  let w' := finish_ c (kind_of e) (Some (cause_of e)) w in
  term w' = ended_term e /\ closes w' = S (closes w) /\ refs w' = release_own c (refs w) /\
  reads w' = reads w /\ writes w' = writes w /\ sent w' = sent w /\ nRead w' = nRead w /\
  nWritten w' = nWritten w /\ armed w' = armed w /\ locked w' = locked w.
Proof.
  intros Ht. unfold finish_, releaseRef, release_own. rewrite Ht. cbn [termOnce open_term].
  destruct e; cbn [kind_of cause_of]; [rewrite bool_decide_eq_true_2 by done|rewrite bool_decide_eq_false_2 by done];
    cbn; destruct (localRef c =? 0); cbn; by split_and!.
Qed.

Lemma finish_already c kind err w e : term w = ended_term e -> finish_ c kind err w = w.
Proof. intros Ht. unfold finish_. rewrite Ht. by destruct e. Qed.

Lemma finish_step c e w : conn_step c w (finish_ c (kind_of e) (Some (cause_of e)) w).
Proof.
  intros [Ht|[e' Ht]].
  - destruct (finish_ended c e w Ht) as (H1 & H2 & H3 & _). right. split; [done|]. by exists e.
  - rewrite (finish_already c _ _ w e' Ht). by left.
Qed.

Lemma conn_ends_step c o w : conn_step c w (conn_ends c o w).
Proof.
  destruct o as [[|e]|]; [apply (finish_step c closed_by_user)|apply (finish_step c (aborted_with e))|].
  cbn. reflexivity.
Qed.

(** [finish] touches nothing but the connection. *)
Lemma finish_frame c kind err w :
  let w' := finish_ c kind err w in
  reads w' = reads w /\ writes w' = writes w /\ sent w' = sent w /\ nRead w' = nRead w /\
  nWritten w' = nWritten w /\ armed w' = armed w /\ locked w' = locked w /\
  ctx_errs w' = ctx_errs w /\ has_deadline w' = has_deadline w.
Proof.
  unfold finish_, releaseRef. destruct (termOnce (term w)); [by split_and!|].
  cbn. destruct (refOnce (term w)), (localRef c =? 0), (bool_decide (kind = terminalClosed));
    cbn; by split_and!.
Qed.

Lemma conn_ends_frame c o w :
  let w' := conn_ends c o w in
  reads w' = reads w /\ writes w' = writes w /\ sent w' = sent w /\ nRead w' = nRead w /\
  nWritten w' = nWritten w /\ armed w' = armed w /\ locked w' = locked w /\
  ctx_errs w' = ctx_errs w /\ has_deadline w' = has_deadline w.
Proof. destruct o as [[|e]|]; cbn [conn_ends]; [apply finish_frame|apply finish_frame|by split_and!]. Qed.

(** The stored cause of an ended connection. *)
Lemma terminalError_ended w e : term w = ended_term e -> terminalError w = Some (cause_of e).
Proof. unfold terminalError. intros ->. by destruct e. Qed.

(** [abort] always has an error to return. *)
Lemma abort_spec c err w :
  term_ok (term w) ->
  let e0 := match err with None => Sentinel ErrClosed | Some e => e end in
  exists w' e, abort c err w = (Ok (Some (cause_of e)), w') /\ term w' = ended_term e /\
    conn_step c w w' /\ w' = finish_ c terminalAborted (Some e0) w /\
    (term w = open_term -> e = aborted_with e0).
Proof.
  intros Ht e0. set (w' := finish_ c terminalAborted (Some e0) w).
  assert (abort c err w = (Ok (terminalError w'), w')) as ->.
  { unfold abort, mbind_, finish. by destruct err. }
  pose proof (finish_step c (aborted_with e0) w) as Hs. cbn [kind_of cause_of] in Hs.
  destruct Ht as [Ht|[e Ht]].
  - destruct (finish_ended c (aborted_with e0) w Ht) as (He & _). exists w', (aborted_with e0).
    rewrite (terminalError_ended w' (aborted_with e0)) by exact He. by split_and!.
  - assert (w' = w) as Hw by (by eapply finish_already). exists w', e.
    rewrite (terminalError_ended w' e) by (by rewrite Hw). rewrite Hw.
    split_and!; try done. rewrite Ht. by destruct e.
Qed.

Lemma abort_keeps c err : keeps (conn_step c) (abort c err).
Proof.
  intros w Ht. destruct (abort_spec c err w Ht) as (w' & e & Heq & _ & Hs & _).
  rewrite Heq. by apply Hs.
Qed.

Lemma abortOpen_keeps c mid err : keeps (conn_step c) (abortOpen c mid err).
Proof. apply abort_keeps. Qed.

(** What [abortOpen] makes of a cause. *)
Definition open_cause (mid : bool) (e : error) : error :=
  if mid && negb (errors_Is e ErrIncompleteTSDU) then Join [Sentinel ErrIncompleteTSDU; e] else e.

Lemma abortOpen_spec c mid err w :
  term_ok (term w) ->
  exists w' e, abortOpen c mid (Some err) w = (Ok (Some (cause_of e)), w') /\ term w' = ended_term e /\
    conn_step c w w' /\ w' = finish_ c terminalAborted (Some (open_cause mid err)) w /\
    (term w = open_term -> e = aborted_with (open_cause mid err)).
Proof. intros Ht. apply (abort_spec c (Some (open_cause mid err)) w Ht). Qed.

Lemma finish_keeps c e : keeps (conn_step c) (finish c (kind_of e) (Some (cause_of e))).
Proof. intros w. apply finish_step. Qed.

Lemma stream_read_keeps c : keeps (conn_step c) (stream_read (conn_ends c)).
Proof.
  intros w. unfold stream_read. destruct (reads w) as [|a rs]; [by apply same_conn_step|].
  etrans; [|match goal with |- conn_step c _ (snd (match _ with inl p => (_, ?x) | inr _ => _ end)) =>
    assert (forall r, snd (match r with inl p => (Ok p, x) | inr e => (Err e, x) end : outcome bytes * world) = x)
      as -> by (by intros []) end; apply conn_ends_step].
  by apply same_conn_step.
Qed.

Lemma stream_write_keeps c p : keeps (conn_step c) (stream_write (conn_ends c) p).
Proof.
  intros w. unfold stream_write.
  set (aw := match writes w with [] => _ | _ => _ end). destruct aw as [a ws].
  match goal with |- context [conn_ends c (meanwhile a) ?w0] => set (w1 := w0) end.
  assert (conn_step c w (conn_ends c (meanwhile a) w1)) as H.
  { etrans; [|apply conn_ends_step]. by apply same_conn_step. }
  destruct (result a); cbn [snd]; [|exact H].
  etrans; [exact H|]. by apply same_conn_step.
Qed.

Lemma ctx_Err_same w : same_conn w (snd (ctx_Err w)).
Proof. unfold ctx_Err. by destruct (ctx_errs w). Qed.

Lemma keeps_same {A} c (m : M A) : keeps same_conn m -> keeps (conn_step c) m.
Proof. intros H w. apply same_conn_step, H. Qed.

Lemma ctx_Err_keeps : keeps same_conn ctx_Err.
Proof. intros w. apply ctx_Err_same. Qed.

Lemma opLock_lock_keeps : keeps same_conn opLock_lock.
Proof. intros w. unfold opLock_lock. by destruct (lock_errs w) as [|[e|] es]. Qed.

Lemma deadline_passed_keeps : keeps same_conn deadline_has_passed.
Proof. intros w. unfold deadline_has_passed. by destruct (past_deadline w). Qed.

Lemma reader_keeps {A} (f : world -> A) : keeps same_conn (fun w => (Ok (f w), w)).
Proof. by intros w. Qed.
#[export] Hint Resolve ctx_Err_keeps opLock_lock_keeps deadline_passed_keeps reader_keeps : cotp.

Lemma check_ctx_keeps : keeps same_conn check_ctx.
Proof. unfold check_ctx. keeps_walk. Qed.

Lemma ctxDoneErr_keeps : keeps same_conn ctxDoneErr.
Proof. unfold ctxDoneErr, ctx_has_deadline. keeps_walk. Qed.

Lemma arm_keeps : keeps same_conn arm.
Proof. unfold arm. apply keeps_bind; [apply _|apply check_ctx_keeps|]. by intros a w. Qed.

Lemma requireOpen_keeps : keeps same_conn requireOpen.
Proof.
  intros w. unfold requireOpen. destruct (negb _); [apply keeps_return_err; apply _|].
  by destruct (negb _).
Qed.
#[export] Hint Resolve check_ctx_keeps ctxDoneErr_keeps arm_keeps requireOpen_keeps keeps_same
  abort_keeps abortOpen_keeps finish_keeps stream_read_keeps stream_write_keeps : cotp.

Lemma unlock_step c w : conn_step c w (opLock_unlock w).
Proof. by apply same_conn_step. Qed.

Lemma disarm_step c w : conn_step c w (disarm w).
Proof. by apply same_conn_step. Qed.
#[export] Hint Resolve unlock_step disarm_step : cotp.

Lemma Close_keeps c : keeps (conn_step c) (Close (Some c)).
Proof.
  unfold Close, as_error. apply keeps_bind; [apply _|apply (finish_keeps c closed_by_user)|].
  intros e. apply keeps_return_err. apply _.
Qed.

(** ** The parts of the world that only stream calls touch *)

Definition io_frame (w w' : world) : Prop :=
  reads w' = reads w /\ writes w' = writes w /\ sent w' = sent w /\ nRead w' = nRead w /\
  nWritten w' = nWritten w /\ armed w' = armed w /\ locked w' = locked w.

#[export] Instance io_frame_preorder : PreOrder io_frame.
Proof.
  split; [by intros w|]. unfold io_frame.
  intros ??? (-> & -> & -> & -> & -> & -> & ->) (-> & -> & -> & -> & -> & -> & ->). done.
Qed.

Lemma finish_io c kind err w : io_frame w (finish_ c kind err w).
Proof. destruct (finish_frame c kind err w) as (?&?&?&?&?&?&?&_). by split_and!. Qed.

Lemma conn_ends_io c o w : io_frame w (conn_ends c o w).
Proof. destruct (conn_ends_frame c o w) as (?&?&?&?&?&?&?&_). by split_and!. Qed.

Lemma ctx_Err_io : keeps io_frame ctx_Err.
Proof. intros w. unfold ctx_Err. by destruct (ctx_errs w). Qed.

Lemma deadline_passed_io : keeps io_frame deadline_has_passed.
Proof. intros w. unfold deadline_has_passed. by destruct (past_deadline w). Qed.

Lemma reader_io {A} (f : world -> A) : keeps io_frame (fun w => (Ok (f w), w)).
Proof. by intros w. Qed.

Lemma finish_keeps_io c kind err : keeps io_frame (finish c kind err).
Proof. intros w. apply finish_io. Qed.
#[export] Hint Resolve ctx_Err_io deadline_passed_io reader_io finish_keeps_io : cotp.

Lemma check_ctx_io : keeps io_frame check_ctx.
Proof. unfold check_ctx. keeps_walk. Qed.

Lemma ctxDoneErr_io : keeps io_frame ctxDoneErr.
Proof. unfold ctxDoneErr, ctx_has_deadline. keeps_walk. Qed.

Lemma abort_io c err : keeps io_frame (abort c err).
Proof. unfold abort. destruct err; keeps_walk. Qed.

Lemma abortOpen_io c mid err : keeps io_frame (abortOpen c mid err).
Proof. apply abort_io. Qed.

Lemma requireOpen_io : keeps io_frame requireOpen.
Proof.
  intros w. unfold requireOpen. destruct (negb _); [apply keeps_return_err; apply _|].
  by destruct (negb _).
Qed.
#[export] Hint Resolve check_ctx_io ctxDoneErr_io abort_io abortOpen_io requireOpen_io : cotp.

(** ** What an operation on an ended connection gives *)

Lemma requireOpen_spec w :
  term_ok (term w) ->
  (term w = open_term /\ requireOpen w = (Ok tt, w)) \/
  (exists e, term w = ended_term e /\ requireOpen w = (Err (cause_of e), w)).
Proof.
  intros [Ht|[e Ht]]; [left|right; exists e]; (split; [done|]); unfold requireOpen, terminalError; rewrite Ht.
  - done.
  - by destruct e.
Qed.

Lemma check_ctx_spec w :
  exists r w', check_ctx w = (r, w') /\ io_frame w w' /\ same_conn w w' /\
    (r = Ok tt \/ exists e, r = Err e).
Proof.
  unfold check_ctx, mbind_, ctx_Err. destruct (ctx_errs w) as [|[e|] es]; cbn;
    (eexists _, _; split; [reflexivity|]); split_and!; try done; eauto.
Qed.

Lemma lock_spec w :
  (exists w', opLock_lock w = (Ok tt, w') /\ same_conn w w' /\ locked w' = true /\
     reads w' = reads w /\ writes w' = writes w /\ sent w' = sent w /\ nRead w' = nRead w /\
     nWritten w' = nWritten w /\ armed w' = armed w) \/
  (exists e w', opLock_lock w = (Err e, w') /\ same_conn w w' /\ io_frame w w').
Proof.
  unfold opLock_lock. destruct (lock_errs w) as [|[e|] es]; [left|right|left].
  - eexists. split; [reflexivity|]. by split_and!.
  - eexists _, _. split; [reflexivity|]. by split_and!.
  - eexists. split; [reflexivity|]. by split_and!.
Qed.

Lemma arm_spec w :
  (exists w', arm w = (Ok tt, w') /\ same_conn w w' /\ armed w' = true /\
     reads w' = reads w /\ writes w' = writes w /\ sent w' = sent w /\ nRead w' = nRead w /\
     nWritten w' = nWritten w /\ locked w' = locked w) \/
  (exists e w', arm w = (Err e, w') /\ same_conn w w' /\ io_frame w w').
Proof.
  destruct (check_ctx_spec w) as (r & w' & Hc & Hio & Hs & Hr). unfold arm, mbind_. rewrite Hc.
  destruct Hr as [->|[e ->]]; [left|right].
  - eexists. split; [reflexivity|]. destruct Hio as (?&?&?&?&?&?&?). by split_and!.
  - eexists _, _. split; [reflexivity|]. by split_and!.
Qed.
