(* ===== verification/Metered.v ===== *)
(** * The metered stream: meteredConn of deadline.go

    go-tpkt reads and writes the stream through a [meteredConn], which counts
    the octets of each direction in a 64-bit atomic counter.  The operations of
    the two directions, and the several calls one packet takes, interleave: a
    run is a list of calls with the answers of the underlying [net.Conn].
    [World] has one unbounded count per direction instead, moved by a whole
    packet at once; here is why that is the same. *)

From S2P Require Import Prelude Errors RefAlloc World Conn.

(** An [int64] addition wraps. *)
Definition i64 (x : Z) : Z := (x + 2 ^ 63) mod 2 ^ 64 - 2 ^ 63.
Definition is_i64 (x : Z) : Prop := - 2 ^ 63 <= x < 2 ^ 63.

Record meteredConn := mkMetered {
  m_nRead : Z;
  m_nWritten : Z
}.

Definition newMeteredConn : meteredConn := mkMetered 0 0.

(** What [m.Conn.Read] or [m.Conn.Write] answers: the octets moved, which a bad
    [net.Conn] may give as a negative number, and the error. *)
Definition io_answer : Type := Z * option error.

Definition metered_Read (m : meteredConn) (a : io_answer) : io_answer * meteredConn :=
  let '(n, err) := a in
  let m := if 0 <? n then mkMetered (i64 (m_nRead m + n)) (m_nWritten m) else m in
  ((n, err), m).

Definition metered_Write (m : meteredConn) (a : io_answer) : io_answer * meteredConn :=
  let '(n, err) := a in
  let m := if 0 <? n then mkMetered (m_nRead m) (i64 (m_nWritten m + n)) else m in
  ((n, err), m).

(** [readProgress] and [writeProgress] of a [Conn] whose stream may be metered:
    the count, and whether there is one. *)
Definition Conn_readProgress (m : option meteredConn) : Z * bool :=
  match m with None => (0, false) | Some m => (m_nRead m, true) end.
Definition Conn_writeProgress (m : option meteredConn) : Z * bool :=
  match m with None => (0, false) | Some m => (m_nWritten m, true) end.

(** ** Runs *)

Inductive io_call :=
  | call_Read (a : io_answer)
  | call_Write (a : io_answer).

Definition io_step (m : meteredConn) (c : io_call) : meteredConn :=
  match c with call_Read a => snd (metered_Read m a) | call_Write a => snd (metered_Write m a) end.

Definition io_run (m : meteredConn) (cs : list io_call) : meteredConn := fold_left io_step cs m.

(** The octets that moved. *)
Definition read_octets (c : io_call) : Z :=
  match c with call_Read (n, _) => Z.max 0 n | call_Write _ => 0 end.
Definition written_octets (c : io_call) : Z :=
  match c with call_Write (n, _) => Z.max 0 n | call_Read _ => 0 end.
Definition total (f : io_call -> Z) (cs : list io_call) : Z := fold_right (fun c n => f c + n) 0 cs.

(** ** Facts *)

Lemma i64_range x : is_i64 (i64 x).
Proof. unfold is_i64, i64. pose proof (Z.mod_pos_bound (x + 2 ^ 63) (2 ^ 64)). lia. Qed.

Lemma i64_id x : is_i64 x -> i64 x = x.
Proof. unfold is_i64, i64. intros H. rewrite Z.mod_small; lia. Qed.

Lemma i64_add x y : i64 (i64 x + y) = i64 (x + y).
Proof.
  unfold i64. f_equal.
  replace ((x + 2 ^ 63) mod 2 ^ 64 - 2 ^ 63 + y + 2 ^ 63) with ((x + 2 ^ 63) mod 2 ^ 64 + y) by lia.
  rewrite Zplus_mod_idemp_l. f_equal. lia.
Qed.

(** Two counts less than 2^64 apart are told apart. *)
Lemma i64_inj x y : 0 <= y - x < 2 ^ 64 -> i64 y = i64 x -> y = x.
Proof.
  unfold i64. intros H E. assert ((y + 2 ^ 63) mod 2 ^ 64 = (x + 2 ^ 63) mod 2 ^ 64) as E' by lia.
  pose proof (Z.div_mod (y + 2 ^ 63) (2 ^ 64)). pose proof (Z.div_mod (x + 2 ^ 63) (2 ^ 64)). lia.
Qed.

Lemma total_nonneg f cs : (forall c, 0 <= f c) -> 0 <= total f cs.
Proof. intros Hf. induction cs as [|c cs IH]; cbn; [done|]. specialize (Hf c). unfold total in IH. lia. Qed.

Lemma total_app f cs ds : total f (cs ++ ds) = total f cs + total f ds.
Proof. unfold total. induction cs as [|c cs IH]; cbn [app fold_right]; [done|]. rewrite IH. lia. Qed.

Lemma total_zero f cs : (forall c, 0 <= f c) -> (total f cs = 0 <-> Forall (fun c => f c = 0) cs).
Proof.
  intros Hf. induction cs as [|c cs IH]; [done|]. change (total f (c :: cs)) with (f c + total f cs).
  rewrite Forall_cons, <- IH. pose proof (Hf c). pose proof (total_nonneg f cs Hf). lia.
Qed.

Lemma read_octets_nonneg c : 0 <= read_octets c.
Proof. destruct c as [[n e]|[n e]]; cbn; lia. Qed.
Lemma written_octets_nonneg c : 0 <= written_octets c.
Proof. destruct c as [[n e]|[n e]]; cbn; lia. Qed.
#[export] Hint Resolve read_octets_nonneg written_octets_nonneg total_nonneg : cotp.

Lemma io_step_counts m c :
  is_i64 (m_nRead m) -> is_i64 (m_nWritten m) ->
  m_nRead (io_step m c) = i64 (m_nRead m + read_octets c) /\
  m_nWritten (io_step m c) = i64 (m_nWritten m + written_octets c).
Proof.
  intros Hr Hw. destruct c as [[n e]|[n e]]; cbn; destruct (0 <? n) eqn:E; cbn; breflect;
    rewrite ?Z.max_r, ?Z.max_l, ?Z.add_0_r, ?(i64_id (m_nRead m)), ?(i64_id (m_nWritten m)) by (done || lia); done.
Qed.

(** The counters are the totals, modulo 2^64. *)
Lemma io_run_counts cs : forall m, is_i64 (m_nRead m) -> is_i64 (m_nWritten m) ->
  m_nRead (io_run m cs) = i64 (m_nRead m + total read_octets cs) /\
  m_nWritten (io_run m cs) = i64 (m_nWritten m + total written_octets cs).
Proof.
  induction cs as [|c cs IH]; intros m Hr Hw; [cbn; rewrite !Z.add_0_r, !i64_id by done; done|].
  destruct (io_step_counts m c Hr Hw) as [Er Ew].
  destruct (IH (io_step m c)) as [IHr IHw]; [rewrite Er; apply i64_range|rewrite Ew; apply i64_range|].
  change (io_run m (c :: cs)) with (io_run (io_step m c) cs). rewrite IHr, IHw, Er, Ew, !i64_add.
  unfold total. cbn [fold_right]. by rewrite !Z.add_assoc.
Qed.

(** ** The counts of [World] *)

Definition counted (m : meteredConn) (w : world) : Prop :=
  m_nRead m = i64 (nRead w) /\ m_nWritten m = i64 (nWritten w).

Lemma conn_ends_counts c o w : nRead (conn_ends c o w) = nRead w /\ nWritten (conn_ends c o w) = nWritten w.
Proof. destruct (conn_ends_frame c o w) as (_ & _ & _ & ? & ? & _). by split. Qed.

Lemma io_run_counted m cs w w' :
  counted m w -> nRead w' = nRead w + total read_octets cs -> nWritten w' = nWritten w + total written_octets cs ->
  counted (io_run m cs) w'.
Proof.
  intros [Hr Hw] Er Ew. destruct (io_run_counts cs m) as [Hr' Hw']; [rewrite Hr; apply i64_range|rewrite Hw; apply i64_range|].
  unfold counted. by rewrite Hr', Hw', Hr, Hw, !i64_add, Er, Ew.
Qed.

(** ** Properties *)

(** The progress test is exact.  Between two looks at the counter of a
    direction, whatever calls of both directions were made, the count is the
    same exactly if no octet of that direction moved, even when the 64-bit
    counter wraps, as long as fewer than 2^64 octets moved between the looks;
    calls of the other direction do not matter. *)
Theorem progress_is_exact m cs :
  is_i64 (m_nRead m) -> is_i64 (m_nWritten m) ->
  total read_octets cs < 2 ^ 64 -> total written_octets cs < 2 ^ 64 ->
  (Conn_readProgress (Some (io_run m cs)) = Conn_readProgress (Some m) <-> Forall (fun c => read_octets c = 0) cs) /\
  (Conn_writeProgress (Some (io_run m cs)) = Conn_writeProgress (Some m) <->
     Forall (fun c => written_octets c = 0) cs).
Proof.
  intros Hr Hw Hlr Hlw. destruct (io_run_counts cs m Hr Hw) as [Er Ew].
  assert (forall x t, is_i64 x -> 0 <= t < 2 ^ 64 -> ((i64 (x + t), true) = (x, true) <-> t = 0)) as Hex.
  { intros x t Hx Ht. split; [|intros ->; by rewrite Z.add_0_r, i64_id].
    intros [= E]. rewrite <- (i64_id x Hx) in E at 2. apply i64_inj in E; lia. }
  cbn [Conn_readProgress Conn_writeProgress]. rewrite Er, Ew, <- !total_zero by auto with cotp.
  split; apply Hex; auto with cotp.
Qed.

Lemma progress_is_exact_witness :
  let m := mkMetered (2 ^ 63 - 1) 5 in
  let cs := [call_Read (4, None); call_Write (0, None); call_Read (0, Some (Foreign io_EOF None))] in
  (Conn_readProgress (Some (io_run m cs)) = Conn_readProgress (Some m) <-> Forall (fun c => read_octets c = 0) cs) /\
  (Conn_writeProgress (Some (io_run m cs)) = Conn_writeProgress (Some m) <->
     Forall (fun c => written_octets c = 0) cs).
Proof.
  intros m cs. apply (progress_is_exact m cs); unfold is_i64; vm_compute; (reflexivity || (split; congruence)).
Defined.

(** C40: the counts of [World] stand for the counters.  One [ReadPacket] of
    [stream_read], or one [WritePacket] of [stream_write], is any number of
    calls of the metered stream that move together what the answer says; the
    counters then stay the unbounded counts modulo 2^64, and the test the
    operations make on the counters gives what it gives on the counts. *)
Theorem metered_refines_world c m cs w :
  counted m w -> total read_octets cs < 2 ^ 64 ->
  (forall a rs, reads w = a :: rs -> total read_octets cs = moved a -> total written_octets cs = 0 ->
    let w' := snd (stream_read (conn_ends c) w) in
    counted (io_run m cs) w' /\
    (fst (Conn_readProgress (Some (io_run m cs))) =? fst (Conn_readProgress (Some m))) = (nRead w' =? nRead w)) /\
  (forall a ws p, writes w = a :: ws -> total written_octets cs = moved a -> total read_octets cs = 0 ->
    total written_octets cs < 2 ^ 64 ->
    let w' := snd (stream_write (conn_ends c) p w) in
    counted (io_run m cs) w' /\
    (fst (Conn_writeProgress (Some (io_run m cs))) =? fst (Conn_writeProgress (Some m))) = (nWritten w' =? nWritten w)).
Proof.
  intros Hm Hlt.
  assert (forall x t, 0 <= t < 2 ^ 64 -> (i64 (x + t) =? i64 x) = (x + t =? x)) as Htest.
  { intros x t Ht. apply eq_true_iff_eq. rewrite !Z.eqb_eq. split; [intros E; apply i64_inj in E; lia|by intros ->]. }
  split.
  - intros a rs Hr Hmv Hz w'.
    assert (nRead w' = nRead w + moved a /\ nWritten w' = nWritten w) as [Er Ew].
    { unfold w', stream_read. rewrite Hr. cbv zeta.
      set (w1 := mkWorld _ _ _ _ _ _ _ _ _ _ _ _ _ _ _ _). destruct (conn_ends_counts c (meanwhile a) w1).
      by destruct (result a); cbn [snd]. }
    assert (counted (io_run m cs) w') as Hc by (eapply io_run_counted; [done|lia|lia]).
    split; [done|]. cbn [Conn_readProgress fst]. rewrite (proj1 Hc), (proj1 Hm), Er. apply Htest. rewrite <- Hmv.
    split; [|done]. apply total_nonneg, read_octets_nonneg.
  - intros a ws p Hwr Hmv Hz Hlt' w'.
    assert (nWritten w' = nWritten w + moved a /\ nRead w' = nRead w) as [Ew Er].
    { unfold w', stream_write. rewrite Hwr. cbv zeta.
      set (w1 := mkWorld _ _ _ _ _ _ _ _ _ _ _ _ _ _ _ _). destruct (conn_ends_counts c (meanwhile a) w1).
      by destruct (result a); cbn [snd add_sent nRead nWritten]. }
    assert (counted (io_run m cs) w') as Hc by (eapply io_run_counted; [done|lia|lia]).
    split; [done|]. cbn [Conn_writeProgress fst]. rewrite (proj2 Hc), (proj2 Hm), Ew. apply Htest. rewrite <- Hmv.
    split; [|done]. apply total_nonneg, written_octets_nonneg.
Qed.

(** A packet read in two calls, the count beyond 2^64, and one written in two. *)
Lemma metered_refines_world_witness :
  let c := mkConn (mkNegotiated 0 128 1 2 None None None) 0 0 1 in
  let m := mkMetered 5 9 in
  let w := mkWorld [mkAnswer 7 None (inl [2; 240; 128])] [mkAnswer 3 None (inl tt)] [] [] [] false None None []
    (2 ^ 64 + 5) 9 0 false false (mkAllocator 2 {[1]}) open_term in
  let cs := [call_Read (4, None); call_Read (3, None)] in
  let cs' := [call_Write (1, None); call_Write (2, None)] in
  (let w' := snd (stream_read (conn_ends c) w) in
    counted (io_run m cs) w' /\
    (fst (Conn_readProgress (Some (io_run m cs))) =? fst (Conn_readProgress (Some m))) = (nRead w' =? nRead w)) /\
  (let w' := snd (stream_write (conn_ends c) [2; 240; 128] w) in
    counted (io_run m cs') w' /\
    (fst (Conn_writeProgress (Some (io_run m cs'))) =? fst (Conn_writeProgress (Some m))) = (nWritten w' =? nWritten w)).
Proof.
  intros c m w cs cs'. split.
  - destruct (metered_refines_world c m cs w) as [H _]; [split; reflexivity|reflexivity|]. by eapply H.
  - destruct (metered_refines_world c m cs' w) as [_ H]; [split; reflexivity|reflexivity|]. by eapply H.
Defined.
