(* ===== verification/Tsdu.v ===== *)
(** * Data transfer: tsdu.go

    [WriteTSDU] cuts a TSDU into DT segments, [ReadTSDU] puts one together.  The
    I/O errors are classified by [classifyIOPhase]. *)

From S2P Require Import Prelude Errors Types Wire PreferredMax Params Decode Encode Codec.
From S2P Require Import RoundTrip CodecSpec SizeNego Validate RefAlloc World Conn.

Definition minimalDTOverhead := 3.
Definition minNegotiatedTPDULength := minimalDTOverhead + 1.

Definition maxSegmentPayload (maxTPDU : Z) : Z :=
  if maxTPDU <? minNegotiatedTPDULength then 0 else maxTPDU - minimalDTOverhead.

Definition peerGone (e : error) : bool :=
  errors_Is e io_ErrUnexpectedEOF || errors_Is e syscall_ECONNRESET ||
  errors_Is e syscall_ECONNABORTED || errors_Is e syscall_EPIPE ||
  errors_Is e net_ErrClosed || errors_Is e io_ErrClosedPipe.

(** isFramingError of connect.go. *)
Definition isFramingError (e : error) : bool :=
  errors_Is e tpkt_ErrInvalidVersion || errors_Is e tpkt_ErrInvalidPacketLength ||
  errors_Is e tpkt_ErrPacketTooLarge || errors_Is e tpkt_ErrPayloadTooShort ||
  errors_Is e tpkt_ErrPayloadTooLarge || errors_Is e tpkt_ErrLengthMismatch ||
  errors_Is e tpkt_ErrTooShort.

(** [context.DeadlineExceeded] implements [net.Error]. *)
Definition DeadlineExceeded : error := Foreign context_DeadlineExceeded (Some true).

Definition get_terminal : M (terminalKind * option error) := fun w =>
  (Ok (termKind (term w), terminalError w), w).

Definition idleTimeout (err : error) : M (option error) :=
  do! t := get_terminal in
  if negb (bool_decide (fst t = terminalNone)) || negb (isTimeout err) then ret None
  else ctxDoneErr.

Definition classifyIOPhase (c : Conn) (err : error) (midTSDU : bool) : M (option error) :=
  do! t := get_terminal in
  if negb (bool_decide (fst t = terminalNone)) then ret (snd t) else
  do! e := ctx_Err in
  match e with
  | Some _ =>
      (* the second [ctx.Err()] of the same expression *)
      do! e' := ctx_Err in
      abort c (Some (Errorf "%w: %w" (Sentinel ErrClosed :: match e' with Some e' => [e'] | None => [] end)))
  | None =>
      do! ok := ctx_has_deadline in
      if ok && isTimeout err
      then abort c (Some (Errorf "%w: %w" [Sentinel ErrClosed; DeadlineExceeded]))
      else if errors_Is err io_EOF then
        if midTSDU
        then abort c (Some (Join [Sentinel ErrIncompleteTSDU; DisconnectError (Some (Foreign io_EOF None))]))
        else abort c (Some (DisconnectError (Some (Foreign io_EOF None))))
      else if peerGone err then
        if midTSDU || errors_Is err io_ErrUnexpectedEOF
        then abort c (Some (Join [Sentinel ErrIncompleteTSDU; DisconnectError (Some err)]))
        else abort c (Some (DisconnectError (Some err)))
      else if isFramingError err
      then abortOpen c midTSDU (Some (Errorf "%w: %w" [Sentinel ErrHandshake; err]))
      else if midTSDU
      then abort c (Some (Join [Sentinel ErrIncompleteTSDU; DisconnectError (Some err)]))
      else abort c (Some err)
  end.

Definition classifyIO (c : Conn) (err : error) : M (option error) := classifyIOPhase c err false.

(** ** WriteTSDU *)

(** [(&DT{EOT: eot, UserData: chunk}).MarshalBinary()] *)
Definition segment_octets (eot : bool) (chunk : bytes) : outcome bytes :=
  DT_MarshalBinary (Some (mkDT eot None None [] (Some chunk))).

(** What follows a failed [WritePacket]. *)
Definition write_failed (c : Conn) (start : Z) (err : error) : M unit :=
  do! n := writeProgress in
  do! cerr := (if n =? start then idleTimeout err else ret None) in
  match cerr with
  | Some e => fail e
  | None => as_error (classifyIO c err)
  end.

(** One round: [offset] is how much has been written. *)
Definition write_body (c : Conn) (tsdu : bytes) (maxSeg start offset : Z) : M (Z + unit) :=
  if offset <? len tsdu then
    let end_ := Z.min (offset + maxSeg) (len tsdu) in
    do! chunk := lift (slice tsdu offset end_) in
    let eot := end_ =? len tsdu in
    do! p := attempt (lift (segment_octets eot chunk)) in
    match p with
    | inr err => do! _ := as_error (abort c (Some err)) in ret (inr tt)
    | inl payload =>
        do! r := attempt (stream_write (conn_ends c) payload) in
        match r with
        | inr err => do! _ := write_failed c start err in ret (inr tt)
        | inl _ => ret (inl end_)
        end
    end
  else ret (inr tt).

(** A round writes at least one octet, so [len tsdu + 1] rounds are enough. *)
Definition WriteTSDU (c : option Conn) (tsdu : bytes) : M unit :=
  match c with
  | None => fail (Errorf "%w" [Sentinel ErrNilReceiver])
  | Some c =>
      do! _ := opLock_lock in
      defer opLock_unlock (
        do! _ := requireOpen in
        do! _ := check_ctx in
        do! _ := lift (validateWriteTSDULength (len tsdu) (maxTSDU c)) in
        let maxSeg := maxSegmentPayload (MaxTPDULength (negotiated c)) in
        if maxSeg <? 1
        then fail (Errorf "negotiated MaxTPDULength %d < %d: %w" [Sentinel ErrInvalidConfig]) else
        do! _ := arm in
        defer disarm (
          do! start := writeProgress in
          mloop (S (length tsdu)) (write_body c tsdu maxSeg start) 0))
  end.

(** ** ReadTSDU *)

(** What follows a failed [ReadPacket]. *)
Definition read_failed (c : Conn) (start : Z) (mid : bool) (err : error) : M bytes :=
  do! n := readProgress in
  do! cerr := (if n =? start then idleTimeout err else ret None) in
  match cerr with
  | Some e => fail e
  | None => do! e := classifyIOPhase c err mid in return_err [] e
  end.

(** [return nil, c.abortOpen(mid, err)] *)
Definition read_stop (c : Conn) (mid : bool) (err : error) : M bytes :=
  do! e := abortOpen c mid (Some err) in return_err [] e.

(** [out := make([]byte, total)] and the copies of the segments into it. *)
Fixpoint copy_segments (out : bytes) (off : nat) (segments : list bytes) : bytes :=
  match segments with
  | [] => out
  | s :: segments =>
      let out := take off out ++ take (length out - off) s ++ drop (off + length s) out in
      copy_segments out (off + length s) segments
  end.

Definition assemble (total : Z) (segments : list bytes) : bytes :=
  copy_segments (replicate (Z.to_nat total) 0) 0 segments.

(** One round: the segments read so far and their total length. *)
Definition read_body (c : Conn) (maxTSDU start : Z) (st : list bytes * Z) :
    M (list bytes * Z + bytes) :=
  let '(segments, total) := st in
  let mid := 0 <? len segments in
  do! r := attempt (stream_read (conn_ends c)) in
  match r with
  | inr err => do! out := read_failed c start mid err in ret (inr out)
  | inl payload =>
      do! d := attempt (lift (decodeOpenDT payload (MaxTPDULength (negotiated c)))) in
      match d with
      | inr err => do! out := read_stop c mid err in ret (inr out)
      | inl dt =>
          let seg := DT_UserData dt in
          if slen seg =? 0 then
            do! out := read_stop c mid (Errorf "empty DT segment: %w" [Sentinel ErrHandshake]) in
            ret (inr out)
          else if maxTSDU <? total + slen seg then
            do! out := read_stop c mid (Errorf "reassembly length %d > %d: %w" [Sentinel ErrTSDUTooLarge]) in
            ret (inr out)
          else if maxTSDU <? len segments + 1 then
            do! out := read_stop c mid (Errorf "segment count %d > %d: %w" [Sentinel ErrTSDUTooLarge]) in
            ret (inr out)
          else
            let segments := segments ++ [content (copyBytes seg)] in
            let total := total + slen seg in
            if DT_EOT dt then ret (inr (assemble total segments))
            else ret (inl (segments, total))
      end
  end.

(** A round adds at least one octet of at most [maxTSDU]. *)
Definition ReadTSDU (c : option Conn) : M bytes :=
  match c with
  | None => fail (Errorf "%w" [Sentinel ErrNilReceiver])
  | Some c =>
      do! _ := opLock_lock in
      defer opLock_unlock (
        do! _ := requireOpen in
        do! _ := check_ctx in
        if MaxTPDULength (negotiated c) <? minNegotiatedTPDULength
        then fail (Errorf "negotiated MaxTPDULength %d < %d: %w" [Sentinel ErrInvalidConfig]) else
        let maxTSDU := effective_max_tsdu (maxTSDU c) in
        do! _ := arm in
        defer disarm (
          do! start := readProgress in
          mloop (S (Z.to_nat maxTSDU)) (read_body c maxTSDU start) ([], 0)))
  end.

(** ** The life of the connection under data transfer *)

Lemma get_terminal_keeps : keeps same_conn get_terminal.
Proof. by intros w. Qed.
Lemma readProgress_keeps : keeps same_conn readProgress.
Proof. by intros w. Qed.
Lemma writeProgress_keeps : keeps same_conn writeProgress.
Proof. by intros w. Qed.
Lemma has_deadline_keeps : keeps same_conn ctx_has_deadline.
Proof. by intros w. Qed.
#[export] Hint Resolve get_terminal_keeps readProgress_keeps writeProgress_keeps has_deadline_keeps : cotp.

Lemma idleTimeout_keeps err : keeps same_conn (idleTimeout err).
Proof. unfold idleTimeout. keeps_walk. Qed.
#[export] Hint Resolve idleTimeout_keeps : cotp.

Lemma classifyIOPhase_keeps c err mid : keeps (conn_step c) (classifyIOPhase c err mid).
Proof. unfold classifyIOPhase. keeps_walk. Qed.
#[export] Hint Resolve classifyIOPhase_keeps : cotp.

Lemma write_body_keeps c tsdu m st off : keeps (conn_step c) (write_body c tsdu m st off).
Proof. unfold write_body, write_failed, as_error, classifyIO. keeps_walk. Qed.

Lemma read_body_keeps c m st s : keeps (conn_step c) (read_body c m st s).
Proof. unfold read_body, read_failed, read_stop. keeps_walk. Qed.
#[export] Hint Resolve write_body_keeps read_body_keeps : cotp.

Lemma WriteTSDU_keeps c tsdu : keeps (conn_step c) (WriteTSDU (Some c) tsdu).
Proof. unfold WriteTSDU. keeps_walk. Qed.

Lemma ReadTSDU_keeps c : keeps (conn_step c) (ReadTSDU (Some c)).
Proof. unfold ReadTSDU. keeps_walk. Qed.
