(* ===== verification/TsduSpec.v ===== *)
(** * What data transfer guarantees

    The segmentation of a TSDU is specified without a loop; [WriteTSDU] sends
    exactly that, [ReadTSDU] inverts it, and both fail closed: an error either
    leaves the connection open at a packet boundary or has ended it. *)

From S2P Require Import Prelude Errors Types Wire PreferredMax Params Decode Encode Codec.
From S2P Require Import RoundTrip CodecSpec SizeNego Validate RefAlloc World Conn Tsdu.

(** ** Segmentation *)

(** A sequence of DT packets that carries a TSDU: EOT on the last only, no empty
    segment, none above the negotiated size. *)
Definition dt_packets (max : Z) (tsdu : bytes) (ps : list bytes) : Prop :=
  exists init final, ps = map (open_DT false) init ++ [open_DT true final] /\
    concat init ++ final = tsdu /\
    Forall (fun s => 1 <= len s <= max - 3) init /\ 1 <= len final <= max - 3.

(** The one with full segments. *)
Definition segmentation (max : Z) (tsdu : bytes) (ps : list bytes) : Prop :=
  exists init final, ps = map (open_DT false) init ++ [open_DT true final] /\
    concat init ++ final = tsdu /\
    Forall (fun s => len s = max - 3) init /\ 1 <= len final <= max - 3.

Lemma segmentation_packets max tsdu ps :
  4 <= max -> segmentation max tsdu ps -> dt_packets max tsdu ps.
Proof.
  intros Hm (init & final & -> & Hc & Hi & Hf). exists init, final. split_and!; try done; try lia.
  eapply Forall_impl; [exact Hi|]. cbn. intros s ->. lia.
Qed.

Lemma len_take (l : bytes) n : 0 <= n <= len l -> len (take (Z.to_nat n) l) = n.
Proof. unfold len. intros H. rewrite length_take. lia. Qed.

Lemma len_drop (l : bytes) n : 0 <= n <= len l -> len (drop (Z.to_nat n) l) = len l - n.
Proof. unfold len. intros H. rewrite length_drop. lia. Qed.

(** Full segments in front of a segmentation. *)
Lemma segmentation_prepend max init tsdu ps :
  Forall (fun s => len s = max - 3) init -> segmentation max tsdu ps ->
  segmentation max (concat init ++ tsdu) (map (open_DT false) init ++ ps).
Proof.
  intros Hi (init' & final & -> & <- & Hi' & Hf). exists (init ++ init'), final.
  rewrite map_app, concat_app, <- !app_assoc. split_and!; try done; try lia. by apply Forall_app.
Qed.

Lemma segmentation_exists max tsdu :
  4 <= max -> tsdu <> [] -> exists ps, segmentation max tsdu ps.
Proof.
  intros Hm. remember (length tsdu) as n eqn:Hn. revert tsdu Hn.
  induction n as [n IH] using lt_wf_ind. intros tsdu -> Hne.
  assert (1 <= len tsdu) as H1 by (destruct tsdu; [done|rewrite len_cons; len_pose; lia]).
  destruct (decide (len tsdu <= max - 3)) as [Hle|Hgt].
  { exists [open_DT true tsdu], [], tsdu. split_and!; try done; lia. }
  destruct (IH (length (drop (Z.to_nat (max - 3)) tsdu))) with (tsdu := drop (Z.to_nat (max - 3)) tsdu)
    as [ps Hps]; [unfold len in *; rewrite length_drop; lia|done| |].
  { intros E. apply (f_equal len) in E. rewrite len_drop in E by lia. rewrite len_nil in E. lia. }
  exists (map (open_DT false) [take (Z.to_nat (max - 3)) tsdu] ++ ps).
  rewrite <- (take_drop (Z.to_nat (max - 3)) tsdu) at 1.
  replace (take (Z.to_nat (max - 3)) tsdu) with (concat [take (Z.to_nat (max - 3)) tsdu]) at 1
    by (cbn; by rewrite app_nil_r).
  apply segmentation_prepend; [|done]. repeat constructor. apply len_take. lia.
Qed.

Lemma segment_octets_Ok eot chunk : segment_octets eot chunk = Ok (open_DT eot chunk).
Proof. unfold segment_octets. destruct eot; reflexivity. Qed.

Lemma open_DT_len eot data : len (open_DT eot data) = 3 + len data.
Proof. unfold open_DT. cbn [app]. rewrite !len_cons. lia. Qed.

(** ** The stream's promises

    go-tpkt answers octets, and a packet that it read or wrote moved at least
    one octet of the stream. *)

Definition read_answer_ok (a : answer bytes) : Prop :=
  0 <= moved a /\ match result a with inl p => 0 < moved a /\ bytes_ok p | inr _ => True end.

Definition write_answer_ok (a : answer unit) : Prop :=
  0 <= moved a /\ match result a with inl _ => 0 < moved a | inr _ => True end.

Definition stream_ok (w : world) : Prop :=
  Forall read_answer_ok (reads w) /\ Forall write_answer_ok (writes w).

#[export] Instance read_answer_ok_dec a : Decision (read_answer_ok a).
Proof. unfold read_answer_ok. destruct (result a); apply _. Defined.
#[export] Instance write_answer_ok_dec a : Decision (write_answer_ok a).
Proof. unfold write_answer_ok. destruct (result a); apply _. Defined.
#[export] Instance stream_ok_dec w : Decision (stream_ok w).
Proof. unfold stream_ok. apply _. Defined.

Lemma io_frame_stream w w' : io_frame w w' -> stream_ok w -> stream_ok w'.
Proof. unfold io_frame, stream_ok. intros (-> & -> & _). done. Qed.

Lemma stream_write_spec c p w :
  stream_ok w ->
  exists r w', stream_write (conn_ends c) p w = (r, w') /\ conn_step c w w' /\ stream_ok w' /\
    reads w' = reads w /\ nRead w' = nRead w /\ armed w' = armed w /\ locked w' = locked w /\
    ((r = Ok tt /\ sent w' = sent w ++ [p] /\ nWritten w < nWritten w') \/
     (exists e, r = Err e /\ sent w' = sent w /\ nWritten w <= nWritten w')).
Proof.
  intros [Hr Hw]. pose proof (stream_write_keeps c p w) as Hs. revert Hs. unfold stream_write.
  set (aw := match writes w with [] => _ | _ => _ end).
  assert (write_answer_ok (fst aw) /\ Forall write_answer_ok (snd aw)) as [Ha Hws].
  { subst aw. destruct (writes w) as [|a ws]; cbn; [split; [split; cbn; len_pose; lia|done]|by apply Forall_cons in Hw]. }
  destruct aw as [a ws]. cbn [fst snd] in *. destruct Ha as [Ha0 Ha].
  match goal with |- context [conn_ends c (meanwhile a) ?w0] => set (w1 := w0) end.
  destruct (conn_ends_io c (meanwhile a) w1) as (E1 & E2 & E3 & E4 & E5 & E6 & E7).
  destruct (result a) as [[]|e]; cbn [snd]; intros Hs; eexists _, _; (split; [reflexivity|]).
  - split; [exact Hs|]. unfold stream_ok. cbn [add_sent reads writes sent nRead nWritten armed locked].
    rewrite E1, E2, E3, E4, E5, E6, E7. subst w1. cbn.
    split_and!; try done. left. split_and!; try done. lia.
  - split; [exact Hs|]. unfold stream_ok. rewrite E1, E2, E3, E4, E5, E6, E7. subst w1. cbn.
    split_and!; try done. right. exists e. split_and!; try done. lia.
Qed.

Lemma stream_read_spec c w :
  stream_ok w ->
  exists r w', stream_read (conn_ends c) w = (r, w') /\ conn_step c w w' /\ stream_ok w' /\
    writes w' = writes w /\ nWritten w' = nWritten w /\ sent w' = sent w /\ armed w' = armed w /\
    locked w' = locked w /\
    ((exists p a, r = Ok p /\ reads w = a :: reads w' /\ result a = inl p /\ bytes_ok p /\ nRead w < nRead w') \/
     (exists e, r = Err e /\ nRead w <= nRead w' /\
        (reads w = [] \/ exists a, reads w = a :: reads w' /\ result a = inr e))).
Proof.
  intros [Hr Hw]. pose proof (stream_read_keeps c w) as Hs. revert Hs. unfold stream_read.
  destruct (reads w) as [|a rs] eqn:Hreads.
  { intros Hs. eexists _, _. split; [reflexivity|]. unfold stream_ok. rewrite Hreads. split_and!; try done.
    right. eexists. split_and!; [done|lia|by left]. }
  apply Forall_cons in Hr as [[Ha0 Ha] Hrs].
  match goal with |- context [conn_ends c (meanwhile a) ?w0] => set (w1 := w0) end.
  destruct (conn_ends_io c (meanwhile a) w1) as (E1 & E2 & E3 & E4 & E5 & E6 & E7).
  destruct (result a) as [p|e] eqn:Hres; cbn [snd]; intros Hs; eexists _, _; (split; [reflexivity|]);
    (split; [exact Hs|]); unfold stream_ok; rewrite E1, E2, E3, E4, E5, E6, E7; subst w1; cbn;
    split_and!; try done.
  - left. exists p, a. destruct Ha. split_and!; try done. lia.
  - right. exists e. split_and!; [done|lia|]. right. by exists a.
Qed.

(** ** Errors *)

(** How an operation fails: either the connection has ended, and the error is
    the stored cause, or it is as it was. *)
Definition ended_by (w : world) (e : error) : Prop := exists en, term w = ended_term en /\ e = cause_of en.

(** [m] ends the connection and returns the cause. *)
Definition ends (m : M (option error)) : Prop :=
  forall w, term_ok (term w) -> exists e w', m w = (Ok (Some e), w') /\ ended_by w' e.

Lemma abort_ends c err : ends (abort c err).
Proof.
  intros w Ht. destruct (abort_spec c err w Ht) as (w' & en & -> & ? & _). eexists _, _.
  split; [reflexivity|]. by exists en.
Qed.

Lemma ends_bind {A} (m : M A) k :
  keeps same_conn m -> (forall w, exists a, fst (m w) = Ok a) -> (forall a, ends (k a)) ->
  ends (mbind_ m k).
Proof.
  intros Hm Hr Hk w Ht. unfold mbind_. specialize (Hm w) as (Hterm & _). destruct (Hr w) as [a Ha].
  destruct (m w) as [r w']. cbn [fst snd] in *. subst r. apply Hk. by rewrite Hterm.
Qed.

Lemma ctx_Err_total w : exists a, fst (ctx_Err w) = Ok a.
Proof. unfold ctx_Err. destruct (ctx_errs w); eauto. Qed.

Lemma has_deadline_total w : exists a, fst (ctx_has_deadline w) = Ok a.
Proof. by eexists. Qed.

Lemma classify_spec c err mid w :
  term_ok (term w) ->
  exists e w', classifyIOPhase c err mid w = (Ok (Some e), w') /\ conn_step c w w' /\ io_frame w w' /\
    ended_by w' e.
Proof.
  intros Ht. pose proof (classifyIOPhase_keeps c err mid w) as Hs.
  assert (keeps io_frame (classifyIOPhase c err mid)) as Hio
    by (unfold classifyIOPhase; keeps_walk).
  specialize (Hio w).
  enough (exists e w', classifyIOPhase c err mid w = (Ok (Some e), w') /\ ended_by w' e) as (e & w' & Heq & He).
  { exists e, w'. rewrite Heq in *. by split_and!. }
  clear Hs Hio. unfold classifyIOPhase. unfold mbind_ at 1. unfold get_terminal at 1. cbn [fst snd].
  destruct Ht as [Ht|[en Ht]].
  - rewrite Ht. change (termKind open_term) with terminalNone.
    rewrite bool_decide_eq_true_2 by done. cbn [negb].
    match goal with |- exists _ _, ?m w = _ /\ _ => assert (ends m) as Hends end;
      [|apply Hends; rewrite Ht; by left].
    apply ends_bind; [apply ctx_Err_keeps|apply ctx_Err_total|]. intros [e|].
    + apply ends_bind; [apply ctx_Err_keeps|apply ctx_Err_total|]. intros a. apply abort_ends.
    + apply ends_bind; [apply has_deadline_keeps|apply has_deadline_total|]. intros ok.
      unfold abortOpen. repeat split_goal; apply abort_ends.
  - exists (cause_of en), w.
    rewrite (terminalError_ended w en Ht), Ht. rewrite bool_decide_eq_false_2 by (by destruct en).
    cbn. split; [done|]. by exists en.
Qed.

Lemma idleTimeout_spec err w :
  exists o w', idleTimeout err w = (Ok o, w') /\ same_conn w w' /\ io_frame w w' /\
    (o = None \/ (termKind (term w) = terminalNone /\ isTimeout err = true)).
Proof.
  assert (keeps io_frame (idleTimeout err)) as Hio by (unfold idleTimeout; keeps_walk).
  pose proof (idleTimeout_keeps err w) as Hs. specialize (Hio w).
  enough (exists o w', idleTimeout err w = (Ok o, w') /\
    (o = None \/ (termKind (term w) = terminalNone /\ isTimeout err = true))) as (o & w' & Heq & Ho).
  { exists o, w'. rewrite Heq in *. by split_and!. }
  unfold idleTimeout, get_terminal, mbind_. cbn [fst].
  destruct (negb (bool_decide (termKind (term w) = terminalNone)) || negb (isTimeout err)) eqn:E.
  { eexists _, _. split; [reflexivity|]. by left. }
  breflect. apply bool_decide_eq_true in H.
  unfold ctxDoneErr, ctx_Err, ctx_has_deadline, deadline_has_passed, mbind_.
  destruct (ctx_errs w) as [|[e|] es]; cbn.
  - destruct (has_deadline w), (past_deadline w); cbn; eexists _, _; (split; [reflexivity|]); by right.
  - eexists _, _. split; [reflexivity|]. by right.
  - destruct (has_deadline w), (past_deadline w); cbn; eexists _, _; (split; [reflexivity|]); by right.
Qed.

(** After a failed stream call: the context's error, the connection being open
    and no octet having moved, or the connection ends. *)
Lemma failed_spec c (start n : Z) err mid w :
  term_ok (term w) ->
  let m := if n =? start then idleTimeout err else ret None in
  (exists e w', m w = (Ok (Some e), w') /\ same_conn w w' /\ io_frame w w' /\ n = start /\
     term w = open_term) \/
  (exists w1 e w', m w = (Ok None, w1) /\ classifyIOPhase c err mid w1 = (Ok (Some e), w') /\
     conn_step c w w' /\ io_frame w w' /\ ended_by w' e).
Proof.
  intros Ht m.
  assert (exists o w1, m w = (Ok o, w1) /\ same_conn w w1 /\ io_frame w w1 /\
    (o = None \/ (n = start /\ term w = open_term))) as (o & w1 & Hm & Hs & Hio & Ho).
  { subst m. destruct (Z.eqb_spec n start); [|exists None, w; split_and!; try done; by left].
    destruct (idleTimeout_spec err w) as (o & w1 & Heq & Hs & Hio & Ho). exists o, w1.
    split_and!; try done. destruct Ho as [->|[Hk _]]; [by left|right]. split; [done|].
    destruct Ht as [Ht|[en Ht]]; [done|]. rewrite Ht in Hk. by destruct en. }
  destruct o as [e|].
  - left. exists e, w1. destruct Ho as [|[??]]; [done|]. by split_and!.
  - right. destruct (classify_spec c err mid w1) as (e & w' & Hc & Hs' & Hio' & He);
      [by destruct Hs as [-> _]|].
    exists w1, e, w'. split_and!; try done; [|by etrans].
    etrans; [by apply same_conn_step|done].
Qed.

(** ** WriteTSDU *)

Section Write.
Context (c : Conn) (tsdu : bytes) (w0 : world).
Let max := MaxTPDULength (negotiated c).
Let maxSeg := maxSegmentPayload max.
Let start := nWritten w0.

(** What the operation keeps, whatever happens. *)
Definition write_run (w : world) : Prop :=
  conn_step c w0 w /\ stream_ok w /\ reads w = reads w0 /\ nRead w = nRead w0 /\
  armed w = armed w0 /\ locked w = locked w0.

(** The packets sent so far begin a segmentation. *)
Definition sent_part (w : world) (ps : list bytes) : Prop :=
  sent w = sent w0 ++ ps /\ exists qs, segmentation max tsdu (ps ++ qs).

Definition write_post (r : outcome unit) (w : world) : Prop :=
  match r with
  | Ok _ => write_run w /\ exists ps, sent w = sent w0 ++ ps /\ segmentation max tsdu ps
  | Err e =>
      write_run w /\ (exists ps, sent_part w ps) /\
      (ended_by w e \/ (term w = term w0 /\ sent w = sent w0 /\ nWritten w = nWritten w0))
  | Panic | NoFuel => False
  end.

(** Before a round: full segments up to [offset], or all of the TSDU sent. *)
Definition write_inv (offset : Z) (w : world) : Prop :=
  write_run w /\ start <= nWritten w /\
  ((offset = len tsdu /\ exists ps, sent w = sent w0 ++ ps /\ segmentation max tsdu ps) \/
   (0 <= offset < len tsdu /\ exists init, Forall (fun s => len s = max - 3) init /\
      concat init = take (Z.to_nat offset) tsdu /\ sent w = sent w0 ++ map (open_DT false) init /\
      (init = [] \/ start < nWritten w))).

Lemma write_failed_spec err w ps :
  term w0 = open_term -> write_run w -> sent_part w ps -> (ps = [] \/ start < nWritten w) ->
  exists e w', write_failed c start err w = (Err e, w') /\ write_post (Err e) w'.
Proof.
  intros Ht0 (Hs & Hst & Hrd & Hn & Ha & Hl) [Hsent Hqs] Hne.
  assert (term_ok (term w)) as Ht by (eapply conn_step_ok; [exact Hs|by left]).
  assert (forall w', conn_step c w w' -> io_frame w w' -> write_run w' /\ sent_part w' ps /\ nWritten w' = nWritten w)
    as Hrun.
  { intros w' Hs' Hio. pose proof (io_frame_stream _ _ Hio Hst). destruct Hio as (E1 & E2 & E3 & E4 & E5 & E6 & E7).
    unfold write_run, sent_part. rewrite E1, E3, E4, E5, E6, E7. split_and!; try done. by etrans. }
  unfold write_failed, mbind_ at 1. unfold writeProgress.
  destruct (failed_spec c start (nWritten w) err false w Ht) as
    [(e & w' & Hm & Hsame & Hio & Heq & Hopen)|(w1 & e & w' & Hm & Hc & Hs' & Hio & He)].
  - exists e, w'. unfold mbind_. rewrite Hm. split; [done|].
    destruct (Hrun w' (same_conn_step c _ _ Hsame) Hio) as (? & [Hs' ?] & Hw'). cbn.
    split_and!; [done|by exists ps|]. right. destruct Hne as [->|Hlt]; [|lia].
    destruct Hsame as (-> & _). rewrite app_nil_r in Hs'. split_and!; [congruence|done|lia].
  - exists e, w'. unfold mbind_ at 1. rewrite Hm. unfold as_error, classifyIO, mbind_. rewrite Hc.
    split; [done|]. destruct (Hrun w' Hs' Hio) as (? & ? & _). split_and!; [done|by exists ps|by left].
Qed.

Lemma chunk_take offset :
  0 <= offset < len tsdu -> 4 <= max ->
  let end_ := Z.min (offset + maxSeg) (len tsdu) in
  exists chunk, slice tsdu offset end_ = Ok chunk /\ 1 <= len chunk <= max - 3 /\
    take (Z.to_nat offset) tsdu ++ chunk = take (Z.to_nat end_) tsdu /\ offset < end_ <= len tsdu /\
    (end_ <> len tsdu -> len chunk = max - 3).
Proof.
  intros Ho Hm end_.
  assert (maxSeg = max - 3) as Hseg
    by (unfold maxSeg, maxSegmentPayload, minNegotiatedTPDULength, minimalDTOverhead; by if_false).
  destruct (slice_is_Ok tsdu offset end_) as [chunk Hc]; [lia|lia|]. exists chunk. split; [done|].
  pose proof (slice_length _ _ _ _ Hc) as Hlen. apply slice_Ok_inv in Hc as (_ & _ & ->).
  split_and!; try lia. rewrite take_take_drop. f_equal. lia.
Qed.

Lemma write_body_spec offset w :
  term w0 = open_term -> 4 <= max -> write_inv offset w ->
  wp (write_body c tsdu maxSeg start offset)
    (fun r w' => match r with
                 | Ok (inl offset') => write_inv offset' w' /\ 0 <= len tsdu - offset' < len tsdu - offset
                 | Ok (inr a) => write_post (Ok a) w'
                 | Err e => write_post (Err e) w'
                 | Panic | NoFuel => False
                 end) w.
Proof.
  intros Ht0 Hm (Hrun & Hn & Hcase). unfold write_body.
  destruct Hcase as [[-> (ps & Hsent & Hseg)]|(Ho & init & Hi & Hcat & Hsent & Hne)].
  { rewrite Z.ltb_irrefl. apply wp_ret. split; [done|]. by exists ps. }
  if_true. destruct (chunk_take offset Ho Hm) as (chunk & Hchunk & Hlen & Htake & Hend & Hfull).
  set (end_ := Z.min (offset + maxSeg) (len tsdu)) in *.
  apply wp_bind, wp_lift. rewrite Hchunk. apply wp_bind, wp_attempt, wp_lift.
  rewrite segment_octets_Ok. apply wp_bind, wp_attempt.
  destruct Hrun as (Hs & Hst & Hrd & Hnr & Ha & Hl).
  destruct (stream_write_spec c (open_DT (end_ =? len tsdu) chunk) w Hst) as
    (r & w' & Heq & Hs' & Hst' & E1 & E2 & E3 & E4 & Hr).
  assert (write_run w') as Hrun' by (unfold write_run; rewrite E1, E2, E3, E4; split_and!; try done; by etrans).
  unfold wp at 1. rewrite Heq. cbn [fst snd].
  destruct Hr as [(-> & Hsent' & Hlt)|(e & -> & Hsent' & Hle)].
  - apply wp_ret. split; [|lia]. split; [done|]. split; [lia|].
    destruct (Z.eqb_spec end_ (len tsdu)) as [He|He].
    + left. split; [done|]. exists (map (open_DT false) init ++ [open_DT true chunk]).
      split; [by rewrite Hsent', Hsent, <- app_assoc|]. exists init, chunk. split_and!; try done; try lia.
      rewrite Hcat, Htake, He. apply take_ge. unfold len. lia.
    + right. split; [lia|]. exists (init ++ [chunk]). split_and!.
      * apply Forall_app. split; [done|]. repeat constructor. by apply Hfull.
      * rewrite concat_app. cbn. by rewrite app_nil_r, Hcat.
      * by rewrite Hsent', Hsent, map_app, <- app_assoc.
      * right. lia.
  - apply wp_bind.
    assert (sent_part w' (map (open_DT false) init)) as Hpart.
    { split; [by rewrite Hsent'|]. destruct (segmentation_exists max (drop (Z.to_nat offset) tsdu)) as [qs Hqs]; [done| |].
      - intros E. apply (f_equal len) in E. rewrite len_drop, len_nil in E by lia. lia.
      - exists qs. rewrite <- (take_drop (Z.to_nat offset) tsdu), <- Hcat. by apply segmentation_prepend. }
    destruct (write_failed_spec e w' _ Ht0 Hrun' Hpart) as (e' & w'' & Hf & Hpost).
    { destruct Hne as [->|?]; [by left|right; lia]. }
    unfold wp. by rewrite Hf.
Qed.
End Write.

(** ** The prologue both operations share *)

(** Nothing happened to the connection or the stream. *)
Definition untouched (w w' : world) : Prop :=
  term w' = term w /\ closes w' = closes w /\ refs w' = refs w /\
  reads w' = reads w /\ writes w' = writes w /\ sent w' = sent w /\ nRead w' = nRead w /\
  nWritten w' = nWritten w.

#[export] Instance untouched_preorder : PreOrder untouched.
Proof.
  split; [by intros w|]. unfold untouched.
  intros ??? (-> & -> & -> & -> & -> & -> & -> & ->) (-> & -> & -> & -> & -> & -> & -> & ->). done.
Qed.

Lemma same_io_untouched w w' : same_conn w w' -> io_frame w w' -> untouched w w'.
Proof. intros (?&?&?) (?&?&?&?&?&?&?). by split_and!. Qed.

(** [m] behind the lock, [requireOpen] and the context check. *)
Lemma wp_prologue {A} (m : M A) (Q : outcome A -> world -> Prop) w :
  term_ok (term w) -> locked w = false -> armed w = false ->
  (forall e w', untouched w w' -> locked w' = false -> armed w' = false ->
     (exists en, term w = ended_term en /\ e = cause_of en) \/ term w' = term w -> Q (Err e) w') ->
  (term w = open_term -> forall w', untouched w w' -> armed w' = false -> locked w' = true ->
     wp m (fun r w'' => Q r (opLock_unlock w'')) w') ->
  wp (do! _ := opLock_lock in
      defer opLock_unlock (do! _ := requireOpen in do! _ := check_ctx in m)) Q w.
Proof.
  intros Ht Hl Ha Hfail Hm. apply wp_bind. unfold wp at 1.
  destruct (lock_spec w) as [(w1 & -> & Hs & Hl1 & E1 & E2 & E3 & E4 & E5 & E6)|(e & w1 & -> & Hs & Hio)];
    cbn [fst snd].
  - assert (untouched w w1) as Hu by (destruct Hs as (?&?&?); by split_and!).
    apply wp_defer, wp_bind. destruct Hs as (Ht1 & _).
    destruct (requireOpen_spec w1) as [[Hopen Heq]|(en & Hen & Heq)]; [by rewrite Ht1| |];
      unfold wp at 1; rewrite Heq; cbn [fst snd].
    + apply wp_bind. unfold wp at 1.
      destruct (check_ctx_spec w1) as (r & w2 & -> & Hio & Hs2 & Hr). cbn [fst snd].
      assert (untouched w w2) as Hu2 by (etrans; [exact Hu|by apply same_io_untouched]).
      destruct Hio as (_ & _ & _ & _ & _ & Ha2 & Hl2).
      destruct Hr as [->|[e ->]]; [apply Hm; congruence|].
      apply Hfail; [by destruct Hu2 as (?&?&?&?&?&?&?&?); split_and!|done|cbn; congruence|].
      right. destruct Hu2 as (? & _). cbn. done.
    + apply Hfail; [by destruct Hu as (?&?&?&?&?&?&?&?); split_and!|done|cbn; congruence|].
      left. exists en. split; [congruence|done].
  - apply Hfail; [by apply same_io_untouched| | |right; by destruct Hs];
      destruct Hio as (_&_&_&_&_&Ea&El); congruence.
Qed.

(** [m] between [arm] and its deferred disarm. *)
Lemma wp_armed {A} (m : M A) (Q : outcome A -> world -> Prop) w :
  (forall e w', untouched w w' -> armed w' = armed w -> locked w' = locked w -> Q (Err e) w') ->
  (forall w', untouched w w' -> locked w' = locked w -> wp m (fun r w'' => Q r (disarm w'')) w') ->
  wp (do! _ := arm in defer disarm m) Q w.
Proof.
  intros Hfail Hm. apply wp_bind. unfold wp at 1.
  destruct (arm_spec w) as [(w1 & -> & Hs & Hl1 & E1 & E2 & E3 & E4 & E5 & E6)|(e & w1 & -> & Hs & Hio)];
    cbn [fst snd].
  - apply wp_defer, Hm; [|done]. destruct Hs as (?&?&?); by split_and!.
  - apply Hfail; [by apply same_io_untouched|..]; by destruct Hio as (_&_&_&_&_&?&?).
Qed.

(** ** WriteTSDU *)

(** How [WriteTSDU] ends, from a world to a world. *)
Definition write_result (c : Conn) (tsdu : bytes) (w : world) (r : outcome unit) (w' : world) : Prop :=
  let max := MaxTPDULength (negotiated c) in
  match r with
  | Ok _ =>
      term w = open_term /\ 1 <= len tsdu <= effective_max_tsdu (maxTSDU c) /\
      exists ps, sent w' = sent w ++ ps /\ segmentation max tsdu ps
  | Err e =>
      (exists ps, sent w' = sent w ++ ps /\ (ps = [] \/ exists qs, segmentation max tsdu (ps ++ qs))) /\
      (ended_by w' e \/ (term w' = term w /\ sent w' = sent w /\ nWritten w' = nWritten w))
  | Panic | NoFuel => False
  end.

Lemma write_untouched c tsdu w e w' :
  untouched w w' -> (exists en, term w = ended_term en /\ e = cause_of en) \/ term w' = term w ->
  write_result c tsdu w (Err e) w'.
Proof.
  intros (Ht & _ & _ & _ & _ & Hs & _ & Hn) Hcase. split.
  - exists []. rewrite app_nil_r. split; [done|by left].
  - destruct Hcase as [(en & Hen & ->)|_]; [left; exists en; split; [congruence|done]|right; by split_and!].
Qed.

Lemma validateWrite_Ok n m :
  validateWriteTSDULength n m = Ok tt -> 0 <= n -> 1 <= n <= effective_max_tsdu m.
Proof.
  unfold validateWriteTSDULength. destruct (n =? 0) eqn:?; [done|].
  destruct (effective_max_tsdu m <? n) eqn:?; [done|]. intros _ ?. breflect. lia.
Qed.

Lemma validateWrite_returns n m :
  validateWriteTSDULength n m = Ok tt \/ exists e, validateWriteTSDULength n m = Err e.
Proof. unfold validateWriteTSDULength. repeat split_goal; eauto. Qed.

Lemma WriteTSDU_spec c tsdu w :
  term_ok (term w) -> stream_ok w -> locked w = false -> armed w = false ->
  wp (WriteTSDU (Some c) tsdu)
    (fun r w' => write_result c tsdu w r w' /\ stream_ok w' /\ locked w' = false /\ armed w' = false) w.
Proof.
  intros Ht Hst Hl Ha. unfold WriteTSDU.
  assert (forall w' , untouched w w' -> stream_ok w') as Hst'.
  { intros w' (_ & _ & _ & Er & Ew & _). unfold stream_ok. by rewrite Er, Ew. }
  apply wp_prologue; [done|done|done| |].
  { intros e w' Hu Hl' Ha' Hcase. split_and!; auto. by apply write_untouched. }
  intros Hopen w1 Hu1 Ha1 Hl1. apply wp_bind, wp_lift.
  destruct (validateWrite_returns (len tsdu) (maxTSDU c)) as [Hv|[e Hv]]; rewrite Hv.
  2: { split_and!; [|by apply Hst'|done|done]. apply write_untouched; [|by right; destruct Hu1].
       by destruct Hu1 as (?&?&?&?&?&?&?&?); split_and!. }
  pose proof (validateWrite_Ok _ _ Hv (len_nonneg tsdu)) as Hlen.
  destruct (maxSegmentPayload (MaxTPDULength (negotiated c)) <? 1) eqn:Hseg.
  { apply wp_fail. split_and!; [|by apply Hst'|done|done]. apply write_untouched; [|by right; destruct Hu1].
    by destruct Hu1 as (?&?&?&?&?&?&?&?); split_and!. }
  assert (4 <= MaxTPDULength (negotiated c)) as Hmax.
  { revert Hseg. unfold maxSegmentPayload, minNegotiatedTPDULength, minimalDTOverhead.
    destruct (_ <? 3 + 1) eqn:?; [done|]. intros. blia. }
  apply wp_armed.
  { intros e w2 Hu2 Ha2 Hl2. split_and!; [|apply Hst'; by etrans|done|cbn; congruence].
    assert (untouched w w2) as Hu by by etrans.
    apply write_untouched; [|right; by destruct Hu]. by destruct Hu as (?&?&?&?&?&?&?&?); split_and!. }
  intros w2 Hu2 Hl2. assert (untouched w w2) as (Et & Ec & Er & Erd & Ewr & Es & En & Enw) by by etrans.
  assert (term w2 = open_term) as Hopen2 by congruence.
  apply wp_bind. unfold writeProgress, wp at 1. cbn [fst snd].
  eapply wp_mono.
  - eapply (wp_mloop (write_inv c tsdu w2) (fun off => len tsdu - off)
      (write_body c tsdu (maxSegmentPayload (MaxTPDULength (negotiated c))) (nWritten w2)) (write_post c tsdu w2)).
    + intros off w3 Hinv. eapply wp_mono; [by apply write_body_spec|].
      intros [[?|?]|?| |] ?; done.
    + split; [|split; [lia|right]].
      { unfold write_run. split; [reflexivity|]. split; [apply Hst'; by etrans|done]. }
      split; [lia|]. exists []. split_and!; try done. by rewrite app_nil_r. by left.
    + lia.
    + unfold len. lia.
  - intros [[]|e| |] w3 Hpost; cbn in Hpost; try done.
    + destruct Hpost as [(Hs & Hst3 & _ & _ & Ha3 & Hl3) (ps & Hsent & Hsg)]. split_and!; try done.
      split_and!; try done; try lia. exists ps. split; [|done]. cbn. congruence.
    + destruct Hpost as ((Hs & Hst3 & _ & _ & Ha3 & Hl3) & (ps & Hsent & qs & Hqs) & Hcase).
      split_and!; try done. split.
      * exists ps. split; [cbn; congruence|]. right. by exists qs.
      * destruct Hcase as [?|(?&?&?)]; [by left|right]. cbn. split_and!; congruence.
Qed.

(** ** Reassembly *)

Lemma copy_segments_concat segs : forall pre n,
  n = length (concat segs) ->
  copy_segments (pre ++ replicate n 0) (length pre) segs = pre ++ concat segs.
Proof.
  induction segs as [|s segs IH]; intros pre n ->; cbn [copy_segments concat]; [done|].
  rewrite length_app.
  assert (take (length pre) (pre ++ replicate (length s + length (concat segs)) 0)
    ++ take (length (pre ++ replicate (length s + length (concat segs)) 0) - length pre) s
    ++ drop (length pre + length s) (pre ++ replicate (length s + length (concat segs)) 0)
    = (pre ++ s) ++ replicate (length (concat segs)) 0) as ->.
  { rewrite take_app_length, <- app_assoc. f_equal. f_equal.
    - rewrite length_app, length_replicate. apply take_ge. lia.
    - rewrite drop_app_ge by lia. rewrite drop_replicate. f_equal. lia. }
  rewrite <- length_app, IH by done. by rewrite <- app_assoc.
Qed.

Lemma assemble_concat segs : assemble (len (concat segs)) segs = concat segs.
Proof. unfold assemble, len. rewrite Nat2Z.id. by apply (copy_segments_concat segs []). Qed.

Lemma len_concat_snoc (segs : list bytes) s : len (concat (segs ++ [s])) = len (concat segs) + len s.
Proof. rewrite concat_app, len_app. cbn. by rewrite app_nil_r. Qed.

(** The packets that answers hold. *)
Definition answered (ans : list (answer bytes)) (ps : list bytes) : Prop :=
  Forall2 (fun a p => result a = inl p) ans ps.

Section Read.
Context (c : Conn) (w0 : world).
Let max := MaxTPDULength (negotiated c).
Let limit := effective_max_tsdu (maxTSDU c).
Let start := nRead w0.

Definition read_run (w : world) : Prop :=
  conn_step c w0 w /\ stream_ok w /\ writes w = writes w0 /\ nWritten w = nWritten w0 /\
  sent w = sent w0 /\ armed w = armed w0 /\ locked w = locked w0.

Definition read_post (r : outcome bytes) (w : world) : Prop :=
  match r with
  | Ok out =>
      read_run w /\ len out <= limit /\
      exists ans ps, reads w0 = ans ++ reads w /\ answered ans ps /\ dt_packets max out ps
  | Err e => read_run w /\ (ended_by w e \/ (term w = term w0 /\ nRead w = nRead w0))
  | Panic | NoFuel => False
  end.

Definition read_inv (st : list bytes * Z) (w : world) : Prop :=
  let '(segments, total) := st in
  read_run w /\ start <= nRead w /\ total = len (concat segments) /\ 0 <= total <= limit /\
  Forall (fun s => 1 <= len s <= max - 3) segments /\
  (segments = [] \/ start < nRead w) /\
  exists ans, reads w0 = ans ++ reads w /\ answered ans (map (open_DT false) segments).

Lemma read_failed_spec err mid w :
  term w0 = open_term -> read_run w -> (mid = false \/ start < nRead w) -> start <= nRead w ->
  exists e w', read_failed c start mid err w = (Err e, w') /\
    (nRead w = start -> mid = false) /\ read_post (Err e) w'.
Proof.
  intros Ht0 (Hs & Hst & Hwr & Hn & Hsent & Ha & Hl) Hmid Hle.
  assert (term_ok (term w)) as Ht by (eapply conn_step_ok; [exact Hs|by left]).
  assert (forall w', conn_step c w w' -> io_frame w w' -> read_run w' /\ nRead w' = nRead w) as Hrun.
  { intros w' Hs' Hio. pose proof (io_frame_stream _ _ Hio Hst). destruct Hio as (E1 & E2 & E3 & E4 & E5 & E6 & E7).
    unfold read_run. rewrite E2, E3, E4, E5, E6, E7. split_and!; try done. by etrans. }
  assert (nRead w = start -> mid = false) as Hidle by (intros; destruct Hmid; [done|lia]).
  unfold read_failed, mbind_ at 1. unfold readProgress.
  destruct (failed_spec c start (nRead w) err mid w Ht) as
    [(e & w' & Hm & Hsame & Hio & Heq & Hopen)|(w1 & e & w' & Hm & Hc & Hs' & Hio & He)].
  - exists e, w'. unfold mbind_. rewrite Hm. split; [done|]. split; [done|].
    destruct (Hrun w' (same_conn_step c _ _ Hsame) Hio) as (? & Hn'). split; [done|]. right.
    destruct Hsame as (-> & _). split; [congruence|]. rewrite Hn'. exact Heq.
  - exists e, w'. unfold mbind_ at 1. rewrite Hm. unfold mbind_. rewrite Hc.
    split; [done|]. split; [done|]. destruct (Hrun w' Hs' Hio) as (? & _). split; [done|by left].
Qed.

Lemma read_stop_spec err mid w :
  term w0 = open_term -> read_run w ->
  exists e w', read_stop c mid err w = (Err e, w') /\ read_post (Err e) w'.
Proof.
  intros Ht0 (Hs & Hst & Hwr & Hn & Hsent & Ha & Hl).
  assert (term_ok (term w)) as Ht by (eapply conn_step_ok; [exact Hs|by left]).
  destruct (abortOpen_spec c mid err w Ht) as (w' & en & Heq & Hen & Hs' & Hw' & _).
  exists (cause_of en), w'. unfold read_stop, mbind_. rewrite Heq. split; [done|].
  pose proof (finish_io c terminalAborted (Some (open_cause mid err)) w) as Hio. rewrite <- Hw' in Hio.
  pose proof (io_frame_stream _ _ Hio Hst). destruct Hio as (E1 & E2 & E3 & E4 & E5 & E6 & E7).
  split; [|left; by exists en]. unfold read_run. rewrite E2, E3, E5, E6, E7. split_and!; try done. by etrans.
Qed.

Lemma read_body_spec st w :
  term w0 = open_term -> read_inv st w ->
  wp (read_body c limit start st)
    (fun r w' => match r with
                 | Ok (inl st') => read_inv st' w' /\ 0 <= limit - snd st' < limit - snd st
                 | Ok (inr out) => read_post (Ok out) w'
                 | Err e => read_post (Err e) w'
                 | Panic | NoFuel => False
                 end) w.
Proof.
  intros Ht0. destruct st as [segments total]. intros (Hrun & Hle & Htot & Hlim & Hseg & Hmoved & ans & Hans & Hps).
  unfold read_body. cbn [snd]. set (mid := 0 <? len segments).
  assert (mid = false \/ start < nRead w) as Hmid.
  { destruct Hmoved as [->|?]; [by left|by right]. }
  destruct Hrun as (Hs & Hst & Hwr & Hn & Hsent & Ha & Hl).
  apply wp_bind, wp_attempt.
  destruct (stream_read_spec c w Hst) as (r & w' & Heq & Hs' & Hst' & E1 & E2 & E3 & E4 & E5 & Hr).
  assert (read_run w') as Hrun' by (unfold read_run; rewrite E1, E2, E3, E4, E5; split_and!; try done; by etrans).
  unfold wp at 1. rewrite Heq. cbn [fst snd].
  assert (forall err, wp (do! out := read_stop c mid err in ret (inr out))
    (fun r w' => match r with
                 | Ok (inl st') => read_inv st' w' /\ 0 <= limit - snd st' < limit - total
                 | Ok (inr out) => read_post (Ok out) w'
                 | Err e => read_post (Err e) w'
                 | Panic | NoFuel => False
                 end) w') as Hstop.
  { intros err. apply wp_bind. destruct (read_stop_spec err mid w' Ht0 Hrun') as (e & w'' & Hf & Hpost).
    unfold wp. rewrite Hf. exact Hpost. }
  destruct Hr as [(p & a & -> & Hreads & Hres & Hp & Hlt)|(e & -> & Hle' & _)].
  2: { apply wp_bind. destruct (read_failed_spec e mid w' Ht0 Hrun') as (e' & w'' & Hf & _ & Hpost);
         [destruct Hmid; [by left|right; lia]|lia|]. unfold wp. rewrite Hf. exact Hpost. }
  apply wp_bind, wp_attempt, wp_lift.
  pose proof (decodeOpenDT_returns p (MaxTPDULength (negotiated c)) Hp) as Hret.
  destruct (decodeOpenDT p (MaxTPDULength (negotiated c))) as [dt|err| |] eqn:Hdt; try done; try apply Hstop.
  apply decodeOpenDT_Ok in Hdt as (eot & data & -> & Hlen & ->); [|done].
  cbn [DT_UserData DT_EOT]. change (slen (Some data)) with (len data). change (content (copyBytes (Some data))) with data.
  destruct (Z.eqb_spec (len data) 0) as [|Hne]; [apply Hstop|].
  destruct (limit <? total + len data) eqn:Hbound; [apply Hstop|].
  destruct (limit <? len segments + 1); [apply Hstop|]. breflect.
  assert (reads w0 = (ans ++ [a]) ++ reads w') as Hans' by (by rewrite Hans, Hreads, <- app_assoc).
  assert (answered (ans ++ [a]) (map (open_DT false) segments ++ [open_DT eot data])) as Hps'
    by (apply Forall2_app; [done|by repeat constructor]).
  assert (total + len data = len (concat (segments ++ [data]))) as Htot' by (rewrite len_concat_snoc; lia).
  assert (1 <= len data <= max - 3) as Hd by (len_pose; unfold max; lia).
  destruct eot; apply wp_ret.
  - split; [done|]. rewrite Htot', assemble_concat. split; [lia|].
    exists (ans ++ [a]), (map (open_DT false) segments ++ [open_DT true data]). split_and!; try done.
    exists segments, data. split_and!; try done; try lia. rewrite concat_app. cbn. by rewrite app_nil_r.
  - cbn [snd]. split; [|lia]. unfold read_inv. split_and!; try done; try lia.
    + apply Forall_app. split; [done|]. by apply Forall_singleton.
    + exists (ans ++ [a]). split; [done|]. by rewrite map_app.
Qed.
End Read.

(** How [ReadTSDU] ends. *)
Definition read_result (c : Conn) (w : world) (r : outcome bytes) (w' : world) : Prop :=
  match r with
  | Ok out =>
      term w = open_term /\ 1 <= len out <= effective_max_tsdu (maxTSDU c) /\
      exists ans ps, reads w = ans ++ reads w' /\ answered ans ps /\
        dt_packets (MaxTPDULength (negotiated c)) out ps
  | Err e => ended_by w' e \/ (term w' = term w /\ nRead w' = nRead w)
  | Panic | NoFuel => False
  end.

Lemma read_untouched c w e w' :
  untouched w w' -> (exists en, term w = ended_term en /\ e = cause_of en) \/ term w' = term w ->
  read_result c w (Err e) w'.
Proof.
  intros (Ht & _ & _ & _ & _ & _ & Hn & _) [(en & Hen & ->)|_].
  - left. exists en. split; [congruence|done].
  - by right.
Qed.

Lemma dt_packets_nonempty max out ps : dt_packets max out ps -> 1 <= len out.
Proof. intros (init & final & _ & <- & _ & Hf). rewrite len_app. len_pose. lia. Qed.

Lemma effective_max_pos n : 0 <= n -> 0 <= effective_max_tsdu n.
Proof. unfold effective_max_tsdu, DefaultMaxTSDULength. destruct (n =? 0); lia. Qed.

Lemma ReadTSDU_spec c w :
  0 <= maxTSDU c -> term_ok (term w) -> stream_ok w -> locked w = false -> armed w = false ->
  wp (ReadTSDU (Some c))
    (fun r w' => read_result c w r w' /\ stream_ok w' /\ sent w' = sent w /\ locked w' = false /\ armed w' = false) w.
Proof.
  intros Hmt Ht Hst Hl Ha. unfold ReadTSDU.
  assert (forall w' , untouched w w' -> stream_ok w' /\ sent w' = sent w) as Hst'.
  { intros w' (_ & _ & _ & Er & Ew & Es & _). unfold stream_ok. by rewrite Er, Ew. }
  apply wp_prologue; [done|done|done| |].
  { intros e w' Hu Hl' Ha' Hcase. destruct (Hst' w' Hu). split_and!; try done. by apply read_untouched. }
  intros Hopen w1 Hu1 Ha1 Hl1.
  destruct (MaxTPDULength (negotiated c) <? minNegotiatedTPDULength) eqn:Hmax.
  { apply wp_fail. destruct (Hst' w1 Hu1). split_and!; try done. apply read_untouched; [|by right; destruct Hu1].
    by destruct Hu1 as (?&?&?&?&?&?&?&?); split_and!. }
  pose proof (effective_max_pos (maxTSDU c) Hmt) as Hlim.
  apply wp_armed.
  { intros e w2 Hu2 Ha2 Hl2. assert (untouched w w2) as Hu by by etrans. destruct (Hst' w2 Hu).
    split_and!; try done; [|cbn; congruence].
    apply read_untouched; [|right; by destruct Hu]. by destruct Hu as (?&?&?&?&?&?&?&?); split_and!. }
  intros w2 Hu2 Hl2. assert (untouched w w2) as Hu by by etrans.
  destruct (Hst' w2 Hu) as [Hst2 Hs2]. destruct Hu as (Et & Ec & Er & Erd & Ewr & Es & En & Enw).
  assert (term w2 = open_term) as Hopen2 by congruence.
  apply wp_bind. unfold readProgress, wp at 1. cbn [fst snd].
  eapply wp_mono.
  - eapply (wp_mloop (read_inv c w2) (fun st => effective_max_tsdu (maxTSDU c) - snd st)
      (read_body c (effective_max_tsdu (maxTSDU c)) (nRead w2)) (read_post c w2)).
    + intros st w3 Hinv. eapply wp_mono; [by apply read_body_spec|].
      intros [[?|?]|?| |] ?; done.
    + unfold read_inv. split; [unfold read_run; split; [reflexivity|by split_and!]|].
      split; [lia|]. split; [done|]. split; [cbn; lia|]. split; [constructor|]. split; [by left|].
      exists []. split; [done|constructor].
    + cbn [snd]. lia.
    + cbn [snd]. lia.
  - intros [out|e| |] w3 Hpost; cbn in Hpost; try done.
    + destruct Hpost as [(Hs & Hst3 & _ & _ & Hsent & Ha3 & Hl3) (Hle & ans & ps & Hans & Hps & Hdt)].
      split_and!; try done; [|cbn; congruence]. split; [done|]. split; [split; [by eapply dt_packets_nonempty|done]|].
      exists ans, ps. split_and!; try done. cbn. congruence.
    + destruct Hpost as ((Hs & Hst3 & _ & _ & Hsent & Ha3 & Hl3) & Hcase).
      split_and!; try done; [|cbn; congruence].
      destruct Hcase as [?|(?&?)]; [by left|right]. cbn. split; congruence.
Qed.

(** ** Reading what was sent *)

(** Answers that hold packets, without interference. *)
Definition delivered (ans : list (answer bytes)) (ps : list bytes) : Prop :=
  Forall2 (fun a p => result a = inl p /\ meanwhile a = None) ans ps.

(** A world where nothing but the stream answers. *)
Definition quiet (w : world) : Prop :=
  term w = open_term /\ lock_errs w = [] /\ ctx_errs w = [].

(** What a read does to a quiet world. *)
Definition kept (w w' : world) : Prop :=
  same_conn w w' /\ ctx_errs w' = ctx_errs w /\ lock_errs w' = lock_errs w /\
  has_deadline w' = has_deadline w /\ past_deadline w' = past_deadline w.

#[export] Instance kept_preorder : PreOrder kept.
Proof.
  split; [by intros w|]. intros w1 w2 w3 (? & ? & ? & ? & ?) (? & ? & ? & ? & ?).
  split; [by etrans|]. split_and!; congruence.
Qed.

Lemma stream_read_delivered c a rs p w :
  reads w = a :: rs -> result a = inl p -> meanwhile a = None ->
  exists w', stream_read (conn_ends c) w = (Ok p, w') /\ reads w' = rs /\ kept w w' /\ nRead w' = nRead w + moved a.
Proof.
  intros Hr Hres Hm. unfold stream_read. rewrite Hr, Hm, Hres. cbn [conn_ends].
  eexists. split; [reflexivity|]. by split_and!.
Qed.

(** One accepted segment. *)
Lemma read_body_accepts c limit start segments total eot data a rs w :
  reads w = a :: rs -> result a = inl (open_DT eot data) -> meanwhile a = None -> bytes_ok data ->
  1 <= len data <= MaxTPDULength (negotiated c) - 3 ->
  total = len (concat segments) -> len segments <= total -> total + len data <= limit ->
  exists w', reads w' = rs /\ kept w w' /\ nRead w' = nRead w + moved a /\
    read_body c limit start (segments, total) w =
      (Ok (if eot then inr (concat (segments ++ [data]))
           else inl (segments ++ [data], total + len data)), w').
Proof.
  intros Hr Hres Hm Hok Hlen Htot Hcount Hlim.
  destruct (stream_read_delivered c a rs _ w Hr Hres Hm) as (w' & Heq & Hrs & Hsame & Hn).
  exists w'. split; [done|]. split; [done|]. split; [done|]. unfold read_body, mbind_, attempt, lift. rewrite Heq.
  assert (decodeOpenDT (open_DT eot data) (MaxTPDULength (negotiated c)) =
    Ok (mkDT eot (Some 0) None [] (Some data))) as ->.
  { apply decodeOpenDT_Ok; [apply bytes_ok_app; split; [destruct eot; decide_now|done]|].
    exists eot, data. split_and!; [done|lia|done]. }
  cbn [DT_UserData DT_EOT]. change (slen (Some data)) with (len data).
  change (content (copyBytes (Some data))) with data. do 3 if_false.
  destruct eot; unfold ret; [|done]. rewrite Htot, <- len_concat_snoc, assemble_concat. done.
Qed.

Lemma read_loop_delivers c limit start final : forall init fuel segments total ans rs w,
  Forall (fun s => 1 <= len s <= MaxTPDULength (negotiated c) - 3) (init ++ [final]) ->
  Forall bytes_ok (init ++ [final]) ->
  reads w = ans ++ rs ->
  delivered ans (map (open_DT false) init ++ [open_DT true final]) ->
  total = len (concat segments) -> len segments <= total ->
  total + len (concat (init ++ [final])) <= limit -> (length init < fuel)%nat ->
  exists w', mloop fuel (read_body c limit start) (segments, total) w =
      (Ok (concat (segments ++ init ++ [final])), w') /\ reads w' = rs /\ kept w w'.
Proof.
  induction init as [|s init IH]; intros [|fuel] segments total ans rs w Hseg Hok Hr Hd Htot Hc Hlim Hf;
    try (cbn in Hf; lia); cbn [app map mloop] in *.
  - apply Forall2_cons_inv_r in Hd as (a & ans' & [Ha Hm] & Hd & ->). apply Forall2_nil_inv_r in Hd as ->.
    apply Forall_cons in Hseg as [Hseg _]. apply Forall_cons in Hok as [Hok _].
    destruct (read_body_accepts c limit start segments total true final a rs w) as (w' & Hrs & Hs & _ & Heq); try done.
    { cbn in Hlim. rewrite app_nil_r in Hlim. lia. }
    exists w'. unfold mbind_. rewrite Heq. by split_and!.
  - apply Forall2_cons_inv_r in Hd as (a & ans' & [Ha Hm] & Hd & ->).
    apply Forall_cons in Hseg as [Hs Hseg]. apply Forall_cons in Hok as [Hs8 Hok].
    cbn [concat] in Hlim. rewrite len_app in Hlim. len_pose.
    destruct (read_body_accepts c limit start segments total false s a (ans' ++ rs) w) as (w' & Hrs & Hsame & _ & Heq);
      try done; [lia|].
    unfold mbind_. rewrite Heq.
    destruct (IH fuel (segments ++ [s]) (total + len s) ans' rs w') as (w'' & Heq' & Hrs' & Hsame'); try done;
      [by rewrite len_concat_snoc, Htot|rewrite len_app, len_cons, len_nil; lia|lia|cbn in Hf; lia|].
    exists w''. rewrite Heq', <- app_assoc. split; [done|]. split; [done|]. by etrans.
Qed.

Lemma open_DT_bytes eot data : bytes_ok (open_DT eot data) -> bytes_ok data.
Proof. unfold open_DT. by intros [_ ?]%bytes_ok_app. Qed.

Lemma length_concat_le (segs : list bytes) :
  Forall (fun s => 1 <= len s) segs -> Z.of_nat (length segs) <= len (concat segs).
Proof.
  induction 1 as [|s segs Hs Hsegs IH]; [done|]. cbn [length concat]. rewrite len_app. lia.
Qed.

Lemma ReadTSDU_delivers c tsdu ps ans rs w :
  quiet w -> 0 <= maxTSDU c -> bytes_ok tsdu ->
  dt_packets (MaxTPDULength (negotiated c)) tsdu ps -> len tsdu <= effective_max_tsdu (maxTSDU c) ->
  reads w = ans ++ rs -> delivered ans ps ->
  exists w', ReadTSDU (Some c) w = (Ok tsdu, w') /\ reads w' = rs /\ quiet w'.
Proof.
  intros (Ht & Hl & Hc) Hmt Hok (init & final & -> & <- & Hi & Hf) Hlen Hr Hd.
  unfold ReadTSDU, mbind_ at 1. unfold opLock_lock. rewrite Hl. unfold defer at 1.
  unfold mbind_ at 1. unfold requireOpen. cbn [set_locked term]. rewrite Ht.
  change (termKind open_term) with terminalNone. change (state open_term) with stateOpen.
  rewrite !bool_decide_eq_true_2 by done. cbn [negb].
  unfold mbind_ at 1. unfold check_ctx at 1. unfold mbind_ at 1. unfold ctx_Err at 1.
  cbn [set_locked ctx_errs]. rewrite Hc. unfold ret at 1.
  unfold minNegotiatedTPDULength, minimalDTOverhead. len_pose. if_false.
  unfold mbind_ at 1. unfold arm at 1. unfold mbind_ at 1. unfold check_ctx at 1. unfold mbind_ at 1.
  unfold ctx_Err at 1. cbn [set_locked ctx_errs]. rewrite Hc. unfold ret at 1.
  unfold defer at 1. unfold mbind_ at 1. unfold readProgress at 1.
  set (w1 := set_armed (set_locked w true) true).
  assert (concat init ++ final = concat ([] ++ init ++ [final])) as Hcat.
  { cbn [app]. rewrite concat_app. cbn. by rewrite app_nil_r. }
  destruct (read_loop_delivers c (effective_max_tsdu (maxTSDU c)) (nRead w1) final init
    (S (Z.to_nat (effective_max_tsdu (maxTSDU c)))) [] 0 ans rs w1) as (w' & Heq & Hrs & Hsame); try done.
  - apply Forall_app. split; [done|by apply Forall_singleton].
  - rewrite Hcat in Hok. cbn [app] in Hok. clear -Hok. induction (init ++ [final]) as [|s l IH]; [done|].
    cbn [concat] in Hok. apply bytes_ok_app in Hok as [? ?]. apply Forall_cons. auto.
  - cbn [app] in Hcat. rewrite <- Hcat. lia.
  - assert (Z.of_nat (length init) <= len (concat init)) as Hle.
    { apply length_concat_le. eapply Forall_impl; [exact Hi|]. cbn. lia. }
    rewrite len_app in Hlen. lia.
  - rewrite Heq, Hcat. eexists. split; [reflexivity|]. split; [done|].
    destruct Hsame as ((Et & _) & Ec & El & _). unfold quiet. cbn. rewrite Et, Ec, El. by split_and!.
Qed.

(** ** The public operations *)

Inductive op :=
  | OpClose
  | OpWrite (tsdu : bytes)
  | OpRead.

Definition run_op (c : Conn) (o : op) : M unit :=
  match o with
  | OpClose => Close (Some c)
  | OpWrite tsdu => WriteTSDU (Some c) tsdu
  | OpRead => do! _ := ReadTSDU (Some c) in ret tt
  end.

Fixpoint run_ops (c : Conn) (os : list op) (w : world) : world :=
  match os with
  | [] => w
  | o :: os => run_ops c os (snd (run_op c o w))
  end.

Lemma run_op_keeps c o : keeps (conn_step c) (run_op c o).
Proof.
  destruct o; cbn [run_op]; [apply Close_keeps|apply WriteTSDU_keeps|].
  apply keeps_bind; [apply _|apply ReadTSDU_keeps|]. intros. apply keeps_ret. apply _.
Qed.

Lemma run_ops_step c os w : conn_step c w (run_ops c os w).
Proof.
  revert w. induction os as [|o os IH]; intros w; [cbn; reflexivity|]. cbn [run_ops].
  etrans; [apply run_op_keeps|apply IH].
Qed.

Lemma Close_open c w :
  term w = open_term ->
  exists w', Close (Some c) w = (Err (Sentinel ErrClosed), w') /\ term w' = ended_term closed_by_user.
Proof.
  intros Ht. unfold Close, as_error, finish, mbind_.
  destruct (finish_ended c closed_by_user w Ht) as (He & _).
  change (finish_ c (kind_of closed_by_user) (Some (cause_of closed_by_user)) w) with
    (finish_ c terminalClosed (Some (Sentinel ErrClosed)) w) in He.
  rewrite (terminalError_ended _ closed_by_user He). eexists. by split.
Qed.

Lemma Close_ends c w : term_ok (term w) -> exists e, term (snd (Close (Some c) w)) = ended_term e.
Proof.
  intros [Ho|[e He]].
  - destruct (Close_open c w Ho) as (w' & -> & Hw'). by exists closed_by_user.
  - exists e. by apply (conn_step_ended c w _ e (Close_keeps c w) He).
Qed.

Lemma run_ops_app c os1 os2 w : run_ops c (os1 ++ os2) w = run_ops c os2 (run_ops c os1 w).
Proof. revert w. induction os1 as [|o os1 IH]; intros w; [done|]. cbn [app run_ops]. apply IH. Qed.

Lemma run_ops_ok c os w : term_ok (term w) -> term_ok (term (run_ops c os w)).
Proof. apply (conn_step_ok c), run_ops_step. Qed.

(** ** Properties *)

(** A connection and a quiet world for the witnesses. *)
Definition sample_conn (max : Z) : Conn :=
  mkConn (mkNegotiated 0 max 1 2 None None None) 0 0 1.

Definition quiet_world (rs : list (answer bytes)) : world :=
  mkWorld rs [] [] [] [] false None None [] 0 0 0 false false (mkAllocator 2 {[1]}) open_term.

(** C21: [WriteTSDU] always returns.  When it succeeds it has sent exactly the
    segmentation of the TSDU: minimal DT packets of at most the negotiated size,
    EOT on the last alone, the payloads putting together the TSDU, all but the
    last one full.  When it fails it has sent a beginning of that segmentation,
    and nothing else. *)
Theorem WriteTSDU_sends_segmentation c tsdu w :
  term_ok (term w) -> stream_ok w -> locked w = false -> armed w = false ->
  let max := MaxTPDULength (negotiated c) in
  match WriteTSDU (Some c) tsdu w with
  | (Ok _, w') => exists ps, sent w' = sent w ++ ps /\ segmentation max tsdu ps
  | (Err _, w') => exists ps, sent w' = sent w ++ ps /\ (ps = [] \/ exists qs, segmentation max tsdu (ps ++ qs))
  | _ => False
  end.
Proof.
  intros Ht Hst Hl Ha max. pose proof (WriteTSDU_spec c tsdu w Ht Hst Hl Ha) as H. unfold wp in H.
  destruct (WriteTSDU (Some c) tsdu w) as [[[]|e| |] w']; cbn [fst snd] in H; destruct H as (H & _).
  - by destruct H as (_ & _ & ?).
  - by destruct H as (? & _).
  - done.
  - done.
Qed.

Lemma WriteTSDU_sends_segmentation_witness :
  let c := sample_conn 5 in
  match WriteTSDU (Some c) [1; 2; 3] (quiet_world []) with
  | (Ok _, w') => exists ps, sent w' = [] ++ ps /\ segmentation 5 [1; 2; 3] ps
  | (Err _, w') => exists ps, sent w' = [] ++ ps /\ (ps = [] \/ exists qs, segmentation 5 [1; 2; 3] (ps ++ qs))
  | _ => False
  end.
Proof.
  apply (WriteTSDU_sends_segmentation (sample_conn 5) [1; 2; 3] (quiet_world []));
    [by left|by split|reflexivity|reflexivity].
Defined.

(** C22: [ReadTSDU] always returns (within [maxTSDU + 1] packets), whatever the
    peer sends.  When it succeeds, the packets it took from the stream are
    minimal DT packets of at most the negotiated size with EOT on the last alone,
    and the TSDU is their payloads put together; it has between 1 and
    MaxTSDULength octets. *)
Theorem ReadTSDU_reassembles c w :
  0 <= maxTSDU c -> term_ok (term w) -> stream_ok w -> locked w = false -> armed w = false ->
  match ReadTSDU (Some c) w with
  | (Ok out, w') =>
      1 <= len out <= effective_max_tsdu (maxTSDU c) /\
      exists ans ps, reads w = ans ++ reads w' /\ answered ans ps /\
        dt_packets (MaxTPDULength (negotiated c)) out ps
  | (Err _, _) => True
  | _ => False
  end.
Proof.
  intros Hm Ht Hst Hl Ha. pose proof (ReadTSDU_spec c w Hm Ht Hst Hl Ha) as H. unfold wp in H.
  destruct (ReadTSDU (Some c) w) as [[out|e| |] w']; cbn [fst snd] in H; destruct H as (H & _); try done.
  by destruct H as (_ & ? & ?).
Qed.

Definition packet (p : bytes) : answer bytes := mkAnswer (4 + len p) None (inl p).

Lemma ReadTSDU_reassembles_witness :
  let c := mkConn (mkNegotiated 0 128 1 2 None None None) 9 0 1 in
  let w := quiet_world [packet [2; 240; 0; 7]; packet [2; 240; 128; 8; 9]] in
  match ReadTSDU (Some c) w with
  | (Ok out, w') =>
      1 <= len out <= 9 /\
      exists ans ps, reads w = ans ++ reads w' /\ answered ans ps /\ dt_packets 128 out ps
  | (Err _, _) => True
  | _ => False
  end.
Proof.
  apply (ReadTSDU_reassembles (mkConn (mkNegotiated 0 128 1 2 None None None) 9 0 1)
    (quiet_world [packet [2; 240; 0; 7]; packet [2; 240; 128; 8; 9]]));
    [cbn; lia|by left|decide_now|reflexivity|reflexivity].
Defined.

(** C5: a TSDU that [WriteTSDU] sent and the stream delivers is read back as the
    same octets by [ReadTSDU], when the receiver's negotiated size is not below
    the sender's and its MaxTSDULength allows the TSDU; the reader stops at the
    packet boundary, the following packets staying in the stream. *)
Theorem tsdu_roundtrip c1 c2 tsdu w1 w1' ps w2 ans rest :
  bytes_ok tsdu -> term_ok (term w1) -> stream_ok w1 -> locked w1 = false -> armed w1 = false ->
  WriteTSDU (Some c1) tsdu w1 = (Ok tt, w1') -> sent w1' = sent w1 ++ ps ->
  MaxTPDULength (negotiated c1) <= MaxTPDULength (negotiated c2) ->
  0 <= maxTSDU c2 -> len tsdu <= effective_max_tsdu (maxTSDU c2) ->
  quiet w2 -> reads w2 = ans ++ rest -> delivered ans ps ->
  exists w2', ReadTSDU (Some c2) w2 = (Ok tsdu, w2') /\ reads w2' = rest /\ term w2' = open_term.
Proof.
  intros Hok Ht Hst Hl Ha Hw Hps Hmax Hm Hlen Hq Hr Hd.
  pose proof (WriteTSDU_spec c1 tsdu w1 Ht Hst Hl Ha) as H. unfold wp in H. rewrite Hw in H.
  cbn [fst snd] in H. destruct H as ((_ & _ & ps' & Hps' & Hseg) & _).
  rewrite Hps in Hps'. apply app_inv_head in Hps' as <-.
  enough (exists w2', ReadTSDU (Some c2) w2 = (Ok tsdu, w2') /\ reads w2' = rest /\ quiet w2')
    as (w2' & ? & ? & ? & _) by by exists w2'.
  eapply ReadTSDU_delivers; try done.
  destruct Hseg as (init & final & -> & Hcat & Hi & Hf). exists init, final. split_and!; try done; try lia.
  eapply Forall_impl; [exact Hi|]. cbn. intros s ->. lia.
Qed.

Lemma tsdu_roundtrip_witness :
  let sent_packets := [packet [2; 240; 0; 1; 2]; packet [2; 240; 128; 3]] in
  exists w2', ReadTSDU (Some (mkConn (mkNegotiated 0 6 1 2 None None None) 8 0 1))
      (quiet_world (sent_packets ++ [packet [2; 240; 128; 9]])) = (Ok [1; 2; 3], w2') /\
    reads w2' = [packet [2; 240; 128; 9]] /\ term w2' = open_term.
Proof.
  intros sent_packets.
  apply (tsdu_roundtrip (sample_conn 5) (mkConn (mkNegotiated 0 6 1 2 None None None) 8 0 1) [1; 2; 3]
    (quiet_world []) (snd (WriteTSDU (Some (sample_conn 5)) [1; 2; 3] (quiet_world [])))
    [[2; 240; 0; 1; 2]; [2; 240; 128; 3]]
    (quiet_world (sent_packets ++ [packet [2; 240; 128; 9]])) sent_packets [packet [2; 240; 128; 9]]).
  - decide_now.
  - by left.
  - by split.
  - reflexivity.
  - reflexivity.
  - vm_compute. reflexivity.
  - vm_compute. reflexivity.
  - cbn. lia.
  - cbn. lia.
  - vm_compute. discriminate.
  - by split_and!.
  - reflexivity.
  - repeat constructor.
Defined.

(** The first cause wins.  On a connection that has ended, every operation
    whose lock is free returns the stored cause, and touches neither the stream
    nor the connection. *)
Theorem ended_connection_is_inert c o w e :
  term w = ended_term e -> lock_errs w = [] ->
  fst (run_op c o w) = Err (cause_of e) /\ untouched w (snd (run_op c o w)).
Proof.
  intros Ht Hl. destruct o as [|tsdu|]; cbn [run_op].
  - unfold Close, as_error, finish, mbind_. rewrite (finish_already c _ _ w e Ht), (terminalError_ended w e Ht).
    split; [done|reflexivity].
  - unfold WriteTSDU, mbind_, opLock_lock, defer, requireOpen. rewrite Hl. cbn [set_locked term].
    rewrite Ht, bool_decide_eq_false_2 by (by destruct e). cbn [negb].
    rewrite (terminalError_ended (set_locked w true) e) by done. split; [done|by split_and!].
  - unfold ReadTSDU, mbind_, opLock_lock, defer, requireOpen. rewrite Hl. cbn [set_locked term].
    rewrite Ht, bool_decide_eq_false_2 by (by destruct e). cbn [negb].
    rewrite (terminalError_ended (set_locked w true) e) by done. split; [done|by split_and!].
Qed.

Lemma ended_connection_is_inert_witness :
  let w := snd (Close (Some (sample_conn 128)) (quiet_world [packet [2; 240; 128; 7]])) in
  fst (run_op (sample_conn 128) OpRead w) = Err (Sentinel ErrClosed) /\
  untouched w (snd (run_op (sample_conn 128) OpRead w)).
Proof.
  intros w. apply (ended_connection_is_inert (sample_conn 128) OpRead w closed_by_user); reflexivity.
Defined.

(** C11: a connection ends once, and the first cause is kept.  Whatever sequence of
    operations runs on an open connection, and whatever other goroutines do
    meanwhile, it is open with its stream and reference untouched, or it has
    ended: the stream was closed once and its reference was released once.  Once it
    has ended with some cause, it stays ended with that cause, nothing is closed or
    released again, and an operation that gets its lock returns that cause.  A
    [Close] ends it; when it was open until then, the cause is ErrClosed. *)
Theorem connection_ends_once c os w :
  term w = open_term ->
  let w' := run_ops c os w in
  ((term w' = open_term /\ closes w' = closes w /\ refs w' = refs w) \/
   (exists e, term w' = ended_term e /\ closes w' = S (closes w) /\ refs w' = release_own c (refs w))) /\
  (In OpClose os -> term w' <> open_term) /\
  forall os1 o os2, os = os1 ++ o :: os2 ->
    let w1 := run_ops c os1 w in
    (forall e, term w1 = ended_term e ->
       term w' = ended_term e /\ closes w' = closes w1 /\ refs w' = refs w1 /\
       (lock_errs w1 = [] -> fst (run_op c o w1) = Err (cause_of e))) /\
    (term w1 = open_term -> o = OpClose -> term w' = ended_term closed_by_user).
Proof.
  intros Ht w'. pose proof (run_ops_step c os w) as Hs. split; [|split].
  - destruct (Hs ltac:(by left)) as [(E & ? & ?)|(_ & e & ? & ? & ?)]; [left|right; by exists e].
    split_and!; [by rewrite <- Ht|done|done].
  - intros (os1 & os2 & ->)%in_split. subst w'. rewrite run_ops_app. cbn [run_ops run_op].
    destruct (Close_ends c (run_ops c os1 w)) as [e He]; [by apply run_ops_ok; left|].
    destruct (conn_step_ended c _ _ e (run_ops_step c os2 _) He) as (-> & _). by destruct e.
  - intros os1 o os2 -> w1. subst w'. rewrite run_ops_app. fold w1. split.
    + intros e He. destruct (conn_step_ended c _ _ e (run_ops_step c (o :: os2) w1) He) as (? & ? & ?).
      split_and!; try done. intros Hl. by apply ended_connection_is_inert.
    + intros Ho ->. cbn [run_ops run_op]. destruct (Close_open c w1 Ho) as (w2 & -> & Hw2). cbn [snd].
      by destruct (conn_step_ended c _ _ closed_by_user (run_ops_step c os2 _) Hw2).
Qed.

Lemma connection_ends_once_witness :
  let c := sample_conn 128 in
  let os := [OpRead; OpClose; OpWrite [1]; OpClose] in
  let w' := run_ops c os (quiet_world []) in
  ((term w' = open_term /\ closes w' = O /\ refs w' = mkAllocator 2 {[1]}) \/
   (exists e, term w' = ended_term e /\ closes w' = 1%nat /\ refs w' = release_own c (mkAllocator 2 {[1]}))) /\
  (In OpClose os -> term w' <> open_term) /\
  forall os1 o os2, os = os1 ++ o :: os2 ->
    let w1 := run_ops c os1 (quiet_world []) in
    (forall e, term w1 = ended_term e ->
       term w' = ended_term e /\ closes w' = closes w1 /\ refs w' = refs w1 /\
       (lock_errs w1 = [] -> fst (run_op c o w1) = Err (cause_of e))) /\
    (term w1 = open_term -> o = OpClose -> term w' = ended_term closed_by_user).
Proof. apply (connection_ends_once (sample_conn 128)). reflexivity. Defined.

(** The read finds the stream at its end, which is the cause from then on. *)
Example first_cause_is_kept :
  term (run_ops (sample_conn 128) [OpRead; OpClose; OpWrite [1]] (quiet_world [])) =
    ended_term (aborted_with (DisconnectError (Some (Foreign io_EOF None)))).
Proof. vm_compute. reflexivity. Qed.

