(* ===== verification/Failures.v ===== *)
(** * Failing streams: what WriteTSDU and ReadTSDU make of an error

    TsduSpec.v says what holds of every call.  Here a call gets past its lock and
    its context, some packets cross, and then the stream fails: the connection
    stays open when nothing has moved and the context ended the call, and else it
    ends, for a cause of the class that the error, the context and the place of
    the failure make. *)

From S2P Require Import Prelude Errors Types Wire PreferredMax Params Decode Encode Codec.
From S2P Require Import RoundTrip CodecSpec SizeNego Validate RefAlloc World Conn Tsdu TsduSpec.

(** ** Getting past the lock and the context *)

(** The lock is free, and the two looks at the context find it not done. *)
Definition enters (w : world) : Prop :=
  term w = open_term /\ lock_errs w = [] /\
  (ctx_errs w = [] \/ exists es, ctx_errs w = None :: None :: es).

(** The world behind them. *)
Definition entered (w : world) : world :=
  mkWorld (reads w) (writes w) (drop 2 (ctx_errs w)) [] (past_deadline w) (has_deadline w)
    (reader_err w) (writer_err w) (sent w) (nRead w) (nWritten w) (closes w) true true (refs w) (term w).

(** The call is over: its lock and its deadline are back. *)
Definition unwound {A} (x : outcome A * world) : outcome A * world := (fst x, opLock_unlock (disarm (snd x))).

Lemma requireOpen_open w : term w = open_term -> requireOpen w = (Ok tt, w).
Proof.
  intros Ht. unfold requireOpen. rewrite Ht. change (termKind open_term) with terminalNone.
  change (state open_term) with stateOpen. by rewrite !bool_decide_eq_true_2.
Qed.

Lemma prologue_enters {A} (pre : outcome unit) (m : M A) w :
  enters w ->
  (do! _ := opLock_lock in
   defer opLock_unlock (
     do! _ := requireOpen in
     do! _ := check_ctx in
     do! _ := lift pre in
     do! _ := arm in
     defer disarm m)) w =
  match pre with
  | Ok _ => unwound (m (entered w))
  | Err e => (Err e, opLock_unlock (snd (check_ctx (set_locked w true))))
  | Panic => (Panic, opLock_unlock (snd (check_ctx (set_locked w true))))
  | NoFuel => (NoFuel, opLock_unlock (snd (check_ctx (set_locked w true))))
  end.
Proof.
  intros (Ht & Hl & Hc). destruct w as [? ? ctx lk ? ? ? ? ? ? ? ? ? ? ? tm]. cbn in Ht, Hl, Hc. subst lk tm.
  unfold mbind_ at 1. unfold opLock_lock at 1. cbn [lock_errs]. unfold defer at 1.
  unfold mbind_ at 1. rewrite requireOpen_open by done.
  destruct Hc as [->|[es ->]]; unfold check_ctx at 1; unfold mbind_ at 1, ctx_Err at 1; cbn [set_locked ctx_errs];
    unfold ret at 1; unfold mbind_ at 1, lift at 1; destruct pre; try reflexivity;
    unfold entered, unwound; cbn; rewrite ?drop_0; unfold defer, set_armed, set_locked; cbn; by destruct (m _).
Qed.

Lemma ReadTSDU_enters c w :
  enters w -> 4 <= MaxTPDULength (negotiated c) ->
  let limit := effective_max_tsdu (maxTSDU c) in
  ReadTSDU (Some c) w = unwound (mloop (S (Z.to_nat limit)) (read_body c limit (nRead w)) ([], 0) (entered w)).
Proof.
  intros He Hm limit. pose proof (prologue_enters (Ok tt) (do! start := readProgress in
    mloop (S (Z.to_nat limit)) (read_body c limit start) ([], 0)) w He) as H.
  etrans; [|exact H]. unfold ReadTSDU, minNegotiatedTPDULength, minimalDTOverhead. if_false. reflexivity.
Qed.

Lemma WriteTSDU_enters c tsdu w :
  enters w -> 4 <= MaxTPDULength (negotiated c) -> 1 <= len tsdu <= effective_max_tsdu (maxTSDU c) ->
  WriteTSDU (Some c) tsdu w =
    unwound (mloop (S (length tsdu)) (write_body c tsdu (MaxTPDULength (negotiated c) - 3) (nWritten w)) 0 (entered w)).
Proof.
  intros He Hm Hlen. pose proof (prologue_enters (Ok tt) (do! start := writeProgress in
    mloop (S (length tsdu)) (write_body c tsdu (MaxTPDULength (negotiated c) - 3) start) 0) w He) as H.
  etrans; [|exact H]. unfold WriteTSDU, validateWriteTSDULength. do 2 if_false.
  unfold maxSegmentPayload, minNegotiatedTPDULength, minimalDTOverhead. do 2 if_false. reflexivity.
Qed.

(** ** Up to the failure *)

(** The stream answers with an error, and no one ends the connection meanwhile. *)
Definition fails_with {A} (a : answer A) (err : error) : Prop := result a = inr err /\ meanwhile a = None /\ 0 <= moved a.

Lemma read_fails c a rs w err :
  reads w = a :: rs -> fails_with a err ->
  exists w1, stream_read (conn_ends c) w = (Err err, w1) /\ kept w w1 /\ nRead w1 = nRead w + moved a /\
    sent w1 = sent w /\ nWritten w1 = nWritten w.
Proof.
  intros Hr (Hres & Hm & _). unfold stream_read. rewrite Hr, Hm, Hres. cbn [conn_ends]. eexists. by split_and!.
Qed.

Lemma write_fails c p a ws w err :
  writes w = a :: ws -> fails_with a err ->
  exists w1, stream_write (conn_ends c) p w = (Err err, w1) /\ kept w w1 /\ nWritten w1 = nWritten w + moved a /\
    sent w1 = sent w /\ nRead w1 = nRead w.
Proof.
  intros Hr (Hres & Hm & _). unfold stream_write. rewrite Hr, Hm, Hres. cbn [conn_ends]. eexists. by split_and!.
Qed.

(** The segments in front of the failing packet. *)
Definition proper (c : Conn) (segs : list bytes) : Prop :=
  Forall (fun s => 1 <= len s <= MaxTPDULength (negotiated c) - 3 /\ bytes_ok s) segs /\
  len (concat segs) <= effective_max_tsdu (maxTSDU c).

Definition segments_arrive (ans : list (answer bytes)) (segs : list bytes) : Prop :=
  Forall2 (fun a s => result a = inl (open_DT false s) /\ meanwhile a = None /\ 0 < moved a) ans segs.

Lemma read_loop_fails c limit start err a rs : forall segs fuel segments total ans w,
  Forall (fun s => 1 <= len s <= MaxTPDULength (negotiated c) - 3 /\ bytes_ok s) segs ->
  reads w = ans ++ a :: rs -> segments_arrive ans segs -> fails_with a err ->
  total = len (concat segments) -> len segments <= total -> total + len (concat segs) <= limit ->
  (length segs < fuel)%nat ->
  exists w1, kept w w1 /\ nRead w + moved a <= nRead w1 /\ (segs = [] -> nRead w1 = nRead w + moved a /\ sent w1 = sent w /\ nWritten w1 = nWritten w) /\
    (segs <> [] -> nRead w < nRead w1) /\
    mloop fuel (read_body c limit start) (segments, total) w = read_failed c start (0 <? len (segments ++ segs)) err w1.
Proof.
  induction segs as [|s segs IH]; intros [|fuel] segments total ans w Hseg Hr Hans Ha Htot Hc Hlim Hf; try (cbn in Hf; lia).
  - apply Forall2_nil_inv_r in Hans as ->. destruct (read_fails c a rs w err Hr Ha) as (w1 & Heq & Hk & Hn & Hs & Hnw).
    exists w1. rewrite app_nil_r. split_and!; try done; [lia|]. cbn [mloop]. unfold mbind_ at 1.
    unfold read_body, mbind_ at 1, attempt. rewrite Heq. unfold mbind_ at 1. by destruct (read_failed _ _ _ _ _) as [[]].
  - apply Forall2_cons_inv_r in Hans as (b & ans' & (Hb & Hm & Hmv) & Hans & ->).
    apply Forall_cons in Hseg as [[Hlen Hok] Hseg]. cbn [concat] in Hlim. rewrite len_app in Hlim. len_pose.
    destruct (read_body_accepts c limit start segments total false s b (ans' ++ a :: rs) w) as (w1 & Hrs & Hk & Hn & Heq);
      try done; [lia|].
    destruct (IH fuel (segments ++ [s]) (total + len s) ans' w1) as (w2 & Hk2 & Hle & _ & _ & Heq2); try done;
      [by rewrite len_concat_snoc, Htot|rewrite len_app, len_cons, len_nil; lia|lia|cbn in Hf; lia|].
    exists w2. cbn [mloop]. unfold mbind_ at 1. rewrite Heq, Heq2, <- app_assoc. destruct Ha as (_ & _ & ?).
    split_and!; try done; [by etrans|lia|lia].
Qed.

Lemma write_loop_fails c tsdu start err a ws : forall ans fuel offset w,
  4 <= MaxTPDULength (negotiated c) -> 0 <= offset ->
  writes w = ans ++ a :: ws -> Forall (fun b => result b = inl tt /\ meanwhile b = None /\ 0 < moved b) ans -> fails_with a err ->
  offset + len ans * (MaxTPDULength (negotiated c) - 3) < len tsdu -> (length ans < fuel)%nat ->
  exists w1, kept w w1 /\ nWritten w + moved a <= nWritten w1 /\ (ans = [] -> nWritten w1 = nWritten w + moved a /\ sent w1 = sent w /\ nRead w1 = nRead w) /\
    (ans <> [] -> nWritten w < nWritten w1) /\
    mloop fuel (write_body c tsdu (MaxTPDULength (negotiated c) - 3) start) offset w = write_failed c start err w1.
Proof.
  induction ans as [|b ans IH]; intros [|fuel] offset w Hm Ho Hw Hans Ha Hoff Hf; try (cbn in Hf; lia).
  - change (len []) with 0 in Hoff. cbn [mloop]. unfold mbind_ at 1. unfold write_body. if_true.
    destruct (slice_is_Ok tsdu offset (Z.min (offset + (MaxTPDULength (negotiated c) - 3)) (len tsdu))) as [chunk Hchunk]; [lia|lia|].
    unfold mbind_ at 1, lift at 1. rewrite Hchunk. unfold mbind_ at 1, attempt at 1, lift at 1. rewrite segment_octets_Ok.
    set (p := open_DT _ _). destruct (write_fails c p a ws w err Hw Ha) as (w1 & Heq & Hk & Hn & Hs & Hnr).
    exists w1. split_and!; try done; [lia|]. unfold mbind_ at 1, attempt. rewrite Heq. unfold mbind_ at 1.
    by destruct (write_failed _ _ _ _) as [[[]| | |]].
  - apply Forall_cons in Hans as [(Hb & Hmb & Hmv) Hans]. rewrite len_cons in Hoff. pose proof (len_nonneg ans).
    assert (MaxTPDULength (negotiated c) - 3 < len tsdu - offset) by nia.
    cbn [mloop]. unfold mbind_ at 1. unfold write_body at 1. if_true.
    set (end_ := Z.min _ _). assert (end_ = offset + (MaxTPDULength (negotiated c) - 3)) as Hend by lia.
    destruct (slice_is_Ok tsdu offset end_) as [chunk Hchunk]; [lia|lia|].
    unfold mbind_ at 1, lift at 1. rewrite Hchunk. unfold mbind_ at 1, attempt at 1, lift at 1. rewrite segment_octets_Ok.
    set (p := open_DT _ _).
    assert (exists w1, stream_write (conn_ends c) p w = (Ok tt, w1) /\ kept w w1 /\ nWritten w1 = nWritten w + moved b /\
      writes w1 = ans ++ a :: ws) as (w1 & Heq & Hk & Hn & Hws).
    { unfold stream_write. rewrite Hw. cbn [app]. rewrite Hmb, Hb. cbn [conn_ends]. eexists. by split_and!. }
    destruct (IH fuel end_ w1) as (w2 & Hk2 & Hle & _ & _ & Heq2); try done; [lia|nia|cbn in Hf; lia|].
    exists w2. unfold mbind_ at 1, attempt. rewrite Heq. unfold ret at 1. rewrite Heq2. destruct Ha as (_ & _ & ?).
    split_and!; try done; [by etrans|lia|lia].
Qed.

(** ** The class of an error *)

(** What an operation reports of the stream's error alone. *)
Definition stream_class (mid : bool) (err e : error) : Prop :=
  (mid = true \/ errors_Is err io_EOF = false /\ errors_Is err io_ErrUnexpectedEOF = true -> errors_Is e ErrIncompleteTSDU = true) /\
  (errors_Is err io_EOF = true \/ peerGone err = true -> errors_Is e ErrDisconnected = true) /\
  (errors_Is err io_EOF = false -> peerGone err = false ->
     if isFramingError err then errors_Is e ErrHandshake = true
     else if mid then errors_Is e ErrDisconnected = true else e = err) /\
  (errors_Is err io_EOF = true -> errors_Is e io_EOF = true) /\
  (errors_Is err io_EOF = false -> forall t, errors_Is err t = true -> errors_Is e t = true).

(** And with the context: [ctx] is what [ctx.Err()] still answers, [dl] whether it
    has a deadline. *)
Definition failure_class (ctx : list (option error)) (dl mid : bool) (err e : error) : Prop :=
  match ctx with
  | Some _ :: rest =>
      errors_Is e ErrClosed = true /\
      match rest with
      | Some x :: _ => forall t, errors_Is x t = true -> errors_Is e t = true
      | _ => True
      end
  | _ =>
      if dl && isTimeout err
      then errors_Is e ErrClosed = true /\ errors_Is e context_DeadlineExceeded = true /\ errors_Is e ErrDisconnected = false
      else stream_class mid err e
  end.

Lemma abort_cause c e w :
  term w = open_term -> exists w', abort c (Some e) w = (Ok (Some e), w') /\ ended_by w' e.
Proof.
  intros Ht. destruct (abort_spec c (Some e) w ltac:(by left)) as (w' & en & -> & Hw' & _ & _ & Hen).
  rewrite (Hen Ht) in *. exists w'. split; [done|]. by eexists.
Qed.

(** A cause that is stored and returned. *)
Ltac aborts := match goal with
  | |- context [abort ?c (Some ?e0) ?w] =>
      let w' := fresh "w'" in let Heq := fresh in let He := fresh in
      destruct (abort_cause c e0 w) as (w' & Heq & He); [done|]; exists e0, w'; rewrite Heq; split; [done|]; split; [done|]
  end.

Lemma wrapped_Is e0 err t es : errors_Is err t = true -> In err es -> errors_Is (Errorf e0 es) t = true.
Proof. intros Ht Hin. cbn [errors_Is]. apply existsb_exists. by exists err. Qed.

Lemma stream_failure_class c err (mid : bool) w :
  term w = open_term ->
  exists e w',
    (if errors_Is err io_EOF then
       if mid then abort c (Some (Join [Sentinel ErrIncompleteTSDU; DisconnectError (Some (Foreign io_EOF None))]))
       else abort c (Some (DisconnectError (Some (Foreign io_EOF None))))
     else if peerGone err then
       if mid || errors_Is err io_ErrUnexpectedEOF
       then abort c (Some (Join [Sentinel ErrIncompleteTSDU; DisconnectError (Some err)]))
       else abort c (Some (DisconnectError (Some err)))
     else if isFramingError err then abortOpen c mid (Some (Errorf "%w: %w" [Sentinel ErrHandshake; err]))
     else if mid then abort c (Some (Join [Sentinel ErrIncompleteTSDU; DisconnectError (Some err)]))
     else abort c (Some err)) w = (Ok (Some e), w') /\ ended_by w' e /\ stream_class mid err e.
Proof.
  intros Ht. unfold stream_class. destruct (errors_Is err io_EOF) eqn:Heof.
  { destruct mid; aborts; (split_and!; try done; by intros [?|[? ?]]). }
  assert (peerGone err = false -> errors_Is err io_ErrUnexpectedEOF = false) as Hun.
  { unfold peerGone. intros H. breflect. by repeat match goal with H : _ || _ = false |- _ => apply orb_false_iff in H as [? ?] end. }
  assert (forall t, errors_Is err t = true ->
    errors_Is (Join [Sentinel ErrIncompleteTSDU; DisconnectError (Some err)]) t = true /\ errors_Is (DisconnectError (Some err)) t = true)
    as Hsee by (intros t Hxt; cbn; rewrite Hxt; by rewrite ?orb_true_r).
  destruct (peerGone err) eqn:Hgone; [|destruct (isFramingError err) eqn:Hfr].
  - destruct mid, (errors_Is err io_ErrUnexpectedEOF); cbn [orb]; aborts; (split_and!; try done; try (by intros [?|[? ?]]); intros _ t Hxt; by apply Hsee).
  - rewrite (Hun eq_refl). unfold abortOpen. set (e0 := Errorf "%w: %w" [Sentinel ErrHandshake; err]).
    assert (forall t, errors_Is err t = true -> errors_Is e0 t = true) as He0.
    { intros t Hxt. apply (wrapped_Is _ err); [done|by right; left]. }
    destruct (mid && negb (errors_Is e0 ErrIncompleteTSDU)) eqn:Hmid; aborts; split_and!; try done; try (by intros [?|?]).
    + intros _ t Hxt. cbn [errors_Is existsb]. rewrite (He0 t Hxt). by rewrite ?orb_true_r.
    + intros [->|[_ ?]]; [|done]. cbn [andb] in Hmid. by apply negb_false_iff in Hmid.
  - rewrite (Hun eq_refl). destruct mid; aborts; split_and!; try done; try (by intros [?|?]); try (by intros [?|[? ?]]); intros _ t Hxt; by apply Hsee.
Qed.

Lemma classify_class c err (mid : bool) w :
  term w = open_term ->
  exists e w', classifyIOPhase c err mid w = (Ok (Some e), w') /\ ended_by w' e /\
    failure_class (ctx_errs w) (has_deadline w) mid err e.
Proof.
  intros Ht. unfold classifyIOPhase. unfold mbind_ at 1. unfold get_terminal at 1. cbn [fst snd].
  rewrite Ht. change (termKind open_term) with terminalNone.
  rewrite bool_decide_eq_true_2 by done. cbn [negb]. unfold mbind_ at 1. unfold ctx_Err at 1.
  unfold failure_class. destruct (ctx_errs w) as [|[x|] es] eqn:Hc.
  - unfold mbind_ at 1. unfold ctx_has_deadline at 1. cbn match.
    destruct (has_deadline w && isTimeout err); [aborts; by split_and!|by apply stream_failure_class].
  - unfold mbind_ at 1. unfold ctx_Err at 1. cbn [ctx_errs]. destruct es as [|o' es']; [aborts; by split_and!|].
    aborts. split; [done|]. destruct o' as [x'|]; [|done]. intros t Hxt. apply (wrapped_Is _ x'); [done|by right; left].
  - unfold mbind_ at 1. unfold ctx_has_deadline at 1. cbn match. cbn [has_deadline].
    destruct (has_deadline w && isTimeout err); [aborts; by split_and!|by apply stream_failure_class].
Qed.

(** ** What follows the failure *)

(** What [ctxDoneErr] finds: the context's own error, or that its deadline has
    passed. *)
Definition context_error (ctx : list (option error)) (dl : bool) (past : list bool) : option error :=
  match ctx with
  | Some x :: _ => Some x
  | _ => if dl then match past with true :: _ => Some DeadlineExceeded | _ => None end else None
  end.

(** The connection and the stream are as they were. *)
Definition untouched (w w' : world) : Prop :=
  same_conn w w' /\ sent w' = sent w /\ nRead w' = nRead w /\ nWritten w' = nWritten w.

(** The connection has ended, once, for [e]. *)
Definition ended_for (c : Conn) (w w' : world) (e : error) : Prop :=
  ended_by w' e /\ closes w' = S (closes w) /\ refs w' = release_own c (refs w).

Lemma ended_for_intro c w w' e :
  term w = open_term -> conn_step c w w' -> ended_by w' e -> ended_for c w w' e.
Proof.
  intros Ht Hs (en & He & ->). destruct Hs as [(E & _)|(_ & en' & E & Hc & Hr)]; [by left|rewrite E, Ht in He; by destruct en|].
  split_and!; [by exists en|done..].
Qed.

Lemma idleTimeout_answer err w :
  term w = open_term -> isTimeout err = true ->
  exists w', idleTimeout err w = (Ok (context_error (ctx_errs w) (has_deadline w) (past_deadline w)), w') /\
    same_conn w w' /\ io_frame w w' /\ has_deadline w' = has_deadline w /\ ctx_errs w' = drop 1 (ctx_errs w).
Proof.
  intros Ht Hto. destruct w as [? ? ctx ? past dl ? ? ? ? ? ? ? ? ? tm]. cbn in Ht. subst tm.
  unfold idleTimeout. unfold mbind_ at 1. unfold get_terminal. rewrite Hto. rewrite bool_decide_eq_true_2 by done.
  cbn [negb orb]. unfold ctxDoneErr. cbn [ctx_errs has_deadline past_deadline].
  destruct ctx as [|[x|] es], dl, past as [|[] past]; eexists; (split; [reflexivity|]); by split_and!.
Qed.

(** A failure when nothing has moved ([start]) and when something has. *)
Definition answers (c : Conn) (err : error) (start mid : bool) (w w' : world) (e : error) : Prop :=
  match (if start && isTimeout err then context_error (ctx_errs w) (has_deadline w) (past_deadline w) else None) with
  | Some x => e = x /\ same_conn w w' /\ io_frame w w'
  | None => ended_by w' e /\
      failure_class (if start && isTimeout err then drop 1 (ctx_errs w) else ctx_errs w) (has_deadline w) mid err e
  end.

Lemma failure_answer c err (start mid : bool) w :
  term w = open_term ->
  exists e w', (do! cerr := (if start then idleTimeout err else ret None) in
    match cerr with Some e => ret (Some e) | None => classifyIOPhase c err mid end) w = (Ok (Some e), w') /\
    answers c err start mid w w' e.
Proof.
  intros Ht. unfold answers. destruct start; cbn [andb]; [destruct (isTimeout err) eqn:Hto|].
  - destruct (idleTimeout_answer err w Ht Hto) as (w1 & Heq & Hs & Hio & Hdl & Hctx).
    unfold mbind_. rewrite Heq. destruct (context_error _ _ _) as [x|]; [by exists x, w1|].
    destruct (classify_class c err mid w1) as (e & w' & Hc & He & Hcl); [destruct Hs as [-> _]; done|].
    exists e, w'. rewrite Hctx, Hdl in Hcl. by split_and!.
  - assert (idleTimeout err w = (Ok None, w)) as Hid.
    { unfold idleTimeout, mbind_, get_terminal. rewrite Hto. cbn [negb]. by rewrite orb_true_r. }
    unfold mbind_. rewrite Hid. by apply classify_class.
  - by apply classify_class.
Qed.

Lemma read_failed_answers c start mid err w :
  term w = open_term ->
  exists e w', read_failed c start mid err w = (Err e, w') /\ answers c err (nRead w =? start) mid w w' e.
Proof.
  intros Ht. destruct (failure_answer c err (nRead w =? start) mid w Ht) as (e & w' & Heq & Ha).
  exists e, w'. split; [|done]. revert Heq. unfold read_failed, readProgress, mbind_.
  destruct ((if nRead w =? start then idleTimeout err else ret None) w) as [[[x|]| | |] w1]; [by intros [= -> ->]| |done..].
  by destruct (classifyIOPhase c err mid w1) as [[[?|]| | |] ?]; [intros [= -> ->]|..].
Qed.

Lemma write_failed_answers c start err w :
  term w = open_term ->
  exists e w', write_failed c start err w = (Err e, w') /\ answers c err (nWritten w =? start) false w w' e.
Proof.
  intros Ht. destruct (failure_answer c err (nWritten w =? start) false w Ht) as (e & w' & Heq & Ha).
  exists e, w'. split; [|done]. revert Heq. unfold write_failed, writeProgress, as_error, classifyIO, mbind_.
  destruct ((if nWritten w =? start then idleTimeout err else ret None) w) as [[[x|]| | |] w1]; [by intros [= -> ->]| |done..].
  by destruct (classifyIOPhase c err false w1) as [[[?|]| | |] ?]; [intros [= -> ->]|..].
Qed.

(** ** The operations *)

(** The error for which the context gives the call up: the stream answers a
    timeout, and the context is done or past its deadline. *)
Definition gives_up (w : world) (err : error) : option error :=
  if isTimeout err then context_error (drop 2 (ctx_errs w)) (has_deadline w) (past_deadline w) else None.

(** What [ctx.Err()] still answers when the failure is classified: [idleTimeout]
    has asked once more when nothing had moved ([start]). *)
Definition context_left (w : world) (start : bool) (err : error) : list (option error) :=
  drop (if start && isTimeout err then 3 else 2) (ctx_errs w).

(** How a call that the stream fails with [err] ends: with the context's error on
    an untouched connection, or for a cause of the class of [err]. *)
Definition settled (c : Conn) (start mid : bool) (err : error) (w w' : world) (e : error) : Prop :=
  match (if start then gives_up w err else None) with
  | Some x => e = x /\ untouched w w'
  | None => ended_for c w w' e /\ failure_class (context_left w start err) (has_deadline w) mid err e
  end.

Lemma settled_intro c (start mid : bool) err w w1 w' e :
  term w = open_term -> kept (entered w) w1 -> answers c err start mid w1 w' e ->
  conn_step c w (opLock_unlock (disarm w')) ->
  (start = true -> sent w1 = sent w /\ nRead w1 = nRead w /\ nWritten w1 = nWritten w) ->
  settled c start mid err w (opLock_unlock (disarm w')) e.
Proof.
  intros Ht ((Et & Ec & Er) & Hctx & _ & Hdl & Hpast) Ha Hs Hst. cbn in Et, Ec, Er. unfold settled, gives_up, context_left.
  unfold answers in Ha. rewrite Hctx, Hdl, Hpast in Ha. cbn [entered ctx_errs has_deadline past_deadline] in Ha.
  assert (forall e, ended_by w' e -> ended_for c w (opLock_unlock (disarm w')) e) as Hend.
  { intros e0 He. by apply ended_for_intro. }
  destruct start; cbn [andb] in *.
  - destruct (Hst eq_refl) as (E1 & E2 & E3). destruct (isTimeout err).
    + destruct (context_error _ _ _) as [x|]; [|rewrite skipn_skipn in Ha; destruct Ha; split; [auto|done]].
      destruct Ha as (-> & (F1 & F2 & F3) & _ & _ & F4 & F5 & F6 & _). split; [done|]. unfold untouched, same_conn. cbn.
      split_and!; congruence.
    + destruct Ha; split; [auto|done].
  - destruct Ha; split; [auto|done].
Qed.

Lemma ReadTSDU_fails c w ans segs a rs err :
  enters w -> 4 <= MaxTPDULength (negotiated c) -> proper c segs ->
  reads w = ans ++ a :: rs -> segments_arrive ans segs -> fails_with a err ->
  exists e w', ReadTSDU (Some c) w = (Err e, w') /\
    settled c ((len segs =? 0) && (moved a =? 0)) (0 <? len segs) err w w' e.
Proof.
  intros He Hm [Hseg Hlim] Hr Hans Ha. pose proof He as (Ht & _ & _). pose proof (ReadTSDU_keeps c w) as Hs.
  revert Hs. rewrite ReadTSDU_enters by done.
  destruct (read_loop_fails c (effective_max_tsdu (maxTSDU c)) (nRead w) err a rs segs
    (S (Z.to_nat (effective_max_tsdu (maxTSDU c)))) [] 0 ans (entered w)) as (w1 & Hk & Hle & Hnil & Hne & Heq); try done.
  { assert (Z.of_nat (length segs) <= len (concat segs)) as Hsegs; [|lia].
    apply length_concat_le. eapply Forall_impl; [exact Hseg|]. cbn. lia. }
  rewrite Heq. cbn [app].
  destruct (read_failed_answers c (nRead w) (0 <? len segs) err w1) as (e & w' & -> & Hw'); [by destruct Hk as [(-> & _) _]|].
  intros Hs. exists e. eexists. split; [reflexivity|].
  assert ((nRead w1 =? nRead w) = (len segs =? 0) && (moved a =? 0)) as Hst.
  { cbn [entered nRead] in *. destruct Ha as (_ & _ & Hmv). destruct segs as [|s segs].
    - destruct (Hnil eq_refl) as [-> _]. change (len [] =? 0) with true. cbn [andb].
      destruct (moved a =? 0) eqn:Hz; breflect; lia.
    - rewrite len_cons. len_pose. replace (1 + len segs =? 0) with false by (symmetry; breflect; lia). cbn [andb].
      breflect. assert (nRead w < nRead w1) by by apply Hne. lia. }
  rewrite Hst in Hw'. eapply settled_intro; try done. intros [H1 H2]%andb_true_iff. breflect.
  destruct segs as [|s segs]; [|rewrite len_cons in H1; len_pose; lia].
  destruct (Hnil eq_refl) as (-> & -> & ->). cbn. split_and!; [done|lia|done].
Qed.

(** The packets that the stream took before the failing one: full segments. *)
Definition segments_leave (c : Conn) (tsdu : bytes) (ans : list (answer unit)) : Prop :=
  Forall (fun b => result b = inl tt /\ meanwhile b = None /\ 0 < moved b) ans /\
  len ans * (MaxTPDULength (negotiated c) - 3) < len tsdu.

Lemma WriteTSDU_fails c tsdu w ans a ws err :
  enters w -> 4 <= MaxTPDULength (negotiated c) -> 1 <= len tsdu <= effective_max_tsdu (maxTSDU c) ->
  writes w = ans ++ a :: ws -> segments_leave c tsdu ans -> fails_with a err ->
  exists e w', WriteTSDU (Some c) tsdu w = (Err e, w') /\
    settled c ((len ans =? 0) && (moved a =? 0)) false err w w' e.
Proof.
  intros He Hm Hlen Hw [Hans Hoff] Ha. pose proof He as (Ht & _ & _). pose proof (WriteTSDU_keeps c tsdu w) as Hs.
  revert Hs. rewrite WriteTSDU_enters by done.
  destruct (write_loop_fails c tsdu (nWritten w) err a ws ans (S (length tsdu)) 0 (entered w))
    as (w1 & Hk & Hle & Hnil & Hne & Heq); try done; [unfold len in *; nia|].
  rewrite Heq.
  destruct (write_failed_answers c (nWritten w) err w1) as (e & w' & -> & Hw'); [by destruct Hk as [(-> & _) _]|].
  intros Hs. exists e. eexists. split; [reflexivity|].
  assert ((nWritten w1 =? nWritten w) = (len ans =? 0) && (moved a =? 0)) as Hst.
  { cbn [entered nWritten] in *. destruct Ha as (_ & _ & Hmv). destruct ans as [|b ans].
    - destruct (Hnil eq_refl) as [-> _]. change (len [] =? 0) with true. cbn [andb].
      destruct (moved a =? 0) eqn:Hz; breflect; lia.
    - rewrite len_cons. len_pose. replace (1 + len ans =? 0) with false by (symmetry; breflect; lia). cbn [andb].
      breflect. assert (nWritten w < nWritten w1) by by apply Hne. lia. }
  rewrite Hst in Hw'. eapply settled_intro; try done. intros [H1 H2]%andb_true_iff. breflect.
  destruct ans as [|b ans]; [|rewrite len_cons in H1; len_pose; lia].
  destruct (Hnil eq_refl) as (-> & -> & ->). cbn. split_and!; [done|done|lia].
Qed.

(** ** Properties *)

(** C10: data transfer fails closed.  When [WriteTSDU] or [ReadTSDU] returns an
    error, either the connection has ended (stream closed, reference released)
    and the error is its stored cause, or the connection is as it was and no
    octet of the TSDU has crossed the stream, so that it is still at a packet
    boundary.  On every path the lock is released and the deadline disarmed.

    Which of the two, when the stream fails a call that the lock and the context
    let through: if nothing has moved, the stream's error is a timeout and the
    context is done or past its deadline, the call returns the context's own
    error and the connection stays open, untouched; in every other case (an error
    that is no timeout, EOF and reset included, a timeout without the context's
    end, or a TSDU under way) the connection ends, once, and its reference is
    released. *)
Theorem transfer_fails_closed c tsdu w :
  0 <= maxTSDU c -> term_ok (term w) -> stream_ok w -> locked w = false -> armed w = false ->
  (forall e w', WriteTSDU (Some c) tsdu w = (Err e, w') ->
     ended_by w' e \/ (term w' = term w /\ sent w' = sent w /\ nWritten w' = nWritten w)) /\
  (forall e w', ReadTSDU (Some c) w = (Err e, w') ->
     ended_by w' e \/ (term w' = term w /\ nRead w' = nRead w)) /\
  locked (snd (WriteTSDU (Some c) tsdu w)) = false /\ armed (snd (WriteTSDU (Some c) tsdu w)) = false /\
  locked (snd (ReadTSDU (Some c) w)) = false /\ armed (snd (ReadTSDU (Some c) w)) = false /\
  (enters w -> 4 <= MaxTPDULength (negotiated c) ->
     (forall ans a ws err, 1 <= len tsdu <= effective_max_tsdu (maxTSDU c) ->
        writes w = ans ++ a :: ws -> segments_leave c tsdu ans -> fails_with a err ->
        exists e w', WriteTSDU (Some c) tsdu w = (Err e, w') /\
          match (if (len ans =? 0) && (moved a =? 0) then gives_up w err else None) with
          | Some x => e = x /\ untouched w w'
          | None => ended_for c w w' e
          end) /\
     (forall ans segs a rs err, proper c segs ->
        reads w = ans ++ a :: rs -> segments_arrive ans segs -> fails_with a err ->
        exists e w', ReadTSDU (Some c) w = (Err e, w') /\
          match (if (len segs =? 0) && (moved a =? 0) then gives_up w err else None) with
          | Some x => e = x /\ untouched w w'
          | None => ended_for c w w' e
          end)).
Proof.
  intros Hm Ht Hst Hl Ha.
  pose proof (WriteTSDU_spec c tsdu w Ht Hst Hl Ha) as HW. pose proof (ReadTSDU_spec c w Hm Ht Hst Hl Ha) as HR.
  unfold wp in HW, HR. split_and!; try apply HW; try apply HR.
  - intros e w' H. rewrite H in HW. by destruct HW as ((_ & ?) & _).
  - intros e w' H. rewrite H in HR. by destruct HR as (? & _).
  - intros He Hmax. split; intros *.
    + intros Hlen Hw Hans Hf. destruct (WriteTSDU_fails c tsdu w ans a ws err) as (e & w' & Heq & Hs); try done.
      exists e, w'. split; [done|]. unfold settled in Hs. destruct (if _ : bool then _ else _); [done|by destruct Hs].
    + intros Hp Hr Hans Hf. destruct (ReadTSDU_fails c w ans segs a rs err) as (e & w' & Heq & Hs); try done.
      exists e, w'. split; [done|]. unfold settled in Hs. destruct (if _ : bool then _ else _); [done|by destruct Hs].
Qed.

(** A timeout of the stream, before any octet. *)
Definition stall {A} : answer A := mkAnswer 0 None (inr (Foreign (OtherError 0) (Some true))).

(** A connection whose context is cancelled during the call, with these answers
    of the stream. *)
Definition cancelled_world (rs : list (answer bytes)) (ws : list (answer unit)) : world :=
  mkWorld rs ws [None; None; Some (Foreign context_Canceled None)] [] [] false None None [] 0 0 0 false false
    (mkAllocator 2 {[1]}) open_term.

(** Cancelled before the first octet of a write, and in the middle of a TSDU read. *)
Lemma transfer_fails_closed_witness :
  let c := sample_conn 128 in
  let w := cancelled_world [packet [2; 240; 0; 7]; stall] [stall] in
  (exists e w', WriteTSDU (Some c) [1] w = (Err e, w') /\ e = Foreign context_Canceled None /\ untouched w w') /\
  (exists e w', ReadTSDU (Some c) w = (Err e, w') /\ ended_for c w w' e).
Proof.
  set (c := sample_conn 128). set (w := cancelled_world [packet [2; 240; 0; 7]; stall] [stall]). cbv zeta.
  destruct (transfer_fails_closed c [1] w) as (_ & _ & _ & _ & _ & _ & H);
    [cbn; lia|by left|decide_now|reflexivity|reflexivity|].
  destruct H as [HW HR]; [split_and!; [done|done|right; by eexists]|decide_now|]. split.
  - apply (HW [] stall [] (Foreign (OtherError 0) (Some true))); [decide_now|done|split; [done|decide_now]|by split_and!].
  - apply (HR [packet [2; 240; 0; 7]] [[7]] stall [] (Foreign (OtherError 0) (Some true))); [|done| |by split_and!].
    + split; [repeat constructor; decide_now|decide_now].
    + repeat constructor.
Defined.

(** C36: the class of the error that [WriteTSDU] or [ReadTSDU] returns when the
    stream fails it after any number of packets, a call that the context gives up
    before the first octet apart (it returns the bare context error and the
    connection stays open).  The connection ends, and its cause, which is
    the answer, is [ErrClosed] with the context's error and without
    [ErrDisconnected] when the context is done or its deadline made the stream
    time out.  Otherwise a peer that is gone (EOF, reset, broken pipe, EOF inside
    a packet) gives [ErrDisconnected], a framing violation [ErrHandshake], and
    another error itself; in the middle of a TSDU every one of them, and an EOF
    inside a packet anywhere, is [ErrIncompleteTSDU] as well, and another error
    [ErrDisconnected].  In these cases what the stream answered stays visible to
    [errors.Is]: [io.EOF] of an end of file, all of any other error. *)
Theorem io_errors_classified c w :
  enters w -> 4 <= MaxTPDULength (negotiated c) ->
  (forall tsdu ans a ws err, 1 <= len tsdu <= effective_max_tsdu (maxTSDU c) ->
     writes w = ans ++ a :: ws -> segments_leave c tsdu ans -> fails_with a err ->
     let idle := (len ans =? 0) && (moved a =? 0) in
     (idle = true -> gives_up w err = None) ->
     exists e w', WriteTSDU (Some c) tsdu w = (Err e, w') /\ ended_by w' e /\
       failure_class (context_left w idle err) (has_deadline w) false err e) /\
  (forall ans segs a rs err, proper c segs ->
     reads w = ans ++ a :: rs -> segments_arrive ans segs -> fails_with a err ->
     let idle := (len segs =? 0) && (moved a =? 0) in
     (idle = true -> gives_up w err = None) ->
     exists e w', ReadTSDU (Some c) w = (Err e, w') /\ ended_by w' e /\
       failure_class (context_left w idle err) (has_deadline w) (0 <? len segs) err e).
Proof.
  intros He Hm. split; intros *.
  - intros Hlen Hw Hans Hf idle Hidle. destruct (WriteTSDU_fails c tsdu w ans a ws err) as (e & w' & Heq & Hs); try done.
    exists e, w'. split; [done|]. revert Hs. unfold settled. fold idle. destruct idle; rewrite ?Hidle by done; intros [[? _] ?]; done.
  - intros Hp Hr Hans Hf idle Hidle. destruct (ReadTSDU_fails c w ans segs a rs err) as (e & w' & Heq & Hs); try done.
    exists e, w'. split; [done|]. revert Hs. unfold settled. fold idle. destruct idle; rewrite ?Hidle by done; intros [[? _] ?]; done.
Qed.

(** A reset in the middle of a TSDU, and an EOF before a write. *)
Lemma io_errors_classified_witness :
  let c := sample_conn 128 in
  let reset := Foreign syscall_ECONNRESET (Some false) in
  let eof := Foreign io_EOF None in
  let w := mkWorld [packet [2; 240; 0; 7]; mkAnswer 0 None (inr reset)] [mkAnswer 0 None (inr eof)]
    [] [] [] false None None [] 0 0 0 false false (mkAllocator 2 {[1]}) open_term in
  (exists e w', WriteTSDU (Some c) [1] w = (Err e, w') /\ ended_by w' e /\
     errors_Is e ErrDisconnected = true /\ errors_Is e io_EOF = true) /\
  (exists e w', ReadTSDU (Some c) w = (Err e, w') /\ ended_by w' e /\
     errors_Is e ErrIncompleteTSDU = true /\ errors_Is e ErrDisconnected = true /\ errors_Is e syscall_ECONNRESET = true).
Proof.
  intros c reset eof w.
  destruct (io_errors_classified c w) as [HW HR]; [split_and!; [done|done|by left]|decide_now|]. split.
  - destruct (HW [1] [] (mkAnswer 0 None (inr eof)) [] eof) as (e & w' & Heq & He & _ & Hd & _ & Hs & _);
      [decide_now|done|split; [done|decide_now]|by split_and!|done|].
    exists e, w'. split_and!; [exact Heq|exact He|apply Hd; by left|by apply Hs].
  - destruct (HR [packet [2; 240; 0; 7]] [[7]] (mkAnswer 0 None (inr reset)) [] reset)
      as (e & w' & Heq & He & Hi & Hd & _ & _ & Hs);
      [split; [repeat constructor; decide_now|decide_now]|done|repeat constructor|by split_and!|done|].
    exists e, w'. split_and!; [exact Heq|exact He|apply Hi; by left|apply Hd; by right|by apply Hs].
Defined.
