(* ===== verification/Ending.v ===== *)
(** * Ending a connection from several goroutines

    In Conn.v [finish] is one step.  In the code it is a [sync.Once] around a
    critical section, an atomic store, the close of the stream, the release of
    the reference and another store, and other goroutines look at the connection
    in between, with [terminalKind], [terminalError] and [state.Load].  Here each
    of those actions is a step, and any interleaving of the calls is a run.  The
    theorems say what of the one-step view remains. *)

From S2P Require Import Prelude Errors Types RefAlloc World Conn Tsdu TsduSpec.

(** What a goroutine calls: [finish] through [Close] or [abort], [requireOpen], or
    [classifyIOPhase] on an error that aborts with the given cause. *)
Inductive task :=
  | Finish (e : ending)
  | RequireOpen
  | Classify (cause : error).

(** The calls as Conn.v and Tsdu.v have them, in one step each. *)
Definition atomic (c : Conn) (t : task) : M (option error) :=
  match t with
  | Finish closed_by_user => finish c terminalClosed (Some (Sentinel ErrClosed))
  | Finish (aborted_with err) => abort c (Some err)
  | RequireOpen => fun w =>
      match requireOpen w with
      | (Ok _, w) => (Ok None, w)
      | (Err e, w) => (Ok (Some e), w)
      | (Panic, w) => (Panic, w)
      | (NoFuel, w) => (NoFuel, w)
      end
  | Classify cause =>
      do! t := get_terminal in
      if negb (bool_decide (fst t = terminalNone)) then ret (snd t) else abort c (Some cause)
  end.

(** The closure that [termOnce] runs, action by action. *)
Inductive closure_action :=
  | storing     (* termKind and termErr, under termMu *)
  | marking     (* state.Store(closing or aborted) *)
  | closing     (* raw.Close() *)
  | releasing   (* releaseRef() *)
  | sealing     (* state.Store(closed), for a Close *)
  | leaving.    (* the Once is done *)

(** [termOnce]: a caller of [Do] that is not the first waits for the first. *)
Inductive once :=
  | untouched
  | running (i : nat)
  | finished.

Inductive whereabouts :=
  | asking                         (* before terminalKind() *)
  | loading                        (* requireOpen, before state.Load() *)
  | doing (e : ending)             (* finish, before termOnce.Do *)
  | within (e : ending) (a : closure_action)
  | fetching (n : nat)             (* before the n-th terminalError() from the last *)
  | answered (r : option error).

Record ending_state := mkSystem {
  shared : world;
  termOnce_ : once;
  calls : list (task * whereabouts)
}.

Definition begin (t : task) : whereabouts :=
  match t with Finish e => doing e | RequireOpen | Classify _ => asking end.

(** [Close] returns the [terminalError] of [finish]; [abort] asks once more. *)
Definition readings (e : ending) : nat := match e with closed_by_user => 1 | aborted_with _ => 2 end.

Definition is_closed (e : ending) : bool := bool_decide (kind_of e = terminalClosed).

Definition act (c : Conn) (e : ending) (a : closure_action) (w : world) : world :=
  match a with
  | storing => let t := term w in set_term w (mkTerm (state t) (kind_of e) (Some (cause_of e)) true (refOnce t))
  | marking => set_state w (if is_closed e then stateClosing else stateAborted)
  | closing => closeConn w
  | releasing => releaseRef c w
  | sealing => if is_closed e then set_state w stateClosed else w
  | leaving => w
  end.

Definition next_action (a : closure_action) : option closure_action :=
  match a with
  | storing => Some marking
  | marking => Some closing
  | closing => Some releasing
  | releasing => Some sealing
  | sealing => Some leaving
  | leaving => None
  end.

(** The next action of call [i]; [None]: it is blocked in [Do], or has answered. *)
Definition ending_step (c : Conn) (s : ending_state) (i : nat) : option ending_state :=
  match calls s !! i with
  | None => None
  | Some (t, p) =>
      let w := shared s in
      let put w o p := Some (mkSystem w o (<[i := (t, p)]> (calls s))) in
      let o := termOnce_ s in
      match p with
      | asking =>
          if negb (bool_decide (termKind (term w) = terminalNone)) then put w o (fetching 1)
          else match t with
               | Classify cause => put w o (doing (aborted_with cause))
               | _ => put w o loading
               end
      | loading =>
          put w o (answered (if negb (bool_decide (state (term w) = stateOpen))
                             then Some (Errorf "%w" [Sentinel ErrClosed]) else None))
      | doing e =>
          match o with
          | untouched => put w (running i) (within e storing)
          | running _ => None
          | finished => put w o (fetching (readings e))
          end
      | within e a =>
          let w := act c e a w in
          match next_action a with
          | Some a => put w o (within e a)
          | None => put w finished (fetching (readings e))
          end
      | fetching n =>
          match n with
          | S (S n) => put w o (fetching (S n))
          | _ => put w o (answered (terminalError w))
          end
      | answered _ => None
      end
  end.

(** A run: goroutines call, and calls act. *)
Inductive event :=
  | Call (t : task)
  | Step (i : nat).

Definition move (c : Conn) (s : ending_state) (ev : event) : option ending_state :=
  match ev with
  | Call t => Some (mkSystem (shared s) (termOnce_ s) (calls s ++ [(t, begin t)]))
  | Step i => ending_step c s i
  end.

Fixpoint run (c : Conn) (s : ending_state) (evs : list event) : option ending_state :=
  match evs with
  | [] => Some s
  | ev :: evs => match move c s ev with Some s => run c s evs | None => None end
  end.

(** A connection that no one is ending. *)
Definition uncalled (w : world) : ending_state := mkSystem w untouched [].

(** The calls of a list in turn, each in one step. *)
Fixpoint serial (c : Conn) (ts : list task) (w : world) : list (outcome (option error)) * world :=
  match ts with
  | [] => ([], w)
  | t :: ts =>
      let '(r, w) := atomic c t w in
      let '(rs, w) := serial c ts w in (r :: rs, w)
  end.

(** ** The world between two actions of the closure *)

(** What the closure has done before an action. *)
Definition before (c : Conn) (e : ending) (a : closure_action) (w : world) : world :=
  let w1 := act c e storing w in
  let w2 := act c e marking w1 in
  let w3 := act c e closing w2 in
  let w4 := act c e releasing w3 in
  let w5 := act c e sealing w4 in
  match a with
  | storing => w
  | marking => w1
  | closing => w2
  | releasing => w3
  | sealing => w4
  | leaving => w5
  end.

Definition end_of (c : Conn) (e : ending) (w : world) : world := finish_ c (kind_of e) (Some (cause_of e)) w.

Section Runs.
Context (c : Conn) (w0 : world) (Hopen : term w0 = open_term).

Lemma before_leaving e : before c e leaving w0 = end_of c e w0.
Proof. unfold end_of, finish_, before, act, is_closed. by rewrite Hopen. Qed.

Lemma before_next e a a' : next_action a = Some a' -> act c e a (before c e a w0) = before c e a' w0.
Proof. by destruct a; intros [= <-]. Qed.

(** Only the first action writes the cause. *)
Lemma act_cause e a w : a <> storing ->
  termKind (term (act c e a w)) = termKind (term w) /\ termErr (term (act c e a w)) = termErr (term w).
Proof.
  intros Ha. destruct a; cbn [act]; try done.
  - unfold releaseRef. destruct (refOnce (term w)); [done|]. by destruct (negb _).
  - by destruct (is_closed e).
Qed.

Lemma before_cause e a : a <> storing ->
  termKind (term (before c e a w0)) = kind_of e /\ termErr (term (before c e a w0)) = Some (cause_of e).
Proof.
  intros Ha. destruct a; [done|..]; cbn [before];
    repeat match goal with |- context [act c e ?b ?w] =>
      lazymatch b with storing => fail | _ => destruct (act_cause e b w) as [-> ->]; [done|] end end; done.
Qed.

Lemma kind_not_none e : kind_of e <> terminalNone.
Proof. by destruct e. Qed.

Lemma before_error e a : a <> storing -> terminalError (before c e a w0) = Some (cause_of e).
Proof.
  intros Ha. destruct (before_cause e a Ha) as [Hk He]. unfold terminalError. rewrite Hk, He. by destruct e.
Qed.
(** ** What every run keeps *)

Definition ending_of (t : task) : option ending :=
  match t with Finish e => Some e | RequireOpen => None | Classify cause => Some (aborted_with cause) end.

(** A reader of the connection that sees the state of an end and not yet its
    cause. *)
Definition bare_closed : error := Errorf "%w" [Sentinel ErrClosed].

Definition is_finish (t : task) : bool := match t with Finish _ => true | _ => false end.

(** What can be said of a call when [seen] is the cause stored, if any. *)
Definition fits (seen : option ending) (o : once) (t : task) (p : whereabouts) : Prop :=
  match p with
  | asking => is_finish t = false
  | loading => t = RequireOpen
  | doing e | within e _ => ending_of t = Some e
  | fetching _ => (exists e, seen = Some e) /\ (is_finish t = true -> o = finished)
  | answered r =>
      match t with
      | RequireOpen => r = None \/ exists e, seen = Some e /\ (r = Some (cause_of e) \/ r = Some bare_closed)
      | _ => (exists e, seen = Some e /\ r = Some (cause_of e)) /\ (is_finish t = true -> o = finished)
      end
  end.

(** Some call would end the connection that way. *)
Definition has_call (s : ending_state) (e : ending) : Prop := exists i t p, calls s !! i = Some (t, p) /\ ending_of t = Some e.

(** How far the end is, and the world there. *)
Definition stands (s : ending_state) (seen : option ending) : Prop :=
  match termOnce_ s with
  | untouched => shared s = w0 /\ seen = None
  | running i => exists t e a, calls s !! i = Some (t, within e a) /\ shared s = before c e a w0 /\
      seen = match a with storing => None | _ => Some e end
  | finished => exists e, shared s = end_of c e w0 /\ seen = Some e /\ has_call s e
  end.

Definition inv (s : ending_state) : Prop := exists seen, stands s seen /\
  forall j t p, calls s !! j = Some (t, p) ->
    fits seen (termOnce_ s) t p /\ forall e a, p = within e a -> termOnce_ s = running j.

Lemma end_reads e : terminalError (end_of c e w0) = Some (cause_of e) /\ termKind (term (end_of c e w0)) = kind_of e.
Proof. rewrite <- before_leaving. split; [by apply before_error|by apply before_cause]. Qed.

(** What the calls that look read. *)
Lemma stands_reads s seen : stands s seen ->
  match seen with
  | None => shared s = w0
  | Some e => termKind (term (shared s)) = kind_of e /\ terminalError (shared s) = Some (cause_of e)
  end.
Proof.
  unfold stands. destruct (termOnce_ s) as [|i|].
  - by intros [-> ->].
  - intros (t & e & a & _ & -> & ->).
    pose proof (before_cause e a) as Hc. pose proof (before_error e a) as He.
    destruct a; [done|..]; (split; [by apply Hc|by apply He]).
  - intros (e & -> & -> & _). by destruct (end_reads e).
Qed.

Lemma stands_none s seen : stands s seen -> termKind (term (shared s)) = terminalNone -> seen = None.
Proof.
  intros Hs Hk. pose proof (stands_reads s seen Hs) as Hr. destruct seen as [e|]; [|done].
  destruct Hr as [Hr _]. rewrite Hk in Hr. by destruct e.
Qed.

Lemma fits_mono seen seen' o o' t p :
  fits seen o t p -> (seen = None \/ seen = seen') -> (o = finished -> o' = finished) -> fits seen' o' t p.
Proof.
  intros H Hs Ho. destruct Hs as [->|<-].
  - destruct p as [| |e|e a|n|r]; cbn in *; try done; [by destruct H as [[? [=]] _]|].
    destruct t; [by destruct H as [(? & [=] & _) _]| |by destruct H as [(? & [=] & _) _]].
    destruct H as [->|(? & [=] & _)]. by left.
  - destruct p as [| |e|e a|n|r]; cbn in *; try done; [tauto|]. destruct t; tauto.
Qed.

(** One call moves, the others are as they were. *)
Lemma ending_inv_put s seen i t p w o p' seen' :
  stands s seen ->
  (forall j t p, calls s !! j = Some (t, p) -> fits seen (termOnce_ s) t p /\ forall e a, p = within e a -> termOnce_ s = running j) ->
  calls s !! i = Some (t, p) ->
  (seen = None \/ seen = seen') -> (termOnce_ s = finished -> o = finished) ->
  (forall j, j <> i -> termOnce_ s = running j -> o = running j) ->
  stands (mkSystem w o (<[i := (t, p')]> (calls s))) seen' ->
  fits seen' o t p' -> (forall e a, p' = within e a -> o = running i) ->
  inv (mkSystem w o (<[i := (t, p')]> (calls s))).
Proof.
  intros Hst Hc Hi Hseen Hfin Hrun Hst' Hfit Hw. exists seen'. split; [done|]. cbn [calls termOnce_].
  intros j t1 p1 Hj. destruct (decide (j = i)) as [->|Hne].
  - rewrite list_lookup_insert_eq in Hj by (by eapply lookup_lt_Some). by injection Hj as <- <-.
  - rewrite list_lookup_insert_ne in Hj by done. destruct (Hc j t1 p1 Hj) as [Hf Hwi].
    split; [by eapply fits_mono|]. intros e a Hp. apply Hrun; [done|]. by eapply Hwi.
Qed.

Lemma has_call_put s i t p p' w o e :
  calls s !! i = Some (t, p) -> has_call s e -> has_call (mkSystem w o (<[i := (t, p')]> (calls s))) e.
Proof.
  intros Hi (j & t1 & p1 & Hj & He). destruct (decide (j = i)) as [->|Hne].
  - exists i, t, p'. cbn. rewrite list_lookup_insert_eq by (by eapply lookup_lt_Some). split; [done|]. congruence.
  - exists j, t1, p1. cbn. by rewrite list_lookup_insert_ne.
Qed.

(** A call that is not in the closure moves, and the end is where it was. *)
Lemma stands_put s seen i t p p' :
  stands s seen -> calls s !! i = Some (t, p) -> (forall e a, p = within e a -> False) ->
  stands (mkSystem (shared s) (termOnce_ s) (<[i := (t, p')]> (calls s))) seen.
Proof.
  intros Hs Hi Hp. unfold stands in *. cbn [termOnce_ shared calls]. destruct (termOnce_ s) as [|j|]; [done| |].
  - destruct Hs as (t1 & e & a & Hj & Hw). exists t1, e, a. split; [|done].
    rewrite list_lookup_insert_ne; [done|]. intros ->. rewrite Hi in Hj. injection Hj as _ ->. by eapply Hp.
  - destruct Hs as (e & Hw & He & Hc). exists e. split_and!; try done. by eapply has_call_put.
Qed.
(** A call that only looks moves. *)
Lemma inv_look s seen i t p p' :
  stands s seen ->
  (forall j t p, calls s !! j = Some (t, p) -> fits seen (termOnce_ s) t p /\ forall e a, p = within e a -> termOnce_ s = running j) ->
  calls s !! i = Some (t, p) -> (forall e a, p = within e a -> False) -> (forall e a, p' = within e a -> False) ->
  fits seen (termOnce_ s) t p' ->
  inv (mkSystem (shared s) (termOnce_ s) (<[i := (t, p')]> (calls s))).
Proof.
  intros Hst Hc Hi Hp Hp' Hf. apply (ending_inv_put s seen i t p _ _ p' seen); try done; [by right|by eapply stands_put|].
  intros e a E. by destruct (Hp' e a E).
Qed.

Lemma seen_some s seen : stands s seen -> termKind (term (shared s)) <> terminalNone -> exists e, seen = Some e.
Proof.
  intros Hs Hk. pose proof (stands_reads s seen Hs) as Hr. destruct seen as [e|]; [by exists e|].
  rewrite Hr, Hopen in Hk. by destruct Hk.
Qed.

(** The answer of a last reading. *)
Lemma fits_answer s seen t n :
  stands s seen -> fits seen (termOnce_ s) t (fetching n) ->
  fits seen (termOnce_ s) t (answered (terminalError (shared s))).
Proof.
  intros Hs [[e He] Hf]. pose proof (stands_reads s seen Hs) as Hr. subst seen. destruct Hr as [_ Hr]. cbn.
  destruct t; [split; [by exists e|done]| |split; [by exists e|done]]. right. exists e. split; [done|]. by left.
Qed.

Definition all_fit (s : ending_state) (seen : option ending) : Prop := forall j t p,
  calls s !! j = Some (t, p) -> fits seen (termOnce_ s) t p /\ forall e a, p = within e a -> termOnce_ s = running j.

Lemma inv_doing s s' seen i t e :
  stands s seen -> all_fit s seen -> calls s !! i = Some (t, doing e) -> ending_step c s i = Some s' -> inv s'.
Proof.
  intros Hst Hc Hi H. destruct (Hc i t _ Hi) as [Hf _]. cbn in Hf. unfold ending_step in H. rewrite Hi in H.
  destruct (termOnce_ s) as [|j|] eqn:Ho; [|done|]; injection H as <-.
  - pose proof Hst as Hw. unfold stands in Hw. rewrite Ho in Hw. destruct Hw as [Hw ->].
    apply (ending_inv_put s None i t (doing e) _ _ _ None); try done; [by left|by rewrite Ho|by rewrite Ho|].
    exists t, e, storing. cbn. split_and!; [|done|done]. by rewrite list_lookup_insert_eq by (by eapply lookup_lt_Some).
  - rewrite <- Ho. apply (inv_look s seen i t (doing e)); try done. rewrite Ho. cbn. split; [|done].
    unfold stands in Hst. rewrite Ho in Hst. destruct Hst as (e' & _ & -> & _). by exists e'.
Qed.

Lemma inv_within s s' seen i t e a :
  stands s seen -> all_fit s seen -> calls s !! i = Some (t, within e a) -> ending_step c s i = Some s' -> inv s'.
Proof.
  intros Hst Hc Hi H. destruct (Hc i t _ Hi) as [Hf Hw]. specialize (Hw e a eq_refl). cbn in Hf.
  unfold ending_step in H. rewrite Hi in H. pose proof Hst as Hr. unfold stands in Hr. rewrite Hw in Hr.
  destruct Hr as (t1 & e1 & a1 & Hi1 & Hsh & Hseen). rewrite Hi in Hi1. injection Hi1 as <- <- <-.
  pose proof (lookup_lt_Some _ _ _ Hi) as Hlt.
  destruct (next_action a) as [a'|] eqn:Ha; injection H as <-; rewrite Hsh.
  - rewrite (before_next e a a' Ha), Hw.
    apply (ending_inv_put s seen i t (within e a) _ _ _ (match a' with storing => None | _ => Some e end)); try done.
    + destruct a; try discriminate Ha; injection Ha as <-; (by left) || (by right).
    + by rewrite Hw.
    + by rewrite Hw.
    + exists t, e, a'. cbn. split_and!; try done. by rewrite list_lookup_insert_eq.
  - destruct a; try discriminate Ha. cbn [act]. rewrite before_leaving.
    apply (ending_inv_put s seen i t (within e leaving) _ _ _ (Some e)); try done.
    + by right.
    + intros j Hne Hj. congruence.
    + exists e. cbn. split_and!; try done. exists i, t, (fetching (readings e)). cbn. by rewrite list_lookup_insert_eq.
    + cbn. split; [by exists e|done].
Qed.

Lemma inv_step s s' i : inv s -> ending_step c s i = Some s' -> inv s'.
Proof.
  intros (seen & Hst & Hc) H. pose proof H as Hs. unfold ending_step in H.
  destruct (calls s !! i) as [[t p]|] eqn:Hi; [|done]. destruct (Hc i t p Hi) as [Hf Hw].
  destruct p as [| |e|e a|n|r]; [| | | | |done].
  - destruct (bool_decide (termKind (term (shared s)) = terminalNone)) eqn:E; cbn [negb] in H.
    + apply bool_decide_eq_true in E. cbn in Hf.
      destruct t as [e| |cause]; [done| |]; injection H as <-; by apply (inv_look s seen i _ asking).
    + apply bool_decide_eq_false in E. injection H as <-. apply (inv_look s seen i t asking); try done.
      split; [by eapply seen_some|]. cbn in Hf. by rewrite Hf.
  - injection H as <-. apply (inv_look s seen i t loading); try done. cbn in Hf |- *. subst t.
    destruct (bool_decide (state (term (shared s)) = stateOpen)) eqn:E; [by left|]. right.
    pose proof (stands_reads s seen Hst) as Hr. destruct seen as [e|].
    + exists e. split; [done|]. by right.
    + rewrite Hr, Hopen in E. done.
  - by eapply inv_doing.
  - by eapply inv_within.
  - assert (fits seen (termOnce_ s) t (fetching (S 0)) /\ fits seen (termOnce_ s) t (answered (terminalError (shared s)))) as [Hf1 Ha].
    { split; [exact Hf|]. by eapply fits_answer. }
    destruct n as [|[|n]]; injection H as <-; by eapply inv_look.
Qed.
Lemma lookup_snoc_inv {A} (l : list A) x j y : (l ++ [x]) !! j = Some y -> l !! j = Some y \/ (j = length l /\ y = x).
Proof.
  intros H. destruct (decide (j < length l)%nat).
  - left. by rewrite lookup_app_l in H.
  - right. rewrite lookup_app_r in H by lia. apply list_lookup_singleton_Some in H as [? <-]. split; [lia|done].
Qed.

Lemma inv_call s t : inv s -> inv (mkSystem (shared s) (termOnce_ s) (calls s ++ [(t, begin t)])).
Proof.
  intros (seen & Hst & Hc). exists seen. split.
  - unfold stands in *. cbn [termOnce_ shared calls]. destruct (termOnce_ s) as [|j|]; [done| |].
    + destruct Hst as (t1 & e & a & Hj & Hr). exists t1, e, a. split; [|done].
      rewrite lookup_app_l; [done|]. by eapply lookup_lt_Some.
    + destruct Hst as (e & Hw & He & (k & t1 & p1 & Hk & Hr)). exists e. split_and!; try done.
      exists k, t1, p1. split; [|done]. cbn. rewrite lookup_app_l; [done|]. by eapply lookup_lt_Some.
  - cbn [calls termOnce_]. intros j t1 p1 [Hj|[-> [= -> ->]]]%lookup_snoc_inv; [by apply Hc|].
    split; [by destruct t|]. intros e a. by destruct t.
Qed.

Lemma inv_move s ev s' : inv s -> move c s ev = Some s' -> inv s'.
Proof.
  intros Hs H. destruct ev as [t|i]; cbn [move] in H; [|by eapply inv_step].
  injection H as <-. by apply inv_call.
Qed.

Lemma inv_run evs : forall s s', inv s -> run c s evs = Some s' -> inv s'.
Proof.
  induction evs as [|ev evs IH]; intros s s' Hs H; cbn [run] in H; [by injection H as <-|].
  destruct (move c s ev) as [s1|] eqn:E; [|done]. eapply IH; [|exact H]. by eapply inv_move.
Qed.

Lemma inv_uncalled : inv (uncalled w0).
Proof. exists None. split; [done|]. intros j t p H. by destruct j. Qed.

Lemma inv_reached evs s : run c (uncalled w0) evs = Some s -> inv s.
Proof. apply inv_run, inv_uncalled. Qed.

(** The world on the way to the end. *)
Lemma before_counts e a :
  let w := before c e a w0 in
  (closes w0 <= closes w <= S (closes w0))%nat /\ (refs w = refs w0 \/ refs w = release_own c (refs w0)).
Proof.
  assert (forall w, closes (releaseRef c w) = closes w) as Hr.
  { intros w. unfold releaseRef. destruct (refOnce (term w)); [done|]. by destruct (negb _). }
  assert (refs (releaseRef c (closeConn (act c e marking (act c e storing w0)))) = release_own c (refs w0)) as Hrel.
  { unfold releaseRef, release_own. cbn. rewrite Hopen. cbn. by destruct (localRef c =? 0). }
  destruct a; cbn [before]; cbn [act]; try (cbn; split; [lia|by left]).
  - rewrite Hr. cbn [act] in Hrel. rewrite Hrel. cbn. split; [lia|by right].
  - cbn [act] in Hrel. destruct (is_closed e); cbn; rewrite ?Hr, ?Hrel; cbn; (split; [lia|by right]).
Qed.

Lemma stands_counts s seen : stands s seen ->
  (closes w0 <= closes (shared s) <= S (closes w0))%nat /\
  (refs (shared s) = refs w0 \/ refs (shared s) = release_own c (refs w0)).
Proof.
  unfold stands. destruct (termOnce_ s) as [|i|].
  - intros [-> _]. split; [lia|by left].
  - intros (t & e & a & _ & -> & _). apply before_counts.
  - intros (e & -> & _). rewrite <- before_leaving. apply before_counts.
Qed.

(** ** Calls made after the end *)

(** A call made when the connection had ended that way. *)
Definition late (e : ending) (t : task) (p : whereabouts) : Prop :=
  match p with
  | asking | doing _ | fetching _ => True
  | answered r => r = Some (cause_of e)
  | loading | within _ _ => False
  end.

Definition over (e : ending) (n : nat) (s : ending_state) : Prop :=
  termOnce_ s = finished /\ shared s = end_of c e w0 /\ (n <= length (calls s))%nat /\
  forall j t p, (n <= j)%nat -> calls s !! j = Some (t, p) -> late e t p.

(** Calls made before may still be on their way, but not within the closure. *)
Lemma over_step e n s i s' : inv s -> over e n s -> ending_step c s i = Some s' -> over e n s'.
Proof.
  intros (seen & Hst & Hc) (Ho & Hsh & Hn & Hl) H. unfold ending_step in H.
  destruct (calls s !! i) as [[t p]|] eqn:Hi; [|done]. destruct (Hc i t p Hi) as [Hf Hw].
  destruct (end_reads e) as [Herr Hkind].
  assert (forall p', late e t p' \/ (i < n)%nat -> over e n (mkSystem (shared s) (termOnce_ s) (<[i := (t, p')]> (calls s)))) as Hput.
  { intros p' Hp'. split_and!; try done; [cbn [calls]; by rewrite length_insert|]. intros j t1 p1 Hj Hlk. cbn in Hlk.
    destruct (decide (j = i)) as [->|Hne].
    - rewrite list_lookup_insert_eq in Hlk by (by eapply lookup_lt_Some). injection Hlk as <- <-. destruct Hp'; [done|lia].
    - rewrite list_lookup_insert_ne in Hlk by done. by eapply Hl. }
  destruct p as [| |e1|e1 a|k|r]; [| | | | |done].
  - rewrite bool_decide_eq_false_2 in H by (rewrite Hsh, Hkind; apply kind_not_none). injection H as <-. apply Hput. by left.
  - injection H as <-. apply Hput. destruct (decide (n <= i)%nat) as [Hle|]; [|right; lia].
    by destruct (Hl i t loading Hle Hi).
  - rewrite Ho in *. injection H as <-. apply Hput. by left.
  - specialize (Hw e1 a eq_refl). congruence.
  - rewrite Hsh, Herr in H.
    destruct k as [|[|k]]; injection H as <-; rewrite <- Hsh; apply Hput; by left.
Qed.

Lemma over_run e n evs : forall s s', inv s -> over e n s -> run c s evs = Some s' -> over e n s'.
Proof.
  induction evs as [|ev evs IH]; intros s s' Hs Hov H; cbn [run] in H; [by injection H as <-|].
  destruct (move c s ev) as [s1|] eqn:E; [|done].
  assert (inv s1) as Hs1 by (by eapply inv_move). eapply IH; [exact Hs1| |exact H].
  destruct ev as [t|i]; cbn [move] in E; [|exact (over_step e n s i s1 Hs Hov E)]. injection E as <-.
  destruct Hov as (Ho & Hsh & Hn & Hl). split_and!; try done; [cbn; rewrite length_app; lia|].
  cbn [calls]. intros j t1 p1 Hj [Hlk|[-> [= -> ->]]]%lookup_snoc_inv; [by eapply Hl|]. by destruct t.
Qed.

Lemma over_start e s : termOnce_ s = finished -> shared s = end_of c e w0 -> over e (length (calls s)) s.
Proof.
  intros Ho Hs. split_and!; try done. intros j t p Hj Hlk. apply lookup_lt_Some in Hlk. lia.
Qed.
End Runs.

(** ** Progress *)

(** The actions a call has left, at most. *)
Definition left_ (p : whereabouts) : nat :=
  match p with
  | asking => 12
  | loading => 1
  | doing _ => 11
  | within _ a =>
      match a with storing => 10 | marking => 9 | closing => 8 | releasing => 7 | sealing => 6 | leaving => 5 end
  | fetching n => S n
  | answered _ => 0
  end.

Definition work (s : ending_state) : nat := sum_list_with (fun x => left_ x.2) (calls s).

Lemma sum_insert {A} (f : A -> nat) l i x y :
  l !! i = Some x -> (sum_list_with f (<[i := y]> l) + f x = sum_list_with f l + f y)%nat.
Proof.
  revert i. induction l as [|z l IH]; intros [|i] Hi; [done..| |]; cbn in Hi |- *.
  - injection Hi as ->. lia.
  - specialize (IH i Hi).
    change (f z + sum_list_with f (<[i := y]> l) + f x = f z + sum_list_with f l + f y)%nat. lia.
Qed.

Lemma ending_work_put s w o i t p q :
  calls s !! i = Some (t, p) -> (left_ q < left_ p)%nat -> (work (mkSystem w o (<[i := (t, q)]> (calls s))) < work s)%nat.
Proof.
  intros Hi Hlt. unfold work. cbn [calls]. pose proof (sum_insert (fun x => left_ x.2) (calls s) i (t, p) (t, q) Hi) as H.
  cbn in H. lia.
Qed.

Lemma readings_le e : (readings e <= 2)%nat.
Proof. destruct e; cbn; lia. Qed.

(** Every action brings its call nearer to its answer. *)
Lemma ending_step_put c s i s' : ending_step c s i = Some s' ->
  exists t p q w o, calls s !! i = Some (t, p) /\ s' = mkSystem w o (<[i := (t, q)]> (calls s)) /\ (left_ q < left_ p)%nat.
Proof.
  unfold ending_step. intros H. destruct (calls s !! i) as [[t p]|] eqn:Hi; [|done].
  destruct p as [| |e|e a|n|r]; [| | | | |done].
  - destruct (negb _); [|destruct t]; injection H as <-; eexists _, _, _, _, _; (split_and!; [done|done|cbn; lia]).
  - injection H as <-. eexists _, _, _, _, _. split_and!; [done|done|cbn; lia].
  - pose proof (readings_le e). destruct (termOnce_ s); [|done|]; injection H as <-; eexists _, _, _, _, _; (split_and!; [done|done|cbn; lia]).
  - pose proof (readings_le e). destruct a; injection H as <-; eexists _, _, _, _, _; (split_and!; [done|done|cbn; lia]).
  - destruct n as [|[|n]]; injection H as <-; eexists _, _, _, _, _; (split_and!; [done|done|cbn; lia]).
Qed.

Lemma ending_step_work c s i s' : ending_step c s i = Some s' -> (work s' < work s)%nat.
Proof. intros (t & p & q & w & o & Hi & -> & Hlt)%ending_step_put. by eapply ending_work_put. Qed.

Lemma run_steps_work c steps : forall s s', run c s (map Step steps) = Some s' -> (length steps + work s' <= work s)%nat.
Proof.
  induction steps as [|i steps IH]; intros s s' H; cbn [map run move] in H; [injection H as <-; cbn; lia|].
  destruct (ending_step c s i) as [s1|] eqn:E; [|done]. pose proof (ending_step_work _ _ _ _ E). specialize (IH _ _ H). cbn. lia.
Qed.

(** No call has more than twelve actions left. *)
Definition short (s : ending_state) : Prop := Forall (fun x => left_ x.2 <= 12)%nat (calls s).

Lemma put_short s w o i t p q :
  calls s !! i = Some (t, p) -> (left_ q < left_ p)%nat -> short s -> short (mkSystem w o (<[i := (t, q)]> (calls s))).
Proof.
  intros Hi Hlt Hs. unfold short in *. cbn [calls]. apply Forall_insert; [done|]. cbn.
  eapply Forall_lookup_1 in Hs; [|exact Hi]. cbn in Hs. lia.
Qed.

Lemma move_short c s ev s' : short s -> move c s ev = Some s' -> short s'.
Proof.
  intros Hs H. destruct ev as [t|i]; cbn [move] in H.
  - injection H as <-. unfold short. cbn [calls]. apply Forall_app. split; [done|]. apply Forall_singleton. destruct t; cbn; lia.
  - apply ending_step_put in H as (t & p & q & w & o & Hi & -> & Hlt). by eapply put_short.
Qed.

Lemma run_short c evs : forall s s', short s -> run c s evs = Some s' -> short s'.
Proof.
  induction evs as [|ev evs IH]; intros s s' Hs H; cbn [run] in H; [by injection H as <-|].
  destruct (move c s ev) as [s1|] eqn:E; [|done]. eapply IH; [|exact H]. by eapply move_short.
Qed.

Lemma short_work s : short s -> (work s <= 12 * length (calls s))%nat.
Proof.
  unfold short, work. induction 1 as [|x l Hx _ IH]; [done|]. cbn [sum_list_with length]. lia.
Qed.

(** A call moves unless it has answered or waits for the Once. *)
Lemma can_move c s i t p :
  calls s !! i = Some (t, p) -> (forall r, p <> answered r) ->
  (exists s', ending_step c s i = Some s') \/ ((exists e, p = doing e) /\ exists j, termOnce_ s = running j).
Proof.
  intros Hi Hr. unfold ending_step. rewrite Hi. destruct p as [| |e|e a|n|r].
  - left. destruct (negb _); [|destruct t]; by eexists.
  - left. by eexists.
  - destruct (termOnce_ s) as [|j|]; [left; by eexists| |left; by eexists]. right. split; [by eexists|by exists j].
  - left. destruct (next_action a); by eexists.
  - left. destruct n as [|[|n]]; by eexists.
  - by destruct (Hr r).
Qed.

Definition has_answered (x : task * whereabouts) : bool := match x.2 with answered _ => true | _ => false end.

Lemma someone_moves c w0 s : inv c w0 s ->
  Forall (fun x => has_answered x = true) (calls s) \/ exists i s', ending_step c s i = Some s'.
Proof.
  intros (seen & Hst & Hc).
  destruct (decide (Forall (fun x => has_answered x = true) (calls s))) as [|Hn]; [by left|right].
  assert (Exists (fun x => ~ has_answered x = true) (calls s)) as Hx by (by apply not_Forall_Exists in Hn; [|apply _]).
  apply Exists_exists in Hx as ([t p] & [i Hi]%list_elem_of_lookup & Hp).
  destruct (can_move c s i t p Hi) as [(s' & H)|[_ [j Hj]]]; [|by exists i, s'|].
  - intros r ->. by destruct Hp.
  - unfold stands in Hst. rewrite Hj in Hst. destruct Hst as (t1 & e & a & Hj1 & _).
    destruct (can_move c s j t1 _ Hj1) as [(s' & H)|[[e' [=]] _]]; [done|]. by exists j, s'.
Qed.

(** ** The calls in some order, each in one step *)

Section Serial.
Context (c : Conn) (w0 : world) (Hopen : term w0 = open_term).

Lemma end_of_term e : term (end_of c e w0) = ended_term e.
Proof. by apply (finish_ended c e w0 Hopen). Qed.

Lemma atomic_first t e : ending_of t = Some e -> atomic c t w0 = (Ok (Some (cause_of e)), end_of c e w0).
Proof.
  pose proof (terminalError_ended _ _ (end_of_term e)) as Herr. intros Ht.
  destruct t as [[|err]| |cause]; cbn [ending_of] in Ht; [| |done|]; injection Ht as <-; unfold end_of in *; cbn [kind_of cause_of] in *; cbn [atomic].
  - unfold finish. by rewrite Herr.
  - unfold abort, finish, mbind_. by rewrite Herr.
  - unfold mbind_ at 1, get_terminal. cbn [fst]. rewrite Hopen. cbn [termKind open_term].
    rewrite bool_decide_eq_true_2 by done. cbn [negb]. unfold abort, finish, mbind_. by rewrite Herr.
Qed.

Lemma atomic_open : atomic c RequireOpen w0 = (Ok None, w0).
Proof. cbn. unfold requireOpen. by rewrite Hopen. Qed.

Lemma atomic_later t e : atomic c t (end_of c e w0) = (Ok (Some (cause_of e)), end_of c e w0).
Proof.
  pose proof (end_of_term e) as Ht. pose proof (terminalError_ended _ _ Ht) as Herr.
  assert (forall k err, finish_ c k err (end_of c e w0) = end_of c e w0) as Hf by (intros; by eapply finish_already).
  destruct t as [[|err]| |cause]; cbn [atomic].
  - unfold finish. by rewrite Hf, Herr.
  - unfold abort, finish, mbind_. by rewrite Hf, Herr.
  - unfold requireOpen. rewrite Ht, Herr. by destruct e.
  - unfold mbind_, get_terminal. rewrite Ht, Herr. by destruct e.
Qed.

Lemma serial_app ts us w :
  serial c (ts ++ us) w = let '(rs, w) := serial c ts w in let '(ss, w) := serial c us w in (rs ++ ss, w).
Proof.
  revert w. induction ts as [|t ts IH]; intros w; cbn [app serial]; [by destruct (serial c us w)|].
  destruct (atomic c t w) as [r w1]. rewrite IH. destruct (serial c ts w1) as [rs w2]. by destruct (serial c us w2).
Qed.

(** A call's answer, beside the one it has in some order: they are the same, but
    that [requireOpen] may have seen the state of the end before its cause. *)
Definition agrees (x : task * option error) (r : outcome (option error)) : Prop :=
  r = Ok x.2 \/ (x.1 = RequireOpen /\ x.2 = Some bare_closed).

Lemma serial_open l :
  Forall (fun x : task * option error => x.1 = RequireOpen /\ x.2 = None) l ->
  exists rs, serial c (map fst l) w0 = (rs, w0) /\ Forall2 agrees l rs.
Proof.
  induction 1 as [|[t r] l [Ht Hr] _ (rs & Hs & Ha)]; [by exists []|]. cbn in Ht, Hr. subst t r.
  exists (Ok None :: rs). cbn [map fst serial]. rewrite atomic_open, Hs. split; [done|]. constructor; [by left|done].
Qed.

Lemma serial_ended e l :
  Forall (fun x : task * option error => x.2 = Some (cause_of e) \/ (x.1 = RequireOpen /\ x.2 = Some bare_closed)) l ->
  exists rs, serial c (map fst l) (end_of c e w0) = (rs, end_of c e w0) /\ Forall2 agrees l rs.
Proof.
  induction 1 as [|[t r] l Hr _ (rs & Hs & Ha)]; [by exists []|]. cbn in Hr.
  exists (Ok (Some (cause_of e)) :: rs). cbn [map fst serial]. rewrite atomic_later, Hs. split; [done|].
  constructor; [|done]. destruct Hr as [->|[-> ->]]; [by left|by right].
Qed.
End Serial.

(** The calls that have answered, with their answers. *)
Definition answers (s : ending_state) : list (task * option error) :=
  omap (fun '(t, p) => match p with answered r => Some (t, r) | _ => None end) (calls s).

Lemma answers_lookup s t r : (t, r) ∈ answers s -> exists j, calls s !! j = Some (t, answered r).
Proof.
  intros ([t1 p] & Hin & Hp)%list_elem_of_omap. apply list_elem_of_lookup in Hin as [j Hj]. exists j.
  destruct p; try done. by injection Hp as -> ->.
Qed.

Lemma answers_elem s j t r : calls s !! j = Some (t, answered r) -> (t, r) ∈ answers s.
Proof. intros Hj. apply list_elem_of_omap. exists (t, answered r). split; [by eapply list_elem_of_lookup_2|done]. Qed.

(** ** Properties *)

(** C12: the first cause wins, and the end happens once.  Whatever calls are made
    of an open connection and however their actions interleave, the stream is
    closed once at most and the reference given back once at most.  When a [Close]
    or [abort] returns, the end is complete, as the one-step [finish] makes it;
    the error is the cause that some call gave, and the same for every call that
    ends the connection.  After that nothing changes any more, and every call made
    later gets that cause. *)
Theorem first_cause_wins c w0 evs s :
  term w0 = open_term -> run c (uncalled w0) evs = Some s ->
  (closes w0 <= closes (shared s) <= S (closes w0))%nat /\
  (refs (shared s) = refs w0 \/ refs (shared s) = release_own c (refs w0)) /\
  forall i e0 r, calls s !! i = Some (Finish e0, answered r) ->
    exists e, r = Some (cause_of e) /\ has_call s e /\
      shared s = finish_ c (kind_of e) (Some (cause_of e)) w0 /\
      (forall j t r', calls s !! j = Some (t, answered r') -> t <> RequireOpen -> r' = r) /\
      forall later s', run c s later = Some s' ->
        shared s' = shared s /\
        forall k t r', (length (calls s) <= k)%nat -> calls s' !! k = Some (t, answered r') -> r' = r.
Proof.
  intros Hopen Hrun. pose proof (inv_reached c w0 Hopen evs s Hrun) as Hinv.
  pose proof Hinv as (seen & Hst & Hc). split; [|split].
  - by apply (stands_counts c w0 Hopen s seen).
  - by apply (stands_counts c w0 Hopen s seen).
  - intros i e0 r Hi. destruct (Hc i _ _ Hi) as [[(e & -> & ->) Hfin] _]. specialize (Hfin eq_refl).
    unfold stands in Hst. rewrite Hfin in Hst. destruct Hst as (e1 & Hsh & [= <-] & Hcall).
    exists e. split_and!; try done.
    + intros j t r' Hj Ht. destruct (Hc j _ _ Hj) as [Hf _]. cbn in Hf.
      destruct t; [|done|]; by destruct Hf as [(? & [= <-] & ->) _].
    + intros later s' Hl.
      destruct (over_run c w0 Hopen e _ later s s' Hinv (over_start c w0 e s Hfin Hsh) Hl) as (_ & -> & _ & Hlate).
      split; [done|]. intros k t r' Hk Hlk. exact (Hlate k t _ Hk Hlk).
Qed.

(** Two closers, a reader that finds the peer gone, and one that has not begun. *)
Definition sample_race : list event :=
  [Call (Finish closed_by_user); Call (Finish (aborted_with (Foreign io_EOF None))); Call RequireOpen;
   Step 1; Step 1; Step 2; Step 1; Step 1; Step 1; Step 1; Step 1; Step 1; Step 1; Step 0; Step 0; Step 2].

Lemma first_cause_wins_witness :
  let w0 := quiet_world [] in
  let c := sample_conn 5 in
  let s := default (uncalled w0) (run c (uncalled w0) sample_race) in
  run c (uncalled w0) sample_race = Some s /\
  calls s !! 1%nat = Some (Finish (aborted_with (Foreign io_EOF None)), answered (Some (Foreign io_EOF None))) /\
  (closes w0 <= closes (shared s) <= S (closes w0))%nat /\
  (refs (shared s) = refs w0 \/ refs (shared s) = release_own c (refs w0)) /\
  forall i e0 r, calls s !! i = Some (Finish e0, answered r) ->
    exists e, r = Some (cause_of e) /\ has_call s e /\
      shared s = finish_ c (kind_of e) (Some (cause_of e)) w0 /\
      (forall j t r', calls s !! j = Some (t, answered r') -> t <> RequireOpen -> r' = r) /\
      forall later s', run c s later = Some s' ->
        shared s' = shared s /\
        forall k t r', (length (calls s) <= k)%nat -> calls s' !! k = Some (t, answered r') -> r' = r.
Proof.
  intros w0 c s. assert (run c (uncalled w0) sample_race = Some s) as Hrun by reflexivity.
  split; [exact Hrun|]. split; [reflexivity|].
  apply (first_cause_wins c w0 sample_race s); [reflexivity|exact Hrun].
Defined.

(** When every call has answered, one of them would end the connection or none. *)
Lemma all_answered c w0 s :
  inv c w0 s -> Forall (fun x => has_answered x = true) (calls s) ->
  (shared s = w0 /\ Forall (fun x : task * option error => x.1 = RequireOpen /\ x.2 = None) (answers s)) \/
  exists e t, shared s = end_of c e w0 /\ ending_of t = Some e /\ (t, Some (cause_of e)) ∈ answers s /\
    Forall (fun x : task * option error =>
      x.2 = Some (cause_of e) \/ (x.1 = RequireOpen /\ (x.2 = None \/ x.2 = Some bare_closed))) (answers s).
Proof.
  intros (seen & Hst & Hc) Hall.
  assert (forall i t p, calls s !! i = Some (t, p) -> exists r, p = answered r) as Hans.
  { intros i t p Hi. eapply Forall_lookup_1 in Hall; [|exact Hi]. destruct p; try discriminate Hall. by eexists. }
  unfold stands in Hst. destruct (termOnce_ s) as [|i|].
  - destruct Hst as [Hw ->]. left. split; [done|]. apply Forall_forall. intros [t r] [j Hj]%answers_lookup.
    destruct (Hc j _ _ Hj) as [Hf _]. cbn in Hf.
    destruct t; [by destruct Hf as [(? & [=] & _) _]| |by destruct Hf as [(? & [=] & _) _]].
    by destruct Hf as [->|(? & [=] & _)].
  - destruct Hst as (t & e & a & Hi & _). by destruct (Hans i t _ Hi) as [r [=]].
  - destruct Hst as (e & Hw & -> & (i & t & p & Hi & He)). right. exists e, t.
    destruct (Hans i t p Hi) as [r ->]. pose proof (Hc i _ _ Hi) as [Hf _]. cbn in Hf.
    assert (r = Some (cause_of e)) as ->.
    { destruct t; [by destruct Hf as [(? & [= <-] & ->) _]|done|by destruct Hf as [(? & [= <-] & ->) _]]. }
    split_and!; try done; [by eapply answers_elem|]. apply Forall_forall. intros [t' r] [j Hj]%answers_lookup.
    destruct (Hc j _ _ Hj) as [Hf' _]. cbn in Hf' |- *.
    destruct t'; [left; by destruct Hf' as [(? & [= <-] & ->) _]| |left; by destruct Hf' as [(? & [= <-] & ->) _]].
    destruct Hf' as [->|(? & [= <-] & [->| ->])]; tauto.
Qed.

(** C13: the one-step view of Conn.v is sound.  When all the calls of an open
    connection have answered, there is an order of them in which the calls of
    Conn.v, each in one step, leave the connection in the same state and give each
    call the answer it got.  The one exception is a [requireOpen] that looked while
    the connection was being ended: it may have answered the plain ErrClosed. *)
Theorem finish_is_one_step c w0 evs s :
  term w0 = open_term -> run c (uncalled w0) evs = Some s ->
  Forall (fun x => has_answered x = true) (calls s) ->
  exists order rs, order ≡ₚ answers s /\ serial c (map fst order) w0 = (rs, shared s) /\
    Forall2 agrees order rs.
Proof.
  intros Hopen Hrun Hall. pose proof (inv_reached c w0 Hopen evs s Hrun) as Hinv.
  destruct (all_answered c w0 s Hinv Hall) as [[-> Hl]|(e & t & -> & Ht & Hin & Hl)].
  - destruct (serial_open c w0 Hopen _ Hl) as (rs & Hs & Ha). by exists (answers s), rs.
  - apply list_elem_of_split in Hin as (l1 & l2 & Heq). rewrite Heq in Hl |- *.
    apply Forall_app in Hl as [Hl1 [_ Hl2]%Forall_cons]. pose proof (Forall_app_2 _ _ _ Hl1 Hl2) as Hl.
    set (early := fun x : task * option error => x.2 = None).
    destruct (serial_open c w0 Hopen (filter early (l1 ++ l2))) as (rs1 & Hs1 & Ha1).
    { apply Forall_forall. intros x [Hx Hxin]%list_elem_of_filter. rewrite Forall_forall in Hl.
      unfold early in Hx. destruct (Hl x Hxin) as [Hx'|[Hx' _]]; [congruence|done]. }
    destruct (serial_ended c w0 Hopen e (filter (fun x => ~ early x) (l1 ++ l2))) as (rs2 & Hs2 & Ha2).
    { apply Forall_forall. intros x [Hx Hxin]%list_elem_of_filter. rewrite Forall_forall in Hl.
      destruct (Hl x Hxin) as [?|[? [?|?]]]; [by left|done|by right]. }
    exists (filter early (l1 ++ l2) ++ (t, Some (cause_of e)) :: filter (fun x => ~ early x) (l1 ++ l2)).
    exists (rs1 ++ Ok (Some (cause_of e)) :: rs2). split_and!.
    + rewrite <- !Permutation_middle. f_equiv. apply filter_app_complement.
    + rewrite map_app, serial_app, Hs1. cbn [map fst serial]. by rewrite (atomic_first c w0 Hopen t e Ht), Hs2.
    + apply Forall2_app; [done|]. constructor; [by left|done].
Qed.

(** All three calls have answered. *)
Lemma finish_is_one_step_witness :
  let w0 := quiet_world [] in
  let c := sample_conn 5 in
  let s := default (uncalled w0) (run c (uncalled w0) sample_race) in
  exists order rs, order ≡ₚ answers s /\ serial c (map fst order) w0 = (rs, shared s) /\ Forall2 agrees order rs.
Proof.
  apply (finish_is_one_step (sample_conn 5) (quiet_world []) sample_race); [reflexivity|reflexivity|decide_now].
Defined.

(** C14: no call that ends a connection, or looks whether it has ended, waits for
    ever.  At any time all calls have answered or one of them can act, and without
    new calls at most twelve actions a call are left. *)
Theorem ending_never_blocks c w0 evs s :
  term w0 = open_term -> run c (uncalled w0) evs = Some s ->
  (Forall (fun x => has_answered x = true) (calls s) \/ exists i s', ending_step c s i = Some s') /\
  forall steps s', run c s (map Step steps) = Some s' -> (length steps <= 12 * length (calls s))%nat.
Proof.
  intros Hopen Hrun. split; [by apply (someone_moves c w0), (inv_reached c w0 Hopen evs)|].
  intros steps s' H. apply run_steps_work in H.
  assert (short s) as Hs by (eapply run_short; [|exact Hrun]; constructor).
  pose proof (short_work s Hs). lia.
Qed.

(** In the middle of the closure. *)
Lemma ending_never_blocks_witness :
  let w0 := quiet_world [] in
  let c := sample_conn 5 in
  let s := default (uncalled w0) (run c (uncalled w0) (take 8 sample_race)) in
  (Forall (fun x => has_answered x = true) (calls s) \/ exists i s', ending_step c s i = Some s') /\
  forall steps s', run c s (map Step steps) = Some s' -> (length steps <= 12 * 3)%nat.
Proof.
  apply (ending_never_blocks (sample_conn 5) (quiet_world []) (take 8 sample_race)); reflexivity.
Defined.

Lemma ending_run_app c evs evs' s : run c s (evs ++ evs') = match run c s evs with Some s => run c s evs' | None => None end.
Proof.
  revert s. induction evs as [|ev evs IH]; intros s; [done|]. cbn [app run]. by destruct (move c s ev).
Qed.

(** A [requireOpen] asks for the cause before the first action of an end, and for
    the state after the second; then the end goes on. *)
Definition race_opening (e : ending) : list event :=
  [Call (Finish e); Call RequireOpen; Step 1; Step 0; Step 0; Step 0; Step 1].
Definition race_end : list event := [Step 0; Step 0; Step 0; Step 0; Step 0; Step 0].

Lemma race_opens c e w0 : term w0 = open_term ->
  run c (uncalled w0) (race_opening e) =
    Some (mkSystem (before c e closing w0) (running 0) [(Finish e, within e closing); (RequireOpen, answered (Some bare_closed))]).
Proof.
  intros Hopen. unfold race_opening, uncalled. cbn [run move begin ending_step calls shared termOnce_ app lookup list_lookup].
  rewrite Hopen. cbn [open_term termKind]. rewrite bool_decide_eq_true_2 by done. by destruct e as [|err].
Qed.

(** C39: a connection that is aborted can look closed.  Nobody has called [Close],
    and yet [requireOpen] answers the plain ErrClosed instead of the cause: it asked
    for the cause before [finish] stored it, and for the state after. *)
Theorem abort_seen_as_close c w0 err :
  term w0 = open_term ->
  exists evs s, run c (uncalled w0) evs = Some s /\
    calls s = [(Finish (aborted_with err), answered (Some err)); (RequireOpen, answered (Some bare_closed))].
Proof.
  intros Hopen.
  set (e := aborted_with err). set (bare := (RequireOpen, answered (Some bare_closed))).
  exists (race_opening e ++ race_end), (mkSystem (end_of c e w0) finished [(Finish e, answered (Some err)); bare]).
  split; [|done]. rewrite ending_run_app, (race_opens c e w0 Hopen) by done.
  change (Some err) with (Some (cause_of e)). rewrite <- (before_error c w0 e leaving) by done.
  rewrite <- (before_leaving c w0 Hopen e). reflexivity.
Qed.

Lemma abort_seen_as_close_witness :
  exists evs s, run (sample_conn 5) (uncalled (quiet_world [])) evs = Some s /\
    calls s = [(Finish (aborted_with (DisconnectError None)), answered (Some (DisconnectError None)));
               (RequireOpen, answered (Some bare_closed))].
Proof. apply (abort_seen_as_close (sample_conn 5) (quiet_world [])). reflexivity. Defined.
