(* ===== verification/Locked.v ===== *)
(** * Calls behind a lock

    [WriteTSDU] and [ReadTSDU] have one shape: a lock of capacity one (opLock of
    conn.go), some checks, a loop, and deferred functions that disarm the deadline
    and give back the lock.  An [operation] is such a call, cut where other
    goroutines may interfere; here concurrent calls of one operation are threads,
    and a round of the loop is one step.  [Serialised] is what an operation
    promises about one call that holds the lock; from it follows what all the
    calls together do, whatever the interleaving.  Writers and Readers are the two
    instances. *)

From S2P Require Import Prelude Errors RefAlloc World Conn Tsdu TsduSpec.

Record operation := mkOperation {
  Input : Type;
  Loop : Type;
  Result : Type;
  enter : Input -> M Loop;                       (* between the lock and the loop *)
  round : Input -> Loop -> M (Loop + Result)
}.

(** The call, run alone; [enter] ends by arming the deadline. *)
Definition sequential (op : operation) (fuel : nat) (i : Input op) : M (Result op) :=
  do! _ := opLock_lock in
  defer opLock_unlock (do! l := enter op i in defer disarm (mloop fuel (round op i) l)).

(** ** Threads *)

Section Threads.
Context (op : operation).

(** Where a call is. *)
Inductive phase :=
  | entering                          (* before the first select of lock *)
  | waiting                           (* in the second select *)
  | admitted                          (* lock has returned nil *)
  | looping (l : Loop op)
  | leaving (arm : bool) (r : outcome (Result op))   (* its deferred functions are to run *)
  | returned (r : outcome (Result op)).

(** The world all share, and the calls with their inputs. *)
Record system := mkSystem {
  shared : world;
  calls : list (Input op * phase)
}.

Definition inside (p : phase) : bool :=
  match p with admitted | looping _ | leaving _ _ => true | _ => false end.

Definition succeeded (p : phase) : bool := match p with returned (Ok _) => true | _ => false end.

(** The step call [i] can take; [done] is the error of its context, if it is
    done.  [None]: it is blocked, or has returned. *)
Definition call_step (s : system) (i : nat) (done : option error) : option system :=
  match calls s !! i with
  | None => None
  | Some (inp, p) =>
      let w := shared s in
      let put w p := Some (mkSystem w (<[i := (inp, p)]> (calls s))) in
      match p with
      | entering => if locked w then put w waiting else put (set_locked w true) admitted
      | waiting =>
          match done with
          | Some e => put w (returned (Err e))
          | None => if locked w then None else put (set_locked w true) admitted
          end
      | admitted =>
          match enter op inp w with
          | (Ok l, w) => put w (looping l)
          | (Err e, w) => put w (leaving false (Err e))
          | (Panic, w) => put w (leaving false Panic)
          | (NoFuel, w) => put w (leaving false NoFuel)
          end
      | looping l =>
          match round op inp l w with
          | (Ok (inl l), w) => put w (looping l)
          | (Ok (inr r), w) => put w (leaving true (Ok r))
          | (Err e, w) => put w (leaving true (Err e))
          | (Panic, w) => put w (leaving true Panic)
          | (NoFuel, w) => put w (leaving true NoFuel)
          end
      | leaving arm r =>
          if locked w then put (opLock_unlock (if arm then disarm w else w)) (returned r) else None
      | returned _ => None
      end
  end.

(** How a call goes from phase to phase. *)
Definition next (p q : phase) : bool :=
  match p, q with
  | entering, (waiting | admitted) | waiting, (admitted | returned (Err _))
  | admitted, (looping _ | leaving false _) | looping _, (looping _ | leaving true _)
  | leaving _ _, returned _ => true
  | _, _ => false
  end.

Lemma call_step_next s i done s' inp p :
  call_step s i done = Some s' -> calls s !! i = Some (inp, p) ->
  exists w q, s' = mkSystem w (<[i := (inp, q)]> (calls s)) /\ next p q = true.
Proof.
  intros H Hi. unfold call_step in H. rewrite Hi in H. destruct p as [| | |l|ar r|r]; [| | | | |done].
  - destruct (locked (shared s)); injection H as <-; by eexists _, _.
  - destruct done; [|destruct (locked (shared s)); [done|]]; injection H as <-; by eexists _, _.
  - destruct (enter op inp (shared s)) as [[l|e| |] w]; injection H as <-; by eexists _, _.
  - destruct (round op inp l (shared s)) as [[[l'|a]|e| |] w]; injection H as <-; by eexists _, _.
  - destruct (locked (shared s)); [|done]. injection H as <-. by eexists _, _.
Qed.

Definition init (inputs : list (Input op)) (w : world) : system :=
  mkSystem w (map (fun i => (i, entering)) inputs).

(** An interleaving, as the calls that step in turn. *)
Fixpoint schedule (order : list nat) (s : system) : option system :=
  match order with
  | [] => Some s
  | i :: order => match call_step s i None with Some s => schedule order s | None => None end
  end.
End Threads.

Arguments entering {op}.
Arguments waiting {op}.
Arguments admitted {op}.
Arguments looping {op} & l.
Arguments leaving {op} & arm r.
Arguments returned {op} & r.
Arguments mkSystem {op} shared calls.
Arguments shared {op} s.
Arguments calls {op} s.
Arguments inside {op} p.
Arguments next {op} p q.
Arguments succeeded {op} p.
Arguments call_step {op} s i done.
Arguments schedule {op} order s.

(** What the calls that have succeeded returned. *)
Definition results {op} (s : system op) : list (Result op) :=
  omap (fun x => match x.2 with returned (Ok a) => Some a | _ => None end) (calls s).

(** The system [order] leads to, where it leads somewhere. *)
Definition after {op} (order : list nat) (s : system op) : system op := default s (schedule order s).

Lemma schedule_after {op} order (s : system op) :
  match schedule order s with Some _ => true | None => false end = true -> schedule order s = Some (after order s).
Proof. unfold after. by destruct (schedule order s). Qed.

(** ** What an operation promises *)

Definition ended (w : world) : Prop := exists e, term w = ended_term e.

Class Serialised (c : Conn) (op : operation) (X : Type) := {
  (* the parts of the world that only a call holding the lock moves *)
  frame : world -> world -> Prop;
  (* what has crossed the stream since a given world *)
  trace : world -> world -> list X -> Prop;
  (* what a call that succeeds has moved, and what one cut short may have *)
  complete : Input op -> Result op -> list X -> Prop;
  begun : Input op -> list X -> Prop;
  (* the loop of a call, between two rounds: [front] had crossed before the call,
     [own] is what it has moved *)
  owner : world -> Input op -> Loop op -> list X -> list X -> world -> Prop;
  (* the rounds left, at most *)
  rounds : Input op -> Loop op -> Z;
  most : Input op -> Z;

  frame_locked w b : frame w (set_locked w b);
  frame_disarm w : frame w (disarm w);
  trace_start w : trace w w [];
  trace_frame w0 w w' xs : frame w w' -> trace w0 w xs -> trace w0 w' xs;
  most_nonneg i : 0 <= most i;

  enter_law i w :
    term_ok (term w) -> stream_ok w ->
    exists r w', enter op i w = (r, w') /\ same_conn w w' /\ frame w w' /\ stream_ok w' /\ locked w' = locked w /\
      match r with
      | Ok l => term w' = open_term /\ 0 <= rounds i l <= most i /\
          forall w0 front, trace w0 w' front -> owner w0 i l front [] w'
      | Err _ => True
      | Panic | NoFuel => False
      end;

  round_law w0 i l front own w :
    term_ok (term w) -> owner w0 i l front own w -> trace w0 w (front ++ own) ->
    exists r w' own', round op i l w = (r, w') /\ conn_step c w w' /\ stream_ok w' /\ locked w' = locked w /\
      trace w0 w' (front ++ own') /\
      match r with
      | Ok (inl l') => owner w0 i l' front own' w' /\ 0 <= rounds i l' < rounds i l
      | Ok (inr a) => complete i a own'
      | Err _ => own' = [] \/ (ended w' /\ begun i own')
      | Panic | NoFuel => False
      end;

  owner_frame w0 i l front own w w' :
    conn_step c w w' -> (stream_ok w -> stream_ok w') -> frame w w' -> locked w' = locked w ->
    owner w0 i l front own w -> owner w0 i l front own w';
  owner_begun w0 i l front own w : trace w0 w (front ++ own) -> owner w0 i l front own w -> begun i own;
  owner_rounds w0 i l front own w : owner w0 i l front own w -> 0 <= rounds i l
}.

Section Serial.
Context {X : Type} (c : Conn) (op : operation) {SER : Serialised c op X}.

(** What the rest of the program does meanwhile: to the connection what any
    operation does, and anything to what the frame leaves out. *)
Definition environment (w w' : world) : Prop :=
  conn_step c w w' /\ (stream_ok w -> stream_ok w') /\ frame w w' /\ locked w' = locked w.

Inductive system_step : system op -> system op -> Prop :=
  | step_call s i done s' : call_step s i done = Some s' -> system_step s s'
  | step_other s w' : environment (shared s) w' -> system_step s (mkSystem w' (calls s)).

(** ** Blocks: what a call moves while it holds the lock *)

Section Blocks.
Context (inputs : list (Input op)).

Definition block : Type := nat * list X.

Definition whole (b : block) : Prop := exists i a, inputs !! b.1 = Some i /\ complete i a b.2.
Definition started_ (b : block) : Prop := exists i, inputs !! b.1 = Some i /\ begun i b.2.
Definition silent (b : block) : Prop := b.2 = [].

Definition payload (bs : list block) : list X := concat (map snd bs).

(** One call after the other: whole blocks, and possibly one that was begun, after
    which nothing crosses the stream. *)
Definition serial (blocks : list block) : Prop :=
  exists done cut, blocks = done ++ cut /\ Forall (fun b => whole b \/ silent b) done /\
    (cut = [] \/ exists b rest, cut = b :: rest /\ started_ b /\ Forall silent rest).

(** The same, between two calls: a call cut short has ended the connection. *)
Definition settled (w : world) (blocks : list block) : Prop :=
  exists done cut, blocks = done ++ cut /\ Forall (fun b => whole b \/ silent b) done /\
    (cut = [] \/ (ended w /\ exists b rest, cut = b :: rest /\ started_ b /\ Forall silent rest)).

Lemma settled_serial w blocks : settled w blocks -> serial blocks.
Proof. intros (d & ct & ? & ? & [?|(_ & ?)]); exists d, ct; auto. Qed.

Lemma payload_snoc bs b : payload (bs ++ [b]) = payload bs ++ b.2.
Proof. unfold payload. rewrite map_app, concat_app. cbn. by rewrite app_nil_r. Qed.

Lemma clean_settled w bs : Forall (fun b => whole b \/ silent b) bs -> settled w bs.
Proof. intros H. exists bs, []. rewrite app_nil_r. split_and!; [done|done|by left]. Qed.

Lemma settled_silent w bs b : settled w bs -> silent b -> settled w (bs ++ [b]).
Proof.
  intros (d & ct & -> & Hd & [->|(He & b' & rest & -> & Hb' & Hr)]) Hb.
  - exists (d ++ [b]), []. rewrite !app_nil_r. split_and!; [done| |by left].
    apply Forall_app. split; [done|]. apply Forall_singleton. by right.
  - exists d, (b' :: rest ++ [b]). rewrite <- app_assoc. split_and!; [done|done|]. right. split; [done|].
    exists b', (rest ++ [b]). split_and!; try done. apply Forall_app. split; [done|by apply Forall_singleton].
Qed.

Lemma settled_whole w bs b : Forall (fun b => whole b \/ silent b) bs -> whole b -> settled w (bs ++ [b]).
Proof. intros Hd Hb. apply clean_settled, Forall_app. split; [done|]. apply Forall_singleton. by left. Qed.

Lemma settled_cut w bs b :
  Forall (fun b => whole b \/ silent b) bs -> started_ b -> ended w -> settled w (bs ++ [b]).
Proof.
  intros Hf Hb He. exists bs, [b]. split_and!; try done. right. split; [done|]. by exists b, [].
Qed.

(** While the connection is open every block is whole or silent. *)
Lemma settled_open w bs :
  term w = open_term -> settled w bs -> Forall (fun b => whole b \/ silent b) bs.
Proof.
  intros Ht (d & ct & -> & Hd & [->|((e & He) & _)]); [by rewrite app_nil_r|]. rewrite Ht in He. by destruct e.
Qed.

Lemma ended_step w w' : conn_step c w w' -> ended w -> ended w'.
Proof. intros Hs (e & He). exists e. by destruct (conn_step_ended c w w' e Hs He). Qed.

Lemma settled_step w w' bs : conn_step c w w' -> settled w bs -> settled w' bs.
Proof.
  intros Hs (d & ct & ? & ? & [?|(He & ?)]); exists d, ct; split_and!; auto.
  right. split; [|done]. by eapply ended_step.
Qed.

(** ** The invariant *)

(** The call that holds the lock: [front] are the blocks before its own, [ps]. *)
Definition owner_ok (w0 w : world) (front : list block) (i : nat) (inp : Input op) (p : phase op) (ps : list X) : Prop :=
  settled w front /\
  match p with
  | admitted => ps = []
  | looping l => Forall (fun b => whole b \/ silent b) front /\ owner w0 inp l (payload front) ps w
  | leaving _ (Ok a) => Forall (fun b => whole b \/ silent b) front /\ complete inp a ps
  | leaving _ (Err _) => ps = [] \/ (ended w /\ Forall (fun b => whole b \/ silent b) front /\ begun inp ps)
  | _ => False
  end.

Definition phase_ok (blocks : list block) (i : nat) (inp : Input op) (p : phase op) : Prop :=
  match p with
  | entering | waiting => i ∉ map fst blocks
  | returned (Ok a) => exists ps, (i, ps) ∈ blocks /\ complete inp a ps
  | returned (Panic | NoFuel) => False
  | _ => True
  end.

Definition inv (w0 : world) (s : system op) (blocks : list block) : Prop :=
  let w := shared s in
  map fst (calls s) = inputs /\ term_ok (term w) /\ stream_ok w /\
  trace w0 w (payload blocks) /\ NoDup (map fst blocks) /\
  (forall i inp p, calls s !! i = Some (inp, p) -> phase_ok blocks i inp p) /\
  (forall i inp p, calls s !! i = Some (inp, p) -> inside p = true -> locked w = true) /\
  if locked w then
    exists front i ps inp p, blocks = front ++ [(i, ps)] /\ calls s !! i = Some (inp, p) /\ inside p = true /\
      (forall j inp' p', calls s !! j = Some (inp', p') -> inside p' = true -> j = i) /\
      owner_ok w0 w front i inp p ps
  else settled w blocks.

Lemma owner_step w0 w w' front i inp p ps :
  environment w w' -> owner_ok w0 w front i inp p ps -> owner_ok w0 w' front i inp p ps.
Proof.
  intros (Hs & Hst & Hf & Hl) (Hset & Hp). split; [by eapply settled_step|].
  destruct p as [| | |l|ar r|r]; try done.
  - destruct Hp as (? & Ho). split; [done|]. by eapply owner_frame.
  - destruct r; try done. destruct Hp as [?|(He & ? & ?)]; [by left|right]. split_and!; try done. by eapply ended_step.
Qed.

(** A call's own entry, and the others'. *)
Lemma lookup_put (l : list (Input op * phase op)) i x y j z :
  l !! i = Some x -> <[i := y]> l !! j = Some z -> (j = i /\ z = y) \/ (j <> i /\ l !! j = Some z).
Proof.
  intros Hi H. destruct (decide (j = i)) as [->|Hne].
  - rewrite list_lookup_insert_eq in H by (by eapply lookup_lt_Some). injection H as <-. by left.
  - rewrite list_lookup_insert_ne in H by done. by right.
Qed.

Lemma lookup_input (l : list (Input op * phase op)) i : map fst l !! i = fst <$> l !! i.
Proof. exact (list_lookup_fmap fst l i). Qed.

Lemma map_fst_put (l : list (Input op * phase op)) i inp p q :
  l !! i = Some (inp, p) -> map fst (<[i := (inp, q)]> l) = map fst l.
Proof.
  intros Hi. apply list_eq. intros j. rewrite !lookup_input.
  destruct (decide (j = i)) as [->|Hne].
  - rewrite list_lookup_insert_eq by (by eapply lookup_lt_Some). by rewrite Hi.
  - by rewrite list_lookup_insert_ne.
Qed.

(** A call that is outside stays outside. *)
Lemma inv_outside w0 s blocks i inp p q :
  inv w0 s blocks -> calls s !! i = Some (inp, p) -> inside p = false -> inside q = false ->
  phase_ok blocks i inp q -> inv w0 (mkSystem (shared s) (<[i := (inp, q)]> (calls s))) blocks.
Proof.
  intros (H1 & H2 & H3 & H4 & H5 & H6 & H7 & H8) Hi Hp Hq Hok. unfold inv. cbn [shared calls].
  rewrite (map_fst_put _ _ _ _ _ Hi). split_and!; try done.
  - intros j t r Hj. destruct (lookup_put _ _ _ _ _ _ Hi Hj) as [[-> [= -> ->]]|[_ Hj']]; [done|by eapply H6].
  - intros j t r Hj Hr. destruct (lookup_put _ _ _ _ _ _ Hi Hj) as [[-> [= -> ->]]|[_ Hj']]; [congruence|by eapply H7].
  - destruct (locked (shared s)); [|done].
    destruct H8 as (front & j & ps & t & r & -> & Hj & Hr & Hu & Hown).
    exists front, j, ps, t, r. split_and!; try done.
    + destruct (decide (j = i)) as [->|Hne]; [congruence|]. by rewrite list_lookup_insert_ne.
    + intros k t' r' Hk Hr'. destruct (lookup_put _ _ _ _ _ _ Hi Hk) as [[-> [= -> ->]]|[_ Hk']]; [congruence|by eapply Hu].
Qed.

Lemma phase_ok_new blocks i inp p j :
  phase_ok blocks i inp p -> i <> j \/ inside p = true -> phase_ok (blocks ++ [(j, [])]) i inp p.
Proof.
  intros H Hne. destruct p as [| | | | |[a|e| |]]; cbn in *; try done.
  1,2: destruct Hne as [Hne|?]; [|done]; rewrite map_app, elem_of_app; intros [?|Hin]; [done|];
       by apply list_elem_of_singleton in Hin.
  destruct H as (ps & Hin & ?). exists ps. split; [apply elem_of_app; by left|done].
Qed.

(** A call obtains the lock. *)
Lemma inv_admit w0 s blocks i inp p :
  inv w0 s blocks -> calls s !! i = Some (inp, p) -> p = entering \/ p = waiting ->
  locked (shared s) = false ->
  inv w0 (mkSystem (set_locked (shared s) true) (<[i := (inp, admitted)]> (calls s))) (blocks ++ [(i, [])]).
Proof.
  intros (H1 & H2 & H3 & H4 & H5 & H6 & H7 & H8) Hi Hp Hl. unfold inv. cbn [shared calls set_locked locked term].
  rewrite Hl in H8. pose proof (H6 i inp p Hi) as Hni.
  assert (i ∉ map fst blocks) as Hnin by (by destruct Hp as [-> | ->]).
  rewrite (map_fst_put _ _ _ _ _ Hi). split_and!; try done.
  - rewrite payload_snoc, app_nil_r. eapply trace_frame; [apply frame_locked|exact H4].
  - rewrite map_app. apply NoDup_app. split_and!; [done| |apply NoDup_singleton].
    intros j Hj Hj'. apply list_elem_of_singleton in Hj' as ->. done.
  - intros j t r Hj. destruct (lookup_put _ _ _ _ _ _ Hi Hj) as [[-> [= -> ->]]|[Hne Hj']]; [done|].
    apply phase_ok_new; [by apply H6|by left].
  - exists blocks, i, [], inp, admitted. split_and!; try done.
    + apply list_lookup_insert_eq. by eapply lookup_lt_Some.
    + intros j t r Hj Hr. destruct (lookup_put _ _ _ _ _ _ Hi Hj) as [[-> _]|[_ Hj']]; [done|].
      rewrite (H7 j t r Hj' Hr) in Hl. done.
Qed.

(** The call that holds the lock goes on. *)
Lemma inv_owner w0 s blocks i inp p :
  inv w0 s blocks -> calls s !! i = Some (inp, p) -> inside p = true ->
  exists front ps, blocks = front ++ [(i, ps)] /\ trace w0 (shared s) (payload front ++ ps) /\
    inputs !! i = Some inp /\ locked (shared s) = true /\ owner_ok w0 (shared s) front i inp p ps /\
    (forall w' q ps', term_ok (term w') -> stream_ok w' -> locked w' = true -> trace w0 w' (payload front ++ ps') ->
       inside q = true -> owner_ok w0 w' front i inp q ps' ->
       inv w0 (mkSystem w' (<[i := (inp, q)]> (calls s))) (front ++ [(i, ps')])) /\
    (forall w' r, term_ok (term w') -> stream_ok w' -> locked w' = false -> trace w0 w' (payload blocks) ->
       settled w' blocks -> phase_ok blocks i inp (returned r) ->
       inv w0 (mkSystem w' (<[i := (inp, returned r)]> (calls s))) blocks).
Proof.
  intros (H1 & H2 & H3 & H4 & H5 & H6 & H7 & H8) Hi Hp. rewrite (H7 i inp p Hi Hp) in H8.
  destruct H8 as (front & j & ps & t & r & Hb & Hj & Hr & Hu & Hown).
  assert (i = j) as <- by (by eapply Hu). rewrite Hi in Hj. injection Hj as <- <-. exists front, ps.
  assert (forall k tk rk q, <[i := (inp, q)]> (calls s) !! k = Some (tk, rk) -> inside rk = true -> k = i) as Hu'.
  { intros k tk rk q Hk Hrk. destruct (lookup_put _ _ _ _ _ _ Hi Hk) as [[-> _]|[_ Hk']]; [done|by eapply Hu]. }
  split_and!; try done.
  - by rewrite Hb, payload_snoc in H4.
  - by rewrite <- H1, lookup_input, Hi.
  - by eapply H7.
  - intros w' q ps' Ht Hst Hl Hs Hq Ho. unfold inv. cbn [shared calls]. rewrite Hl.
    rewrite (map_fst_put _ _ _ _ _ Hi). rewrite Hb, map_app in H5.
    split_and!; try done.
    + by rewrite payload_snoc.
    + by rewrite map_app.
    + intros k tk rk Hk. destruct (lookup_put _ _ _ _ _ _ Hi Hk) as [[-> [= -> ->]]|[Hne Hk']]; [by destruct q|].
      specialize (H6 k tk rk Hk'). rewrite Hb in H6. destruct rk as [| | | | |[]]; cbn in *; try done.
      1,2: by rewrite map_app in *.
      destruct H6 as (ps1 & Hin & Hw). exists ps1. split; [|done]. apply elem_of_app. left.
      apply elem_of_app in Hin as [?|Hin]; [done|]. apply list_elem_of_singleton in Hin as [= -> _]. done.
    + exists front, i, ps', inp, q. split_and!; try done.
      * apply list_lookup_insert_eq. by eapply lookup_lt_Some.
      * intros k tk rk Hk Hrk. by eapply Hu'.
  - intros w' r Ht Hst Hl Hs Hset Hok. unfold inv. cbn [shared calls]. rewrite Hl.
    rewrite (map_fst_put _ _ _ _ _ Hi). split_and!; try done.
    + intros k tk rk Hk. destruct (lookup_put _ _ _ _ _ _ Hi Hk) as [[-> [= -> ->]]|[Hne Hk']]; [done|by eapply H6].
    + intros k tk rk Hk Hrk. destruct (lookup_put _ _ _ _ _ _ Hi Hk) as [[-> [= -> ->]]|[Hne Hk']]; [done|].
      exfalso. apply Hne. by eapply Hu.
Qed.

(** Where a round leads. *)
Definition after_round (r : outcome (Loop op + Result op)) : phase op :=
  match r with
  | Ok (inl l) => looping l
  | Ok (inr a) => leaving true (Ok a)
  | Err e => leaving true (Err e)
  | Panic => leaving true Panic
  | NoFuel => leaving true NoFuel
  end.

Lemma call_round s i dn inp l r w' :
  calls s !! i = Some (inp, looping l) -> round op inp l (shared s) = (r, w') ->
  call_step s i dn = Some (mkSystem w' (<[i := (inp, after_round r)]> (calls s))).
Proof. intros Hi Hr. unfold call_step. rewrite Hi, Hr. by destruct r as [[?|?]|?| |]. Qed.

(** A round, by the call that holds the lock. *)
Lemma round_owner w0 w front i inp l ps :
  inputs !! i = Some inp -> term_ok (term w) -> locked w = true -> trace w0 w (payload front ++ ps) ->
  owner_ok w0 w front i inp (looping l) ps ->
  exists r w' ps', round op inp l w = (r, w') /\
    term_ok (term w') /\ stream_ok w' /\ locked w' = true /\ trace w0 w' (payload front ++ ps') /\
    owner_ok w0 w' front i inp (after_round r) ps'.
Proof.
  intros Hi Ht Hl Htr (Hset & Hclean & Hown).
  destruct (round_law w0 inp l _ _ _ Ht Hown Htr) as (r & w' & ps' & Heq & Hs & Hst & Hl' & Htr' & Hr).
  exists r, w', ps'. split_and!; try done; [by eapply conn_step_ok|congruence|]. split; [by eapply settled_step|].
  destruct r as [[l'|a]|e| |]; cbn [after_round]; try done.
  - split; [done|]. by destruct Hr.
  - destruct Hr as [?|(? & ?)]; [by left|right]. by split_and!.
Qed.

Lemma call_step_inv w0 s i dn s' blocks :
  inv w0 s blocks -> call_step s i dn = Some s' -> exists blocks', inv w0 s' blocks'.
Proof.
  intros Hinv H. destruct (calls s !! i) as [[inp p]|] eqn:Hi; [|unfold call_step in H; by rewrite Hi in H].
  pose proof Hinv as (_ & Ht & Hst & _ & _ & Hph & _ & Hcur).
  pose proof H as Hcall. unfold call_step in H. rewrite Hi in H. destruct p as [| | |l|ar r|r].
  - destruct (locked (shared s)) eqn:Hl; injection H as <-; eexists.
    + by eapply inv_outside; [exact Hinv|exact Hi|done|done|apply (Hph i inp entering Hi)].
    + by eapply inv_admit; [exact Hinv|exact Hi|left|].
  - destruct dn as [e|]; [injection H as <-; eexists; by eapply inv_outside; [exact Hinv|exact Hi|..]|].
    destruct (locked (shared s)) eqn:Hl; [done|]. injection H as <-. eexists.
    by eapply inv_admit; [exact Hinv|exact Hi|right|].
  - destruct (inv_owner w0 s blocks i inp admitted Hinv Hi eq_refl)
      as (front & ps & Hb & Htr & Hin & Hl & (Hset & Hps) & Hgo & _). subst ps.
    destruct (enter_law inp (shared s) Ht Hst) as (r & w' & Heq & Hsame & Hf & Hst' & Hl' & Hr).
    rewrite Heq in H. pose proof (same_conn_step c _ _ Hsame) as Hs.
    pose proof (conn_step_ok _ _ _ Hs Ht) as Ht'. pose proof (settled_step _ _ front Hs Hset) as Hset'.
    pose proof (trace_frame _ _ _ _ Hf Htr) as Htr'. rewrite <- Hl' in Hl.
    destruct r as [l|e| |]; try done; injection H as <-; eexists; apply (Hgo w' _ []); try done.
    + destruct Hr as (Hopen & _ & Hown). split; [done|]. split; [by eapply settled_open|]. apply Hown.
      by rewrite app_nil_r in Htr'.
    + split; [done|]. by left.
  - destruct (inv_owner w0 s blocks i inp (looping l) Hinv Hi eq_refl)
      as (front & ps & Hb & Htr & Hin & Hl & Hown & Hgo & _).
    destruct (round_owner w0 (shared s) front i inp l ps Hin Ht Hl Htr Hown)
      as (r & w' & ps' & Heq & Ht' & Hst' & Hl' & Htr' & Hown').
    rewrite (call_round s i dn inp l r w' Hi Heq) in Hcall. injection Hcall as <-. exists (front ++ [(i, ps')]).
    apply Hgo; try done. by destruct r as [[?|?]|?| |].
  - destruct (inv_owner w0 s blocks i inp (leaving ar r) Hinv Hi eq_refl)
      as (front & ps & Hb & Htr & Hin & Hl & (Hset & Hown) & _ & Hend).
    rewrite Hl in H. injection H as <-. eexists. apply Hend; try by destruct ar.
    + rewrite Hb, payload_snoc. eapply trace_frame; [apply frame_locked|].
      destruct ar; [|done]. eapply trace_frame; [apply frame_disarm|done].
    + apply (settled_step (shared s)); [destruct ar; by apply same_conn_step|]. rewrite Hb.
      destruct r as [x|e| |]; try done.
      * destruct Hown as [Hc Hw]. apply settled_whole; [done|]. by exists inp, x.
      * destruct Hown as [->|(He & Hc & Hbg)]; [by apply settled_silent|]. apply settled_cut; try done. by exists inp.
    + destruct r as [x|e| |]; try done. destruct Hown as [_ Hw]. exists ps. split; [|done].
      rewrite Hb. apply elem_of_app. right. by apply list_elem_of_singleton.
  - done.
Qed.

Lemma system_step_inv w0 s s' blocks : inv w0 s blocks -> system_step s s' -> exists blocks', inv w0 s' blocks'.
Proof.
  intros Hinv Hstep. destruct Hstep as [s i dn s' H|s w' He]; [by eapply call_step_inv|].
  exists blocks. destruct Hinv as (H1 & H2 & H3 & H4 & H5 & H6 & H7 & H8).
  pose proof He as (Hs & Hst & Hf & Hl). unfold inv. cbn [shared calls]. rewrite Hl.
  split_and!; try done; [by eapply conn_step_ok|by apply Hst|by eapply trace_frame|].
  destruct (locked (shared s)); [|by eapply settled_step].
  destruct H8 as (front & i & ps & inp & p & ? & ? & ? & ? & Hown).
  exists front, i, ps, inp, p. split_and!; try done. by eapply owner_step.
Qed.

(** ** What the invariant says *)

Lemma init_inv w : term_ok (term w) -> stream_ok w -> locked w = false -> inv w (init op inputs w) [].
Proof.
  intros Ht Hst Hl. unfold inv, init. cbn [shared calls]. rewrite Hl.
  assert (forall i inp p, map (fun i => (i, @entering op)) inputs !! i = Some (inp, p) -> p = entering) as He.
  { intros i inp p H.
    assert (map (fun i => (i, @entering op)) inputs !! i = (fun i => (i, entering)) <$> inputs !! i) as E
      by exact (list_lookup_fmap (fun i => (i, @entering op)) inputs i).
    rewrite E in H. destruct (inputs !! i); cbn in H; congruence. }
  split_and!; try done.
  - rewrite map_map. apply map_id.
  - apply trace_start.
  - constructor.
  - intros i inp p Hi. rewrite (He i inp p Hi). cbn. apply not_elem_of_nil.
  - intros i inp p Hi. by rewrite (He i inp p Hi).
  - by apply clean_settled.
Qed.

Lemma reach_inv w s :
  term_ok (term w) -> stream_ok w -> locked w = false -> rtc system_step (init op inputs w) s ->
  exists blocks, inv w s blocks.
Proof.
  intros Ht Hst Hl. assert (exists blocks, inv w (init op inputs w) blocks) as H0 by (eexists; by apply init_inv).
  revert H0. generalize (init op inputs w) as s0. intros s0 H0 Hr.
  induction Hr as [s0|s0 s1 s2 Hstep _ IH]; [done|].
  apply IH. destruct H0 as [blocks Hinv]. by eapply system_step_inv.
Qed.

Lemma inv_serial w0 s blocks : inv w0 s blocks -> serial blocks.
Proof.
  intros (H1 & _ & _ & H4 & _ & _ & _ & H8). destruct (locked (shared s)); [|by eapply settled_serial].
  destruct H8 as (front & i & ps & inp & p & -> & Hi & Hp & _ & Hset & Hown).
  assert (inputs !! i = Some inp) as Hin by (by rewrite <- H1, lookup_input, Hi).
  rewrite payload_snoc in H4. cbn [snd] in H4.
  destruct p as [| | |l|ar r|r]; try done.
  - eapply settled_serial, settled_silent; [done|exact Hown].
  - destruct Hown as (Hc & Ho). exists front, [(i, ps)]. split_and!; try done.
    right. exists (i, ps), []. split_and!; try done. exists inp. split; [done|]. by eapply owner_begun.
  - destruct r as [x|e| |]; try done.
    + destruct Hown as [Hc Hw]. apply (settled_serial (shared s)), settled_whole; [done|]. by exists inp, x.
    + destruct Hown as [->|(He & Hc & Hb)]; [by eapply settled_serial, settled_silent|].
      eapply settled_serial, settled_cut; try done. by exists inp.
Qed.

Lemma inv_exclusive w0 s blocks i j ti tj pi pj :
  inv w0 s blocks -> calls s !! i = Some (ti, pi) -> calls s !! j = Some (tj, pj) ->
  inside pi = true -> inside pj = true -> i = j.
Proof.
  intros (_ & _ & _ & _ & _ & _ & H7 & H8) Hi Hj Hpi Hpj. rewrite (H7 i ti pi Hi Hpi) in H8.
  destruct H8 as (front & k & ps & t & p & _ & _ & _ & Hu & _).
  rewrite (Hu i ti pi Hi Hpi). symmetry. by eapply Hu.
Qed.

(** A call that is inside can always go on. *)
Lemma inside_steps w0 s blocks i inp p :
  inv w0 s blocks -> calls s !! i = Some (inp, p) -> inside p = true ->
  exists s', call_step s i None = Some s'.
Proof.
  intros (_ & _ & _ & _ & _ & _ & H7 & _) Hi Hp. unfold call_step. rewrite Hi.
  destruct p as [| | |l|ar r|r]; try done.
  - destruct (enter op inp (shared s)) as [[?|?| |] ?]; by eexists.
  - destruct (round op inp l (shared s)) as [[[?|?]|?| |] ?]; by eexists.
  - rewrite (H7 i inp _ Hi Hp). by eexists.
Qed.

(** Until all have returned some call can go on. *)
Lemma someone_steps w0 s blocks :
  inv w0 s blocks ->
  Forall (fun x => exists r, x.2 = returned r) (calls s) \/ exists i s', call_step s i None = Some s'.
Proof.
  intros Hinv.
  assert (forall x : Input op * phase op, {exists r, x.2 = returned r} + {~ (exists r, x.2 = returned r)}) as Hdec.
  { intros [inp p]. destruct p; cbn; try (right; intros [? ?]; congruence). left. by eexists. }
  destruct (Forall_Exists_dec _ _ Hdec (calls s)) as [?|Hex]; [by left|right].
  apply Exists_exists in Hex as ([inp p] & Hin & Hp). apply list_elem_of_lookup in Hin as [i Hi].
  destruct (inside p) eqn:Hins; [exists i; by eapply inside_steps|].
  destruct (locked (shared s)) eqn:Hl.
  - pose proof Hinv as (_ & _ & _ & _ & _ & _ & _ & H8). rewrite Hl in H8.
    destruct H8 as (front & j & ps & t & q & _ & Hj & Hq & _). exists j. by eapply inside_steps.
  - exists i. unfold call_step. rewrite Hi, Hl. destruct p as [| | |?|?|r]; try done; [by eexists|by eexists|].
    exfalso. apply Hp. by exists r.
Qed.
End Blocks.

(** ** Executions are finite *)

(** An execution with [n] steps of calls. *)
Inductive run : nat -> system op -> system op -> Prop :=
  | run_refl s : run 0 s s
  | run_call n s1 s2 i done s3 : run n s1 s2 -> call_step s2 i done = Some s3 -> run (S n) s1 s3
  | run_other n s1 s2 w : run n s1 s2 -> environment (shared s2) w -> run n s1 (mkSystem w (calls s2)).

Lemma run_reach n s s' : run n s s' -> rtc system_step s s'.
Proof.
  induction 1 as [s|n s1 s2 i dn s3 _ IH H|n s1 s2 w _ IH H]; [done| |]; (eapply rtc_r; [exact IH|]).
  - by eapply step_call.
  - by apply step_other.
Qed.

Lemma schedule_run order s s1 s' n : run n s1 s -> schedule order s = Some s' -> run (n + length order) s1 s'.
Proof.
  revert s n. induction order as [|i order IH]; intros s n Hr H; cbn in H.
  - injection H as ->. by rewrite Nat.add_0_r.
  - destruct (call_step s i None) as [s2|] eqn:Hs; [|done]. cbn [length].
    rewrite Nat.add_succ_r, <- Nat.add_succ_l. eapply IH; [|exact H]. by eapply run_call.
Qed.

Lemma schedule_reach order s s' : schedule order s = Some s' -> rtc system_step s s'.
Proof. intros H. eapply run_reach. by apply (schedule_run order s s s' 0); [constructor|]. Qed.

(** The steps a call has left, at most. *)
Definition left_ (x : Input op * phase op) : Z :=
  match x with
  | (i, entering) => most i + 5
  | (i, waiting) => most i + 4
  | (i, admitted) => most i + 3
  | (i, looping l) => rounds i l + 2
  | (_, leaving _ _) => 1
  | (_, returned _) => 0
  end.

Definition work (l : list (Input op * phase op)) : Z := fold_right (fun p n => left_ p + n) 0 l.

Lemma work_put l i x y : l !! i = Some x -> work (<[i := y]> l) = work l - left_ x + left_ y.
Proof.
  revert i. induction l as [|z l IH]; intros i Hi; [done|]. destruct i as [|i]; cbn in Hi.
  - injection Hi as ->. change (left_ y + work l = left_ x + work l - left_ x + left_ y). lia.
  - specialize (IH i Hi). change (left_ z + work (<[i := y]> l) = left_ z + work l - left_ x + left_ y). lia.
Qed.

Lemma left_nonneg inputs w0 s blocks i inp p :
  inv inputs w0 s blocks -> calls s !! i = Some (inp, p) -> 0 <= left_ (inp, p).
Proof.
  intros Hinv Hi. pose proof (most_nonneg inp). destruct p as [| | |l|ar r|r]; cbn [left_]; try lia.
  destruct (inv_owner inputs w0 s blocks i inp _ Hinv Hi eq_refl)
    as (front & ps & _ & _ & _ & _ & (_ & _ & Ho) & _). pose proof (owner_rounds _ _ _ _ _ _ Ho). lia.
Qed.

Lemma work_nonneg inputs w0 s blocks : inv inputs w0 s blocks -> 0 <= work (calls s).
Proof.
  intros Hinv. assert (Forall (fun x => 0 <= left_ x) (calls s)) as H.
  { apply Forall_lookup. intros i [inp p] Hi. by eapply left_nonneg. }
  induction H as [|x l Hx _ IH]; unfold work in *; cbn [fold_right]; lia.
Qed.

Lemma step_works inputs w0 s blocks i dn s' :
  inv inputs w0 s blocks -> call_step s i dn = Some s' -> work (calls s') <= work (calls s) - 1.
Proof.
  intros Hinv H. pose proof H as Hcall. unfold call_step in H.
  destruct (calls s !! i) as [[inp p]|] eqn:Hi; [|done].
  assert (forall q, s' = mkSystem (shared s') (<[i := (inp, q)]> (calls s)) ->
    left_ (inp, q) <= left_ (inp, p) - 1 -> work (calls s') <= work (calls s) - 1) as Hput.
  { intros q -> Hq. cbn [calls]. rewrite (work_put _ _ _ _ Hi). lia. }
  pose proof (most_nonneg inp) as Hmost. pose proof Hinv as (_ & Ht & Hst & _).
  destruct p as [| | |l|ar r|r]; [| | | | |done].
  - destruct (locked (shared s)); injection H as <-; (eapply Hput; [reflexivity|cbn [left_]; lia]).
  - destruct dn as [e|]; [|destruct (locked (shared s)); [done|]]; injection H as <-;
      (eapply Hput; [reflexivity|cbn [left_]; lia]).
  - destruct (enter_law inp (shared s) Ht Hst) as (r & w' & Heq & _ & _ & _ & _ & Hr). rewrite Heq in H.
    destruct r as [l|e| |]; try done; injection H as <-; (eapply Hput; [reflexivity|cbn [left_]; lia]).
  - destruct (inv_owner inputs w0 s blocks i inp _ Hinv Hi eq_refl)
      as (front & ps & _ & Htr & Hin & Hl & (_ & _ & Hown) & _).
    destruct (round_law w0 inp l _ _ _ Ht Hown Htr) as (r & w' & ps' & Heq & _ & _ & _ & _ & Hr).
    rewrite (call_round s i dn inp l r w' Hi Heq) in Hcall. injection Hcall as <-.
    pose proof (owner_rounds _ _ _ _ _ _ Hown).
    eapply Hput; [reflexivity|]. destruct r as [[l'|a]|e| |]; cbn [after_round left_]; try lia; try done.
  - destruct (locked (shared s)); [|done]. injection H as <-. eapply Hput; [reflexivity|cbn [left_]; lia].
Qed.

(** The steps all calls can take together. *)
Definition budget (inputs : list (Input op)) : Z := fold_right (fun i n => most i + 5 + n) 0 inputs.

Lemma run_bounded inputs w n s :
  term_ok (term w) -> stream_ok w -> locked w = false -> run n (init op inputs w) s ->
  Z.of_nat n + work (calls s) <= budget inputs.
Proof.
  intros Ht Hst Hl Hr. remember (init op inputs w) as s0 eqn:Hs0.
  induction Hr as [s|n s1 s2 i dn s3 Hr IH H|n s1 s2 w' Hr IH H]; subst.
  - cbn [calls init]. clear. induction inputs as [|i l IH]; [cbn; lia|].
    unfold work, budget in *. cbn [map fold_right left_]. lia.
  - specialize (IH eq_refl). destruct (reach_inv inputs w s2 Ht Hst Hl (run_reach _ _ _ Hr)) as [blocks Hinv].
    pose proof (step_works _ _ _ _ _ _ _ Hinv H). lia.
  - by apply IH.
Qed.

(** No deadlock and no endless execution. *)
Lemma run_finishes inputs w n s :
  term_ok (term w) -> stream_ok w -> locked w = false -> run n (init op inputs w) s ->
  Z.of_nat n <= budget inputs /\
  (Forall (fun x => exists r, x.2 = returned r) (calls s) \/ exists i s', call_step s i None = Some s').
Proof.
  intros Ht Hst Hl Hr. destruct (reach_inv inputs w s Ht Hst Hl (run_reach _ _ _ Hr)) as [blocks Hinv].
  split; [|by eapply someone_steps].
  pose proof (run_bounded inputs w n s Ht Hst Hl Hr). pose proof (work_nonneg inputs _ s blocks Hinv). lia.
Qed.

(** ** One call alone *)

Definition alone (i : Input op) (w : world) (p : phase op) : system op := mkSystem w [(i, p)].

Lemma alone_step i w p w' q :
  call_step (alone i w p) 0 None = Some (alone i w' q) -> system_step (alone i w p) (alone i w' q).
Proof. apply step_call. Qed.

Lemma loop_rounds i fuel l w r w' :
  mloop fuel (round op i) l w = (r, w') -> r <> NoFuel ->
  rtc system_step (alone i w (looping l)) (alone i w' (leaving true r)).
Proof.
  revert l w. induction fuel as [|fuel IH]; intros l w H Hr; cbn [mloop] in H; [congruence|].
  unfold mbind_ at 1 in H. destruct (round op i l w) as [[[o|x]|e| |] w1] eqn:Heq; [|injection H as <- <-..].
  - eapply rtc_l; [|by apply (IH o w1)]. apply alone_step. cbn. by rewrite Heq.
  - apply rtc_once, alone_step. cbn. by rewrite Heq.
  - apply rtc_once, alone_step. cbn. by rewrite Heq.
  - apply rtc_once, alone_step. cbn. by rewrite Heq.
  - done.
Qed.

Lemma alone_leaves i w w2 ar r :
  term_ok (term w) -> stream_ok w -> locked w = false ->
  rtc system_step (init op [i] w) (alone i w2 (leaving ar r)) ->
  rtc system_step (init op [i] w) (alone i (opLock_unlock (if ar then disarm w2 else w2)) (returned r)).
Proof.
  intros Ht Hst Hl Hr. eapply rtc_r; [exact Hr|]. apply alone_step.
  destruct (reach_inv [i] w _ Ht Hst Hl Hr) as (blocks & _ & _ & _ & _ & _ & _ & H7 & _).
  pose proof (H7 0%nat i (leaving ar r) eq_refl eq_refl) as Hw. cbn in Hw |- *. by rewrite Hw.
Qed.

(** With one caller and nothing else going on the threads are the function. *)
Lemma alone_run fuel i w r w' :
  term_ok (term w) -> stream_ok w -> locked w = false -> lock_errs w = [] ->
  sequential op fuel i w = (r, w') -> r <> NoFuel ->
  rtc system_step (init op [i] w) (alone i w' (returned r)).
Proof.
  intros Ht Hst Hl He H Hr. unfold sequential, mbind_ at 1, opLock_lock in H. rewrite He in H.
  unfold defer at 1, mbind_ at 1 in H.
  assert (rtc system_step (init op [i] w) (alone i (set_locked w true) admitted)) as H0.
  { apply rtc_once, (alone_step i w entering). cbn. by rewrite Hl. }
  assert (forall s, call_step (alone i (set_locked w true) admitted) 0 None = Some s ->
    rtc system_step (init op [i] w) s) as H1.
  { intros s Hs. eapply rtc_r; [exact H0|]. by eapply step_call. }
  destruct (enter op i (set_locked w true)) as [[l|e| |] w1] eqn:Hent.
  - unfold defer in H. destruct (mloop fuel (round op i) l w1) as [r2 w2] eqn:Hloop. injection H as <- <-.
    apply (alone_leaves i w w2 true); [done..|]. etrans; [|by eapply loop_rounds]. apply H1. cbn. by rewrite Hent.
  - injection H as <- <-. apply (alone_leaves i w w1 false); [done..|]. apply H1. cbn. by rewrite Hent.
  - injection H as <- <-. apply (alone_leaves i w w1 false); [done..|]. apply H1. cbn. by rewrite Hent.
  - by injection H as <- _.
Qed.

(** ** The blocks of calls that have all succeeded *)

Lemma block_unique (bs : list block) i ps ps' :
  NoDup (map fst bs) -> (i, ps) ∈ bs -> (i, ps') ∈ bs -> ps = ps'.
Proof.
  induction bs as [|[j qs] bs IH]; intros Hnd H1 H2; [by apply not_elem_of_nil in H1|].
  cbn in Hnd. apply NoDup_cons in Hnd as [Hj Hnd].
  assert (forall qs', (j, qs') ∈ bs -> False) as Hno.
  { intros qs' Hin. apply Hj. apply list_elem_of_In, in_map_iff. exists (j, qs'). split; [done|by apply list_elem_of_In]. }
  apply elem_of_cons in H1 as [E1|H1]; apply elem_of_cons in H2 as [E2|H2]; simplify_eq; try done;
    try (by exfalso; eauto).
  by apply IH.
Qed.

(** When every call has its whole block no block is cut short. *)
Lemma all_whole inputs bs :
  NoDup (map fst bs) -> serial inputs bs ->
  (forall i inp, inputs !! i = Some inp -> exists ps, (i, ps) ∈ bs /\ whole inputs (i, ps)) ->
  Forall (fun b => whole inputs b \/ silent b) bs.
Proof.
  intros Hnd (d & ct & -> & Hd & Hcut) Hall. apply Forall_app. split; [done|].
  destruct Hcut as [->|([i ps] & rest & -> & (inp & Hi & _) & Hs)]; [constructor|].
  apply Forall_cons. split.
  - left. cbn in Hi. destruct (Hall i inp Hi) as (ps' & Hin & Hw).
    rewrite (block_unique _ i ps ps' Hnd); [done| |done]. apply elem_of_app. right. by left.
  - eapply Forall_impl; [exact Hs|]. by right.
Qed.

(** When every call has succeeded, each has its whole block. *)
Lemma all_succeeded inputs w0 s blocks :
  inv inputs w0 s blocks -> forallb (fun x => succeeded x.2) (calls s) = true ->
  (forall i inp, inputs !! i = Some inp -> exists ps, (i, ps) ∈ blocks /\ whole inputs (i, ps)) /\
  Forall (fun b => whole inputs b \/ silent b) blocks.
Proof.
  intros Hinv Hall. pose proof Hinv as (H1 & _ & _ & _ & Hnd & H6 & _). rewrite forallb_forall in Hall.
  assert (forall i inp, inputs !! i = Some inp -> exists ps, (i, ps) ∈ blocks /\ whole inputs (i, ps)) as Hblk.
  { intros i inp Hi. pose proof Hi as Hc. rewrite <- H1, lookup_input in Hc.
    destruct (calls s !! i) as [[t p]|] eqn:Hw; [|done]. injection Hc as ->.
    pose proof (Hall _ (proj1 (list_elem_of_In _ _) (list_elem_of_lookup_2 _ _ _ Hw))) as Hp. destruct p as [| | |?|?|[a|?| |]]; try done.
    destruct (H6 i inp _ Hw) as (ps & Hin & Hcp). exists ps. split; [done|]. by exists inp, a. }
  split; [done|]. eapply all_whole; try done. by eapply inv_serial.
Qed.

Definition spoke (b : block) : Prop := b.2 <> [].
#[export] Instance spoke_dec b : Decision (spoke b).
Proof. unfold spoke. destruct (b.2) as [|x l]; [right; intros H; by apply H|by left]. Defined.

Lemma payload_spoke bs : payload (filter spoke bs) = payload bs.
Proof.
  induction bs as [|b bs IH]; [done|]. rewrite filter_cons. unfold payload in *. cbn [map concat].
  destruct (decide (spoke b)) as [H|H]; cbn [map concat]; rewrite IH; [done|].
  unfold spoke in H. destruct (b.2); [done|]. by destruct H.
Qed.

Lemma NoDup_filter_fst (bs : list block) : NoDup (map fst bs) -> NoDup (map fst (filter spoke bs)).
Proof.
  induction bs as [|b bs IH]; intros Hnd; [done|]. cbn [map] in Hnd. apply NoDup_cons in Hnd as [Hb Hnd].
  rewrite filter_cons. destruct (decide (spoke b)); [|by apply IH]. cbn [map]. apply NoDup_cons. split; [|by apply IH].
  intros Hin. apply Hb. apply list_elem_of_In, in_map_iff in Hin as (b' & <- & Hin).
  apply list_elem_of_In, list_elem_of_filter in Hin as [_ Hin]. by apply list_elem_of_In, in_map, list_elem_of_In.
Qed.

(** Then, but for blocks of nothing, there is one for each call: what it moved. *)
Lemma spoken_blocks inputs w0 s blocks :
  inv inputs w0 s blocks -> forallb (fun x => succeeded x.2) (calls s) = true ->
  (forall i a, ~ complete i a []) ->
  exists bs, payload bs = payload blocks /\ NoDup (map fst bs) /\
    (forall i, i ∈ map fst bs <-> (i < length inputs)%nat) /\
    (forall i ps, (i, ps) ∈ bs -> exists inp a, inputs !! i = Some inp /\
       calls s !! i = Some (inp, returned (Ok a)) /\ complete inp a ps).
Proof.
  intros Hinv Hall Hne. destruct (all_succeeded inputs w0 s blocks Hinv Hall) as [Hblk Hcl].
  pose proof Hinv as (H1 & _ & _ & _ & Hnd & H6 & _). exists (filter spoke blocks).
  assert (forall b, b ∈ filter spoke blocks -> exists inp, inputs !! b.1 = Some inp) as Hin.
  { intros b [Hsp Hin]%list_elem_of_filter. rewrite Forall_forall in Hcl.
    destruct (Hcl b Hin) as [(inp & a & Hi & _)|?]; [by exists inp|by destruct Hsp]. }
  split_and!; [apply payload_spoke|by apply NoDup_filter_fst| |].
  - intros i. split.
    + intros (b & <- & Hb%list_elem_of_In)%list_elem_of_In%in_map_iff. destruct (Hin b Hb) as [inp Hi].
      by eapply lookup_lt_Some.
    + intros [inp Hi]%lookup_lt_is_Some_2. destruct (Hblk i inp Hi) as (ps & Hb & inp' & a & Hi' & Hc).
      apply list_elem_of_In, in_map_iff. exists (i, ps). split; [done|]. apply list_elem_of_In, list_elem_of_filter.
      split; [|done]. intros E. cbn in E, Hc. rewrite E in Hc. by eapply Hne.
  - intros i ps Hb. destruct (Hin _ Hb) as [inp Hi]. apply list_elem_of_filter in Hb as [_ Hb]. cbn in Hi.
    pose proof Hi as Hc. rewrite <- H1, lookup_input in Hc.
    destruct (calls s !! i) as [[t p]|] eqn:Hw; [|done]. injection Hc as ->.
    rewrite forallb_forall in Hall.
    pose proof (Hall _ (proj1 (list_elem_of_In _ _) (list_elem_of_lookup_2 _ _ _ Hw))) as Hp.
    destruct p as [| | |?|?|[a|?| |]]; try done. destruct (H6 i inp _ Hw) as (ps' & Hb' & Hcp).
    rewrite (block_unique _ i ps ps' Hnd Hb Hb'). by exists inp, a.
Qed.

Lemma results_lookup (s : system op) i inp a :
  forallb (fun x => succeeded x.2) (calls s) = true -> calls s !! i = Some (inp, returned (Ok a)) ->
  results s !! i = Some a.
Proof.
  unfold results. revert i. induction (calls s) as [|[t p] l IH]; intros i Hall Hi; [done|]. cbn in Hall.
  apply andb_true_iff in Hall as [Hp Hall]. destruct p as [| | |?|?|[b|?| |]]; try done.
  destruct i as [|i]; [by injection Hi as -> ->|]. by apply IH.
Qed.

Lemma results_length (s : system op) : forallb (fun x => succeeded x.2) (calls s) = true -> length (results s) = length (calls s).
Proof.
  unfold results. induction (calls s) as [|[t p] l IH]; intros Hall; [done|]. cbn in Hall.
  apply andb_true_iff in Hall as [Hp Hall]. destruct p as [| | |?|?|[b|?| |]]; try done. cbn. f_equal. by apply IH.
Qed.
End Serial.

(** A list in the order of the blocks. *)
Lemma blocks_permutation {X A} `{!Inhabited A} (l : list A) (bs : list (nat * list X)) :
  NoDup (map fst bs) -> (forall i, i ∈ map fst bs <-> (i < length l)%nat) ->
  map (fun b => l !!! b.1) bs ≡ₚ l.
Proof.
  intros Hnd Hall. assert (map fst bs ≡ₚ seq 0 (length l)) as Hp.
  { apply NoDup_Permutation; [done|apply NoDup_seq|]. intros i. rewrite elem_of_seq, Hall. lia. }
  assert (map (fun b => l !!! b.1) bs = map (fun i => l !!! i) (map fst bs)) as -> by (by rewrite map_map).
  rewrite Hp. apply Permutation_refl'. apply list_eq. intros i.
  transitivity ((fun i => l !!! i) <$> seq 0 (length l) !! i); [exact (list_lookup_fmap _ _ _)|].
  destruct (decide (i < length l)%nat) as [Hi|Hi].
  - rewrite lookup_seq_lt by done. cbn. symmetry. by apply list_lookup_lookup_total_lt.
  - rewrite lookup_seq_ge by lia. cbn. symmetry. apply lookup_ge_None. lia.
Qed.
