(* ===== verification/Writers.v ===== *)
(** * Several writers on one connection

    Concurrent calls of [WriteTSDU] contend for writeMu.  They are the operation
    [write_op] of Locked.v: the checks between the lock and the loop, and the
    rounds of the segment loop, each of which sends one packet.  What crosses the
    stream are the packets sent. *)

From S2P Require Import Prelude Errors Types Wire PreferredMax Params Decode Encode Codec.
From S2P Require Import RoundTrip CodecSpec SizeNego Validate RefAlloc World Conn Tsdu TsduSpec Locked.

Section Writers.
Context (c : Conn).
Let max := MaxTPDULength (negotiated c).

(** [WriteTSDU] between the lock and the loop. *)
Definition write_enter (tsdu : bytes) : M Z :=
  do! _ := requireOpen in
  do! _ := check_ctx in
  do! _ := lift (validateWriteTSDULength (len tsdu) (maxTSDU c)) in
  if maxSegmentPayload (MaxTPDULength (negotiated c)) <? 1
  then fail (Errorf "negotiated MaxTPDULength %d < %d: %w" [Sentinel ErrInvalidConfig]) else
  do! _ := arm in
  writeProgress.

(** The loop keeps the octets written before it, and the offset in the TSDU. *)
Definition write_op : operation :=
  mkOperation bytes (Z * Z) unit
    (fun tsdu => do! start := write_enter tsdu in ret (start, 0))
    (fun tsdu '(start, offset) =>
       do! r := write_body c tsdu (maxSegmentPayload (MaxTPDULength (negotiated c))) start offset in
       ret (match r with inl offset => inl (start, offset) | inr a => inr a end)).

(** The segment loop does not see what the rest of the program does. *)
Lemma write_inv_environment tsdu w0 offset w w' :
  conn_step c w w' -> (stream_ok w -> stream_ok w') -> sent w' = sent w -> nWritten w' = nWritten w ->
  write_inv c tsdu w0 offset w ->
  exists w0', term w0' = term w0 /\ sent w0' = sent w0 /\ nWritten w0' = nWritten w0 /\
    write_inv c tsdu w0' offset w'.
Proof.
  intros Hs Hst Hsent Hn ((Hs0 & Hst0 & _) & Hle & Hcase).
  exists (mkWorld (reads w') (writes w0) (ctx_errs w0) (lock_errs w0) (past_deadline w0) (has_deadline w0)
    (reader_err w0) (writer_err w0) (sent w0) (nRead w') (nWritten w0) (closes w0) (armed w') (locked w')
    (refs w0) (term w0)).
  split_and!; try done. unfold write_inv, write_run. cbn. rewrite Hsent, Hn. split_and!; try done; [|by apply Hst].
  etrans; [exact Hs0|exact Hs].
Qed.

Lemma write_enter_spec tsdu w :
  term_ok (term w) ->
  exists r w', write_enter tsdu w = (r, w') /\ same_conn w w' /\ reads w' = reads w /\ writes w' = writes w /\
    sent w' = sent w /\ nWritten w' = nWritten w /\ nRead w' = nRead w /\ locked w' = locked w /\
    ((exists e, r = Err e) \/ (r = Ok (nWritten w') /\ term w' = open_term /\ 4 <= max /\ 1 <= len tsdu)).
Proof.
  intros Ht. unfold write_enter. unfold mbind_ at 1.
  destruct (requireOpen_spec w Ht) as [[Hopen ->]|(en & Hen & ->)]; [|eexists _, _; split; [reflexivity|]; split_and!; try done; left; eauto].
  unfold mbind_ at 1. destruct (check_ctx_spec w) as (r & w1 & -> & Hio & Hs & Hr).
  destruct Hio as (E1 & E2 & E3 & E4 & E5 & E6 & E7).
  destruct Hr as [->|[e ->]]; [|eexists _, _; split; [reflexivity|]; split_and!; try done; left; eauto].
  unfold mbind_ at 1, lift.
  destruct (validateWrite_returns (len tsdu) (maxTSDU c)) as [Hv|[e Hv]]; rewrite Hv;
    [|eexists _, _; split; [reflexivity|]; split_and!; try done; left; eauto].
  pose proof (validateWrite_Ok _ _ Hv (len_nonneg tsdu)) as Hlen.
  destruct (maxSegmentPayload (MaxTPDULength (negotiated c)) <? 1) eqn:Hseg;
    [eexists _, _; split; [reflexivity|]; split_and!; try done; left; eauto|].
  assert (4 <= max) as Hmax.
  { revert Hseg. unfold maxSegmentPayload, minNegotiatedTPDULength, minimalDTOverhead, max.
    destruct (_ <? 3 + 1) eqn:?; [done|]. intros. blia. }
  unfold mbind_ at 1.
  destruct (arm_spec w1) as [(w2 & -> & Hs2 & _ & F1 & F2 & F3 & F4 & F5 & F6)
                            |(e & w2 & -> & Hs2 & (F1 & F2 & F3 & F4 & F5 & _ & F6))].
  - unfold writeProgress. eexists _, _. split; [reflexivity|]. split; [by etrans|].
    split_and!; try congruence. right. destruct Hs as (Et & _), Hs2 as (Et2 & _).
    split_and!; try done; [congruence|lia].
  - eexists _, _. split; [reflexivity|]. split; [by etrans|]. split_and!; try congruence. left; eauto.
Qed.

Lemma write_loop tsdu start fuel : forall offset w,
  mloop fuel (round write_op tsdu) (start, offset) w =
  mloop fuel (write_body c tsdu (maxSegmentPayload (MaxTPDULength (negotiated c))) start) offset w.
Proof.
  induction fuel as [|fuel IH]; intros offset w; [done|]. cbn [mloop round write_op]. unfold mbind_.
  destruct (write_body c tsdu _ start offset w) as [[[o|x]|e| |] w1]; cbn; try done.
Qed.

(** [WriteTSDU] is the operation, run alone. *)
Lemma WriteTSDU_sequential tsdu w :
  WriteTSDU (Some c) tsdu w = sequential write_op (S (length tsdu)) tsdu w.
Proof.
  unfold WriteTSDU, sequential. unfold mbind_ at 1. unfold mbind_ at 6.
  destruct (opLock_lock w) as [[[]|e| |] w0]; try reflexivity. unfold defer at 1 3.
  cbn [enter write_op]. unfold write_enter, mbind_.
  destruct (requireOpen w0) as [[[]|e| |] w1]; try reflexivity.
  destruct (check_ctx w1) as [[[]|e| |] w2]; try reflexivity.
  unfold lift. destruct (validateWriteTSDULength (len tsdu) (maxTSDU c)) as [[]|e| |]; try reflexivity.
  destruct (maxSegmentPayload (MaxTPDULength (negotiated c)) <? 1); [reflexivity|].
  destruct (arm w2) as [[[]|e| |] w3]; try reflexivity.
  unfold writeProgress, ret. unfold defer. by rewrite write_loop.
Qed.

(** A round, by the call that holds the lock. *)
Lemma write_round w0 tsdu start offset front own w :
  term_ok (term w) -> 4 <= max -> offset <= len tsdu ->
  (exists w1, term w1 = open_term /\ sent w1 = sent w0 ++ front /\ nWritten w1 = start /\ write_inv c tsdu w1 offset w) ->
  sent w = sent w0 ++ front ++ own ->
  exists r w' own', write_body c tsdu (maxSegmentPayload (MaxTPDULength (negotiated c))) start offset w = (r, w') /\
    conn_step c w w' /\ stream_ok w' /\ locked w' = locked w /\ sent w' = sent w0 ++ front ++ own' /\
    match r with
    | Ok (inl offset') => offset < offset' <= len tsdu /\
        exists w1, term w1 = open_term /\ sent w1 = sent w0 ++ front /\ nWritten w1 = start /\ write_inv c tsdu w1 offset' w'
    | Ok (inr _) => segmentation max tsdu own'
    | Err _ => own' = [] \/ (ended w' /\ exists qs, segmentation max tsdu (own' ++ qs))
    | Panic | NoFuel => False
    end.
Proof.
  intros Ht Hm Hoff (w1 & Ht1 & Hs1 & Hn1 & Hinv) Hsent.
  pose proof (write_body_spec c tsdu w1 offset w Ht1 Hm Hinv) as Hspec. rewrite Hn1 in Hspec.
  pose proof (write_body_keeps c tsdu (maxSegmentPayload (MaxTPDULength (negotiated c))) start offset w) as Hk.
  assert (locked w1 = locked w) as Hl1 by (by destruct Hinv as ((_ & _ & _ & _ & _ & <-) & _)).
  unfold wp in Hspec. destruct (write_body _ _ _ _ _ _) as [r w'] eqn:Heq. cbn [fst snd] in *. exists r, w'.
  destruct r as [[offset'|[]]|e| |]; try done.
  - destruct Hspec as [Hinv' Hoff']. pose proof Hinv' as ((_ & Hst & _ & _ & _ & Hl') & _ & Hcase).
    assert (exists ps', sent w' = sent w1 ++ ps') as [ps' Hps'].
    { destruct Hcase as [(_ & ps' & ? & _)|(_ & init & _ & _ & ? & _)]; by eexists. }
    exists ps'. rewrite Hps', Hs1, <- app_assoc. split_and!; try done; try congruence; try lia. by exists w1.
  - destruct Hspec as ((_ & Hst & _ & _ & _ & Hl') & ps' & Hps' & Hseg). exists ps'.
    rewrite Hps', Hs1, <- app_assoc. split_and!; try done. congruence.
  - destruct Hspec as ((_ & Hst & _ & _ & _ & Hl') & (ps' & Hps' & qs & Hseg) & Hcase). exists ps'.
    split_and!; try done; [congruence|by rewrite Hps', Hs1, <- app_assoc|].
    destruct Hcase as [(en & Hen & _)|(_ & Hsame & _)].
    + right. split; [by exists en|]. by exists qs.
    + left. rewrite Hsame in Hps'. apply (f_equal length) in Hps'. rewrite length_app in Hps'.
      apply length_zero_iff_nil. lia.
Qed.

(** In the middle of the loop, what was sent begins the TSDU's segmentation. *)
Lemma write_inv_begun tsdu w0 offset w ps :
  4 <= max -> write_inv c tsdu w0 offset w -> sent w = sent w0 ++ ps -> exists qs, segmentation max tsdu (ps ++ qs).
Proof.
  intros Hm (_ & _ & Hcase) Hs.
  destruct Hcase as [(_ & ps' & Hs' & Hseg)|(Ho & segs & Hf & Hcat & Hs' & _)]; rewrite Hs in Hs';
    apply app_inv_head in Hs' as ->.
  - exists []. by rewrite app_nil_r.
  - destruct (segmentation_exists max (drop (Z.to_nat offset) tsdu) Hm) as [qs Hqs].
    { intros H. apply (f_equal length) in H. rewrite length_drop in H. cbn in H. unfold len in Ho. lia. }
    exists qs. rewrite <- (take_drop (Z.to_nat offset) tsdu), <- Hcat. by apply segmentation_prepend.
Qed.

(** The loop begins with nothing sent. *)
Lemma write_inv_start tsdu w : stream_ok w -> 1 <= len tsdu -> write_inv c tsdu w 0 w.
Proof.
  intros Hst Hlen. split; [by split_and!; try left|]. split; [lia|]. right. split; [lia|]. exists [].
  split_and!; try done; [by rewrite app_nil_r|by left].
Qed.

(** The packets of a call are the segmentation of its TSDU, or begin it. *)
#[export] Instance write_serialised : Serialised c write_op bytes.
Proof.
  refine (Build_Serialised c write_op bytes
    (fun w w' => sent w' = sent w /\ nWritten w' = nWritten w)
    (fun w0 w ps => sent w = sent w0 ++ ps)
    (fun tsdu _ ps => segmentation max tsdu ps)
    (fun tsdu ps => exists qs, segmentation max tsdu (ps ++ qs))
    (fun w0 tsdu l front own w =>
       4 <= max /\ snd l <= len tsdu /\
       exists w1, term w1 = open_term /\ sent w1 = sent w0 ++ front /\ nWritten w1 = fst l /\
         write_inv c tsdu w1 (snd l) w)
    (fun tsdu l => len tsdu - snd l)
    (fun tsdu => len tsdu) _ _ _ _ _ _ _ _ _ _).
  - done.
  - done.
  - intros w. by rewrite app_nil_r.
  - intros w0 w w' xs [-> _] ->. done.
  - intros tsdu. apply len_nonneg.
  - intros tsdu w Ht Hst.
    destruct (write_enter_spec tsdu w Ht) as (r & w' & Heq & Hsame & Er & Ew & Es & En & Enr & El & Hr).
    assert (stream_ok w') as Hst' by (unfold stream_ok; by rewrite Er, Ew).
    cbn [enter write_op]. unfold mbind_. rewrite Heq.
    destruct Hr as [[e ->]|(-> & Hopen & Hm & Hlen)]; eexists _, w'; (split; [reflexivity|]); split_and!; try done.
    1,2: cbn; lia.
    cbn [snd fst]. intros w0 front Htr. split_and!; try done; [lia|]. exists w'. by split_and!; try apply write_inv_start.
  - intros w0 tsdu [start offset] front own w Ht (Hm & Hoff & Hown) Htr. cbn [fst snd] in *.
    destruct (write_round w0 tsdu start offset front own w Ht Hm Hoff Hown Htr)
      as (r & w' & own' & Heq & Hs & Hst & Hl & Htr' & Hr).
    cbn [round write_op]. unfold mbind_. rewrite Heq. unfold ret.
    destruct r as [[o|x]|e| |]; try done; eexists _, w', own'; (split; [reflexivity|]); split_and!; try done.
    all: destruct Hr as [Ho Hr]; cbn [fst snd]; try done; lia.
  - intros w0 tsdu [start offset] front own w w' Hs Hst [Hsent Hn] _ (Hm & Hoff & w1 & Ht1 & Hs1 & Hn1 & Hinv).
    cbn [fst snd] in *. split_and!; try done.
    destruct (write_inv_environment tsdu w1 offset w w' Hs Hst Hsent Hn Hinv) as (w2 & Ht2 & Hs2 & Hn2 & Hinv2).
    exists w2. rewrite Ht2, Hs2, Hn2. by split_and!.
  - intros w0 tsdu [start offset] front own w Htr (Hm & _ & w1 & _ & Hs1 & _ & Hinv).
    eapply write_inv_begun; [done|exact Hinv|]. by rewrite Htr, Hs1, app_assoc.
  - intros w0 tsdu [start offset] front own w (_ & Hoff & _). cbn in *. lia.
Defined.

Lemma write_budget (tsdus : list bytes) : budget c write_op tsdus = len (concat tsdus) + 5 * Z.of_nat (length tsdus).
Proof.
  induction tsdus as [|t l IH]; [done|]. unfold budget in *. cbn [fold_right concat length]. rewrite IH, len_app.
  cbn [most write_serialised]. lia.
Qed.

Lemma segmentation_nonempty tsdu : ~ segmentation max tsdu [].
Proof. intros (init & final & H & _). by destruct init. Qed.

Lemma whole_segmentation (tsdus : list bytes) b :
  whole c write_op tsdus b -> exists tsdu, tsdus !! b.1 = Some tsdu /\ segmentation max tsdu b.2.
Proof. intros (tsdu & [] & Hi & Hseg). by exists tsdu. Qed.
End Writers.

(** [n] calls of [ReadTSDU], one after the other. *)
Fixpoint read_all (c : Conn) (n : nat) (w : world) : list (outcome bytes) * world :=
  match n with
  | O => ([], w)
  | S n =>
      let '(r, w) := ReadTSDU (Some c) w in
      let '(rs, w) := read_all c n w in
      (r :: rs, w)
  end.

Section Reader.
Context (c1 c2 : Conn) (tsdus : list bytes).
Context (Hbytes : Forall bytes_ok tsdus).
Context (Hmax : MaxTPDULength (negotiated c1) <= MaxTPDULength (negotiated c2)).
Context (Hm : 0 <= maxTSDU c2).
Context (Hlen : Forall (fun tsdu => len tsdu <= effective_max_tsdu (maxTSDU c2)) tsdus).

Definition tsdu_of (b : block (X := bytes)) : bytes := tsdus !!! b.1.

Lemma read_all_delivers bs : forall ans rest w,
  Forall (whole c1 (write_op c1) tsdus) bs -> quiet w -> reads w = ans ++ rest -> delivered ans (payload bs) ->
  exists w', read_all c2 (length bs) w = (map (fun b => Ok (tsdu_of b)) bs, w') /\ reads w' = rest /\ quiet w'.
Proof.
  induction bs as [|[i ps] bs IH]; intros ans rest w Hw Hq Hr Hd.
  { apply Forall2_nil_inv_r in Hd as ->. by exists w. }
  apply Forall_cons in Hw as [(tsdu & Hi & Hseg)%whole_segmentation Hw]. cbn [fst snd] in *.
  change (payload ((i, ps) :: bs)) with (ps ++ payload bs) in Hd.
  apply Forall2_app_inv_r in Hd as (ans1 & ans2 & Hd1 & Hd2 & ->). rewrite <- app_assoc in Hr.
  destruct (ReadTSDU_delivers c2 tsdu ps ans1 (ans2 ++ rest) w) as (w1 & Heq & Hr1 & Hq1); try done.
  - by eapply Forall_lookup_1 in Hbytes.
  - destruct Hseg as (segs & final & -> & Hcat & Hf & Hl). exists segs, final. split_and!; try done; try lia.
    eapply Forall_impl; [exact Hf|]. cbn. intros x ->. lia.
  - by eapply (Forall_lookup_1 _ _ _ _ Hlen).
  - destruct (IH ans2 rest w1) as (w2 & Heq2 & Hr2 & Hq2); try done. exists w2.
    cbn [length read_all map]. rewrite Heq, Heq2. change (tsdu_of (i, ps)) with (tsdus !!! i).
    by rewrite (list_lookup_total_correct _ _ _ Hi).
Qed.
End Reader.

(** ** Properties *)

(** Two writers, the second waiting while the first sends two segments. *)
Definition turns : list nat := [0; 1; 0; 0; 0; 0; 0; 1; 1; 1; 1; 1]%nat.

Definition contention : system (write_op (sample_conn 5)) :=
  after turns (init (write_op (sample_conn 5)) [[1; 2; 3]; [4]] (quiet_world [])).

Example contention_ends :
  sent (shared contention) = [[2; 240; 0; 1; 2]; [2; 240; 128; 3]; [2; 240; 128; 4]] /\
  forallb (fun x => succeeded x.2) (calls contention) = true.
Proof. split; vm_compute; reflexivity. Qed.

(** Segments of different TSDUs never interleave.  However the steps of the
    concurrent calls of [WriteTSDU] interleave with each other, with the reader
    and with whatever ends the connection, the packets sent are a sequence of
    blocks, at most one per call: each is the whole segmentation of that call's
    TSDU or nothing, but for possibly one that is cut short, after which nothing
    is sent.  At most one call is between its lock and its unlock; one that
    returns nil has its whole block; none panics. *)
Theorem writers_never_interleave c tsdus w s :
  term_ok (term w) -> stream_ok w -> locked w = false -> rtc (system_step c (write_op c)) (init (write_op c) tsdus w) s ->
  exists blocks,
    sent (shared s) = sent w ++ payload blocks /\ NoDup (map fst blocks) /\ serial c (write_op c) tsdus blocks /\
    (forall i j ti tj pi pj, calls s !! i = Some (ti, pi) -> calls s !! j = Some (tj, pj) ->
       inside pi = true -> inside pj = true -> i = j) /\
    (forall i tsdu r, calls s !! i = Some (tsdu, returned r) ->
       match r with
       | Ok _ => exists ps, (i, ps) ∈ blocks /\ segmentation (MaxTPDULength (negotiated c)) tsdu ps
       | Err _ => True
       | Panic | NoFuel => False
       end).
Proof.
  intros Ht Hst Hl Hr. destruct (reach_inv c (write_op c) tsdus w s Ht Hst Hl Hr) as [blocks Hinv]. exists blocks.
  pose proof Hinv as (H1 & _ & _ & H4 & H5 & H6 & _). split_and!; try done.
  - by eapply inv_serial.
  - intros i j ti tj pi pj. by eapply inv_exclusive.
  - intros i tsdu r Hi. specialize (H6 i tsdu _ Hi). by destruct r.
Qed.

Lemma writers_never_interleave_witness :
  exists blocks,
    sent (shared contention) = [] ++ payload blocks /\ NoDup (map fst blocks) /\
    serial (sample_conn 5) (write_op (sample_conn 5)) [[1; 2; 3]; [4]] blocks /\
    (forall i j ti tj pi pj, calls contention !! i = Some (ti, pi) -> calls contention !! j = Some (tj, pj) ->
       inside pi = true -> inside pj = true -> i = j) /\
    (forall i tsdu r, calls contention !! i = Some (tsdu, returned r) ->
       match r with
       | Ok _ => exists ps, (i, ps) ∈ blocks /\ segmentation 5 tsdu ps
       | Err _ => True
       | Panic | NoFuel => False
       end).
Proof.
  apply (writers_never_interleave (sample_conn 5) [[1; 2; 3]; [4]] (quiet_world []) contention);
    [by left|by split|reflexivity|].
  apply (schedule_reach (sample_conn 5) (write_op (sample_conn 5)) turns), schedule_after. vm_compute. reflexivity.
Defined.

(** No deadlock and no endless loop among writers.  Whatever happens
    meanwhile, the calls together take at most five steps each and one per octet
    of their TSDUs, and as long as one of them has not returned one of them can
    go on, even if no context is ever done. *)
Theorem writers_finish c tsdus w n s :
  term_ok (term w) -> stream_ok w -> locked w = false -> run c (write_op c) n (init (write_op c) tsdus w) s ->
  Z.of_nat n <= len (concat tsdus) + 5 * Z.of_nat (length tsdus) /\
  (Forall (fun x => exists r, x.2 = returned r) (calls s) \/ exists i s', call_step s i None = Some s').
Proof.
  intros Ht Hst Hl Hr. rewrite <- (write_budget c). by eapply run_finishes.
Qed.

Lemma writers_finish_witness :
  12 <= len (concat [[1; 2; 3]; [4]]) + 5 * 2 /\
  (Forall (fun x => exists r, x.2 = returned r) (calls contention) \/
   exists i s', call_step contention i None = Some s').
Proof.
  apply (writers_finish (sample_conn 5) [[1; 2; 3]; [4]] (quiet_world []) 12 contention);
    [by left|by split|reflexivity|].
  apply (schedule_run (sample_conn 5) (write_op (sample_conn 5)) turns
    (init (write_op (sample_conn 5)) [[1; 2; 3]; [4]] (quiet_world [])) _ _ 0); [constructor|]. apply schedule_after. vm_compute. reflexivity.
Defined.

(** The threads are [WriteTSDU]: with one caller and nothing else going on,
    the steps lead to exactly the result and the state of the function. *)
Theorem one_writer_is_WriteTSDU c tsdu w :
  term_ok (term w) -> stream_ok w -> locked w = false -> armed w = false -> lock_errs w = [] ->
  let '(r, w') := WriteTSDU (Some c) tsdu w in
  rtc (system_step c (write_op c)) (init (write_op c) [tsdu] w) (alone (write_op c) tsdu w' (returned r)).
Proof.
  intros Ht Hst Hl Ha He. pose proof (WriteTSDU_spec c tsdu w Ht Hst Hl Ha) as H. unfold wp in H.
  destruct (WriteTSDU (Some c) tsdu w) as [r w'] eqn:Heq. cbn [fst snd] in H.
  rewrite WriteTSDU_sequential in Heq. eapply alone_run; try done. intros ->. by destruct H.
Qed.

Lemma one_writer_is_WriteTSDU_witness :
  let '(r, w') := WriteTSDU (Some (sample_conn 5)) [1; 2; 3] (quiet_world []) in
  rtc (system_step (sample_conn 5) (write_op (sample_conn 5))) (init (write_op (sample_conn 5)) [[1; 2; 3]] (quiet_world [])) (alone (write_op (sample_conn 5)) [1; 2; 3] w' (returned r)).
Proof.
  apply (one_writer_is_WriteTSDU (sample_conn 5) [1; 2; 3] (quiet_world []));
    [by left|by split|reflexivity|reflexivity|reflexivity].
Defined.

(** Many writers, one reader.  When every one of the concurrent calls of
    [WriteTSDU] has returned nil, whatever the interleaving, and the stream has
    delivered what was sent, then as many calls of [ReadTSDU] at the other end
    return the TSDUs of all the calls, each once and unmixed, in some order. *)
Theorem concurrent_transfer c1 c2 tsdus w s ps w2 ans rest :
  term_ok (term w) -> stream_ok w -> locked w = false -> rtc (system_step c1 (write_op c1)) (init (write_op c1) tsdus w) s ->
  forallb (fun x => succeeded x.2) (calls s) = true -> sent (shared s) = sent w ++ ps ->
  Forall bytes_ok tsdus -> Forall (fun tsdu => len tsdu <= effective_max_tsdu (maxTSDU c2)) tsdus ->
  MaxTPDULength (negotiated c1) <= MaxTPDULength (negotiated c2) -> 0 <= maxTSDU c2 ->
  quiet w2 -> reads w2 = ans ++ rest -> delivered ans ps ->
  exists out w2', out ≡ₚ tsdus /\ read_all c2 (length tsdus) w2 = (map Ok out, w2') /\ reads w2' = rest.
Proof.
  intros Ht Hst Hl Hr Hall Hs Hb Hlen Hmax Hm Hq Hrd Hd.
  destruct (reach_inv c1 (write_op c1) tsdus w s Ht Hst Hl Hr) as [blocks Hinv].
  destruct (spoken_blocks _ _ _ _ _ _ Hinv Hall) as (bs & Hpay & Hnd & Hidx & Hbs).
  { intros tsdu []. apply segmentation_nonempty. }
  pose proof Hinv as (_ & _ & _ & H4 & _). rewrite H4 in Hs. apply app_inv_head in Hs as <-. rewrite <- Hpay in Hd.
  assert (Forall (whole c1 (write_op c1) tsdus) bs) as Hw.
  { apply Forall_forall. intros [i qs] Hin. destruct (Hbs i qs Hin) as (tsdu & a & Hi & _ & Hseg). by exists tsdu, a. }
  pose proof (blocks_permutation tsdus bs Hnd Hidx) as Hperm. change (map (tsdu_of tsdus) bs ≡ₚ tsdus) in Hperm.
  destruct (read_all_delivers c1 c2 tsdus Hb Hmax Hm Hlen bs ans rest w2 Hw Hq Hrd Hd) as (w2' & Heq & Hrs & _).
  exists (map (tsdu_of tsdus) bs), w2'. rewrite map_map. split_and!; try done.
  rewrite <- Hperm, length_map. exact Heq.
Qed.

Lemma concurrent_transfer_witness :
  let packets := map packet (sent (shared contention)) in
  exists out w2', out ≡ₚ [[1; 2; 3]; [4]] /\
    read_all (sample_conn 6) 2 (quiet_world (packets ++ [packet [7]])) = (map Ok out, w2') /\
    reads w2' = [packet [7]].
Proof.
  apply (concurrent_transfer (sample_conn 5) (sample_conn 6) [[1; 2; 3]; [4]] (quiet_world []) contention
    (sent (shared contention)) _ (map packet (sent (shared contention))));
    [by left|by split|reflexivity| | | | | |cbn; lia|cbn; lia|by split_and!|reflexivity|].
  - apply (schedule_reach (sample_conn 5) (write_op (sample_conn 5)) turns), schedule_after. vm_compute. reflexivity.
  - vm_compute. reflexivity.
  - reflexivity.
  - repeat constructor; decide_now.
  - repeat constructor; vm_compute; discriminate.
  - vm_compute. repeat constructor.
Defined.
