(* ===== verification/Readers.v ===== *)
(** * Several readers on one connection

    Concurrent calls of [ReadTSDU] contend for readMu.  They are the operation
    [read_op] of Locked.v; a round of the loop takes one answer from the stream.
    What crosses the stream are the packets in the answers taken. *)

From S2P Require Import Prelude Errors Types Wire PreferredMax Params Decode Encode Codec.
From S2P Require Import RoundTrip CodecSpec SizeNego Validate RefAlloc World Conn Tsdu TsduSpec Locked Writers.

(** The packets that answers hold; a failed read holds none. *)
Definition packets (ans : list (answer bytes)) : list bytes :=
  omap (fun a => match result a with inl p => Some p | inr _ => None end) ans.

Lemma packets_app l k : packets (l ++ k) = packets l ++ packets k.
Proof. apply omap_app. Qed.

Lemma answered_packets ans ps : answered ans ps -> packets ans = ps.
Proof. induction 1 as [|a p ans ps Ha _ IH]; [done|]. unfold packets in *. cbn. by rewrite Ha, IH. Qed.

Section Readers.
Context (c : Conn).
Let max := MaxTPDULength (negotiated c).
Let limit := effective_max_tsdu (maxTSDU c).

(** [ReadTSDU] between the lock and the loop. *)
Definition read_enter : M Z :=
  do! _ := requireOpen in
  do! _ := check_ctx in
  if MaxTPDULength (negotiated c) <? minNegotiatedTPDULength
  then fail (Errorf "negotiated MaxTPDULength %d < %d: %w" [Sentinel ErrInvalidConfig]) else
  do! _ := arm in
  readProgress.

(** The loop keeps the octets read before it, the segments and their length. *)
Definition read_op : operation :=
  mkOperation unit (Z * (list bytes * Z)) bytes
    (fun _ => do! start := read_enter in ret (start, ([], 0)))
    (fun _ '(start, st) =>
       do! r := read_body c (effective_max_tsdu (maxTSDU c)) start st in
       ret (match r with inl st => inl (start, st) | inr out => inr out end)).

Lemma read_loop start fuel : forall st w,
  mloop fuel (round read_op tt) (start, st) w =
  mloop fuel (read_body c (effective_max_tsdu (maxTSDU c)) start) st w.
Proof.
  induction fuel as [|fuel IH]; intros st w; [done|]. cbn [mloop round read_op]. unfold mbind_.
  destruct (read_body c _ start st w) as [[[o|x]|e| |] w1]; cbn; try done.
Qed.

(** [ReadTSDU] is the operation, run alone. *)
Lemma ReadTSDU_sequential w :
  ReadTSDU (Some c) w = sequential read_op (S (Z.to_nat limit)) tt w.
Proof.
  unfold ReadTSDU, sequential. unfold mbind_ at 1. unfold mbind_ at 5.
  destruct (opLock_lock w) as [[[]|e| |] w0]; try reflexivity. unfold defer at 1 3.
  cbn [enter read_op]. unfold read_enter, mbind_.
  destruct (requireOpen w0) as [[[]|e| |] w1]; try reflexivity.
  destruct (check_ctx w1) as [[[]|e| |] w2]; try reflexivity.
  destruct (MaxTPDULength (negotiated c) <? minNegotiatedTPDULength); [reflexivity|].
  destruct (arm w2) as [[[]|e| |] w3]; try reflexivity.
  unfold readProgress, ret. unfold defer. by rewrite read_loop.
Qed.

Lemma read_enter_spec w :
  term_ok (term w) ->
  exists r w', read_enter w = (r, w') /\ same_conn w w' /\ reads w' = reads w /\ writes w' = writes w /\
    nRead w' = nRead w /\ locked w' = locked w /\
    ((exists e, r = Err e) \/ (r = Ok (nRead w') /\ term w' = open_term)).
Proof.
  intros Ht. unfold read_enter. unfold mbind_ at 1.
  destruct (requireOpen_spec w Ht) as [[Hopen ->]|(en & Hen & ->)]; [|eexists _, _; split; [reflexivity|]; split_and!; try done; left; eauto].
  unfold mbind_ at 1. destruct (check_ctx_spec w) as (r & w1 & -> & Hio & Hs & Hr).
  destruct Hio as (E1 & E2 & E3 & E4 & E5 & E6 & E7).
  destruct Hr as [->|[e ->]]; [|eexists _, _; split; [reflexivity|]; split_and!; try done; left; eauto].
  destruct (MaxTPDULength (negotiated c) <? minNegotiatedTPDULength);
    [eexists _, _; split; [reflexivity|]; split_and!; try done; left; eauto|].
  unfold mbind_ at 1.
  destruct (arm_spec w1) as [(w2 & -> & Hs2 & _ & F1 & F2 & F3 & F4 & F5 & F6)
                            |(e & w2 & -> & Hs2 & (F1 & F2 & F3 & F4 & F5 & _ & F6))];
    eexists _, _; (split; [reflexivity|]); (split; [by etrans|]); split_and!; try congruence; [right|left; eauto].
  destruct Hs as (Et & _), Hs2 as (Et2 & _). split; [done|congruence].
Qed.

(** ** What a round takes from the stream *)

Lemma stream_read_takes w :
  term_ok (term w) -> stream_ok w ->
  exists ans r w', stream_read (conn_ends c) w = (r, w') /\ reads w = ans ++ reads w' /\ term_ok (term w') /\
    nRead w <= nRead w' /\
    match r with Ok p => packets ans = [p] | Err _ => packets ans = [] | _ => False end.
Proof.
  intros Ht [Hst _]. pose proof (conn_step_ok _ _ _ (stream_read_keeps c w) Ht) as Ht'. revert Ht'. unfold stream_read.
  destruct (reads w) as [|a rs] eqn:Hr; [exists [], (Err (Foreign io_EOF None)), w; rewrite Hr; split_and!; try done; lia|].
  apply Forall_cons in Hst as [[Ha _] _].
  match goal with |- context [conn_ends c (meanwhile a) ?w0] => set (w1 := w0) end.
  destruct (conn_ends_io c (meanwhile a) w1) as (E1 & _ & _ & E4 & _).
  destruct (result a) as [p|e] eqn:Hres; cbn [snd]; intros Ht'; exists [a]; eexists _, _;
    (split; [reflexivity|]); rewrite E1, E4; unfold packets; cbn [omap list_omap]; rewrite Hres;
    (split_and!; [done|done|subst w1; cbn; lia|done]).
Qed.

(** At most one packet, and one that is not made part of the TSDU ends the
    connection. *)
Lemma read_body_takes start st w :
  term_ok (term w) -> stream_ok w ->
  wp (read_body c (effective_max_tsdu (maxTSDU c)) start st)
    (fun r w' => exists ans, reads w = ans ++ reads w' /\ (length (packets ans) <= 1)%nat /\ nRead w <= nRead w' /\
       match r with Err _ => packets ans = [] \/ ended w' | _ => True end) w.
Proof.
  intros Ht Hst. unfold read_body. destruct st as [segs total].
  destruct (stream_read_takes w Ht Hst) as (ans & r1 & w1 & Heq & Hans & Ht1 & Hn & Hr1).
  set (Q := fun (r : outcome (list bytes * Z + bytes)) w' => _).
  apply wp_bind, wp_attempt. unfold wp at 1. rewrite Heq. cbn [fst snd].
  assert (forall mid err, wp (do! out := read_stop c mid err in ret (inr out)) Q w1) as Hstop.
  { intros mid err. destruct (abortOpen_spec c mid err w1 Ht1) as (w2 & en & Ha & Hen & _ & Hw2 & _).
    apply wp_bind. unfold wp, read_stop, mbind_. rewrite Ha. cbn. exists ans.
    pose proof (abortOpen_io c mid (Some err) w1) as (E & _ & _ & En & _). rewrite Ha in E, En. cbn in E, En. rewrite E, En.
    split_and!; [done| |done|right; by exists en].
    destruct r1; try done; rewrite Hr1; cbn; lia. }
  destruct r1 as [p|err| |]; try done.
  - apply wp_bind, wp_attempt, wp_lift.
    assert (forall r, match r with Err _ => False | _ => True end -> Q r w1) as Hgo.
    { intros r Hr. exists ans. rewrite Hr1. split_and!; [done|cbn; lia|done|by destruct r]. }
    destruct (decodeOpenDT p (MaxTPDULength (negotiated c))) as [dt|e| |]; [|apply Hstop|by apply Hgo..].
    destruct (slen (DT_UserData dt) =? 0); [apply Hstop|].
    destruct (effective_max_tsdu (maxTSDU c) <? total + slen (DT_UserData dt)); [apply Hstop|].
    destruct (effective_max_tsdu (maxTSDU c) <? len segs + 1); [apply Hstop|].
    destruct (DT_EOT dt); by apply wp_ret, Hgo.
  - assert (keeps io_frame (do! out := read_failed c start (0 <? len segs) err in ret (@inr (list bytes * Z) bytes out))) as Hio
      by (unfold read_failed, idleTimeout, classifyIOPhase; keeps_walk).
    specialize (Hio w1) as (E & _ & _ & En & _). unfold wp. exists ans. rewrite E, En, Hr1.
    split_and!; [done|cbn; lia|done|]. destruct (fst _); [done|by left|done..].
Qed.

(** ** The contract of a reader *)

(** Packets that begin a TSDU, the last of them perhaps refused. *)
Definition read_begun (ps : list bytes) : Prop :=
  exists segs last, ps = map (open_DT false) segs ++ last /\
    Forall (fun s => 1 <= len s <= max - 3) segs /\ (length last <= 1)%nat.

(** Between two rounds: the packets of the call are the segments it keeps. *)
Definition read_owner (start : Z) (st : list bytes * Z) (own : list bytes) (w : world) : Prop :=
  own = map (open_DT false) (fst st) /\
  exists w1, term w1 = open_term /\ nRead w1 = start /\ read_inv c w1 st w.

Lemma read_owner_begun start st own w : read_owner start st own w -> read_begun own.
Proof.
  destruct st as [segs total]. intros (-> & w1 & _ & _ & (_ & _ & _ & _ & Hf & _)). exists segs, [].
  rewrite app_nil_r. split_and!; try done. cbn. lia.
Qed.

(** The loop does not see what the rest of the program does. *)
Lemma read_owner_environment start st own w w' :
  conn_step c w w' -> (stream_ok w -> stream_ok w') -> reads w' = reads w -> nRead w' = nRead w ->
  read_owner start st own w -> read_owner start st own w'.
Proof.
  destruct st as [segs total].
  intros Hs Hst Hr Hn (-> & w1 & Ht1 & Hn1 & ((Hs0 & Hst0 & _) & Hle & Htot & Hlim & Hseg & Hmoved & Hans)).
  split; [done|].
  exists (mkWorld (reads w1) (writes w') (ctx_errs w1) (lock_errs w1) (past_deadline w1) (has_deadline w1)
    (reader_err w1) (writer_err w1) (sent w') (nRead w1) (nWritten w') (closes w1) (armed w') (locked w')
    (refs w1) (term w1)).
  split_and!; try done. unfold read_inv, read_run. cbn. rewrite Hr, Hn. split_and!; try done; try lia; [|by apply Hst].
  etrans; [exact Hs0|exact Hs].
Qed.

Lemma read_owner_start w : 0 <= limit -> stream_ok w -> term w = open_term -> read_owner (nRead w) ([], 0) [] w.
Proof.
  intros Hl Hst Ht. split; [done|]. exists w. split_and!; try done. unfold limit in Hl.
  split_and!; try done; try lia; [by left|]. exists []. by split; [|constructor].
Qed.

(** A round, by the call that holds the lock. *)
Lemma read_round start st own w :
  term_ok (term w) -> read_owner start st own w ->
  exists r w' ans, read_body c (effective_max_tsdu (maxTSDU c)) start st w = (r, w') /\
    conn_step c w w' /\ stream_ok w' /\ locked w' = locked w /\ reads w = ans ++ reads w' /\
    match r with
    | Ok (inl st') => read_owner start st' (own ++ packets ans) w' /\ 0 <= limit - snd st' < limit - snd st
    | Ok (inr out) => dt_packets max out (own ++ packets ans) /\ len out <= limit
    | Err _ => own ++ packets ans = [] \/ (ended w' /\ read_begun (own ++ packets ans))
    | Panic | NoFuel => False
    end.
Proof.
  intros Ht Hown. pose proof (read_owner_begun _ _ _ _ Hown) as (segs0 & last & Hb & Hbf & Hbl).
  destruct Hown as (-> & w1 & Ht1 & Hn1 & Hinv).
  pose proof (read_body_spec c w1 st w Ht1 Hinv) as Hspec. rewrite Hn1 in Hspec.
  pose proof (read_body_keeps c (effective_max_tsdu (maxTSDU c)) start st w) as Hk.
  destruct st as [segs total]. pose proof Hinv as ((_ & Hst & _ & _ & _ & _ & Hl) & Hle & _ & _ & Hf & Hmoved & ans0 & Hans0 & Hps0).
  pose proof (read_body_takes start (segs, total) w Ht Hst) as Htk. unfold wp in Hspec, Htk.
  destruct (read_body _ _ _ _ _) as [r w']. cbn [fst snd] in *. destruct Htk as (ans & Hans & Hlen & Hn & Hr).
  assert (forall ans' ps, reads w1 = ans' ++ reads w' -> answered ans' ps -> ps = map (open_DT false) segs ++ packets ans) as Hps.
  { intros ans' ps Hr' <-%answered_packets. rewrite Hans0, Hans, app_assoc in Hr'. apply app_inv_tail in Hr' as <-.
    by rewrite packets_app, (answered_packets _ _ Hps0). }
  exists r, w', ans. split; [done|].
  destruct r as [[[segs' total']|out]|e| |]; try done.
  - destruct Hspec as [Hinv' Hd]. pose proof Hinv' as ((_ & Hst' & _ & _ & _ & _ & Hl') & _ & _ & _ & _ & _ & ans' & Hans' & Hps').
    split_and!; try done; [congruence| |lia..]. split; [by rewrite <- (Hps ans' _ Hans' Hps')|by exists w1].
  - destruct Hspec as ((_ & Hst' & _ & _ & _ & _ & Hl') & Ho & ans' & ps & Hans' & Hps' & Hdt).
    rewrite (Hps ans' ps Hans' Hps') in Hdt. split_and!; try done. congruence.
  - destruct Hspec as ((_ & Hst' & _ & _ & _ & _ & Hl') & Hcase). split_and!; try done; [congruence|].
    assert (ended w' -> ended w' /\ read_begun (map (open_DT false) segs ++ packets ans)) as Hgo.
    { intros He. split; [done|]. by exists segs, (packets ans). }
    destruct Hcase as [(en & Hen & _)|(_ & Hsame)]; [right; apply Hgo; by exists en|].
    destruct Hr as [Hp|He]; [|right; by apply Hgo]. left. rewrite Hp, app_nil_r.
    destruct Hmoved as [->|?]; [done|lia].
Qed.

(** The packets of a call are the segments of the TSDU it returns. *)
#[export] Instance read_serialised (Hm : 0 <= maxTSDU c) : Serialised c read_op bytes.
Proof.
  refine (Build_Serialised c read_op bytes
    (fun w w' => reads w' = reads w /\ nRead w' = nRead w)
    (fun w0 w ps => exists ans, reads w0 = ans ++ reads w /\ packets ans = ps)
    (fun _ out ps => dt_packets max out ps /\ len out <= limit)
    (fun _ ps => read_begun ps)
    (fun w0 _ l front own w => read_owner (fst l) (snd l) own w)
    (fun _ l => limit - snd (snd l))
    (fun _ => limit) _ _ _ _ _ _ _ _ _ _).
  - done.
  - done.
  - intros w. by exists [].
  - intros w0 w w' xs [-> _] H. exact H.
  - intros _. by apply effective_max_pos.
  - intros [] w Ht Hst.
    destruct (read_enter_spec w Ht) as (r & w' & Heq & Hsame & Er & Ew & En & El & Hr).
    assert (stream_ok w') as Hst' by (unfold stream_ok; by rewrite Er, Ew).
    cbn [enter read_op]. unfold mbind_. rewrite Heq. pose proof (effective_max_pos _ Hm).
    destruct Hr as [[e ->]|(-> & Hopen)]; eexists _, w'; (split; [reflexivity|]); split_and!; try done.
    1,2: cbn; unfold limit; lia.
    intros w0 front _. by apply read_owner_start.
  - intros w0 [] [start st] front own w Ht Hown (ans0 & Hans0 & Hp0). cbn [fst snd] in *.
    destruct (read_round start st own w Ht Hown) as (r & w' & ans & Heq & Hs & Hst & Hl & Hans & Hr).
    assert (exists all, reads w0 = all ++ reads w' /\ packets all = front ++ own ++ packets ans) as Htr.
    { exists (ans0 ++ ans). by rewrite packets_app, Hp0, Hans0, Hans, <- !app_assoc. }
    cbn [round read_op]. unfold mbind_. rewrite Heq. unfold ret.
    destruct r as [[o|x]|e| |]; try done; eexists _, w', (own ++ packets ans); (split; [reflexivity|]);
      exact (conj Hs (conj Hst (conj Hl (conj Htr Hr)))).
  - intros w0 [] [start st] front own w w' Hs Hst [Hr Hn] _. by apply read_owner_environment.
  - intros w0 [] [start st] front own w _. apply read_owner_begun.
  - intros w0 [] [start [segs total]] front own w (_ & w1 & _ & _ & (_ & _ & _ & Hlim & _)). cbn in *. unfold limit. lia.
Defined.

(** The steps of readers among the rest of the program. *)
Definition readers_step (Hm : 0 <= maxTSDU c) : system read_op -> system read_op -> Prop :=
  system_step c read_op (SER := read_serialised Hm).
End Readers.

(** ** Packets of several TSDUs *)

Lemma open_DT_inj eot1 d1 eot2 d2 : open_DT eot1 d1 = open_DT eot2 d2 -> eot1 = eot2 /\ d1 = d2.
Proof. unfold open_DT. destruct eot1, eot2; cbn; intros H; by simplify_eq. Qed.

Lemma open_DTs_first f1 f2 (x y : list bytes) : forall i1 i2,
  map (open_DT false) i1 ++ open_DT true f1 :: x = map (open_DT false) i2 ++ open_DT true f2 :: y ->
  i1 = i2 /\ f1 = f2 /\ x = y.
Proof.
  induction i1 as [|s1 i1 IH]; intros [|s2 i2] H; cbn [map app] in H; pose proof (f_equal (hd []) H) as H1; apply (f_equal (@tl bytes)) in H as H2; cbn [hd tl] in H1, H2;
    apply open_DT_inj in H1 as [? ->]; try done.
  destruct (IH i2 H2) as (-> & -> & ->). done.
Qed.

(** EOT marks where one ends. *)
Lemma dt_packets_first m1 t1 p1 m2 t2 p2 x y :
  dt_packets m1 t1 p1 -> dt_packets m2 t2 p2 -> p1 ++ x = p2 ++ y -> t1 = t2 /\ x = y.
Proof.
  intros (i1 & f1 & -> & <- & _) (i2 & f2 & -> & <- & _) H. rewrite <- !app_assoc in H.
  by destruct (open_DTs_first f1 f2 x y i1 i2 H) as (-> & -> & ->).
Qed.

Lemma dt_packets_unique m1 m2 x y : forall ts ps us qs,
  Forall2 (dt_packets m1) ts ps -> Forall2 (dt_packets m2) us qs -> length ts = length us ->
  concat ps ++ x = concat qs ++ y -> ts = us.
Proof.
  intros ts ps us qs H. revert us qs. induction H as [|t p ts ps Ht _ IH]; intros us qs Hu Hl Heq.
  - by destruct us.
  - destruct Hu as [|u q us qs Hu Hus]; [done|]. cbn [concat] in Heq. rewrite <- !app_assoc in Heq.
    destruct (dt_packets_first _ _ _ _ _ _ _ _ Ht Hu Heq) as [-> Heq']. f_equal. eapply IH; [done| |done]. by injection Hl.
Qed.

Lemma blocks_carry max (ts : list bytes) (bs : list (nat * list bytes)) :
  (forall i ps, (i, ps) ∈ bs -> exists t, ts !! i = Some t /\ dt_packets max t ps) ->
  Forall2 (dt_packets max) (map (fun b => ts !!! b.1) bs) (map snd bs).
Proof.
  induction bs as [|[i ps] bs IH]; intros H; constructor.
  - destruct (H i ps) as (t & Hi & Ht); [by left|]. cbn. by rewrite (list_lookup_total_correct _ _ _ Hi).
  - apply IH. intros j qs Hj. apply H. by right.
Qed.

(** ** Properties *)

Lemma dt_packets_some max out : ~ dt_packets max out [].
Proof. intros (init & final & H & _). by destruct init. Qed.

(** What the blocks of writers, or of readers, that have all succeeded carry. *)
Lemma written_blocks c tsdus w s :
  term_ok (term w) -> stream_ok w -> locked w = false ->
  rtc (system_step c (write_op c)) (init (write_op c) tsdus w) s -> forallb (fun x => succeeded x.2) (calls s) = true ->
  exists bs, sent (shared s) = sent w ++ concat (map snd bs) /\ length bs = length tsdus /\
    map (fun b => tsdus !!! b.1) bs ≡ₚ tsdus /\
    Forall2 (dt_packets (MaxTPDULength (negotiated c))) (map (fun b => tsdus !!! b.1) bs) (map snd bs).
Proof.
  intros Ht Hst Hl Hr Hall. destruct (reach_inv c (write_op c) tsdus w s Ht Hst Hl Hr) as [blocks Hinv].
  destruct (spoken_blocks _ _ _ _ _ _ Hinv Hall) as (bs & Hpay & Hnd & Hidx & Hbs).
  { intros tsdu []. apply segmentation_nonempty. }
  exists bs. pose proof (blocks_permutation tsdus bs Hnd Hidx) as Hp.
  split_and!; [|by rewrite <- Hp, length_map|done|].
  - destruct Hinv as (_ & _ & _ & H4 & _). by rewrite H4, <- Hpay.
  - apply blocks_carry. intros i ps Hin. destruct (Hbs i ps Hin) as (tsdu & a & Hi & _ & Hseg). exists tsdu.
    split; [done|]. apply segmentation_packets; [|done]. destruct Hseg as (? & ? & _ & _ & _ & ?). lia.
Qed.

Lemma read_blocks c (Hm : 0 <= maxTSDU c) n w s :
  term_ok (term w) -> stream_ok w -> locked w = false ->
  rtc (readers_step c Hm) (init (read_op c) (replicate n tt) w) s ->
  forallb (fun x => succeeded x.2) (calls s) = true ->
  exists (bs : list (nat * list bytes)) ans, reads w = ans ++ reads (shared s) /\ packets ans = concat (map snd bs) /\ length bs = n /\
    map (fun b => (results s : list bytes) !!! b.1) bs ≡ₚ results s /\
    Forall2 (dt_packets (MaxTPDULength (negotiated c))) (map (fun b => (results s : list bytes) !!! b.1) bs) (map snd bs).
Proof.
  intros Ht Hst Hl Hr Hall. destruct (reach_inv c (read_op c) (replicate n tt) w s Ht Hst Hl Hr) as [blocks Hinv].
  destruct (spoken_blocks _ _ _ _ _ _ Hinv Hall) as (bs & Hpay & Hnd & Hidx & Hbs).
  { intros [] out [H _]. by eapply dt_packets_some. }
  destruct Hinv as (H1 & _ & _ & (ans & Hans & Hps) & _). exists bs, ans.
  assert (length (results s) = n) as Hlen.
  { rewrite results_length by done. apply (f_equal length) in H1. by rewrite length_map, length_replicate in H1. }
  pose proof (blocks_permutation (results s : list bytes) bs Hnd) as Hp. cbn [Input read_op] in *.
  rewrite length_replicate in Hidx. rewrite <- Hlen in Hidx. specialize (Hp Hidx).
  split_and!; [done|by rewrite Hps, <- Hpay| |done|].
  - rewrite <- Hlen. transitivity (length (map (fun b => (results s : list bytes) !!! b.1) bs)); [by rewrite length_map|].
    by rewrite Hp.
  - apply blocks_carry. intros i ps Hin. destruct (Hbs i ps Hin) as (inp & out & _ & Hi & Hdt & _). exists out.
    split; [|done]. exact (results_lookup (read_op c) s i inp out Hall Hi).
Qed.

(** Two readers of two TSDUs; the second waits while the first reads two
    segments. *)
Definition read_turns : list nat := [0; 1; 0; 0; 0; 0; 1; 1; 1; 1]%nat.

Definition sample_readers : system (read_op (sample_conn 6)) :=
  after read_turns (init (read_op (sample_conn 6)) [tt; tt] (quiet_world (map packet (sent (shared contention))))).

Example sample_readers_end :
  results sample_readers = [[1; 2; 3]; [4]] /\ forallb (fun x => succeeded x.2) (calls sample_readers) = true.
Proof. split; vm_compute; reflexivity. Qed.

(** Segments of one TSDU go to one reader.  However the steps of the
    concurrent calls of [ReadTSDU] interleave with each other, with the writers
    and with whatever ends the connection, the packets taken from the stream are
    a sequence of blocks, at most one per call: each is the packets of the TSDU
    that its call returns or nothing, but for possibly one that is cut short,
    after which no packet is taken.  At most one call is between its lock and its
    unlock; none panics. *)
Theorem readers_never_interleave c (Hm : 0 <= maxTSDU c) n w s :
  term_ok (term w) -> stream_ok w -> locked w = false ->
  rtc (readers_step c Hm) (init (read_op c) (replicate n tt) w) s ->
  exists blocks ans,
    reads w = ans ++ reads (shared s) /\ packets ans = payload blocks /\ NoDup (map fst blocks) /\
    serial (SER := read_serialised c Hm) c (read_op c) (replicate n tt) blocks /\
    (forall i j pi pj, calls s !! i = Some (tt, pi) -> calls s !! j = Some (tt, pj) ->
       inside pi = true -> inside pj = true -> i = j) /\
    (forall i r, calls s !! i = Some (tt, returned r) ->
       match r with
       | Ok out => len out <= effective_max_tsdu (maxTSDU c) /\
           exists ps, (i, ps) ∈ blocks /\ dt_packets (MaxTPDULength (negotiated c)) out ps
       | Err _ => True
       | Panic | NoFuel => False
       end).
Proof.
  intros Ht Hst Hl Hr. destruct (reach_inv c (read_op c) (replicate n tt) w s Ht Hst Hl Hr) as [blocks Hinv].
  pose proof Hinv as (H1 & _ & _ & (ans & Hans & Hps) & H5 & H6 & _). exists blocks, ans. split_and!; try done.
  - by eapply inv_serial.
  - intros i j pi pj. exact (inv_exclusive c (read_op c) (replicate n tt) w s blocks i j tt tt pi pj Hinv).
  - intros i r Hi. specialize (H6 i tt _ Hi). destruct r as [out|e| |]; try done.
    destruct H6 as (ps & Hin & Hdt & Ho). split; [done|]. by exists ps.
Qed.

Lemma readers_never_interleave_witness :
  exists blocks ans,
    map packet (sent (shared contention)) = ans ++ reads (shared sample_readers) /\ packets ans = payload blocks /\
    NoDup (map fst blocks) /\
    serial (SER := read_serialised (sample_conn 6) (Z.le_refl 0)) (sample_conn 6) (read_op (sample_conn 6)) [tt; tt] blocks /\
    (forall i j pi pj, calls sample_readers !! i = Some (tt, pi) -> calls sample_readers !! j = Some (tt, pj) ->
       inside pi = true -> inside pj = true -> i = j) /\
    (forall i r, calls sample_readers !! i = Some (tt, returned r) ->
       match r with
       | Ok out => len out <= effective_max_tsdu 0 /\ exists ps, (i, ps) ∈ blocks /\ dt_packets 6 out ps
       | Err _ => True
       | Panic | NoFuel => False
       end).
Proof.
  apply (readers_never_interleave (sample_conn 6) (Z.le_refl 0) 2
    (quiet_world (map packet (sent (shared contention)))) sample_readers); [by left|decide_now|reflexivity|].
  apply (schedule_reach (sample_conn 6) (read_op (sample_conn 6)) read_turns), schedule_after.
  vm_compute. reflexivity.
Defined.

(** Many writers, many readers.  When every concurrent call of [WriteTSDU]
    at one end has returned nil, the stream holds the packets sent, in order, and
    as many concurrent calls of [ReadTSDU] at the other end have all succeeded,
    then whatever the two interleavings the readers have returned the TSDUs of
    the writers, each once and unmixed. *)
Theorem concurrent_exchange c1 c2 (Hm : 0 <= maxTSDU c2) tsdus w1 s1 w2 s2 ps rest :
  term_ok (term w1) -> stream_ok w1 -> locked w1 = false ->
  rtc (system_step c1 (write_op c1)) (init (write_op c1) tsdus w1) s1 ->
  forallb (fun x => succeeded x.2) (calls s1) = true -> sent (shared s1) = sent w1 ++ ps ->
  term_ok (term w2) -> stream_ok w2 -> locked w2 = false -> packets (reads w2) = ps ++ rest ->
  rtc (readers_step c2 Hm) (init (read_op c2) (replicate (length tsdus) tt) w2) s2 ->
  forallb (fun x => succeeded x.2) (calls s2) = true ->
  results s2 ≡ₚ tsdus.
Proof.
  intros Ht1 Hst1 Hl1 Hr1 Hall1 Hs Ht2 Hst2 Hl2 Hps Hr2 Hall2.
  destruct (written_blocks c1 tsdus w1 s1 Ht1 Hst1 Hl1 Hr1 Hall1) as (bs1 & Hs1 & Hn1 & Hp1 & Hf1).
  destruct (read_blocks c2 Hm _ w2 s2 Ht2 Hst2 Hl2 Hr2 Hall2) as (bs2 & ans & Hans & Hpk & Hn2 & Hp2 & Hf2).
  rewrite Hs in Hs1. apply app_inv_head in Hs1 as ->. rewrite Hans, packets_app, Hpk in Hps.
  rewrite <- Hp2, <- Hp1. apply Permutation_refl'. eapply dt_packets_unique; [exact Hf2|exact Hf1| |exact Hps].
  transitivity (length bs2); [apply length_map|]. transitivity (length bs1); [congruence|symmetry; apply length_map].
Qed.

Lemma concurrent_exchange_witness : results sample_readers ≡ₚ [[1; 2; 3]; [4]].
Proof.
  apply (concurrent_exchange (sample_conn 5) (sample_conn 6) (Z.le_refl 0) [[1; 2; 3]; [4]] (quiet_world []) contention
    (quiet_world (map packet (sent (shared contention)))) sample_readers (sent (shared contention)) []);
    [by left|by split|reflexivity| |vm_compute; reflexivity|reflexivity|by left|decide_now|reflexivity
    |vm_compute; reflexivity| |vm_compute; reflexivity].
  - apply (schedule_reach (sample_conn 5) (write_op (sample_conn 5)) turns), schedule_after. vm_compute. reflexivity.
  - apply (schedule_reach (sample_conn 6) (read_op (sample_conn 6)) read_turns), schedule_after. vm_compute. reflexivity.
Defined.

(** No deadlock and no endless loop among readers: whatever the peer and the
    rest of the program do, the calls together take a bounded number of steps,
    and as long as one has not returned one of them can go on. *)
Theorem readers_finish c (Hm : 0 <= maxTSDU c) calls_n w n s :
  term_ok (term w) -> stream_ok w -> locked w = false ->
  run (SER := read_serialised c Hm) c (read_op c) n (init (read_op c) (replicate calls_n tt) w) s ->
  Z.of_nat n <= Z.of_nat calls_n * (effective_max_tsdu (maxTSDU c) + 5) /\
  (Forall (fun x => exists r, x.2 = returned r) (calls s) \/ exists i s', call_step s i None = Some s').
Proof.
  intros Ht Hst Hl Hr. assert (budget (SER := read_serialised c Hm) c (read_op c) (replicate calls_n tt) =
    Z.of_nat calls_n * (effective_max_tsdu (maxTSDU c) + 5)) as <-.
  { clear. induction calls_n as [|k IH]; [done|]. unfold budget in *. cbn [fold_right replicate]. rewrite IH.
    cbn [most read_serialised]. lia. }
  by eapply run_finishes.
Qed.

(** With one caller and nothing else going on the threads are [ReadTSDU]. *)
Lemma one_reader_is_ReadTSDU c (Hm : 0 <= maxTSDU c) w :
  term_ok (term w) -> stream_ok w -> locked w = false -> armed w = false -> lock_errs w = [] ->
  let '(r, w') := ReadTSDU (Some c) w in
  rtc (readers_step c Hm) (init (read_op c) [tt] w) (alone (read_op c) tt w' (returned r)).
Proof.
  intros Ht Hst Hl Ha He. pose proof (ReadTSDU_spec c w Hm Ht Hst Hl Ha) as H. unfold wp in H.
  destruct (ReadTSDU (Some c) w) as [r w'] eqn:Heq. cbn [fst snd] in H.
  rewrite ReadTSDU_sequential in Heq. eapply alone_run; try done. intros ->. by destruct H.
Qed.
