(* ===== verification/Duplex.v ===== *)
(** * Full duplex: both directions of one connection at once

    Readers, writers and whoever ends the connection share one [Conn].  Each
    direction has its lock and its deadline (readMu and readDeadline, writeMu and
    writeDeadline); they share the stream and the terminal fields.  Here calls of
    [ReadTSDU] and of [WriteTSDU] step in any order on one world, and the ends of
    the connection come in between.  Seen from one direction the other is part of
    the environment of Locked.v, so what holds of each direction alone holds of
    both together. *)

From S2P Require Import Prelude Errors Types Wire PreferredMax Params Decode Encode Codec.
From S2P Require Import RoundTrip CodecSpec SizeNego Validate RefAlloc World Conn Tsdu TsduSpec Locked Writers Readers.

(** The lock of a direction, and whether its deadline is armed. *)
Record direction := mkDirection {
  taken : bool;
  set_ : bool
}.

Definition free : direction := mkDirection false false.

(** The world as the calls of a direction see it. *)
Definition look (w : world) (d : direction) : world :=
  mkWorld (reads w) (writes w) (ctx_errs w) (lock_errs w) (past_deadline w) (has_deadline w)
    (reader_err w) (writer_err w) (sent w) (nRead w) (nWritten w) (closes w) (set_ d) (taken d)
    (refs w) (term w).

Definition direction_of (w : world) : direction := mkDirection (locked w) (armed w).

(** ** What one direction leaves of the other *)

Definition spares_reads (w w' : world) : Prop :=
  reads w' = reads w /\ nRead w' = nRead w /\
  (Forall write_answer_ok (writes w) -> Forall write_answer_ok (writes w')).

Definition spares_writes (w w' : world) : Prop :=
  writes w' = writes w /\ sent w' = sent w /\ nWritten w' = nWritten w /\
  (Forall read_answer_ok (reads w) -> Forall read_answer_ok (reads w')).

#[export] Instance spares_reads_preorder : PreOrder spares_reads.
Proof. unfold spares_reads. split; [by intros w|]. intros ??? (-> & -> & ?) (-> & -> & ?). split_and!; auto. Qed.

#[export] Instance spares_writes_preorder : PreOrder spares_writes.
Proof. unfold spares_writes. split; [by intros w|]. intros ??? (-> & -> & -> & ?) (-> & -> & -> & ?). split_and!; auto. Qed.

Lemma io_spares_reads w w' : io_frame w w' -> spares_reads w w'.
Proof. intros (E1 & E2 & _ & E4 & _). split_and!; try done. by rewrite E2. Qed.

Lemma io_spares_writes w w' : io_frame w w' -> spares_writes w w'.
Proof. intros (E1 & E2 & E3 & E4 & E5 & _). split_and!; try done. by rewrite E1. Qed.

Lemma keeps_io_reads {A} (m : M A) : keeps io_frame m -> keeps spares_reads m.
Proof. intros H w. by apply io_spares_reads. Qed.

Lemma keeps_io_writes {A} (m : M A) : keeps io_frame m -> keeps spares_writes m.
Proof. intros H w. by apply io_spares_writes. Qed.

Lemma get_terminal_io : keeps io_frame get_terminal.
Proof. by intros w. Qed.
#[export] Hint Resolve keeps_io_reads keeps_io_writes get_terminal_io : cotp.

Section Spares.
Context (c : Conn).

Lemma idleTimeout_io err : keeps io_frame (idleTimeout err).
Proof. unfold idleTimeout. keeps_walk. Qed.

Lemma classifyIOPhase_io err mid : keeps io_frame (classifyIOPhase c err mid).
Proof. unfold classifyIOPhase, ctx_has_deadline. keeps_walk. Qed.
#[local] Hint Resolve idleTimeout_io classifyIOPhase_io : cotp.

Lemma stream_write_spares p : keeps spares_reads (stream_write (conn_ends c) p).
Proof.
  intros w. unfold stream_write.
  set (aw := match writes w with [] => _ | _ => _ end). destruct aw as [a ws] eqn:Ea.
  match goal with |- context [conn_ends c (meanwhile a) ?w0] => set (w1 := w0) end.
  assert (spares_reads w w1) as H1.
  { subst w1. split_and!; [done|done|]. cbn. unfold aw in Ea. destruct (writes w) as [|b bs]; injection Ea as <- <-; [done|].
    by intros [_ ?]%Forall_cons. }
  pose proof (io_spares_reads _ _ (conn_ends_io c (meanwhile a) w1)) as H2.
  destruct (result a); cbn [snd]; (etrans; [exact H1|]); [|exact H2]. etrans; [exact H2|done].
Qed.

Lemma stream_read_spares : keeps spares_writes (stream_read (conn_ends c)).
Proof.
  intros w. unfold stream_read. destruct (reads w) as [|a rs] eqn:Hr; [done|].
  match goal with |- context [conn_ends c (meanwhile a) ?w0] => set (w1 := w0) end.
  assert (spares_writes w w1) as H1.
  { subst w1. split_and!; [done|done|done|]. rewrite Hr. cbn. by intros [_ ?]%Forall_cons. }
  pose proof (io_spares_writes _ _ (conn_ends_io c (meanwhile a) w1)) as H2.
  destruct (result a); cbn [snd]; etrans; done.
Qed.

Lemma arm_spares_reads : keeps spares_reads arm.
Proof. unfold arm. apply keeps_bind; [apply _|apply keeps_io_reads, check_ctx_io|]. by intros [] w. Qed.

Lemma arm_spares_writes : keeps spares_writes arm.
Proof. unfold arm. apply keeps_bind; [apply _|apply keeps_io_writes, check_ctx_io|]. by intros [] w. Qed.
#[local] Hint Resolve stream_write_spares stream_read_spares arm_spares_reads arm_spares_writes : cotp.

Lemma write_enter_spares tsdu : keeps spares_reads (write_enter c tsdu).
Proof. unfold write_enter, writeProgress. keeps_walk. Qed.

Lemma read_enter_spares : keeps spares_writes (read_enter c).
Proof. unfold read_enter, readProgress. keeps_walk. Qed.

Lemma write_body_spares tsdu m start offset : keeps spares_reads (write_body c tsdu m start offset).
Proof. unfold write_body, write_failed, as_error, writeProgress, classifyIO. keeps_walk. Qed.

Lemma read_body_spares m start st : keeps spares_writes (read_body c m start st).
Proof. unfold read_body, read_failed, read_stop, readProgress. keeps_walk. Qed.

Lemma write_enter_keeps tsdu : keeps (conn_step c) (write_enter c tsdu).
Proof. unfold write_enter. keeps_walk. Qed.

Lemma read_enter_keeps : keeps (conn_step c) (read_enter c).
Proof. unfold read_enter. keeps_walk. Qed.
End Spares.

(** A relation that the parts of a call keep, its steps keep. *)
Lemma call_step_keeps (op : operation) (R : world -> world -> Prop) `{!PreOrder R} s i done s' :
  (forall inp, keeps R (enter op inp)) -> (forall inp l, keeps R (round op inp l)) ->
  (forall w b, R w (set_locked w b)) -> (forall w, R w (disarm w)) ->
  call_step (op := op) s i done = Some s' -> R (shared s) (shared s').
Proof.
  intros Hen Hro Hlk Hdi H. unfold call_step in H. destruct (calls s !! i) as [[inp p]|]; [|done].
  destruct p as [| | |l|ar r|r]; [| | | | |done].
  - destruct (locked (shared s)); injection H as <-; cbn; [reflexivity|apply Hlk].
  - destruct done; [injection H as <-; reflexivity|]. destruct (locked (shared s)); [discriminate H|]. injection H as <-. apply Hlk.
  - specialize (Hen inp (shared s)). destruct (enter op inp (shared s)) as [[l|e| |] w]; injection H as <-; exact Hen.
  - specialize (Hro inp l (shared s)). destruct (round op inp l (shared s)) as [[[l'|a]|e| |] w]; injection H as <-; exact Hro.
  - destruct (locked (shared s)); [|done]. injection H as <-. cbn [shared]. destruct ar; [|apply Hlk].
    etrans; [apply Hdi|apply Hlk].
Qed.

(** ** The system *)

Section Duplex.
Context (c : Conn).

Record duplex := mkDuplex {
  stream : world;
  reading : direction;
  writing : direction;
  read_calls : list (unit * phase (read_op c));
  write_calls : list (bytes * phase (write_op c))
}.

(** The calls of one direction, with the world as they see it. *)
Definition read_system (d : duplex) : system (read_op c) := mkSystem (op := read_op c) (look (stream d) (reading d)) (read_calls d).
Definition write_system (d : duplex) : system (write_op c) := mkSystem (op := write_op c) (look (stream d) (writing d)) (write_calls d).

(** A reader or a writer steps, its context being done or not, or a goroutine ends
    the connection. *)
Inductive duplex_event :=
  | Reads (i : nat) (done : option error)
  | Writes (i : nat) (done : option error)
  | Ends (e : ending).

Definition duplex_step (d : duplex) (ev : duplex_event) : option duplex :=
  match ev with
  | Reads i done =>
      match call_step (read_system d) i done with
      | Some s => Some (mkDuplex (shared s) (direction_of (shared s)) (writing d) (calls s) (write_calls d))
      | None => None
      end
  | Writes i done =>
      match call_step (write_system d) i done with
      | Some s => Some (mkDuplex (shared s) (reading d) (direction_of (shared s)) (read_calls d) (calls s))
      | None => None
      end
  | Ends e => Some (mkDuplex (conn_ends c (Some e) (stream d)) (reading d) (writing d) (read_calls d) (write_calls d))
  end.

Fixpoint duplex_run (d : duplex) (evs : list duplex_event) : option duplex :=
  match evs with
  | [] => Some d
  | ev :: evs => match duplex_step d ev with Some d => duplex_run d evs | None => None end
  end.

Definition is_read (ev : duplex_event) : nat := match ev with Reads _ _ => 1 | _ => 0 end.
Definition is_write (ev : duplex_event) : nat := match ev with Writes _ _ => 1 | _ => 0 end.
Fixpoint count (f : duplex_event -> nat) (evs : list duplex_event) : nat :=
  match evs with [] => 0%nat | ev :: evs => (f ev + count f evs)%nat end.

(** [n] readers and the writers of some TSDUs, before they begin. *)
Definition duplex_init (n : nat) (tsdus : list bytes) (w : world) : duplex :=
  mkDuplex w free free (map (fun i => (i, entering)) (replicate n tt)) (map (fun t => (t, entering)) tsdus).

(** ** Each direction among the rest *)

Context (Hm : 0 <= maxTSDU c).

(** Runs of so many steps of one direction, the other being part of the rest. *)
Definition readers_run : nat -> system (read_op c) -> system (read_op c) -> Prop :=
  run c (read_op c) (SER := read_serialised c Hm).
Definition writers_run : nat -> system (write_op c) -> system (write_op c) -> Prop := run c (write_op c).

Lemma look_same w : look w (direction_of w) = w.
Proof. by destruct w. Qed.

Lemma look_step w w' d : conn_step c w w' -> conn_step c (look w d) (look w' d).
Proof. done. Qed.

Lemma set_locked_step w b : conn_step c w (set_locked w b).
Proof. by apply same_conn_step. Qed.

(** What a reader's step does for the writers, and the other way round. *)
Lemma reader_step d i done s :
  call_step (read_system d) i done = Some s -> conn_step c (stream d) (shared s) /\ spares_writes (stream d) (shared s).
Proof.
  intros H. split.
  - apply (call_step_keeps (read_op c) (conn_step c)) in H; [exact H|..].
    + intros []. cbn. apply keeps_bind; [apply _|apply read_enter_keeps|]. intros start. apply keeps_ret. apply _.
    + intros [] [start st]. cbn. apply keeps_bind; [apply _|apply read_body_keeps|]. intros []; apply keeps_ret; apply _.
    + intros. apply set_locked_step.
    + intros. apply disarm_step.
  - apply (call_step_keeps (read_op c) spares_writes) in H; [exact H|..].
    + intros []. cbn. apply keeps_bind; [apply _|apply read_enter_spares|]. intros start. apply keeps_ret. apply _.
    + intros [] [start st]. cbn. apply keeps_bind; [apply _|apply read_body_spares|]. intros []; apply keeps_ret; apply _.
    + done.
    + done.
Qed.

Lemma writer_step d i done s :
  call_step (write_system d) i done = Some s -> conn_step c (stream d) (shared s) /\ spares_reads (stream d) (shared s).
Proof.
  intros H. split.
  - apply (call_step_keeps (write_op c) (conn_step c)) in H; [exact H|..].
    + intros t. cbn. apply keeps_bind; [apply _|apply write_enter_keeps|]. intros start. apply keeps_ret. apply _.
    + intros t [start o]. cbn. apply keeps_bind; [apply _|apply write_body_keeps|]. intros []; apply keeps_ret; apply _.
    + intros. apply set_locked_step.
    + intros. apply disarm_step.
  - apply (call_step_keeps (write_op c) spares_reads) in H; [exact H|..].
    + intros t. cbn. apply keeps_bind; [apply _|apply write_enter_spares|]. intros start. apply keeps_ret. apply _.
    + intros t [start o]. cbn. apply keeps_bind; [apply _|apply write_body_spares|]. intros []; apply keeps_ret; apply _.
    + done.
    + done.
Qed.

(** A step of the whole is a step of the readers, or of what surrounds them. *)
Lemma duplex_readers d ev d' k s0 :
  stream_ok (stream d) -> duplex_step d ev = Some d' -> readers_run k s0 (read_system d) ->
  readers_run (is_read ev + k) s0 (read_system d').
Proof.
  intros Hst H Hrun. destruct ev as [i dn|i dn|e]; cbn [duplex_step is_read Nat.add] in *.
  - destruct (call_step (read_system d) i dn) as [s|] eqn:E; [|done]. injection H as <-.
    apply (run_call _ _ _ _ _ i dn _ Hrun). rewrite E. unfold read_system. cbn [stream reading read_calls]. rewrite look_same. by destruct s.
  - destruct (call_step (write_system d) i dn) as [s|] eqn:E; [|done]. injection H as <-.
    destruct (writer_step d i dn s E) as [Hs (E1 & E2 & E3)].
    apply (run_other _ _ k s0 (read_system d) (look (shared s) (reading d))); [exact Hrun|].
    split_and!; try done. intros [? ?]. split; cbn; [by rewrite E1|by apply E3].
  - injection H as <-. destruct (conn_ends_io c (Some e) (stream d)) as (E1 & E2 & E3 & E4 & _).
    apply (run_other _ _ k s0 (read_system d) (look (conn_ends c (Some e) (stream d)) (reading d))); [exact Hrun|].
    split_and!; try done; [apply look_step, conn_ends_step|]. intros [? ?]. split; cbn [look reads writes]; [by rewrite E1|by rewrite E2].
Qed.

Lemma duplex_writers d ev d' k s0 :
  stream_ok (stream d) -> duplex_step d ev = Some d' -> writers_run k s0 (write_system d) ->
  writers_run (is_write ev + k) s0 (write_system d').
Proof.
  intros Hst H Hrun. destruct ev as [i dn|i dn|e]; cbn [duplex_step is_write Nat.add] in *.
  - destruct (call_step (read_system d) i dn) as [s|] eqn:E; [|done]. injection H as <-.
    destruct (reader_step d i dn s E) as [Hs (E1 & E2 & E3 & E4)].
    apply (run_other _ _ k s0 (write_system d) (look (shared s) (writing d))); [exact Hrun|].
    split_and!; try done. intros [? ?]. split; cbn; [by apply E4|by rewrite E1].
  - destruct (call_step (write_system d) i dn) as [s|] eqn:E; [|done]. injection H as <-.
    apply (run_call _ _ _ _ _ i dn _ Hrun). rewrite E. unfold write_system. cbn [stream writing write_calls]. rewrite look_same. by destruct s.
  - injection H as <-. destruct (conn_ends_io c (Some e) (stream d)) as (E1 & E2 & E3 & E4 & E5 & _).
    apply (run_other _ _ k s0 (write_system d) (look (conn_ends c (Some e) (stream d)) (writing d))); [exact Hrun|].
    split_and!; try done; [apply look_step, conn_ends_step|]. intros [? ?]. split; cbn [look reads writes]; [by rewrite E1|by rewrite E2].
Qed.

Section From.
Context (n : nat) (tsdus : list bytes) (w : world).
Context (Ht : term_ok (term w)) (Hst : stream_ok w).

(** Both directions of a run of so many steps, each among the rest. *)
Definition both (k m : nat) (d : duplex) : Prop :=
  readers_run k (init (read_op c) (replicate n tt) (look w free)) (read_system d) /\
  writers_run m (init (write_op c) tsdus (look w free)) (write_system d).

Lemma both_stream k m d : both k m d -> stream_ok (stream d).
Proof.
  intros [_ Hw%run_reach]. destruct (reach_inv c (write_op c) tsdus (look w free) (write_system d)) as [blocks Hinv]; try done.
  by destruct Hinv as (_ & _ & ? & _).
Qed.

Lemma both_run evs : forall k m d d',
  both k m d -> duplex_run d evs = Some d' -> both (count is_read evs + k) (count is_write evs + m) d'.
Proof.
  induction evs as [|ev evs IH]; intros k m d d' Hb H; cbn [duplex_run count] in *; [by injection H as <-|].
  destruct (duplex_step d ev) as [d1|] eqn:E; [|done].
  assert (both (is_read ev + k) (is_write ev + m) d1) as Hb1.
  { pose proof (both_stream k m d Hb) as Hok. destruct Hb as [Hr Hw]. split; [by eapply duplex_readers|by eapply duplex_writers]. }
  specialize (IH _ _ _ _ Hb1 H). by rewrite !Nat.add_assoc, !(Nat.add_comm (count _ _)) in IH.
Qed.

Lemma both_reached evs d :
  duplex_run (duplex_init n tsdus w) evs = Some d -> both (count is_read evs) (count is_write evs) d.
Proof.
  intros H. rewrite <- (Nat.add_0_r (count is_read evs)), <- (Nat.add_0_r (count is_write evs)).
  apply (both_run evs 0 0 (duplex_init n tsdus w)); [|exact H]. split; constructor.
Qed.

(** Each direction, as its component knows it. *)
Lemma reached evs d :
  duplex_run (duplex_init n tsdus w) evs = Some d ->
  rtc (readers_step c Hm) (init (read_op c) (replicate n tt) (look w free)) (read_system d) /\
  rtc (system_step c (write_op c)) (init (write_op c) tsdus (look w free)) (write_system d).
Proof. intros [Hr Hw]%both_reached. split; by eapply run_reach. Qed.
End From.
End Duplex.

Arguments stream {c} d.
Arguments reading {c} d.
Arguments writing {c} d.
Arguments read_calls {c} d.
Arguments write_calls {c} d.
Arguments read_system {c} d.
Arguments write_system {c} d.
Arguments duplex_step {c} d ev.
Arguments duplex_run {c} d evs.

(** ** Calls that come too late *)

(** Before the check of the connection, or on the way out with an error. *)
Definition early {op} (p : phase op) : bool := match p with entering | waiting | admitted => true | _ => false end.
Definition doomed {op} (p : phase op) : bool := early p || match p with leaving _ (Err _) | returned (Err _) => true | _ => false end.

Section Late.
Context {X : Type} (c : Conn) (op : operation) {SER : Serialised c op X}.

Lemma ended_not_open w : ended w -> term w <> open_term.
Proof. intros [e ->]. by destruct e. Qed.

Lemma call_step_doomed (s s' : system op) i done j inp p :
  term_ok (term (shared s)) -> stream_ok (shared s) -> ended (shared s) ->
  call_step s i done = Some s' -> calls s !! j = Some (inp, p) -> doomed p = true ->
  exists q, calls s' !! j = Some (inp, q) /\ doomed q = true.
Proof.
  intros Ht Hst He H Hj Hp. destruct (decide (i = j)) as [->|Hne].
  2:{ unfold call_step in H. destruct (calls s !! i) as [[inp' p']|] eqn:Hi; [|done].
      destruct (call_step_next op s i done s' inp' p') as (w & q & -> & _);
        [unfold call_step; by rewrite Hi|done|]. exists p. cbn [calls].
      by rewrite list_lookup_insert_ne. }
  assert (j < length (calls s))%nat as Hlt by (by eapply lookup_lt_Some).
  unfold call_step in H. rewrite Hj in H. destruct p as [| | |l|ar r|r]; [| | |done| |done].
  - destruct (locked (shared s)); injection H as <-; eexists; (split; [by apply list_lookup_insert_eq|done]).
  - destruct done; [injection H as <-; eexists; (split; [by apply list_lookup_insert_eq|done])|].
    destruct (locked (shared s)); [done|]. injection H as <-; eexists; (split; [by apply list_lookup_insert_eq|done]).
  - destruct (enter_law inp (shared s) Ht Hst) as (r & w' & Heq & (Hs & _) & _ & _ & _ & Hr). rewrite Heq in H.
    destruct r as [l|e| |]; [|injection H as <-; eexists; (split; [by apply list_lookup_insert_eq|done])|done..].
    destruct Hr as [Ho _]. destruct (ended_not_open (shared s) He). congruence.
  - destruct (locked (shared s)); [|done]. injection H as <-. eexists. split; [by apply list_lookup_insert_eq|].
    by destruct r.
Qed.
End Late.

Lemma reads_doomed c (Hm : 0 <= maxTSDU c) (d d' : duplex c) ev i p :
  term_ok (term (stream d)) -> stream_ok (stream d) -> ended (stream d) -> duplex_step d ev = Some d' ->
  read_calls d !! i = Some (tt, p) -> doomed p = true -> exists q, read_calls d' !! i = Some (tt, q) /\ doomed q = true.
Proof.
  intros Ht Hst He H Hi Hp. destruct ev as [j dn|j dn|e]; cbn [duplex_step] in H.
  - destruct (call_step (read_system d) j dn) as [s|] eqn:E; [|done]. injection H as <-.
    by eapply (call_step_doomed (SER := read_serialised c Hm) c (read_op c) (read_system d)).
  - destruct (call_step (write_system d) j dn); [|done]. injection H as <-. by exists p.
  - injection H as <-. by exists p.
Qed.

Lemma writes_doomed c (d d' : duplex c) ev i tsdu p :
  term_ok (term (stream d)) -> stream_ok (stream d) -> ended (stream d) -> duplex_step d ev = Some d' ->
  write_calls d !! i = Some (tsdu, p) -> doomed p = true -> exists q, write_calls d' !! i = Some (tsdu, q) /\ doomed q = true.
Proof.
  intros Ht Hst He H Hi Hp. destruct ev as [j dn|j dn|e]; cbn [duplex_step] in H.
  - destruct (call_step (read_system d) j dn); [|done]. injection H as <-. by exists p.
  - destruct (call_step (write_system d) j dn) as [s|] eqn:E; [|done]. injection H as <-.
    by eapply (call_step_doomed c (write_op c) (write_system d)).
  - injection H as <-. by exists p.
Qed.

(** An end stays ended, through the steps of both directions. *)
Lemma duplex_step_keeps c (d d' : duplex c) ev : duplex_step d ev = Some d' -> conn_step c (stream d) (stream d').
Proof.
  intros H. destruct ev as [i dn|i dn|e]; cbn [duplex_step] in H.
  - destruct (call_step (read_system d) i dn) as [s|] eqn:E; [|done]. injection H as <-. by destruct (reader_step c d i dn s E).
  - destruct (call_step (write_system d) i dn) as [s|] eqn:E; [|done]. injection H as <-. by destruct (writer_step c d i dn s E).
  - injection H as <-. exact (conn_ends_step c (Some e) (stream d)).
Qed.

Lemma duplex_run_doomed c (Hm : 0 <= maxTSDU c) n tsdus w (Ht : term_ok (term w)) (Hst : stream_ok w) evs :
  forall k m d d', both c Hm n tsdus w k m d -> ended (stream d) -> duplex_run d evs = Some d' ->
  (forall i p, read_calls d !! i = Some (tt, p) -> doomed p = true -> exists q, read_calls d' !! i = Some (tt, q) /\ doomed q = true) /\
  (forall i t p, write_calls d !! i = Some (t, p) -> doomed p = true -> exists q, write_calls d' !! i = Some (t, q) /\ doomed q = true).
Proof.
  induction evs as [|ev evs IH]; intros k m d d' Hb He H; cbn [duplex_run] in H; [injection H as <-; split; eauto|].
  destruct (duplex_step d ev) as [d1|] eqn:E; [|done].
  pose proof (both_stream c Hm n tsdus w Ht Hst k m d Hb) as Hok.
  assert (term_ok (term (stream d))) as Htd by (destruct He as [e ->]; right; by exists e).
  destruct (both_run c Hm n tsdus w Ht Hst [ev] k m d d1 Hb) as [Hb1 Hb2]; [cbn; by rewrite E|].
  destruct (IH _ _ d1 d' (conj Hb1 Hb2) (ended_step c _ _ (duplex_step_keeps c d d1 ev E) He) H) as [IHr IHw].
  split.
  - intros i p Hi Hp. destruct (reads_doomed c Hm d d1 ev i p Htd Hok He E Hi Hp) as (q & Hq & Hdq). by eapply IHr.
  - intros i t p Hi Hp. destruct (writes_doomed c d d1 ev i t p Htd Hok He E Hi Hp) as (q & Hq & Hdq). by eapply IHw.
Qed.

(** ** Two ends *)

(** The TSDUs the readers of an end have returned, and whether all its calls have
    succeeded. *)
Definition received {c} (d : duplex c) : list bytes := results (read_system d).

Definition completed {c} (d : duplex c) : bool :=
  forallb (fun x => succeeded x.2) (read_calls d) && forallb (fun x => succeeded x.2) (write_calls d).

Definition led {c} (evs : list duplex_event) (d : duplex c) : duplex c := default d (duplex_run d evs).

Lemma led_run {c} evs (d : duplex c) :
  match duplex_run d evs with Some _ => true | None => false end = true -> duplex_run d evs = Some (led evs d).
Proof. unfold led. by destruct (duplex_run d evs). Qed.

(** At one end a reader and two writers take turns, at the other two readers and
    a writer. *)
Definition here_turns : list duplex_event :=
  map (fun x : nat * nat => if (x.1 =? 0)%nat then Reads x.2 None else Writes x.2 None)
    [(0, 0); (1, 0); (1, 1); (0, 0); (1, 0); (1, 0); (0, 0); (1, 0); (1, 0); (1, 0); (1, 1); (0, 0); (1, 1); (1, 1); (1, 1); (1, 1)]%nat.

Definition there_turns : list duplex_event :=
  map (fun x : nat * nat => if (x.1 =? 0)%nat then Reads x.2 None else Writes x.2 None)
    [(1, 0); (0, 0); (0, 1); (1, 0); (0, 0); (0, 0); (1, 0); (0, 0); (1, 0); (0, 0); (1, 0); (0, 1); (0, 1); (0, 1); (0, 1)]%nat.

Definition here : duplex (sample_conn 5) :=
  led here_turns (duplex_init (sample_conn 5) 1 [[1; 2; 3]; [4]] (quiet_world [packet [2; 240; 128; 7]])).

Definition there : duplex (sample_conn 6) :=
  led there_turns (duplex_init (sample_conn 6) 2 [[7]] (quiet_world (map packet (sent (stream here))))).

Example here_and_there :
  received here = [[7]] /\ received there = [[1; 2; 3]; [4]] /\ completed here = true /\ completed there = true.
Proof. split_and!; vm_compute; reflexivity. Qed.

(** ** Properties *)

Section Properties.
Context (c : Conn) (Hm : 0 <= maxTSDU c).

Lemma waiting_read (d : duplex c) i s :
  call_step (read_system d) i None = Some s -> exists d', duplex_step d (Reads i None) = Some d'.
Proof. intros H. unfold duplex_step. rewrite H. by eexists. Qed.

Lemma waiting_write (d : duplex c) i s :
  call_step (write_system d) i None = Some s -> exists d', duplex_step d (Writes i None) = Some d'.
Proof. intros H. unfold duplex_step. rewrite H. by eexists. Qed.
End Properties.

(** C15: full duplex.  Two ends of a connection each run any number of concurrent
    [WriteTSDU] and as many concurrent [ReadTSDU] as the other end writes TSDUs,
    readers and writers of an end taking their steps on one connection in any
    order.  When all the calls have succeeded, and the stream has carried what each
    end sent to the other, in order, the readers of each end have returned the
    TSDUs of the other's writers, each once and unmixed. *)
Theorem duplex_exchange c1 c2 (Hm1 : 0 <= maxTSDU c1) (Hm2 : 0 <= maxTSDU c2) tsdus1 tsdus2 w1 w2 evs1 evs2 d1 d2 ps1 ps2 rest1 rest2 :
  term_ok (term w1) -> stream_ok w1 -> term_ok (term w2) -> stream_ok w2 ->
  duplex_run (duplex_init c1 (length tsdus2) tsdus1 w1) evs1 = Some d1 ->
  duplex_run (duplex_init c2 (length tsdus1) tsdus2 w2) evs2 = Some d2 ->
  completed d1 = true -> completed d2 = true ->
  sent (stream d1) = sent w1 ++ ps1 -> packets (reads w2) = ps1 ++ rest2 ->
  sent (stream d2) = sent w2 ++ ps2 -> packets (reads w1) = ps2 ++ rest1 ->
  received d1 ≡ₚ tsdus2 /\ received d2 ≡ₚ tsdus1.
Proof.
  intros Ht1 Hst1 Ht2 Hst2 H1 H2 [Hr1 Hw1]%andb_true_iff [Hr2 Hw2]%andb_true_iff Hs1 Hp2 Hs2 Hp1.
  destruct (reached c1 Hm1 _ _ w1 Ht1 Hst1 _ _ H1) as [R1 W1].
  destruct (reached c2 Hm2 _ _ w2 Ht2 Hst2 _ _ H2) as [R2 W2].
  split; [eapply (concurrent_exchange c2 c1 Hm1 tsdus2 (look w2 free) (write_system d2) (look w1 free) (read_system d1) ps2)
         |eapply (concurrent_exchange c1 c2 Hm2 tsdus1 (look w1 free) (write_system d1) (look w2 free) (read_system d2) ps1)]; done.
Qed.

Lemma duplex_exchange_witness : received here ≡ₚ [[7]] /\ received there ≡ₚ [[1; 2; 3]; [4]].
Proof.
  apply (duplex_exchange (sample_conn 5) (sample_conn 6) (Z.le_refl 0) (Z.le_refl 0) [[1; 2; 3]; [4]] [[7]]
    (quiet_world [packet [2; 240; 128; 7]]) (quiet_world (map packet (sent (stream here)))) here_turns there_turns here there
    (sent (stream here)) (sent (stream there)) [] []);
    [by left|decide_now|by left|decide_now|apply led_run; vm_compute; reflexivity|apply led_run; vm_compute; reflexivity|vm_compute; reflexivity..].
Defined.

(** C17: neither direction blocks the other.  Whatever the peer, the other
    goroutines and the two kinds of calls do, the readers together take at most as
    many steps as their limit on TSDUs allows and the writers at most five each
    and one per octet; and as long as a reader has not returned some reader can go
    on, as long as a writer has not returned some writer can, even if no context
    is ever done. *)
Theorem duplex_never_blocks c (Hm : 0 <= maxTSDU c) n tsdus w evs d :
  term_ok (term w) -> stream_ok w -> duplex_run (duplex_init c n tsdus w) evs = Some d ->
  Z.of_nat (count is_read evs) <= Z.of_nat n * (effective_max_tsdu (maxTSDU c) + 5) /\
  Z.of_nat (count is_write evs) <= len (concat tsdus) + 5 * Z.of_nat (length tsdus) /\
  (Forall (fun x => exists r, x.2 = returned r) (read_calls d) \/ exists i d', duplex_step d (Reads i None) = Some d') /\
  (Forall (fun x => exists r, x.2 = returned r) (write_calls d) \/ exists i d', duplex_step d (Writes i None) = Some d').
Proof.
  intros Ht Hst H. destruct (both_reached c Hm n tsdus w Ht Hst evs d H) as [Hr Hw].
  destruct (readers_finish c Hm n (look w free) _ (read_system d) Ht Hst eq_refl Hr) as [Hn Hgo].
  destruct (writers_finish c tsdus (look w free) _ (write_system d) Ht Hst eq_refl Hw) as [Hk Hgo'].
  split_and!; [done|done| |].
  - destruct Hgo as [?|(i & s & Hs)]; [by left|right]. exists i. by eapply waiting_read.
  - destruct Hgo' as [?|(i & s & Hs)]; [by left|right]. exists i. by eapply waiting_write.
Qed.

Lemma duplex_never_blocks_witness :
  Z.of_nat (count is_read here_turns) <= 1 * (effective_max_tsdu 0 + 5) /\
  Z.of_nat (count is_write here_turns) <= len (concat [[1; 2; 3]; [4]]) + 5 * 2 /\
  (Forall (fun x => exists r, x.2 = returned r) (read_calls here) \/ exists i d', duplex_step here (Reads i None) = Some d') /\
  (Forall (fun x => exists r, x.2 = returned r) (write_calls here) \/ exists i d', duplex_step here (Writes i None) = Some d').
Proof.
  apply (duplex_never_blocks (sample_conn 5) (Z.le_refl 0) 1 [[1; 2; 3]; [4]] (quiet_world [packet [2; 240; 128; 7]]) here_turns here);
    [by left|decide_now|apply led_run; vm_compute; reflexivity].
Defined.

(** C16: each direction keeps its TSDUs whole.  However the readers, the writers and
    the ends of one connection interleave, the packets sent are one block per
    writer and the packets taken from the stream one block per reader: whole TSDUs
    or nothing, but for possibly one of each direction that is cut short, after
    which nothing more crosses in it.  At most one reader and one writer are between
    lock and unlock.  Who returns without error has its whole block, and a reader's
    TSDU is within the limit; none panics. *)
Theorem duplex_never_interleaves c (Hm : 0 <= maxTSDU c) n tsdus w evs d :
  term_ok (term w) -> stream_ok w -> duplex_run (duplex_init c n tsdus w) evs = Some d ->
  exists sent_ taken_ ans,
    sent (stream d) = sent w ++ payload sent_ /\ NoDup (map fst sent_) /\ serial c (write_op c) tsdus sent_ /\
    reads w = ans ++ reads (stream d) /\ packets ans = payload taken_ /\ NoDup (map fst taken_) /\
    serial (SER := read_serialised c Hm) c (read_op c) (replicate n tt) taken_ /\
    (forall i j ti tj pi pj, write_calls d !! i = Some (ti, pi) -> write_calls d !! j = Some (tj, pj) ->
       inside pi = true -> inside pj = true -> i = j) /\
    (forall i j pi pj, read_calls d !! i = Some (tt, pi) -> read_calls d !! j = Some (tt, pj) ->
       inside pi = true -> inside pj = true -> i = j) /\
    (forall i tsdu r, write_calls d !! i = Some (tsdu, returned r) ->
       match r with
       | Ok _ => exists ps, (i, ps) ∈ sent_ /\ segmentation (MaxTPDULength (negotiated c)) tsdu ps
       | Err _ => True
       | Panic | NoFuel => False
       end) /\
    (forall i r, read_calls d !! i = Some (tt, returned r) ->
       match r with
       | Ok out => len out <= effective_max_tsdu (maxTSDU c) /\
           exists ps, (i, ps) ∈ taken_ /\ dt_packets (MaxTPDULength (negotiated c)) out ps
       | Err _ => True
       | Panic | NoFuel => False
       end).
Proof.
  intros Ht Hst H. destruct (reached c Hm n tsdus w Ht Hst evs d H) as [Hr Hw].
  destruct (writers_never_interleave c tsdus (look w free) (write_system d) Ht Hst eq_refl Hw) as (sent_ & W).
  destruct (readers_never_interleave c Hm n (look w free) (read_system d) Ht Hst eq_refl Hr) as (taken_ & ans & R).
  exists sent_, taken_, ans. destruct W as (? & ? & ? & ? & ?), R as (? & ? & ? & ? & ? & ?). by split_and!.
Qed.

Lemma duplex_never_interleaves_witness :
  exists sent_ taken_ ans,
    sent (stream here) = [] ++ payload sent_ /\ NoDup (map fst sent_) /\
    serial (sample_conn 5) (write_op (sample_conn 5)) [[1; 2; 3]; [4]] sent_ /\
    [packet [2; 240; 128; 7]] = ans ++ reads (stream here) /\ packets ans = payload taken_ /\ NoDup (map fst taken_) /\
    serial (SER := read_serialised (sample_conn 5) (Z.le_refl 0)) (sample_conn 5) (read_op (sample_conn 5)) [tt] taken_ /\
    (forall i j ti tj pi pj, write_calls here !! i = Some (ti, pi) -> write_calls here !! j = Some (tj, pj) ->
       inside pi = true -> inside pj = true -> i = j) /\
    (forall i j pi pj, read_calls here !! i = Some (tt, pi) -> read_calls here !! j = Some (tt, pj) ->
       inside pi = true -> inside pj = true -> i = j) /\
    (forall i tsdu r, write_calls here !! i = Some (tsdu, returned r) ->
       match r with
       | Ok _ => exists ps, (i, ps) ∈ sent_ /\ segmentation 5 tsdu ps
       | Err _ => True
       | Panic | NoFuel => False
       end) /\
    (forall i r, read_calls here !! i = Some (tt, returned r) ->
       match r with
       | Ok out => len out <= effective_max_tsdu 0 /\ exists ps, (i, ps) ∈ taken_ /\ dt_packets 5 out ps
       | Err _ => True
       | Panic | NoFuel => False
       end).
Proof.
  apply (duplex_never_interleaves (sample_conn 5) (Z.le_refl 0) 1 [[1; 2; 3]; [4]] (quiet_world [packet [2; 240; 128; 7]]) here_turns here);
    [by left|decide_now|apply led_run; vm_compute; reflexivity].
Defined.

(** C18: the end of a connection reaches both directions.  Once the connection has
    ended, by a call of either direction or from outside, every reader and every
    writer that has not passed its check of the connection, the ones that wait for
    their turn included, returns an error whatever happens next. *)
Theorem late_calls_fail c (Hm : 0 <= maxTSDU c) n tsdus w evs d evs' d' :
  term_ok (term w) -> stream_ok w -> duplex_run (duplex_init c n tsdus w) evs = Some d -> ended (stream d) ->
  duplex_run d evs' = Some d' ->
  (forall i p r, read_calls d !! i = Some (tt, p) -> early p = true -> read_calls d' !! i = Some (tt, returned r) ->
     exists e, r = Err e) /\
  (forall i tsdu p r, write_calls d !! i = Some (tsdu, p) -> early p = true ->
     write_calls d' !! i = Some (tsdu, returned r) -> exists e, r = Err e).
Proof.
  intros Ht Hst H He H'. pose proof (both_reached c Hm n tsdus w Ht Hst evs d H) as Hb.
  destruct (duplex_run_doomed c Hm n tsdus w Ht Hst evs' _ _ d d' Hb He H') as [Hr Hw].
  split; [intros i p r Hi Hp Hq; destruct (Hr i p Hi) as (q & Hq' & Hd)|intros i t p r Hi Hp Hq; destruct (Hw i t p Hi) as (q & Hq' & Hd)];
    try (unfold doomed; by rewrite Hp); rewrite Hq in Hq'; injection Hq' as <-; destruct r; try done; by eexists.
Qed.

(** A reader and a writer hold their locks and a writer waits when the connection
    is closed; then each goes on to its end. *)
Definition cut_short : duplex (sample_conn 5) :=
  led (take 3 here_turns ++ [Ends closed_by_user])
    (duplex_init (sample_conn 5) 1 [[1; 2; 3]; [4]] (quiet_world [packet [2; 240; 128; 7]])).

Definition late_turns : list duplex_event :=
  [Writes 0 None; Reads 0 None; Writes 0 None; Writes 1 None; Reads 0 None; Writes 1 None; Writes 1 None].

Example cut_short_ends :
  forallb (fun x => early x.2) (read_calls cut_short) = true /\ forallb (fun x => early x.2) (write_calls cut_short) = true /\
  forallb (fun x => match x.2 with returned _ => true | _ => false end) (read_calls (led late_turns cut_short)) = true /\
  forallb (fun x => match x.2 with returned _ => true | _ => false end) (write_calls (led late_turns cut_short)) = true.
Proof. split_and!; vm_compute; reflexivity. Qed.

Lemma late_calls_fail_witness :
  (forall i p r, read_calls cut_short !! i = Some (tt, p) -> early p = true ->
     read_calls (led late_turns cut_short) !! i = Some (tt, returned r) -> exists e, r = Err e) /\
  (forall i tsdu p r, write_calls cut_short !! i = Some (tsdu, p) -> early p = true ->
     write_calls (led late_turns cut_short) !! i = Some (tsdu, returned r) -> exists e, r = Err e).
Proof.
  apply (late_calls_fail (sample_conn 5) (Z.le_refl 0) 1 [[1; 2; 3]; [4]] (quiet_world [packet [2; 240; 128; 7]])
    (take 3 here_turns ++ [Ends closed_by_user]) cut_short late_turns (led late_turns cut_short));
    [by left|decide_now|apply led_run; vm_compute; reflexivity| |apply led_run; vm_compute; reflexivity].
  exists closed_by_user. vm_compute. reflexivity.
Defined.
