(* ===== verification/Guarded.v ===== *)
(** * Calls and the deadline of their direction

    Deadline.v takes it that the operations of one direction are serialised, and
    Locked.v that an operation arms and disarms in one step.  Here the two run
    together: concurrent calls contend for the lock of a direction, each arms the
    direction's deadline with its own context when it enters its loop and disarms
    it before it unlocks, and the cancellation callbacks of all their contexts run
    at any time, also between the critical sections of arm and disarm. *)

From S2P Require Import Prelude Errors RefAlloc World Conn Tsdu TsduSpec Deadline Locked Writers Readers.

(** What other goroutines do to the deadline: callbacks start and run. *)
Definition background (a : action) : Prop :=
  match a with start _ | callback _ => True | _ => False end.

Section Guarded.
Context {X : Type} (c : Conn) (op : Locked.operation) {SER : Serialised c op X}.

(** The critical sections that a step of a call goes through: those of arm when it
    enters its loop, of disarm when it has left it. *)
Definition effect (p q : phase op) (acts : list action) : Prop :=
  match p, q with
  | admitted, looping _ =>
      exists dl done others, Forall background others /\ acts = arm_lock dl :: others ++ [arm_register done]
  | leaving true _, returned _ =>
      exists others, Forall background others /\ acts = disarm_stop :: others ++ [disarm_lock]
  | _, _ => acts = []
  end.

(** [guarded n s d]: the calls are at [s], the deadline at [d], after [n] critical
    sections. *)
Inductive guarded (inputs : list (Input op)) (w : world) : Z -> system op -> directionDeadline -> Prop :=
  | guarded_init : guarded inputs w 0 (init op inputs w) newDirectionDeadline
  | guarded_call n s d i done s' inp p q acts d' :
      guarded inputs w n s d -> call_step s i done = Some s' ->
      calls s !! i = Some (inp, p) -> calls s' !! i = Some (inp, q) ->
      effect p q acts -> Deadline.run d acts = Some d' -> guarded inputs w (n + len acts) s' d'
  | guarded_other n s d w' :
      guarded inputs w n s d -> environment c op (shared s) w' -> guarded inputs w n (mkSystem w' (calls s)) d
  | guarded_background n s d a d' :
      guarded inputs w n s d -> background a -> step d a = Some d' -> guarded inputs w (n + 1) s d'.

(** A call whose context is on the direction. *)
Definition arms (p : phase op) : bool :=
  match p with looping _ | leaving true _ => true | _ => false end.

Lemma arms_inside p : arms p = true -> inside p = true.
Proof. by destruct p as [| | | |[]|]. Qed.

Lemma guarded_reach inputs w n s d : guarded inputs w n s d -> rtc (system_step c op) (init op inputs w) s.
Proof.
  induction 1 as [|n s d i dn s' inp p q acts d' _ IH Hc _ _ _ _|n s d w' _ IH He|n s d a d' _ IH _ _]; [done| | |done];
    (eapply rtc_r; [exact IH|]); [by eapply Locked.step_call|by apply step_other].
Qed.

(** ** Runs of the deadline *)

Lemma run_app acts acts' : forall d,
  Deadline.run d (acts ++ acts') = match Deadline.run d acts with Some d => Deadline.run d acts' | None => None end.
Proof. induction acts as [|a acts IH]; intros d; [done|]. cbn [app Deadline.run]. by destruct (step d a). Qed.

Lemma background_op a d d' : background a -> step d a = Some d' -> Deadline.op d' = Deadline.op d.
Proof.
  intros Ha H. destruct a; try done; cbn [step] in H; (destruct (bool_decide _); [|done]); by injection H as <-.
Qed.

Lemma run_background others : forall d d',
  Forall background others -> Deadline.run d others = Some d' -> Deadline.op d' = Deadline.op d.
Proof.
  induction others as [|a others IH]; intros d d' Hb H; cbn [Deadline.run] in H; [by injection H as <-|].
  apply Forall_cons in Hb as [Ha Hb]. destruct (step d a) as [d1|] eqn:Hs; [|done].
  rewrite (IH d1 d' Hb H). by eapply background_op.
Qed.

Lemma run_arm dl dn others d d' :
  Forall background others -> Deadline.run d (arm_lock dl :: others ++ [arm_register dn]) = Some d' ->
  Deadline.op d = idle /\ exists g, Deadline.op d' = running g.
Proof.
  intros Hb H. cbn [Deadline.run] in H. destruct (step d (arm_lock dl)) as [d1|] eqn:Hs; [|done].
  rewrite run_app in H. destruct (Deadline.run d1 others) as [d2|] eqn:Hr; [|done].
  apply (run_background _ _ _ Hb) in Hr. cbn [step Deadline.run] in H, Hs.
  destruct (Deadline.op d) eqn:Ho; try done. split; [done|]. injection Hs as <-. cbn in Hr. rewrite Hr in H.
  injection H as <-. cbn. by eexists.
Qed.

Lemma run_disarm others d d' :
  Forall background others -> Deadline.run d (disarm_stop :: others ++ [disarm_lock]) = Some d' ->
  (exists g, Deadline.op d = running g) /\ Deadline.op d' = idle.
Proof.
  intros Hb H. cbn [Deadline.run] in H. destruct (step d disarm_stop) as [d1|] eqn:Hs; [|done].
  rewrite run_app in H. destruct (Deadline.run d1 others) as [d2|] eqn:Hr; [|done].
  apply (run_background _ _ _ Hb) in Hr. cbn [step Deadline.run] in H, Hs.
  destruct (Deadline.op d) as [| |g|] eqn:Ho; try done. split; [by eexists|]. injection Hs as <-. cbn in Hr.
  rewrite Hr in H. injection H as <-. by destruct (active d2 =? g).
Qed.

(** ** The invariant *)

(** The operation that Deadline.v has in progress is the call that is armed. *)
Definition matches (s : system op) (d : directionDeadline) : Prop :=
  match Deadline.op d with
  | idle => forall i inp p, calls s !! i = Some (inp, p) -> arms p = false
  | running _ => exists i inp p, calls s !! i = Some (inp, p) /\ arms p = true
  | registering _ | stopped _ => False
  end.

Lemma arms_next p q : next p q = true -> arms p <> arms q ->
  (p = admitted /\ exists l, q = looping l) \/ (exists r r', p = leaving true r /\ q = returned r').
Proof.
  destruct p as [| | |l|[] r|r], q as [| | |l'|[] r'|[]]; cbn; intros H Hne; try done; eauto.
Qed.

(** Either the step arms or disarms, or it does not touch the deadline. *)
Lemma effect_cases p q acts :
  next p q = true -> effect p q acts ->
  (arms p = false /\ arms q = true /\
     exists dl dn others, Forall background others /\ acts = arm_lock dl :: others ++ [arm_register dn]) \/
  (arms p = true /\ arms q = false /\
     exists others, Forall background others /\ acts = disarm_stop :: others ++ [disarm_lock]) \/
  (arms p = arms q /\ acts = []).
Proof.
  intros Hn He. destruct p as [| | |l|[] r|r], q as [| | |l'|[] r'|[]]; cbn in Hn, He |- *; try done; auto.
Qed.

Lemma matches_step inputs w s d i inp p q w' acts d' :
  (exists blocks, Locked.inv c op inputs w s blocks) -> matches s d -> calls s !! i = Some (inp, p) ->
  next p q = true -> effect p q acts -> Deadline.run d acts = Some d' ->
  matches (mkSystem w' (<[i := (inp, q)]> (calls s))) d'.
Proof.
  intros [blocks Hinv] Hm Hi Hn He Hr.
  assert (forall j inp' p', calls s !! j = Some (inp', p') -> arms p' = true -> arms p = true \/ p = admitted -> j = i) as Hu.
  { intros j inp' p' Hj Hp' Hp. eapply (inv_exclusive c op inputs w s blocks j i); try done; [by apply arms_inside|].
    destruct Hp as [Hp| ->]; [by apply arms_inside|done]. }
  assert (i < length (calls s))%nat as Hlt by (by eapply lookup_lt_Some).
  unfold matches in *. cbn [calls]. destruct (effect_cases p q acts Hn He)
    as [(Hp & Hq & dl & dn & others & Hb & ->)|[(Hp & Hq & others & Hb & ->)|(Hpq & ->)]].
  - destruct (run_arm _ _ _ _ _ Hb Hr) as (_ & g & ->). exists i, inp, q. split; [|done].
    by apply list_lookup_insert_eq.
  - destruct (run_disarm _ _ _ Hb Hr) as (_ & ->). intros j inp' p' Hj.
    destruct (lookup_put _ _ _ _ _ _ _ Hi Hj) as [[-> [= -> ->]]|[Hne Hj']]; [done|].
    destruct (arms p') eqn:Hp'; [|done]. exfalso. apply Hne. eapply Hu; eauto.
  - injection Hr as <-. destruct (Deadline.op d) as [|g|g|g]; try done.
    + intros j inp' p' Hj. destruct (lookup_put _ _ _ _ _ _ _ Hi Hj) as [[-> [= -> ->]]|[Hne Hj']]; [|by eapply Hm].
      rewrite <- Hpq. by eapply Hm.
    + destruct Hm as (j & inp' & p' & Hj & Hp'). destruct (decide (j = i)) as [->|Hne].
      * exists i, inp, q. rewrite list_lookup_insert_eq by done. split; [done|]. congruence.
      * exists j, inp', p'. by rewrite list_lookup_insert_ne.
Qed.

Lemma guarded_inv inputs w n s d :
  term_ok (term w) -> stream_ok w -> locked w = false -> guarded inputs w n s d ->
  n < 18446744073709551616 -> 0 <= n /\ deadline_inv n d /\ matches s d.
Proof.
  intros Ht Hst Hl Hg. induction Hg as [|n s d i dn s' inp p q acts d' Hg IH Hc Hi Hi' He Hr|n s d w' _ IH Hev|n s d a d' _ IH Ha Hs];
    intros Hn.
  - split_and!; [done|apply newDirectionDeadline_inv|].
    intros i inp p Hi. apply list_elem_of_lookup_2, list_elem_of_In, in_map_iff in Hi as (? & [= _ <-] & _). done.
  - pose proof (len_nonneg acts). destruct (IH ltac:(lia)) as (H0 & Hd & Hm).
    destruct (call_step_next _ _ _ _ _ _ _ Hc Hi) as (w' & q' & -> & Hnext). cbn [calls] in Hi'.
    rewrite list_lookup_insert_eq in Hi' by (by eapply lookup_lt_Some). injection Hi' as ->.
    split_and!; [lia|by eapply run_inv|].
    eapply (matches_step inputs w); try done. apply (reach_inv c op inputs w); try done. by eapply guarded_reach.
  - destruct (IH Hn) as (H0 & Hd & Hm). by split_and!.
  - destruct (IH ltac:(lia)) as (H0 & Hd & Hm). split_and!; [lia|eapply step_inv; [done|lia|done]|].
    unfold matches in *. by rewrite (background_op a d d' Ha Hs).
Qed.
End Guarded.

(** ** Properties *)

(** C30: a context bounds its own call and nothing else.  However the concurrent
    calls of a direction, what the rest of the program does and the callbacks of
    all contexts interleave: while no call is between its arm and its disarm, in
    particular while the lock is free, the direction has no deadline and no late
    callback can give it one; while a call is in its loop the deadline is the one
    its own context asked for, or the past one after that context was cancelled;
    and a call that arms never finds the direction in use. *)
Theorem deadline_follows_its_call {X} c op `{!Serialised c op X} inputs w n s d :
  term_ok (term w) -> stream_ok w -> locked w = false -> guarded c op inputs w n s d ->
  n < 18446744073709551616 ->
  (forallb (fun x => negb (arms op x.2)) (calls s) = true ->
     current d = no_deadline /\ forall g d', step d (callback g) = Some d' -> current d' = no_deadline) /\
  (locked (shared s) = false -> forallb (fun x => negb (arms op x.2)) (calls s) = true) /\
  (forall i inp l, calls s !! i = Some (inp, looping l) -> exists g, Deadline.op d = running g /\ active d = g /\
     (current d = wanted d \/ (current d = pastDeadline /\ g ∈ cancelled d))) /\
  (forall i inp dl done, calls s !! i = Some (inp, admitted) ->
     exists d', Deadline.run d [arm_lock dl; arm_register done] = Some d' /\ wanted d' = default no_deadline (ctx_deadline <$> dl)).
Proof.
  intros Ht Hst Hl Hg Hn. destruct (guarded_inv c op inputs w n s d Ht Hst Hl Hg Hn) as (H0 & Hd & Hm).
  pose proof Hd as (_ & _ & _ & Hop).
  destruct (reach_inv c op inputs w s Ht Hst Hl (guarded_reach c op inputs w n s d Hg)) as [blocks Hinv].
  assert (forall i inp p, calls s !! i = Some (inp, p) -> arms op p = true -> exists g, Deadline.op d = running g) as Harm.
  { intros i inp p Hi Hp. unfold matches in Hm. destruct (Deadline.op d); try done; [|by eexists].
    rewrite (Hm i inp p Hi) in Hp. done. }
  split_and!.
  - intros Hall. rewrite forallb_forall in Hall. unfold matches in Hm.
    destruct (Deadline.op d) eqn:Ho; try done.
    + destruct (idle_clean n d Hd) as (_ & ?); [by rewrite Ho|done].
    + destruct Hm as (i & inp & p & Hi & Hp).
      specialize (Hall _ (proj1 (list_elem_of_In _ _) (list_elem_of_lookup_2 _ _ _ Hi))). cbn in Hall. by rewrite Hp in Hall.
  - intros Hfree. apply forallb_forall. intros [inp p] Hin. apply list_elem_of_In, list_elem_of_lookup in Hin as [i Hi].
    destruct (arms op p) eqn:Hp; cbn; [|by rewrite Hp]. exfalso.
    destruct Hinv as (_ & _ & _ & _ & _ & _ & H7 & _). rewrite (H7 i inp p Hi (arms_inside op p Hp)) in Hfree. done.
  - intros i inp l Hi. destruct (Harm i inp _ Hi eq_refl) as [g Ho]. exists g. rewrite Ho in Hop.
    destruct Hop as (-> & Ha & _ & Hc). by split_and!.
  - intros i inp dl dn Hi. unfold matches in Hm. destruct (Deadline.op d) as [|g|g|g] eqn:Ho; try done.
    + cbn [Deadline.run step]. rewrite Ho. cbn. eexists. split; [reflexivity|]. by destruct dl.
    + destruct Hm as (j & inp' & p' & Hj & Hp').
      assert (i = j) as <- by (eapply (inv_exclusive c op inputs w s blocks i j); try done; by apply arms_inside).
      rewrite Hi in Hj. injection Hj as <- <-. done.
Qed.

(** One writer whose context is cancelled while it is in its loop. *)
Definition in_loop : system (write_op (sample_conn 5)) :=
  after [0; 0]%nat (init (write_op (sample_conn 5)) [[1; 2; 3]] (quiet_world [])).

Definition cancelled_in_loop : directionDeadline :=
  mkDeadline 1 1 pastDeadline (running 1) (ctx_deadline 9) ∅ ∅ {[1]}.

Lemma in_loop_guarded :
  guarded (sample_conn 5) (write_op (sample_conn 5)) [[1; 2; 3]] (quiet_world []) 4 in_loop cancelled_in_loop.
Proof.
  apply (guarded_background _ _ _ _ 3 _ (mkDeadline 1 1 (ctx_deadline 9) (running 1) (ctx_deadline 9) ∅ {[1]} {[1]}) (callback 1));
    [|done|vm_compute; reflexivity].
  apply (guarded_background _ _ _ _ 2 _ (mkDeadline 1 1 (ctx_deadline 9) (running 1) (ctx_deadline 9) {[1]} ∅ ∅) (start 1));
    [|done|vm_compute; reflexivity].
  eapply (guarded_call (sample_conn 5) (write_op (sample_conn 5)) _ _ 0 (alone (write_op (sample_conn 5)) [1; 2; 3] (set_locked (quiet_world []) true) admitted) newDirectionDeadline 0 None
    _ [1; 2; 3] admitted (looping (0, 0)) [arm_lock (Some 9); arm_register true]);
    [|reflexivity|reflexivity|reflexivity|by exists (Some 9), true, []|vm_compute; reflexivity].
  eapply (guarded_call (sample_conn 5) (write_op (sample_conn 5)) _ _ 0 _ newDirectionDeadline 0 None _ [1; 2; 3] entering admitted []);
    [apply guarded_init|reflexivity|reflexivity|reflexivity|reflexivity|reflexivity].
Qed.

Lemma deadline_follows_its_call_witness :
  exists g, Deadline.op cancelled_in_loop = running g /\ active cancelled_in_loop = g /\
    (current cancelled_in_loop = wanted cancelled_in_loop \/
     (current cancelled_in_loop = pastDeadline /\ g ∈ cancelled cancelled_in_loop)).
Proof.
  refine (proj1 (proj2 (proj2 (deadline_follows_its_call (sample_conn 5) (write_op (sample_conn 5)) [[1; 2; 3]]
    (quiet_world []) 4 in_loop cancelled_in_loop _ _ _ in_loop_guarded _))) 0%nat [1; 2; 3] (0, 0) _);
    [by left|by split|reflexivity|reflexivity|reflexivity].
Defined.
