(* ===== verification/Memory.v ===== *)
(** * Byte slices in memory

    The other files take an octet string as a value.  Here a [[]byte] is what Go
    has: a reference to a stretch of an array, which other slices may share.  An
    array is allocated by go-cotp or by someone else (go-tpkt, the caller); its
    key says by whom.  [load] is the value a slice stands for. *)

From S2P Require Import Prelude Errors.

Inductive owner := cotp | other.

#[export] Instance owner_eq_dec : EqDecision owner.
Proof. solve_decision. Defined.
#[export] Instance owner_countable : Countable owner.
Proof.
  refine (inj_countable' (fun o => match o with cotp => true | other => false end)
    (fun b : bool => if b then cotp else other) _). by intros [].
Defined.

Definition address : Type := owner * nat.
Abbreviation heap := (gmap address bytes).

(** A non-nil slice that is not appended to; the capacity of those that are is in
    Append.v. *)
Record slice := mkSlice {
  arr : address;
  start_ : nat;
  size : nat
}.

Definition load (h : heap) (s : slice) : bytes := take (size s) (drop (start_ s) (h !!! arr s)).
Definition hcontent (h : heap) (s : option slice) : goslice := load h <$> s.
Definition hlen (s : option slice) : Z := match s with Some s => Z.of_nat (size s) | None => 0 end.

(** A slice lies in its array. *)
Definition valid (h : heap) (s : slice) : Prop :=
  exists b, h !! arr s = Some b /\ (start_ s + size s <= length b)%nat.

(** [make([]byte, n)] of go-cotp: a new array of zeroes. *)
Definition new_address (o : owner) (h : heap) : address :=
  (o, S (max_list (map snd (elements (dom h))))).
Definition make (n : nat) (h : heap) : slice * heap :=
  let a := new_address cotp h in (mkSlice a 0 n, <[a := replicate n 0]> h).

(** [s[i:]], the offset being in range. *)
Definition from (s : slice) (i : nat) : slice := mkSlice (arr s) (start_ s + i) (size s - i).

(** [copy(dst, src)]: the smaller of the two lengths, read before it is written. *)
Definition copy_ (dst src : slice) (h : heap) : heap :=
  let n := Nat.min (size dst) (size src) in
  let b := h !!! arr dst in
  <[arr dst := take (start_ dst) b ++ take n (load h src) ++ drop (start_ dst + n) b]> h.

(** copyBytes of config.go. *)
Definition copyBytes_in (b : option slice) (h : heap) : option slice * heap :=
  match b with
  | None => (None, h)
  | Some b => let '(out, h) := make (size b) h in (Some out, copy_ out b h)
  end.

(** The code assembles a TSDU by copies into one array. *)
Fixpoint copy_all (out : slice) (off : nat) (segments : list slice) (h : heap) : heap :=
  match segments with
  | [] => h
  | s :: segments => copy_all out (off + size s) segments (copy_ (from out off) s h)
  end.

(** Nothing but the arrays of [A] changed, and nothing was freed. *)
Definition only_on (A : address -> Prop) (h h' : heap) : Prop :=
  forall a b, h !! a = Some b -> ~ A a -> h' !! a = Some b.

#[export] Instance only_on_preorder A : PreOrder (only_on A).
Proof. split; [by intros h a b|]. intros h1 h2 h3 H1 H2 a b Ha HA. by apply H2; [apply H1|]. Qed.

Definition none : address -> Prop := fun _ => False.
Definition foreign : address -> Prop := fun a => a.1 = other.

Lemma only_on_weaken (A B : address -> Prop) h h' : (forall a, A a -> B a) -> only_on A h h' -> only_on B h h'.
Proof. intros HAB H a b Ha HB. apply H; [done|]. intros HA. by apply HB, HAB. Qed.

(** ** Allocation *)

Lemma new_address_fresh o h : h !! new_address o h = None.
Proof.
  apply not_elem_of_dom. intros Hin. unfold new_address in Hin.
  assert (S (max_list (map snd (elements (dom h)))) <= max_list (map snd (elements (dom h))))%nat; [|lia].
  apply max_list_elem_of_le, list_elem_of_In, in_map_iff.
  eexists. split; [|apply list_elem_of_In, elem_of_elements, Hin]. done.
Qed.

Lemma make_spec n h s h' : make n h = (s, h') ->
  h !! arr s = None /\ (arr s).1 = cotp /\ size s = n /\ start_ s = 0%nat /\
  h' !! arr s = Some (replicate n 0) /\ only_on none h h'.
Proof.
  intros [= <- <-]. cbn [arr size start_]. pose proof (new_address_fresh cotp h) as Hf.
  split_and!; try done; [by rewrite lookup_insert_eq|].
  intros a b Ha _. rewrite lookup_insert_ne; [done|]. congruence.
Qed.

(** ** Loads *)

Lemma length_load h s : valid h s -> length (load h s) = size s.
Proof.
  intros (b & Hb & Hle). unfold load. rewrite (lookup_total_correct _ _ _ Hb), length_take, length_drop. lia.
Qed.

Lemma load_only A h h' s : only_on A h h' -> valid h s -> ~ A (arr s) -> load h' s = load h s /\ valid h' s.
Proof.
  intros Ho (b & Hb & Hle) HA. pose proof (Ho _ _ Hb HA) as Hb'. split; [|by exists b].
  unfold load. by rewrite (lookup_total_correct _ _ _ Hb), (lookup_total_correct _ _ _ Hb').
Qed.

Lemma load_from h s i : load h (from s i) = drop i (load h s).
Proof. unfold load, from. cbn [size start_ arr]. by rewrite skipn_firstn_comm, drop_drop. Qed.

Lemma valid_from h s i : valid h s -> (i <= size s)%nat -> valid h (from s i).
Proof. intros (b & Hb & Hle) Hi. exists b. split; [done|]. cbn. lia. Qed.

(** ** Slices that may be nil *)

Definition valid_opt (h : heap) (o : option slice) : Prop := forall s, o = Some s -> valid h s.

Lemma hcontent_only A h h' o :
  only_on A h h' -> valid_opt h o -> (forall s, o = Some s -> ~ A (arr s)) -> hcontent h' o = hcontent h o /\ valid_opt h' o.
Proof.
  intros Ho Hv HA. destruct o as [s|]; [|split; [done|by intros ? [=]]]. destruct (load_only A h h' s Ho) as [Hl Hv']; [by apply Hv|by apply HA|].
  split; [cbn; by rewrite Hl|]. by intros ? [= <-].
Qed.

Lemma hlen_slen h o : valid_opt h o -> slen (hcontent h o) = hlen o.
Proof. intros Hv. destruct o as [s|]; [|done]. cbn. unfold slen, len. cbn. by rewrite (length_load h s (Hv s eq_refl)). Qed.

(** ** Copies *)

Lemma copy_spec h dst src b :
  h !! arr dst = Some b -> (start_ dst + size dst <= length b)%nat ->
  size src = length (load h src) -> (size src <= size dst)%nat ->
  copy_ dst src h !! arr dst =
    Some (take (start_ dst) b ++ load h src ++ drop (start_ dst + size src) b) /\
  only_on (fun a => a = arr dst) h (copy_ dst src h).
Proof.
  intros Hb Hle Hs Hd. unfold copy_. rewrite (lookup_total_correct _ _ _ Hb), Nat.min_r by done. split.
  - rewrite lookup_insert_eq. by rewrite (take_ge (load h src)) by lia.
  - intros a b' Ha Hne. rewrite lookup_insert_ne; [done|]. congruence.
Qed.

(** A copy stands for the same octets, in an array of its own. *)
Lemma copyBytes_spec h b o h' :
  (forall s, b = Some s -> valid h s) -> copyBytes_in b h = (o, h') ->
  hcontent h' o = hcontent h b /\ hlen o = hlen b /\ only_on none h h' /\
  (forall s, o = Some s -> valid h' s /\ h !! arr s = None /\ (arr s).1 = cotp).
Proof.
  intros Hv H. destruct b as [b|]; cbn [copyBytes_in] in H; [|injection H as <- <-; by split_and!].
  destruct (make (size b) h) as [d h1] eqn:Hm. injection H as <- <-.
  destruct (make_spec _ _ _ _ Hm) as (Hf & Ho & Hs & Hz & Hd & Hon).
  specialize (Hv b eq_refl). destruct (load_only _ _ _ _ Hon Hv) as [Hl Hv1]; [by intros []|].
  pose proof (length_load _ _ Hv1) as Hlb.
  destruct (copy_spec h1 d b _ Hd) as [Hc Hon1]; [rewrite length_replicate; lia|done|lia|].
  assert (only_on none h (copy_ d b h1)) as Hon2.
  { intros a x Ha _. apply Hon1; [by apply Hon; [|intros []]|]. congruence. }
  split_and!; try done.
  - cbn [hcontent fmap option_fmap option_map]. f_equal. unfold load at 1.
    rewrite (lookup_total_correct _ _ _ Hc), Hz, Hs, drop_0, take_0, drop_replicate.
    replace (size b - (0 + size b))%nat with 0%nat by lia. cbn [app replicate]. rewrite app_nil_r, Hl, take_ge; [done|].
    rewrite <- Hl. lia.
  - cbn. by rewrite Hs.
  - intros s [= <-]. split_and!; try done. eexists. split; [exact Hc|].
    rewrite !length_app, length_take, length_drop, length_replicate. lia.
Qed.

(** The copies of the segments into [out] put them together. *)
Lemma copy_all_spec segs : forall h out n b,
  h !! arr out = Some b -> start_ out = 0%nat -> size out = length b ->
  Forall (fun s => valid h s /\ arr s <> arr out) segs ->
  (n + length (concat (map (load h) segs)) <= length b)%nat ->
  copy_all out n segs h !! arr out =
    Some (take n b ++ concat (map (load h) segs) ++ drop (n + length (concat (map (load h) segs))) b) /\
  only_on (fun a => a = arr out) h (copy_all out n segs h).
Proof.
  induction segs as [|s segs IH]; intros h out n b Hb Hz Hsz Hv Hle; cbn [copy_all map concat] in *.
  { split; [|reflexivity]. rewrite Hb. f_equal. cbn [app length]. by rewrite Nat.add_0_r, take_drop. }
  apply Forall_cons in Hv as [[Hs Hne] Hv]. pose proof (length_load _ _ Hs) as Hls. rewrite length_app in Hle |- *.
  destruct (copy_spec h (from out n) s b) as [Hc Hon]; [done|cbn; lia|done|cbn; lia|]. cbn [from arr start_] in Hc, Hon.
  rewrite Hz in Hc. cbn [Nat.add] in Hc.
  set (h1 := copy_ (from out n) s h) in *.
  assert (map (load h1) segs = map (load h) segs) as Hmap.
  { apply map_ext_in. intros x Hx. apply list_elem_of_In in Hx. rewrite Forall_forall in Hv.
    destruct (Hv x Hx) as [Hvx Hnx]. by apply (load_only _ _ _ _ Hon Hvx). }
  set (b1 := take n b ++ load h s ++ drop (n + size s) b) in *.
  assert (length b1 = length b) as Hlb1.
  { unfold b1. rewrite !length_app, length_take, length_drop. lia. }
  destruct (IH h1 out (n + size s)%nat b1) as [Hres Hon1]; try done; try congruence.
  { eapply Forall_impl; [exact Hv|]. cbn. intros x [Hvx Hnx]. split; [|done]. by apply (load_only _ _ _ _ Hon Hvx). }
  { rewrite Hmap. lia. }
  split; [|by etrans]. rewrite Hres, Hmap. f_equal. rewrite <- Hls.
  set (l := load h s) in *. set (k := concat (map (load h) segs)) in *. unfold b1.
  rewrite <- (app_assoc l k), (app_assoc (take n b) l).
  rewrite take_app_length'; [|rewrite length_app, length_take; lia]. rewrite <- app_assoc. f_equal. f_equal. f_equal.
  rewrite <- (drop_drop _ (length k) (n + length l)), drop_app_length'; [|rewrite length_app, length_take; lia].
  rewrite drop_drop. f_equal. lia.
Qed.
