(* ===== verification/Alias.v ===== *)
(** * Decoding in place: decoded octets are parts of the packet

    The decoders copy nothing: a selector, a parameter's value or the user data
    of a decoded TPDU is a slice of the buffer decoded.  Here the decoders run on
    the memory of Memory.v.  The theory relates them to those of Decode.v, which
    take the octets as a value. *)

From S2P Require Import Prelude Errors Types Wire PreferredMax Params Decode Encode Codec.
From S2P Require Import RoundTrip CodecSpec Detect SizeNego Validate Memory.

(** ** TPDUs whose octets lie in memory *)

Record hParam := mkHParam {
  hCode : Z;
  hValue : option slice
}.

Record hCR := mkHCR {
  hCR_CDT : Z;
  hCR_DestinationRef : Z;
  hCR_SourceRef : Z;
  hCR_ClassOption : Z;
  hCR_Parameters : list hParam;
  hCR_CallingSelector : option slice;
  hCR_CalledSelector : option slice;
  hCR_TPDUSize : option Z;
  hCR_PreferredMaxTPDUSize : option Z;
  hCR_UserData : option slice
}.

Record hCC := mkHCC {
  hCC_CDT : Z;
  hCC_DestinationRef : Z;
  hCC_SourceRef : Z;
  hCC_ClassOption : Z;
  hCC_Parameters : list hParam;
  hCC_CallingSelector : option slice;
  hCC_CalledSelector : option slice;
  hCC_TPDUSize : option Z;
  hCC_PreferredMaxTPDUSize : option Z;
  hCC_UserData : option slice
}.

Record hDT := mkHDT {
  hDT_EOT : bool;
  hDT_TPDUNR : option Z;
  hDT_DestinationRef : option Z;
  hDT_Parameters : list hParam;
  hDT_UserData : option slice
}.

Record hDR := mkHDR {
  hDR_DestinationRef : Z;
  hDR_SourceRef : Z;
  hDR_Reason : Z;
  hDR_Parameters : list hParam;
  hDR_UserData : option slice
}.

Record hDC := mkHDC {
  hDC_DestinationRef : Z;
  hDC_SourceRef : Z;
  hDC_Parameters : list hParam
}.

Record hER := mkHER {
  hER_DestinationRef : Z;
  hER_RejectCause : Z;
  hER_Parameters : list hParam
}.

Record hED := mkHED {
  hED_DestinationRef : option Z;
  hED_TPDUNR : option Z;
  hED_EOT : bool;
  hED_Parameters : list hParam;
  hED_UserData : option slice
}.

Record hAK := mkHAK {
  hAK_CDT : Z;
  hAK_DestinationRef : Z;
  hAK_YRTUNR : Z;
  hAK_Parameters : list hParam
}.

Record hEA := mkHEA {
  hEA_DestinationRef : Z;
  hEA_YREDTUNR : Z;
  hEA_Parameters : list hParam
}.

(** An RJ has no octets of its own. *)
Inductive hTPDU :=
  | HCR (c : hCR)
  | HCC (c : hCC)
  | HDT (d : hDT)
  | HDR (d : hDR)
  | HDC (d : hDC)
  | HER (e : hER)
  | HED (e : hED)
  | HAK (a : hAK)
  | HEA (e : hEA)
  | HRJ (r : RJ).

(** The values they stand for. *)
Definition param_value (h : heap) (p : hParam) : Param := mkParam (hCode p) (hcontent h (hValue p)).

Definition CR_value (h : heap) (x : hCR) : CR :=
  mkCR (hCR_CDT x) (hCR_DestinationRef x) (hCR_SourceRef x) (hCR_ClassOption x)
    (map (param_value h) (hCR_Parameters x)) (hcontent h (hCR_CallingSelector x))
    (hcontent h (hCR_CalledSelector x)) (hCR_TPDUSize x) (hCR_PreferredMaxTPDUSize x)
    (hcontent h (hCR_UserData x)).

Definition CC_value (h : heap) (x : hCC) : CC :=
  mkCC (hCC_CDT x) (hCC_DestinationRef x) (hCC_SourceRef x) (hCC_ClassOption x)
    (map (param_value h) (hCC_Parameters x)) (hcontent h (hCC_CallingSelector x))
    (hcontent h (hCC_CalledSelector x)) (hCC_TPDUSize x) (hCC_PreferredMaxTPDUSize x)
    (hcontent h (hCC_UserData x)).

Definition DT_value (h : heap) (x : hDT) : DT :=
  mkDT (hDT_EOT x) (hDT_TPDUNR x) (hDT_DestinationRef x) (map (param_value h) (hDT_Parameters x))
    (hcontent h (hDT_UserData x)).

Definition DR_value (h : heap) (x : hDR) : DR :=
  mkDR (hDR_DestinationRef x) (hDR_SourceRef x) (hDR_Reason x)
    (map (param_value h) (hDR_Parameters x)) (hcontent h (hDR_UserData x)).

Definition DC_value (h : heap) (x : hDC) : DC :=
  mkDC (hDC_DestinationRef x) (hDC_SourceRef x) (map (param_value h) (hDC_Parameters x)).

Definition ER_value (h : heap) (x : hER) : ER :=
  mkER (hER_DestinationRef x) (hER_RejectCause x) (map (param_value h) (hER_Parameters x)).

Definition ED_value (h : heap) (x : hED) : ED :=
  mkED (hED_DestinationRef x) (hED_TPDUNR x) (hED_EOT x) (map (param_value h) (hED_Parameters x))
    (hcontent h (hED_UserData x)).

Definition AK_value (h : heap) (x : hAK) : AK :=
  mkAK (hAK_CDT x) (hAK_DestinationRef x) (hAK_YRTUNR x) (map (param_value h) (hAK_Parameters x)).

Definition EA_value (h : heap) (x : hEA) : EA :=
  mkEA (hEA_DestinationRef x) (hEA_YREDTUNR x) (map (param_value h) (hEA_Parameters x)).

Definition tpdu_value (h : heap) (t : hTPDU) : TPDU :=
  match t with
  | HCR x => T_CR (CR_value h x)
  | HCC x => T_CC (CC_value h x)
  | HDT x => T_DT (DT_value h x)
  | HDR x => T_DR (DR_value h x)
  | HDC x => T_DC (DC_value h x)
  | HER x => T_ER (ER_value h x)
  | HED x => T_ED (ED_value h x)
  | HAK x => T_AK (AK_value h x)
  | HEA x => T_EA (EA_value h x)
  | HRJ x => T_RJ x
  end.

(** All slices of a TPDU. *)
Definition slices_of (t : hTPDU) : list (option slice) :=
  match t with
  | HCR x => [hCR_CallingSelector x; hCR_CalledSelector x; hCR_UserData x] ++ map hValue (hCR_Parameters x)
  | HCC x => [hCC_CallingSelector x; hCC_CalledSelector x; hCC_UserData x] ++ map hValue (hCC_Parameters x)
  | HDT x => [hDT_UserData x] ++ map hValue (hDT_Parameters x)
  | HDR x => [hDR_UserData x] ++ map hValue (hDR_Parameters x)
  | HDC x => map hValue (hDC_Parameters x)
  | HER x => map hValue (hER_Parameters x)
  | HED x => [hED_UserData x] ++ map hValue (hED_Parameters x)
  | HAK x => map hValue (hAK_Parameters x)
  | HEA x => map hValue (hEA_Parameters x)
  | HRJ _ => []
  end.

(** ** Parsers and decoders

    What only reads octets (ReadLI, headerBounds, PeekType, the integers) is the
    function of Wire.v at the octets of the slice. *)

Definition size_ (b : slice) : Z := Z.of_nat (size b).

(** [b[i:j]], bounded by the length as in Errors.v. *)
Definition part (b : slice) (i j : Z) : outcome slice :=
  if (0 <=? i) && (i <=? j) && (j <=? size_ b)
  then Ok (mkSlice (arr b) (start_ b + Z.to_nat i) (Z.to_nat (j - i)))
  else Panic.

Record hCrccResult := mkHCrcc {
  h_callingSelector : option slice;
  h_calledSelector : option slice;
  h_tpduSize : option Z;
  h_preferredMaxTPDUSize : option Z;
  h_parameters : list hParam
}.

Definition empty_hcrcc : hCrccResult := mkHCrcc None None None None [].

Definition crcc_value (h : heap) (r : hCrccResult) : crccVariableResult :=
  mkCrcc (hcontent h (h_callingSelector r)) (hcontent h (h_calledSelector r)) (h_tpduSize r)
    (h_preferredMaxTPDUSize r) (map (param_value h) (h_parameters r)).

Definition crcc_slices (r : hCrccResult) : list (option slice) :=
  [h_callingSelector r; h_calledSelector r] ++ map hValue (h_parameters r).

Section Decoders.
Context (h : heap).

(** [b[i]] *)
Definition at_ (b : slice) (i : Z) : outcome Z := index (load h b) i.

Definition hcrcc_switch (r : hCrccResult) (code length : Z) (value : slice) : outcome hCrccResult :=
  if code =? ParamCallingSelector then
    Ok (mkHCrcc (Some value) (h_calledSelector r) (h_tpduSize r) (h_preferredMaxTPDUSize r) (h_parameters r))
  else if code =? ParamCalledSelector then
    Ok (mkHCrcc (h_callingSelector r) (Some value) (h_tpduSize r) (h_preferredMaxTPDUSize r) (h_parameters r))
  else if code =? ParamTPDUSize then
    if negb (length =? 1)
    then Err (Errorf "variable part: TPDU size length %d: %w" [Sentinel ErrUnexpectedParameterLength])
    else
    let! v := at_ value 0 in
    Ok (mkHCrcc (h_callingSelector r) (h_calledSelector r) (Some v) (h_preferredMaxTPDUSize r) (h_parameters r))
  else if code =? ParamPreferredMaxTPDUSize then
    let! units := wrapf "variable part: %w" (decodePreferredMaxUnits (load h value)) in
    Ok (mkHCrcc (h_callingSelector r) (h_calledSelector r) (h_tpduSize r) (Some units) (h_parameters r))
  else
    Ok (mkHCrcc (h_callingSelector r) (h_calledSelector r) (h_tpduSize r) (h_preferredMaxTPDUSize r)
          (h_parameters r ++ [mkHParam code (Some value)])).

Definition hparseCRCC_body (b : slice) (st : hCrccResult * Z) : outcome (hCrccResult * Z + hCrccResult) :=
  let '(r, pos) := st in
  if pos <? size_ b then
    if size_ b <? pos + 2
    then Err (Errorf "variable part: %w" [Sentinel ErrMalformedParameter]) else
    let! code := at_ b pos in
    let! length := at_ b (pos + 1) in
    let pos := pos + 2 in
    if size_ b <? pos + length
    then Err (Errorf "variable part: length overrun: %w" [Sentinel ErrMalformedParameter]) else
    let! value := part b pos (pos + length) in
    let pos := pos + length in
    let! r := hcrcc_switch r code length value in
    Ok (inl (r, pos))
  else Ok (inr r).

Definition hparseCRCCVariablePart (b : slice) : outcome hCrccResult :=
  iterate (S (size b)) (hparseCRCC_body b) (empty_hcrcc, 0).

Definition hparseVariable_body (b : slice) (st : list hParam * Z) : outcome (list hParam * Z + list hParam) :=
  let '(params, pos) := st in
  if pos <? size_ b then
    if size_ b <? pos + 2
    then Err (Errorf "variable part: %w" [Sentinel ErrMalformedParameter]) else
    let! code := at_ b pos in
    let! length := at_ b (pos + 1) in
    let pos := pos + 2 in
    if size_ b <? pos + length
    then Err (Errorf "variable part: length overrun: %w" [Sentinel ErrMalformedParameter]) else
    let! value := part b pos (pos + length) in
    let params := params ++ [mkHParam code (Some value)] in
    Ok (inl (params, pos + length))
  else Ok (inr params).

Definition hparseVariablePart (b : slice) : outcome (list hParam) :=
  iterate (S (size b)) (hparseVariable_body b) ([], 0).

Definition hdecodeParameters (what : string) (b : slice) (from headerLen : Z) : outcome (list hParam) :=
  if from <? headerLen then
    let! variable := part b from headerLen in
    wrapf ("decode " +:+ what +:+ ": %w") (hparseVariablePart variable)
  else Ok [].

Definition hDecodeCR (b : slice) : outcome hCR :=
  if size_ b <? 1 + crFixedPartLength then Err (Errorf "decode CR: %w" [Sentinel ErrTooShort]) else
  if MaxCRTPDULength <? size_ b
  then Err (Errorf "decode CR: length %d > %d: %w" [Sentinel ErrLengthMismatch]) else
  let! li := wrapf "decode CR: %w" (ReadLI (load h b)) in
  let! headerLen := wrapf "decode CR: %w" (headerBounds (load h b) li crFixedPartLength) in
  let! octet2 := at_ b 1 in
  if negb (Z.land octet2 240 =? 224)
  then Err (Errorf "decode CR: not a CR TPDU (code 0x%02x): %w" [Sentinel ErrInvalidTPDUCode]) else
  let cdt := Z.land octet2 15 in
  let! dst := part b 2 4 in
  let! dstRef := BigEndian_Uint16 (load h dst) in
  let! src := part b 4 6 in
  let! srcRef := BigEndian_Uint16 (load h src) in
  let! classOption := at_ b 6 in
  let! res :=
    if 7 <? headerLen then
      let! variable := part b 7 headerLen in
      wrapf "decode CR: %w" (hparseCRCCVariablePart variable)
    else Ok empty_hcrcc in
  let! userData := part b headerLen (size_ b) in
  Ok {| hCR_CDT := cdt; hCR_DestinationRef := dstRef; hCR_SourceRef := srcRef;
        hCR_ClassOption := classOption; hCR_Parameters := h_parameters res;
        hCR_CallingSelector := h_callingSelector res; hCR_CalledSelector := h_calledSelector res;
        hCR_TPDUSize := h_tpduSize res; hCR_PreferredMaxTPDUSize := h_preferredMaxTPDUSize res;
        hCR_UserData := Some userData |}.

Definition hDecodeCC (b : slice) : outcome hCC :=
  if size_ b <? 1 + ccFixedPartLength then Err (Errorf "decode CC: %w" [Sentinel ErrTooShort]) else
  let! li := wrapf "decode CC: %w" (ReadLI (load h b)) in
  let! headerLen := wrapf "decode CC: %w" (headerBounds (load h b) li ccFixedPartLength) in
  let! octet2 := at_ b 1 in
  if negb (Z.land octet2 240 =? 208)
  then Err (Errorf "decode CC: not a CC TPDU (code 0x%02x): %w" [Sentinel ErrInvalidTPDUCode]) else
  let cdt := Z.land octet2 15 in
  let! dst := part b 2 4 in
  let! dstRef := BigEndian_Uint16 (load h dst) in
  let! src := part b 4 6 in
  let! srcRef := BigEndian_Uint16 (load h src) in
  let! classOption := at_ b 6 in
  let! res :=
    if 7 <? headerLen then
      let! variable := part b 7 headerLen in
      wrapf "decode CC: %w" (hparseCRCCVariablePart variable)
    else Ok empty_hcrcc in
  let! userData := part b headerLen (size_ b) in
  Ok {| hCC_CDT := cdt; hCC_DestinationRef := dstRef; hCC_SourceRef := srcRef;
        hCC_ClassOption := classOption; hCC_Parameters := h_parameters res;
        hCC_CallingSelector := h_callingSelector res; hCC_CalledSelector := h_calledSelector res;
        hCC_TPDUSize := h_tpduSize res; hCC_PreferredMaxTPDUSize := h_preferredMaxTPDUSize res;
        hCC_UserData := Some userData |}.

Definition hDecodeDT (b : slice) : outcome hDT :=
  if size_ b <? MinHeaderLength then Err (Errorf "decode DT: %w" [Sentinel ErrTooShort]) else
  let! li := wrapf "decode DT: %w" (ReadLI (load h b)) in
  let headerLen := 1 + li in
  if size_ b <? headerLen
  then Err (Errorf "decode DT: header length %d exceeds buffer %d: %w" [Sentinel ErrTooShort]) else
  let! octet2 := at_ b 1 in
  if negb (Z.land octet2 254 =? 240)
  then Err (Errorf "decode DT: not a DT TPDU (code 0x%02x): %w" [Sentinel ErrInvalidTPDUCode]) else
  if li =? 2 then
    if headerLen <? 1 + dtMinimalFixedLength
    then Err (Errorf "decode DT: %w" [Sentinel ErrUnsupportedDTVariant]) else
    let! octet3 := at_ b 2 in
    let nr := Z.land octet3 127 in
    let eot := negb (Z.land octet3 128 =? 0) in
    let! params := hdecodeParameters "DT" b 3 headerLen in
    let! userData := part b headerLen (size_ b) in
    Ok {| hDT_EOT := eot; hDT_TPDUNR := Some nr; hDT_DestinationRef := None;
          hDT_Parameters := params; hDT_UserData := Some userData |}
  else if 4 <=? li then
    if headerLen <? 1 + dtNormalFixedLength
    then Err (Errorf "decode DT: %w" [Sentinel ErrUnsupportedDTVariant]) else
    let! dst := part b 2 4 in
    let! dstRef := BigEndian_Uint16 (load h dst) in
    let! octet5 := at_ b 4 in
    let nr := Z.land octet5 127 in
    let eot := negb (Z.land octet5 128 =? 0) in
    let! params := hdecodeParameters "DT" b 5 headerLen in
    let! userData := part b headerLen (size_ b) in
    Ok {| hDT_EOT := eot; hDT_TPDUNR := Some nr; hDT_DestinationRef := Some dstRef;
          hDT_Parameters := params; hDT_UserData := Some userData |}
  else Err (Errorf "decode DT: LI=%d: %w" [Sentinel ErrUnsupportedDTVariant]).

Definition hDecodeDR (b : slice) : outcome hDR :=
  if size_ b <? 1 + drFixedPartLength then Err (Errorf "decode DR: %w" [Sentinel ErrTooShort]) else
  let! li := wrapf "decode DR: %w" (ReadLI (load h b)) in
  let! headerLen := wrapf "decode DR: %w" (headerBounds (load h b) li drFixedPartLength) in
  let! octet2 := at_ b 1 in
  if negb (octet2 =? 128)
  then Err (Errorf "decode DR: not a DR TPDU (code 0x%02x): %w" [Sentinel ErrInvalidTPDUCode]) else
  let! dst := part b 2 4 in
  let! dstRef := BigEndian_Uint16 (load h dst) in
  let! src := part b 4 6 in
  let! srcRef := BigEndian_Uint16 (load h src) in
  let! reason := at_ b 6 in
  let! params := hdecodeParameters "DR" b 7 headerLen in
  let! userData := part b headerLen (size_ b) in
  Ok {| hDR_DestinationRef := dstRef; hDR_SourceRef := srcRef; hDR_Reason := reason;
        hDR_Parameters := params; hDR_UserData := Some userData |}.

Definition hDecodeDC (b : slice) : outcome hDC :=
  if size_ b <? 1 + dcFixedPartLength then Err (Errorf "decode DC: %w" [Sentinel ErrTooShort]) else
  let! li := wrapf "decode DC: %w" (ReadLI (load h b)) in
  let! headerLen := wrapf "decode DC: %w" (headerBounds (load h b) li dcFixedPartLength) in
  let! octet2 := at_ b 1 in
  if negb (octet2 =? 192)
  then Err (Errorf "decode DC: not a DC TPDU (code 0x%02x): %w" [Sentinel ErrInvalidTPDUCode]) else
  let! dst := part b 2 4 in
  let! dstRef := BigEndian_Uint16 (load h dst) in
  let! src := part b 4 6 in
  let! srcRef := BigEndian_Uint16 (load h src) in
  let! params := hdecodeParameters "DC" b 6 headerLen in
  Ok {| hDC_DestinationRef := dstRef; hDC_SourceRef := srcRef; hDC_Parameters := params |}.

Definition hDecodeER (b : slice) : outcome hER :=
  if size_ b <? 1 + erFixedPartLength then Err (Errorf "decode ER: %w" [Sentinel ErrTooShort]) else
  let! li := wrapf "decode ER: %w" (ReadLI (load h b)) in
  let! headerLen := wrapf "decode ER: %w" (headerBounds (load h b) li erFixedPartLength) in
  let! octet2 := at_ b 1 in
  if negb (octet2 =? 112)
  then Err (Errorf "decode ER: not an ER TPDU (code 0x%02x): %w" [Sentinel ErrInvalidTPDUCode]) else
  let! dst := part b 2 4 in
  let! dstRef := BigEndian_Uint16 (load h dst) in
  let! cause := at_ b 4 in
  let! params := hdecodeParameters "ER" b 5 headerLen in
  Ok {| hER_DestinationRef := dstRef; hER_RejectCause := cause; hER_Parameters := params |}.

Definition hDecodeED (b : slice) : outcome hED :=
  if size_ b <? 1 + edFixedPartLength then Err (Errorf "decode ED: %w" [Sentinel ErrTooShort]) else
  let! li := wrapf "decode ED: %w" (ReadLI (load h b)) in
  let! headerLen := wrapf "decode ED: %w" (headerBounds (load h b) li edFixedPartLength) in
  let! octet2 := at_ b 1 in
  if negb (octet2 =? 16)
  then Err (Errorf "decode ED: not an ED TPDU (code 0x%02x): %w" [Sentinel ErrInvalidTPDUCode]) else
  let! dst := part b 2 4 in
  let! dstRef := BigEndian_Uint16 (load h dst) in
  let! nrEot := at_ b 4 in
  let nr := Z.land nrEot 127 in
  let eot := negb (Z.land nrEot 128 =? 0) in
  let! params := hdecodeParameters "ED" b 5 headerLen in
  let! userData := part b headerLen (size_ b) in
  if (size_ userData <? MinEDUserDataLen) || (MaxEDUserDataLen <? size_ userData)
  then Err (Errorf "decode ED: user data length %d: %w" [Sentinel ErrInvalidEDUserDataLength]) else
  Ok {| hED_DestinationRef := Some dstRef; hED_TPDUNR := Some nr; hED_EOT := eot;
        hED_Parameters := params; hED_UserData := Some userData |}.

Definition hDecodeAK (b : slice) : outcome hAK :=
  if size_ b <? 1 + akFixedPartLength then Err (Errorf "decode AK: %w" [Sentinel ErrTooShort]) else
  let! li := wrapf "decode AK: %w" (ReadLI (load h b)) in
  let! headerLen := wrapf "decode AK: %w" (headerBounds (load h b) li akFixedPartLength) in
  let! octet2 := at_ b 1 in
  if negb (Z.land octet2 240 =? 96)
  then Err (Errorf "decode AK: not an AK TPDU (code 0x%02x): %w" [Sentinel ErrInvalidTPDUCode]) else
  let! dst := part b 2 4 in
  let! dstRef := BigEndian_Uint16 (load h dst) in
  let! nr := at_ b 4 in
  let! params := hdecodeParameters "AK" b 5 headerLen in
  Ok {| hAK_CDT := Z.land octet2 15; hAK_DestinationRef := dstRef; hAK_YRTUNR := nr;
        hAK_Parameters := params |}.

Definition hDecodeEA (b : slice) : outcome hEA :=
  if size_ b <? 1 + eaFixedPartLength then Err (Errorf "decode EA: %w" [Sentinel ErrTooShort]) else
  let! li := wrapf "decode EA: %w" (ReadLI (load h b)) in
  let! headerLen := wrapf "decode EA: %w" (headerBounds (load h b) li eaFixedPartLength) in
  let! octet2 := at_ b 1 in
  if negb (octet2 =? 32)
  then Err (Errorf "decode EA: not an EA TPDU (code 0x%02x): %w" [Sentinel ErrInvalidTPDUCode]) else
  let! dst := part b 2 4 in
  let! dstRef := BigEndian_Uint16 (load h dst) in
  let! nr := at_ b 4 in
  let! params := hdecodeParameters "EA" b 5 headerLen in
  Ok {| hEA_DestinationRef := dstRef; hEA_YREDTUNR := nr; hEA_Parameters := params |}.

Definition hDecode (b : slice) : outcome hTPDU :=
  if size_ b <? MinHeaderLength then Err (Errorf "decode: %w" [Sentinel ErrTooShort]) else
  let! t := wrapf "decode: %w" (PeekType (load h b)) in
  if t =? TypeCR then let! cr := wrapf "decode: %w" (hDecodeCR b) in Ok (HCR cr)
  else if t =? TypeCC then let! cc := wrapf "decode: %w" (hDecodeCC b) in Ok (HCC cc)
  else if t =? TypeDT then let! dt := wrapf "decode: %w" (hDecodeDT b) in Ok (HDT dt)
  else if t =? TypeDR then let! dr := wrapf "decode: %w" (hDecodeDR b) in Ok (HDR dr)
  else if t =? TypeDC then let! dc := wrapf "decode: %w" (hDecodeDC b) in Ok (HDC dc)
  else if t =? TypeER then let! er := wrapf "decode: %w" (hDecodeER b) in Ok (HER er)
  else if t =? TypeED then let! ed := wrapf "decode: %w" (hDecodeED b) in Ok (HED ed)
  else if t =? TypeAK then let! ak := wrapf "decode: %w" (hDecodeAK b) in Ok (HAK ak)
  else if t =? TypeEA then let! ea := wrapf "decode: %w" (hDecodeEA b) in Ok (HEA ea)
  else if t =? TypeRJ then let! rj := wrapf "decode: %w" (DecodeRJ (load h b)) in Ok (HRJ rj)
  else Err (Errorf "decode: %w" [Sentinel ErrUnsupportedTPDU]).

(** [Raw] is the slice decoded. *)
Definition hDecodeWithRaw (b : slice) : outcome (hTPDU * slice) :=
  let! d := hDecode b in
  Ok (d, b).

Definition hdecodeOpenDT (packet : slice) (maxTPDU : Z) : outcome hDT :=
  if maxTPDU <? size_ packet
  then Err (Errorf "TPDU length %d > negotiated %d: %w" [Sentinel ErrHandshake]) else
  if size_ packet <? MinHeaderLength
  then Err (Errorf "%w: %w" [Sentinel ErrHandshake; Sentinel ErrTooShort]) else
  let! decoded := rewrap ErrHandshake (hDecode packet) in
  match decoded with
  | HDT dt =>
      let! li := rewrap ErrHandshake (ReadLI (load h packet)) in
      let! typeOctet := at_ packet 1 in
      let! tpduNRAndEOT := if 2 <? size_ packet then at_ packet 2 else Ok 0 in
      let! _ := validateMinimalClass0DT li typeOctet tpduNRAndEOT in
      match hDT_DestinationRef dt with
      | Some _ => Err (Errorf "non-minimal DT: %w" [Sentinel ErrHandshake])
      | None =>
          let! _ := validateOpenDTParameters (map (param_value h) (hDT_Parameters dt)) in
          Ok dt
      end
  | _ => Err (unexpectedOpenTPDU (tpdu_type (tpdu_value h decoded)))
  end.

Definition hExtractUserData (b : slice) : outcome (option slice) :=
  let! t := wrapf "extract user data: %w" (PeekType (load h b)) in
  if t =? TypeDT then
    let! dt := wrapf "extract user data: %w" (hDecodeDT b) in Ok (hDT_UserData dt)
  else if t =? TypeED then
    let! ed := wrapf "extract user data: %w" (hDecodeED b) in Ok (hED_UserData ed)
  else Err (Errorf "extract user data: not DT or ED (type %s): %w" [Sentinel ErrInvalidTPDUCode]).
End Decoders.

(** ** Two computations in step *)

Definition in_step {A B} (R : A -> B -> Prop) (m : outcome A) (n : outcome B) : Prop :=
  match m, n with
  | Ok a, Ok b => R a b
  | Err e, Err e' => e = e'
  | Panic, Panic | NoFuel, NoFuel => True
  | _, _ => False
  end.

Lemma in_step_bind {A B C D} (R : A -> B -> Prop) (Q : C -> D -> Prop) m n f g :
  in_step R m n -> (forall a b, R a b -> in_step Q (f a) (g b)) -> in_step Q (obind m f) (obind n g).
Proof. destruct m, n; cbn; auto; done. Qed.

(** The same computation on both sides. *)
Lemma in_step_same {A C D} (Q : C -> D -> Prop) (m : outcome A) f g :
  (forall a, m = Ok a -> in_step Q (f a) (g a)) -> in_step Q (obind m f) (obind m g).
Proof. destruct m; cbn; auto. Qed.

Lemma in_step_wrapf {A B} (R : A -> B -> Prop) fmt m n : in_step R m n -> in_step R (wrapf fmt m) (wrapf fmt n).
Proof. destruct m, n; cbn; congruence || done. Qed.

Lemma in_step_rewrap {A B} (R : A -> B -> Prop) s m n : in_step R m n -> in_step R (rewrap s m) (rewrap s n).
Proof. by destruct m, n. Qed.

Lemma in_step_Ok {A B} (R : A -> B -> Prop) a b : R a b -> in_step R (Ok a) (Ok b).
Proof. done. Qed.

Lemma in_step_Err {A B} (R : A -> B -> Prop) e : in_step R (Err e) (Err e).
Proof. done. Qed.

Definition sum_rel {A B C D} (R : A -> B -> Prop) (Q : C -> D -> Prop) (x : A + C) (y : B + D) : Prop :=
  match x, y with inl a, inl b => R a b | inr c, inr d => Q c d | _, _ => False end.

Lemma in_step_iterate {A B C D} (R : A -> B -> Prop) (Q : C -> D -> Prop) f g :
  (forall s t, R s t -> in_step (sum_rel R Q) (f s) (g t)) ->
  forall n s t, R s t -> in_step Q (iterate n f s) (iterate n g t).
Proof.
  intros Hfg. induction n as [|n IH]; intros s t Hst; [done|]. cbn. specialize (Hfg s t Hst).
  destruct (f s) as [[|]| | |], (g t) as [[|]| | |]; cbn in Hfg; try done. by apply IH.
Qed.

(** ** Parts of a slice *)

(** The octets of [s] are among those of [b]. *)
Definition inside (b s : slice) : Prop :=
  arr s = arr b /\ (start_ b <= start_ s)%nat /\ (start_ s + size s <= start_ b + size b)%nat.

(** All the slices of [l] are. *)
Definition all_inside (b : slice) (l : list (option slice)) : Prop := Forall (fun o => forall s, o = Some s -> inside b s) l.

#[export] Instance inside_preorder : PreOrder inside.
Proof.
  split; [by intros s|]. intros a b c (? & ? & ?) (? & ? & ?). repeat split; congruence || lia.
Qed.

Lemma inside_valid h b s : valid h b -> inside b s -> valid h s.
Proof. intros (x & Hx & Hle) (Ha & ? & ?). exists x. rewrite Ha. split; [done|lia]. Qed.

Lemma all_inside_app b l k : all_inside b l -> all_inside b k -> all_inside b (l ++ k).
Proof. apply Forall_app_2. Qed.

Lemma all_inside_weaken b s l : inside b s -> all_inside s l -> all_inside b l.
Proof. intros Hb Hl. eapply Forall_impl; [exact Hl|]. cbn. intros o Ho x Hx. etrans; [exact Hb|]. by apply Ho. Qed.

Lemma all_inside_cons b s l : inside b s -> all_inside b l -> all_inside b (Some s :: l).
Proof. intros H Hl. constructor; [by intros ? [= <-]|done]. Qed.

Lemma all_inside_nil b : all_inside b [].
Proof. constructor. Qed.

Lemma all_inside_none b l : all_inside b l -> all_inside b (None :: l).
Proof. intros H. constructor; [by intros ? [=]|done]. Qed.

#[export] Hint Resolve all_inside_app all_inside_cons all_inside_nil all_inside_none : cotp.

(** The value of a part is a part of the value: it stays while the octets of the
    whole do. *)
Lemma load_inside h h' b s : inside b s -> load h' b = load h b -> load h' s = load h s.
Proof.
  intros (Ha & Hs & He) Hl.
  assert (forall g, load g s = take (size s) (drop (start_ s - start_ b) (load g b))) as Hsub; [|by rewrite !Hsub, Hl].
  intros g. unfold load. rewrite Ha, skipn_firstn_comm, take_take, drop_drop.
  f_equal; [lia|]. f_equal. lia.
Qed.

Section Theory.
Context (h : heap).

Lemma len_load b : valid h b -> len (load h b) = size_ b.
Proof. intros Hv. unfold len, size_. by rewrite length_load. Qed.

Lemma part_in_step b i j :
  valid h b -> in_step (fun v s => v = load h s /\ valid h s /\ inside b s) (Errors.slice (load h b) i j) (part b i j).
Proof.
  intros Hv. unfold Errors.slice, part. rewrite (len_load b Hv).
  destruct (_ && _) eqn:E; [|done]. cbn. breflect. unfold size_ in *.
  assert (inside b (mkSlice (arr b) (start_ b + Z.to_nat i) (Z.to_nat (j - i)))) as Hin.
  { repeat split; cbn; lia. }
  split_and!; [|by eapply inside_valid|done].
  unfold load. cbn [size start_ arr]. rewrite skipn_firstn_comm, take_take, drop_drop. f_equal. lia.
Qed.

Lemma in_step_part {C D} (Q : C -> D -> Prop) b i j f g :
  valid h b ->
  (forall s, valid h s -> inside b s -> in_step Q (f (load h s)) (g s)) ->
  in_step Q (obind (Errors.slice (load h b) i j) f) (obind (part b i j) g).
Proof.
  intros Hv Hfg. eapply in_step_bind; [by apply part_in_step|]. intros v s (-> & ? & ?). by apply Hfg.
Qed.

(** The steps both sides have in common. *)
Ltac lockstep :=
  cbv zeta;
  repeat first
    [ apply in_step_Err
    | match goal with
      | Hv : valid h ?b |- context [len (load h ?b)] => rewrite (len_load b Hv)
      | |- in_step _ (if ?c then _ else _) (if ?c then _ else _) => destruct c eqn:?
      | |- in_step _ (obind ?m _) (obind ?m _) => apply in_step_same; intros ? _
      | |- in_step _ (obind (Errors.slice _ _ _) _) (obind (part _ _ _) _) => apply in_step_part; [done|]; intros ? ? ?
      end ].

Definition params_rel (b : slice) (ps : list Param) (hps : list hParam) : Prop :=
  ps = map (param_value h) hps /\ all_inside b (map hValue hps).

Lemma params_snoc b s ps hps c :
  params_rel b ps hps -> inside b s ->
  params_rel b (ps ++ [mkParam c (Some (load h s))]) (hps ++ [mkHParam c (Some s)]).
Proof.
  intros [-> Hin] Hs. split; [by rewrite map_app|]. rewrite map_app. apply all_inside_app; [done|]. cbn. auto with cotp.
Qed.

Lemma parseVariable_in_step b : valid h b ->
  in_step (params_rel b) (parseVariablePart (load h b)) (hparseVariablePart h b).
Proof.
  intros Hv. unfold parseVariablePart, hparseVariablePart. rewrite (length_load h b Hv).
  eapply (in_step_iterate (fun s t => params_rel b s.1 t.1 /\ s.2 = t.2)); [|repeat split; constructor].
  intros [ps pos] [hps pos'] [Hp Heq]. cbn in Hp, Heq. subst pos'. unfold parseVariable_body, hparseVariable_body, at_.
  lockstep; [|done]. split; [|done]. by apply params_snoc.
Qed.

Definition crcc_rel (b : slice) (r : crccVariableResult) (r' : hCrccResult) : Prop :=
  r = crcc_value h r' /\ all_inside b (crcc_slices r').

Lemma crcc_switch_in_step b s r r' c l :
  crcc_rel b r r' -> inside b s -> in_step (crcc_rel b) (crcc_switch r c l (load h s)) (hcrcc_switch h r' c l s).
Proof.
  intros [-> Hin] Hs. unfold crcc_switch, hcrcc_switch, at_.
  destruct r' as [calling called sz pm ps]. unfold crcc_slices in Hin. cbn in Hin.
  apply Forall_cons in Hin as [H1 [H2 Hps]%Forall_cons].
  assert (forall x, Some s = Some x -> inside b x) as Hs' by (by intros ? [= <-]).
  lockstep.
  - split; [done|]. by repeat (constructor; [done|]).
  - split; [done|]. by repeat (constructor; [done|]).
  - split; [done|]. by repeat (constructor; [done|]).
  - split; [done|]. by repeat (constructor; [done|]).
  - split; [unfold crcc_value; cbn; by rewrite map_app|]. unfold crcc_slices. cbn.
    constructor; [done|]. constructor; [done|]. rewrite map_app. apply all_inside_app; [done|]. cbn. auto with cotp.
Qed.

Lemma parseCRCC_in_step b : valid h b ->
  in_step (crcc_rel b) (parseCRCCVariablePart (load h b)) (hparseCRCCVariablePart h b).
Proof.
  intros Hv. unfold parseCRCCVariablePart, hparseCRCCVariablePart. rewrite (length_load h b Hv).
  eapply (in_step_iterate (fun s t => crcc_rel b s.1 t.1 /\ s.2 = t.2)).
  - intros [r pos] [r' pos'] [Hr Heq]. cbn in Hr, Heq. subst pos'. unfold parseCRCC_body, hparseCRCC_body, at_.
    lockstep; [|done]. eapply in_step_bind; [by apply crcc_switch_in_step|]. intros. by split.
  - split; [|done]. split; [done|]. apply all_inside_none, all_inside_none. constructor.
Qed.

Lemma decodeParameters_in_step what b i j :
  valid h b -> in_step (params_rel b) (decodeParameters what (load h b) i j) (hdecodeParameters h what b i j).
Proof.
  intros Hv. unfold decodeParameters, hdecodeParameters. lockstep; [|by repeat constructor].
  apply in_step_wrapf. match goal with Hs : valid h ?s, Hi : inside b ?s |- _ => pose proof (parseVariable_in_step s Hs) as Hp; revert Hp Hi end.
  destruct (parseVariablePart _), (hparseVariablePart _ _); cbn; try done. intros [-> Hin] Hi. split; [done|].
  by eapply all_inside_weaken.
Qed.

(** ** The decoders in step *)

Definition decodes {A B} (value : B -> A) (octets : B -> list (option slice)) (b : slice) (a : A) (x : B) : Prop :=
  a = value x /\ all_inside b (octets x).

Ltac decoder :=
  repeat (lockstep;
    first [ eapply in_step_bind; [by apply decodeParameters_in_step|]; intros ? ? [-> ?]
          | apply in_step_Ok; split; [done|]; cbn; auto with cotp ]).

Lemma DR_in_step b : valid h b ->
  in_step (decodes (DR_value h) (fun x => slices_of (HDR x)) b) (DecodeDR (load h b)) (hDecodeDR h b).
Proof. intros Hv. unfold DecodeDR, hDecodeDR, at_. decoder. Qed.

Lemma DC_in_step b : valid h b ->
  in_step (decodes (DC_value h) (fun x => slices_of (HDC x)) b) (DecodeDC (load h b)) (hDecodeDC h b).
Proof. intros Hv. unfold DecodeDC, hDecodeDC, at_. decoder. Qed.

Lemma DT_in_step b : valid h b ->
  in_step (decodes (DT_value h) (fun x => slices_of (HDT x)) b) (DecodeDT (load h b)) (hDecodeDT h b).
Proof. intros Hv. unfold DecodeDT, hDecodeDT, at_. decoder. Qed.

Lemma ER_in_step b : valid h b ->
  in_step (decodes (ER_value h) (fun x => slices_of (HER x)) b) (DecodeER (load h b)) (hDecodeER h b).
Proof. intros Hv. unfold DecodeER, hDecodeER, at_. decoder. Qed.

Lemma ED_in_step b : valid h b ->
  in_step (decodes (ED_value h) (fun x => slices_of (HED x)) b) (DecodeED (load h b)) (hDecodeED h b).
Proof. intros Hv. unfold DecodeED, hDecodeED, at_. decoder. Qed.

Lemma AK_in_step b : valid h b ->
  in_step (decodes (AK_value h) (fun x => slices_of (HAK x)) b) (DecodeAK (load h b)) (hDecodeAK h b).
Proof. intros Hv. unfold DecodeAK, hDecodeAK, at_. decoder. Qed.

Lemma EA_in_step b : valid h b ->
  in_step (decodes (EA_value h) (fun x => slices_of (HEA x)) b) (DecodeEA (load h b)) (hDecodeEA h b).
Proof. intros Hv. unfold DecodeEA, hDecodeEA, at_. decoder. Qed.

(** The variable part of a CR or CC, as the decoders read it. *)
Lemma crcc_part_in_step b i fmt (more : bool) : valid h b ->
  in_step (crcc_rel b)
    (if more then let! v := Errors.slice (load h b) 7 i in wrapf fmt (parseCRCCVariablePart v) else Ok empty_crcc)
    (if more then let! v := part b 7 i in wrapf fmt (hparseCRCCVariablePart h v) else Ok empty_hcrcc).
Proof.
  intros Hv. lockstep.
  - apply in_step_wrapf.
    match goal with Hs : valid h ?s, Hi : inside b ?s |- _ => pose proof (parseCRCC_in_step s Hs) as Hp; revert Hp Hi end.
    destruct (parseCRCCVariablePart _), (hparseCRCCVariablePart _ _); cbn; try done. intros [-> Hin] Hi. split; [done|].
    by eapply all_inside_weaken.
  - split; [done|]. apply all_inside_none, all_inside_none. constructor.
Qed.

Ltac crcc_decoder :=
  lockstep; (eapply in_step_bind; [by apply crcc_part_in_step|]); intros ? [? ? ? ? ?] [-> [? [? ?]%Forall_cons]%Forall_cons];
  lockstep; apply in_step_Ok; (split; [done|]); constructor; [done|]; constructor; [done|]; by apply all_inside_cons.

Lemma CR_in_step b : valid h b ->
  in_step (decodes (CR_value h) (fun x => slices_of (HCR x)) b) (DecodeCR (load h b)) (hDecodeCR h b).
Proof. intros Hv. unfold DecodeCR, hDecodeCR, at_. crcc_decoder. Qed.

Lemma CC_in_step b : valid h b ->
  in_step (decodes (CC_value h) (fun x => slices_of (HCC x)) b) (DecodeCC (load h b)) (hDecodeCC h b).
Proof. intros Hv. unfold DecodeCC, hDecodeCC, at_. crcc_decoder. Qed.

(** What [Decode] gives on values, and on memory. *)
Definition decoded_rel (b : slice) (d : Decoded) (t : hTPDU) : Prop :=
  d = decoded (tpdu_value h t) /\ all_inside b (slices_of t).

Lemma Decode_in_step b : valid h b -> in_step (decoded_rel b) (Decode (load h b)) (hDecode h b).
Proof.
  intros Hv. unfold Decode, hDecode. lockstep.
  - eapply in_step_bind; [by apply in_step_wrapf, CR_in_step|]. by intros ? ? [-> ?].
  - eapply in_step_bind; [by apply in_step_wrapf, CC_in_step|]. by intros ? ? [-> ?].
  - eapply in_step_bind; [by apply in_step_wrapf, DT_in_step|]. by intros ? ? [-> ?].
  - eapply in_step_bind; [by apply in_step_wrapf, DR_in_step|]. by intros ? ? [-> ?].
  - eapply in_step_bind; [by apply in_step_wrapf, DC_in_step|]. by intros ? ? [-> ?].
  - eapply in_step_bind; [by apply in_step_wrapf, ER_in_step|]. by intros ? ? [-> ?].
  - eapply in_step_bind; [by apply in_step_wrapf, ED_in_step|]. by intros ? ? [-> ?].
  - eapply in_step_bind; [by apply in_step_wrapf, AK_in_step|]. by intros ? ? [-> ?].
  - eapply in_step_bind; [by apply in_step_wrapf, EA_in_step|]. by intros ? ? [-> ?].
  - split; [done|]. apply all_inside_nil.
Qed.

Lemma decodeOpenDT_in_step b max : valid h b ->
  in_step (decodes (DT_value h) (fun x => slices_of (HDT x)) b)
    (decodeOpenDT (load h b) max) (hdecodeOpenDT h b max).
Proof.
  intros Hv. unfold decodeOpenDT, hdecodeOpenDT, at_. lockstep.
  eapply in_step_bind; [by apply in_step_rewrap, Decode_in_step|]. intros d t [-> Hin].
  destruct t as [x|x|x|x|x|x|x|x|x|x]; try done. cbn [decoded tpdu_value D_DT D_Type].
  change (negb (TypeDT =? TypeDT)) with false. cbv iota.
  apply in_step_same. intros li _. apply in_step_same. intros ty _. apply in_step_same. intros nr _.
  apply in_step_same. intros [] _. change (DT_DestinationRef (DT_value h x)) with (hDT_DestinationRef x).
  destruct (hDT_DestinationRef x); [done|]. apply in_step_same. intros [] _. by split.
Qed.

Lemma ExtractUserData_in_step b : valid h b ->
  in_step (fun ud o => ud = hcontent h o /\ all_inside b [o]) (ExtractUserData (load h b)) (hExtractUserData h b).
Proof.
  intros Hv. unfold ExtractUserData, hExtractUserData. lockstep.
  - eapply in_step_bind; [by apply in_step_wrapf, DT_in_step|]. intros ? ? [-> [? ?]%Forall_cons].
    split; [done|]. by apply Forall_singleton.
  - eapply in_step_bind; [by apply in_step_wrapf, ED_in_step|]. intros ? ? [-> [? ?]%Forall_cons].
    split; [done|]. by apply Forall_singleton.
Qed.
End Theory.

(** ** The value of what was decoded stays while the packet does *)

Section Stays.
Context (h h' : heap) (b : slice) (Hl : load h' b = load h b).

Lemma hcontent_inside o : (forall s, o = Some s -> inside b s) -> hcontent h' o = hcontent h o.
Proof. intros Ho. destruct o as [s|]; [|done]. cbn. f_equal. apply (load_inside h h' b); [by apply Ho|done]. Qed.

Lemma params_inside ps : all_inside b (map hValue ps) -> map (param_value h') ps = map (param_value h) ps.
Proof.
  induction ps as [|[c v] ps IH]; [done|]. cbn [map]. intros [Hv Hps]%Forall_cons. rewrite IH by done.
  unfold param_value. cbn [hCode hValue] in *. by rewrite hcontent_inside.
Qed.

Ltac stays :=
  unfold all_inside in *; repeat match goal with H : Forall _ (_ :: _) |- _ => apply Forall_cons in H as [? H] end;
  repeat first [rewrite hcontent_inside by done | rewrite params_inside by done]; done.

Lemma tpdu_value_stays t : all_inside b (slices_of t) -> tpdu_value h' t = tpdu_value h t.
Proof.
  destruct t as [x|x|x|x|x|x|x|x|x|x]; cbn [slices_of app tpdu_value]; intros H; f_equal.
  - unfold CR_value. stays.
  - unfold CC_value. stays.
  - unfold DT_value. stays.
  - unfold DR_value. stays.
  - unfold DC_value. stays.
  - unfold ER_value. stays.
  - unfold ED_value. stays.
  - unfold AK_value. stays.
  - unfold EA_value. stays.
Qed.
End Stays.

(** ** Properties *)

(** The result of [DecodeWithRaw]. *)
Definition with_raw (d : Decoded) (raw : goslice) : Decoded :=
  mkDecoded (D_Type d) (D_CR d) (D_CC d) (D_DT d) (D_DR d) (D_DC d) (D_ER d) (D_ED d) (D_AK d) (D_EA d) (D_RJ d) raw.

(** C28: decoding in place.  On a slice in memory [Decode], [DecodeWithRaw] and
    [ExtractUserData] do what they do on its octets: the same errors, and else a
    TPDU that stands for the one decoded from the octets.  All its selectors,
    parameter values and user data lie within the slice given (nothing is copied,
    nothing outside is shown), so it keeps its value for as long as those octets
    keep theirs, whatever else is written. *)
Theorem decode_in_place h b :
  valid h b ->
  in_step (fun d t => all_inside b (slices_of t) /\
             forall h', load h' b = load h b -> d = decoded (tpdu_value h' t))
    (Decode (load h b)) (hDecode h b) /\
  in_step (fun d '(t, raw) => raw = b /\ all_inside b (slices_of t) /\
             forall h', load h' b = load h b -> d = with_raw (decoded (tpdu_value h' t)) (Some (load h' raw)))
    (DecodeWithRaw (load h b)) (hDecodeWithRaw h b) /\
  in_step (fun ud o => all_inside b [o] /\ forall h', load h' b = load h b -> ud = hcontent h' o)
    (ExtractUserData (load h b)) (hExtractUserData h b).
Proof.
  intros Hv. pose proof (Decode_in_step h b Hv) as Hd. pose proof (ExtractUserData_in_step h b Hv) as Hu. split_and!.
  - destruct (Decode _), (hDecode _ _) as [t| | |]; try done. destruct Hd as [-> Hin]. split; [done|]. intros h' Hl.
    by rewrite (tpdu_value_stays h h' b Hl t Hin).
  - unfold DecodeWithRaw, hDecodeWithRaw. destruct (Decode _), (hDecode _ _) as [t| | |]; try done. destruct Hd as [-> Hin].
    cbn [obind in_step]. split_and!; try done. intros h' Hl. by rewrite (tpdu_value_stays h h' b Hl t Hin), Hl.
  - destruct (ExtractUserData _), (hExtractUserData _ _); try done. destruct Hu as [-> Hin]. split; [done|]. intros h' Hl.
    unfold all_inside in Hin. rewrite Forall_singleton in Hin. symmetry. by apply (hcontent_inside h h' b).
Qed.

(** A CC with a responding selector and user data, in the middle of a buffer. *)
Definition sample_packet : heap := {[ (other, O) := [3; 0; 0; 20; 9; 208; 0; 1; 0; 2; 0; 194; 1; 65; 7; 8; 99] ]}.
Definition sample_CC_slice : slice := mkSlice (other, O) 4 12.

Example decoded_CC :
  hDecode sample_packet sample_CC_slice =
    Ok (HCC (mkHCC 0 1 2 0 [] None (Some (mkSlice (other, O) 13 1)) None None (Some (mkSlice (other, O) 14 2)))).
Proof. vm_compute. reflexivity. Qed.

Lemma decode_in_place_witness :
  let h := sample_packet in
  let b := sample_CC_slice in
  in_step (fun d t => all_inside b (slices_of t) /\
             forall h', load h' b = load h b -> d = decoded (tpdu_value h' t))
    (Decode [9; 208; 0; 1; 0; 2; 0; 194; 1; 65; 7; 8]) (hDecode h b) /\
  in_step (fun d '(t, raw) => raw = b /\ all_inside b (slices_of t) /\
             forall h', load h' b = load h b -> d = with_raw (decoded (tpdu_value h' t)) (Some (load h' raw)))
    (DecodeWithRaw [9; 208; 0; 1; 0; 2; 0; 194; 1; 65; 7; 8]) (hDecodeWithRaw h b) /\
  in_step (fun ud o => all_inside b [o] /\ forall h', load h' b = load h b -> ud = hcontent h' o)
    (ExtractUserData [9; 208; 0; 1; 0; 2; 0; 194; 1; 65; 7; 8]) (hExtractUserData h b).
Proof. apply (decode_in_place sample_packet sample_CC_slice). eexists. split; [reflexivity|cbn; lia]. Defined.

(** Who keeps a decoded slice while the buffer is used again keeps other octets. *)
Example kept_without_a_copy :
  let o := Some (mkSlice (other, O) 13 1) in
  hcontent sample_packet o = Some [65] /\
  hcontent (<[(other, O) := replicate 17 0]> sample_packet) o = Some [0].
Proof. vm_compute. by split. Qed.
