(* ===== verification/Append.v ===== *)
(** * Encoding into memory: append, capacities, and the encoders

    The encoders build a TPDU with Go's [append]: into the spare room of an array
    while it lasts, else into a new and larger array.  Appending in place writes
    into an array that other slices may share.  Here the encoders of Params.v and
    Encode.v run on the memory of Memory.v with slices that have a capacity; the
    theory says that they compute the same octets and write into no array but
    their own. *)

From S2P Require Import Prelude Errors Types Wire PreferredMax Params Decode Encode Codec.
From S2P Require Import RoundTrip CodecSpec Detect SizeNego Validate Memory Alias.

(** ** Slices with room *)

(** A non-nil slice from the start of its array: length and capacity. *)
Record buffer := mkBuffer {
  base : address;
  fill : nat;
  room : nat
}.

(** The slice without its spare room. *)
Definition as_slice (o : option buffer) : option slice :=
  match o with Some b => Some (mkSlice (base b) 0 (fill b)) | None => None end.

(** How much room a new array gets is the runtime's choice. *)
Class Growth := {
  grow : nat -> nat -> nat;
  grow_enough old need : (need <= grow old need)%nat
}.

#[export, refine] Instance doubling : Growth := {| grow old need := Nat.max need (2 * old) |}.
Proof. lia. Defined.

(** ** The monad of memory *)

Definition EM (A : Type) : Type := heap -> outcome A * heap.

Definition eret {A} (a : A) : EM A := fun h => (Ok a, h).
Definition efail {A} (e : error) : EM A := fun h => (Err e, h).
Definition ebind {A B} (m : EM A) (k : A -> EM B) : EM B := fun h =>
  match m h with
  | (Ok a, h) => k a h
  | (Err e, h) => (Err e, h)
  | (Panic, h) => (Panic, h)
  | (NoFuel, h) => (NoFuel, h)
  end.
Definition elift {A} (o : outcome A) : EM A := fun h => (o, h).
Definition ewrapf {A} (fmt : string) (m : EM A) : EM A := fun h => let '(r, h) := m h in (wrapf fmt r, h).

Declare Scope append_scope.
Delimit Scope append_scope with append.
Notation "'let*' x ':=' m 'in' k" := (ebind m (fun x => k))
  (at level 10, x binder, m at level 100, k at level 200) : append_scope.
Open Scope append_scope.

(** ** append and make *)

Section Encoders.
Context {GR : Growth}.

(** [make([]byte, 0, n)] *)
Definition make_room (n : nat) : EM (option buffer) := fun h =>
  let a := new_address cotp h in (Ok (Some (mkBuffer a 0 n)), <[a := replicate n 0]> h).

(** A new array that holds [xs]. *)
Definition regrow (old : nat) (xs : bytes) : EM (option buffer) := fun h =>
  let a := new_address cotp h in
  let n := grow old (length xs) in
  (Ok (Some (mkBuffer a (length xs) n)), <[a := xs ++ replicate (n - length xs) 0]> h).

(** [append(dst, xs...)] *)
Definition append_ (dst : option buffer) (xs : bytes) : EM (option buffer) := fun h =>
  match dst with
  | None => match xs with [] => (Ok None, h) | _ => regrow 0 xs h end
  | Some b =>
      let m := h !!! base b in
      let n := (fill b + length xs)%nat in
      if (n <=? room b)%nat
      then (Ok (Some (mkBuffer (base b) n (room b))), <[base b := take (fill b) m ++ xs ++ drop n m]> h)
      else regrow (room b) (take (fill b) m ++ xs) h
  end.

(** [append(dst, s...)] *)
Definition append_slice (dst : option buffer) (s : option slice) : EM (option buffer) := fun h =>
  append_ dst (content (hcontent h s)) h.

(** ** params.go *)

Definition happendParameter (dst : option buffer) (code : Z) (value : option slice) : EM (option buffer) :=
  let n := hlen value in
  if MaxParameterValueLength <? n
  then efail (Errorf "parameter 0x%02x value length %d: %w" [Sentinel ErrUnexpectedParameterLength]) else
  let* dst := append_ dst [code; u8 n] in
  append_slice dst value.

Fixpoint hencodeVariable_range (varPart : option buffer) (params : list hParam) : EM (option buffer) :=
  match params with
  | [] => eret varPart
  | p :: params =>
      let* varPart := happendParameter varPart (hCode p) (hValue p) in
      hencodeVariable_range varPart params
  end.

(** [varPart] begins as a nil slice. *)
Definition hencodeVariablePart (params : list hParam) : EM (option buffer) := hencodeVariable_range None params.

(** [append([]byte(nil), buf[lead:]...)], [buf] being a local array. *)
Definition hencodePreferredMaxUnits (units : Z) : EM (option buffer) :=
  let* tail := elift (encodePreferredMaxUnits units) in append_ None tail.

Fixpoint hencodeCRCC_range (what : string) (varPart : option buffer) (params : list hParam) : EM (option buffer) :=
  match params with
  | [] => eret varPart
  | p :: params =>
      if known_code (hCode p) then hencodeCRCC_range what varPart params else
      let* varPart := ewrapf ("marshal " +:+ what +:+ ": %w") (happendParameter varPart (hCode p) (hValue p)) in
      hencodeCRCC_range what varPart params
  end.

(** A selector that is set. *)
Definition hselector (varPart : option buffer) (code : Z) (s : option slice) (err : string) : EM (option buffer) :=
  match s with
  | Some _ =>
      let n := hlen s in
      if MaxParameterValueLength <? n then efail (Errorf err [Sentinel ErrUnexpectedParameterLength]) else
      let* varPart := append_ varPart [code; u8 n] in
      append_slice varPart s
  | None => eret varPart
  end.

Definition hencodeCRCCVariablePart (calling called : option slice) (tpduSize preferredMax : option Z)
    (params : list hParam) (what : string) : EM (option buffer) :=
  let* varPart := hselector None ParamCallingSelector calling ("marshal " +:+ what +:+ ": calling selector length %d: %w") in
  let* varPart := hselector varPart ParamCalledSelector called ("marshal " +:+ what +:+ ": called selector length %d: %w") in
  let* varPart :=
    match tpduSize with
    | Some size => append_ varPart [ParamTPDUSize; 1; size]
    | None => eret varPart
    end in
  let* varPart :=
    match preferredMax with
    | Some units =>
        let* enc := ewrapf ("marshal " +:+ what +:+ ": %w") (hencodePreferredMaxUnits units) in
        ewrapf ("marshal " +:+ what +:+ ": %w") (happendParameter varPart ParamPreferredMaxTPDUSize (as_slice enc))
    | None => eret varPart
    end in
  hencodeCRCC_range what varPart params.

(** ** encode_*.go

    [ref] and the fixed part of a DT are local arrays. *)

Definition blen (o : option buffer) : Z := hlen (as_slice o).
Definition room_of (n : Z) : EM (option buffer) := make_room (Z.to_nat n).

Definition hCR_MarshalBinary (c : option hCR) : EM (option buffer) :=
  match c with
  | None => efail (Errorf "marshal CR: %w" [Sentinel ErrNilReceiver])
  | Some c =>
      let* varPart := hencodeCRCCVariablePart (hCR_CallingSelector c) (hCR_CalledSelector c)
                        (hCR_TPDUSize c) (hCR_PreferredMaxTPDUSize c) (hCR_Parameters c) "CR" in
      let li := 6 + blen varPart in
      if MaxLI <? li
      then efail (Errorf "marshal CR: header length %d > %d: %w" [Sentinel ErrInvalidLI]) else
      let total := 1 + li + hlen (hCR_UserData c) in
      if MaxCRTPDULength <? total
      then efail (Errorf "marshal CR: length %d > %d: %w" [Sentinel ErrLengthMismatch]) else
      let* out := room_of total in
      let* out := append_ out [u8 li] in
      let* out := append_ out [Z.lor 224 (Z.land (hCR_CDT c) 15)] in
      let* out := append_ out (BigEndian_PutUint16 (hCR_DestinationRef c)) in
      let* out := append_ out (BigEndian_PutUint16 (hCR_SourceRef c)) in
      let* out := append_ out [hCR_ClassOption c] in
      let* out := append_slice out (as_slice varPart) in
      append_slice out (hCR_UserData c)
  end.

Definition hCC_MarshalBinary (c : option hCC) : EM (option buffer) :=
  match c with
  | None => efail (Errorf "marshal CC: %w" [Sentinel ErrNilReceiver])
  | Some c =>
      let* varPart := hencodeCRCCVariablePart (hCC_CallingSelector c) (hCC_CalledSelector c)
                        (hCC_TPDUSize c) (hCC_PreferredMaxTPDUSize c) (hCC_Parameters c) "CC" in
      let li := 6 + blen varPart in
      if MaxLI <? li
      then efail (Errorf "marshal CC: header length %d > %d: %w" [Sentinel ErrInvalidLI]) else
      let* out := room_of (1 + 6 + blen varPart + hlen (hCC_UserData c)) in
      let* out := append_ out [u8 li] in
      let* out := append_ out [Z.lor 208 (Z.land (hCC_CDT c) 15)] in
      let* out := append_ out (BigEndian_PutUint16 (hCC_DestinationRef c)) in
      let* out := append_ out (BigEndian_PutUint16 (hCC_SourceRef c)) in
      let* out := append_ out [hCC_ClassOption c] in
      let* out := append_slice out (as_slice varPart) in
      append_slice out (hCC_UserData c)
  end.

Definition hDR_MarshalBinary (d : option hDR) : EM (option buffer) :=
  match d with
  | None => efail (Errorf "marshal DR: %w" [Sentinel ErrNilReceiver])
  | Some d =>
      let* varPart := ewrapf "marshal DR: %w" (hencodeVariablePart (hDR_Parameters d)) in
      let li := 6 + blen varPart in
      if MaxLI <? li
      then efail (Errorf "marshal DR: header length %d > %d: %w" [Sentinel ErrInvalidLI]) else
      let* out := room_of (1 + li + hlen (hDR_UserData d)) in
      let* out := append_ out [u8 li] in
      let* out := append_ out [128] in
      let* out := append_ out (BigEndian_PutUint16 (hDR_DestinationRef d)) in
      let* out := append_ out (BigEndian_PutUint16 (hDR_SourceRef d)) in
      let* out := append_ out [hDR_Reason d] in
      let* out := append_slice out (as_slice varPart) in
      append_slice out (hDR_UserData d)
  end.

Definition hDC_MarshalBinary (d : option hDC) : EM (option buffer) :=
  match d with
  | None => efail (Errorf "marshal DC: %w" [Sentinel ErrNilReceiver])
  | Some d =>
      let* varPart := ewrapf "marshal DC: %w" (hencodeVariablePart (hDC_Parameters d)) in
      let li := 5 + blen varPart in
      if MaxLI <? li
      then efail (Errorf "marshal DC: header length %d > %d: %w" [Sentinel ErrInvalidLI]) else
      let* out := room_of (1 + li) in
      let* out := append_ out [u8 li] in
      let* out := append_ out [192] in
      let* out := append_ out (BigEndian_PutUint16 (hDC_DestinationRef d)) in
      let* out := append_ out (BigEndian_PutUint16 (hDC_SourceRef d)) in
      append_slice out (as_slice varPart)
  end.

Definition hDT_MarshalBinary (d : option hDT) : EM (option buffer) :=
  match d with
  | None => efail (Errorf "marshal DT: %w" [Sentinel ErrNilReceiver])
  | Some d =>
      let '(fixedPart, li) :=
        match hDT_DestinationRef d with
        | None => ([240; nr_eot (hDT_TPDUNR d) (hDT_EOT d)], 2)
        | Some ref => ([240] ++ BigEndian_PutUint16 ref ++ [nr_eot (hDT_TPDUNR d) (hDT_EOT d)], 4)
        end in
      let* varPart := ewrapf "marshal DT: %w" (hencodeVariablePart (hDT_Parameters d)) in
      let li := li + blen varPart in
      if MaxLI <? li
      then efail (Errorf "marshal DT: header length %d > %d: %w" [Sentinel ErrInvalidLI]) else
      let* out := room_of (1 + li + hlen (hDT_UserData d)) in
      let* out := append_ out [u8 li] in
      let* out := append_ out fixedPart in
      let* out := append_slice out (as_slice varPart) in
      append_slice out (hDT_UserData d)
  end.

Definition hED_MarshalBinary (e : option hED) : EM (option buffer) :=
  match e with
  | None => efail (Errorf "marshal ED: %w" [Sentinel ErrNilReceiver])
  | Some e =>
      match hED_DestinationRef e, hED_TPDUNR e with
      | Some ref, Some nr =>
          if (hlen (hED_UserData e) <? MinEDUserDataLen) || (MaxEDUserDataLen <? hlen (hED_UserData e))
          then efail (Errorf "marshal ED: user data length %d: %w" [Sentinel ErrInvalidEDUserDataLength])
          else
          let* varPart := ewrapf "marshal ED: %w" (hencodeVariablePart (hED_Parameters e)) in
          let li := 4 + blen varPart in
          if MaxLI <? li
          then efail (Errorf "marshal ED: header length %d > %d: %w" [Sentinel ErrInvalidLI]) else
          let* out := room_of (1 + li + hlen (hED_UserData e)) in
          let* out := append_ out [u8 li] in
          let* out := append_ out [16] in
          let* out := append_ out (BigEndian_PutUint16 ref) in
          let* out := append_ out [nr_eot (Some nr) (hED_EOT e)] in
          let* out := append_slice out (as_slice varPart) in
          append_slice out (hED_UserData e)
      | _, _ => efail (Errorf "marshal ED: DestinationRef and TPDUNR required: %w" [Sentinel ErrMissingRequiredField])
      end
  end.

Definition hAK_MarshalBinary (a : option hAK) : EM (option buffer) :=
  match a with
  | None => efail (Errorf "marshal AK: %w" [Sentinel ErrNilReceiver])
  | Some a =>
      let* varPart := ewrapf "marshal AK: %w" (hencodeVariablePart (hAK_Parameters a)) in
      let li := 4 + blen varPart in
      if MaxLI <? li
      then efail (Errorf "marshal AK: header length %d > %d: %w" [Sentinel ErrInvalidLI]) else
      let* out := room_of (1 + li) in
      let* out := append_ out [u8 li] in
      let* out := append_ out [Z.lor 96 (Z.land (hAK_CDT a) 15)] in
      let* out := append_ out (BigEndian_PutUint16 (hAK_DestinationRef a)) in
      let* out := append_ out [hAK_YRTUNR a] in
      append_slice out (as_slice varPart)
  end.

Definition hEA_MarshalBinary (e : option hEA) : EM (option buffer) :=
  match e with
  | None => efail (Errorf "marshal EA: %w" [Sentinel ErrNilReceiver])
  | Some e =>
      let* varPart := ewrapf "marshal EA: %w" (hencodeVariablePart (hEA_Parameters e)) in
      let li := 4 + blen varPart in
      if MaxLI <? li
      then efail (Errorf "marshal EA: header length %d > %d: %w" [Sentinel ErrInvalidLI]) else
      let* out := room_of (1 + li) in
      let* out := append_ out [u8 li] in
      let* out := append_ out [32] in
      let* out := append_ out (BigEndian_PutUint16 (hEA_DestinationRef e)) in
      let* out := append_ out [hEA_YREDTUNR e] in
      append_slice out (as_slice varPart)
  end.

Definition hER_MarshalBinary (e : option hER) : EM (option buffer) :=
  match e with
  | None => efail (Errorf "marshal ER: %w" [Sentinel ErrNilReceiver])
  | Some e =>
      let* varPart := ewrapf "marshal ER: %w" (hencodeVariablePart (hER_Parameters e)) in
      let li := 4 + blen varPart in
      if MaxLI <? li
      then efail (Errorf "marshal ER: header length %d > %d: %w" [Sentinel ErrInvalidLI]) else
      let* out := room_of (1 + li) in
      let* out := append_ out [u8 li] in
      let* out := append_ out [112] in
      let* out := append_ out (BigEndian_PutUint16 (hER_DestinationRef e)) in
      let* out := append_ out [hER_RejectCause e] in
      append_slice out (as_slice varPart)
  end.

Definition hRJ_MarshalBinary (r : option RJ) : EM (option buffer) :=
  match r with
  | None => efail (Errorf "marshal RJ: %w" [Sentinel ErrNilReceiver])
  | Some r =>
      let* out := room_of (1 + rjFixedPartLength) in
      let* out := append_ out [4] in
      let* out := append_ out [Z.lor 80 (Z.land (RJ_CDT r) 15)] in
      let* out := append_ out (BigEndian_PutUint16 (RJ_DestinationRef r)) in
      append_ out [RJ_YRTUNR r]
  end.

Definition hMarshal (t : hTPDU) : EM (option buffer) :=
  match t with
  | HCR x => hCR_MarshalBinary (Some x)
  | HCC x => hCC_MarshalBinary (Some x)
  | HDT x => hDT_MarshalBinary (Some x)
  | HDR x => hDR_MarshalBinary (Some x)
  | HDC x => hDC_MarshalBinary (Some x)
  | HER x => hER_MarshalBinary (Some x)
  | HED x => hED_MarshalBinary (Some x)
  | HAK x => hAK_MarshalBinary (Some x)
  | HEA x => hEA_MarshalBinary (Some x)
  | HRJ x => hRJ_MarshalBinary (Some x)
  end.
End Encoders.

(** ** What a buffer holds *)

(** [o], allocated by go-cotp since [h0], holds [bs]. *)
Definition holds (h0 h : heap) (o : option buffer) (bs : bytes) : Prop :=
  match o with
  | None => bs = []
  | Some b =>
      h0 !! base b = None /\ (base b).1 = cotp /\ fill b = length bs /\
      exists rest, h !! base b = Some (bs ++ rest) /\ (fill b + length rest)%nat = room b
  end.

(** It has a capacity of [n]. *)
Definition roomy (h0 h : heap) (n : nat) (o : option buffer) (bs : bytes) : Prop :=
  holds h0 h o bs /\ exists b, o = Some b /\ room b = n.

Lemma holds_only h0 h h' o bs : only_on none h h' -> holds h0 h o bs -> holds h0 h' o bs.
Proof.
  destruct o as [b|]; [|done]. intros Hon (? & ? & ? & rest & Hb & ?). split_and!; try done. exists rest. split; [|done].
  apply Hon; [done|]. by intros [].
Qed.

Lemma lookup_extended h0 h a : only_on none h0 h -> h !! a = None -> h0 !! a = None.
Proof. intros Hon Ha. destruct (h0 !! a) as [b|] eqn:E; [|done]. rewrite (Hon _ _ E) in Ha; [done|]. by intros []. Qed.

Lemma holds_since h0 h1 h o bs : only_on none h0 h1 -> holds h1 h o bs -> holds h0 h o bs.
Proof. destruct o as [b|]; [|done]. intros Hon (? & ? & ? & ?). split_and!; try done. by eapply lookup_extended. Qed.

Lemma holds_slice h0 h o bs :
  holds h0 h o bs -> valid_opt h (as_slice o) /\ content (hcontent h (as_slice o)) = bs.
Proof.
  destruct o as [b|]; [|by intros ->]. intros (_ & _ & Hf & rest & Hb & Hr). split.
  - intros s [= <-]. eexists. split; [exact Hb|]. rewrite length_app. cbn. lia.
  - cbn. unfold load. cbn [size start_ arr]. by rewrite (lookup_total_correct _ _ _ Hb), drop_0, Hf, take_app_length.
Qed.

Lemma holds_blen h0 h o bs : holds h0 h o bs -> blen o = len bs.
Proof. intros H. destruct (holds_slice h0 h o bs H) as [Hv Hc]. unfold blen. rewrite <- (hlen_slen h) by done. unfold slen. by rewrite Hc. Qed.

(** ** Refinement of the functions on values *)

Section Refines.
Context {GR : Growth} (h0 : heap).

(** [m] on memory does what [v] says, and changes no array of [h0]. *)
Definition does {A B : Type} (Q : heap -> A -> B -> Prop) (m : EM A) (v : outcome B) (h : heap) : Prop :=
  let '(r, h') := m h in
  only_on none h0 h' /\
  match r, v with
  | Ok a, Ok b => Q h' a b
  | Err e, Err e' => e = e'
  | Panic, Panic | NoFuel, NoFuel => True
  | _, _ => False
  end.

Lemma does_ret {A B : Type} (Q : heap -> A -> B -> Prop) a b h :
  only_on none h0 h -> Q h a b -> does Q (eret a) (Ok b) h.
Proof. done. Qed.

Lemma does_fail {A B : Type} (Q : heap -> A -> B -> Prop) e h : only_on none h0 h -> does Q (efail e) (Err e) h.
Proof. done. Qed.

Lemma does_bind {A B A' B' : Type} (Q : heap -> A -> B -> Prop) (Q' : heap -> A' -> B' -> Prop) m k v f h :
  does Q m v h -> (forall a b h', only_on none h0 h' -> Q h' a b -> does Q' (k a) (f b) h') ->
  does Q' (ebind m k) (obind v f) h.
Proof.
  unfold does, ebind. destruct (m h) as [[a|e| |] h1], v as [b|e'| |]; intros [Hon Hr] Hk; try done. by apply Hk.
Qed.

Lemma does_then {A B A' B' : Type} (Q : heap -> A -> B -> Prop) (Q' : heap -> A' -> B' -> Prop) m k b v h :
  does Q m (Ok b) h -> (forall a h', only_on none h0 h' -> Q h' a b -> does Q' (k a) v h') -> does Q' (ebind m k) v h.
Proof. unfold does, ebind. destruct (m h) as [[a|e| |] h1]; intros [Hon Hr] Hk; try done. by apply Hk. Qed.

Lemma does_wrapf {A B : Type} (Q : heap -> A -> B -> Prop) fmt m v h : does Q m v h -> does Q (ewrapf fmt m) (wrapf fmt v) h.
Proof. unfold does, ewrapf. destruct (m h) as [[a|e| |] h1], v as [b|e'| |]; intros [? Hr]; try done. cbn. by rewrite Hr. Qed.

Lemma does_lift {A : Type} (o : outcome A) h : only_on none h0 h -> does (fun _ => eq) (elift o) o h.
Proof. intros Hon. unfold does, elift. by destruct o. Qed.

Lemma does_impl {A B : Type} (Q Q' : heap -> A -> B -> Prop) m v h :
  (forall a b h', only_on none h0 h' -> Q h' a b -> Q' h' a b) -> does Q m v h -> does Q' m v h.
Proof. unfold does. intros Hi. destruct (m h) as [[a|e| |] h1], v as [b|e'| |]; intros [? Hr]; try done. split; [done|]. by apply Hi. Qed.

Definition filled : heap -> option buffer -> bytes -> Prop := holds h0.

Lemma insert_new a m h : only_on none h0 h -> h !! a = None -> only_on none h0 (<[a := m]> h).
Proof.
  intros Hon Ha. etrans; [exact Hon|]. intros a' b Hb _. rewrite lookup_insert_ne; [done|]. congruence.
Qed.

Lemma does_regrow old xs h : only_on none h0 h -> does filled (regrow old xs) (Ok xs) h.
Proof.
  intros Hon. pose proof (new_address_fresh cotp h) as Hf. pose proof (grow_enough old (length xs)).
  split; [by apply insert_new|]. split_and!; try done; [by eapply lookup_extended|].
  eexists. split; [cbn; by rewrite lookup_insert_eq|]. rewrite length_replicate. cbn. lia.
Qed.

(** Appending in place. *)
Lemma append_room b bs xs h :
  only_on none h0 h -> holds h0 h (Some b) bs -> (fill b + length xs <= room b)%nat ->
  does (fun h' o l => holds h0 h' o l /\ exists b', o = Some b' /\ room b' = room b) (append_ (Some b) xs) (Ok (bs ++ xs)) h.
Proof.
  intros Hon (Hb & Ho & Hf & rest & Hm & Hr) Hle. unfold does, append_. apply Nat.leb_le in Hle as Hle'. rewrite Hle'. split.
  - intros a m Ha Hn. rewrite lookup_insert_ne; [by apply Hon|]. intros <-. by rewrite Hb in Ha.
  - split; [|by eexists]. split_and!; try done; [cbn; rewrite length_app; lia|].
    exists (drop (length xs) rest). cbn [base fill room]. rewrite lookup_insert_eq, (lookup_total_correct _ _ _ Hm), Hf. split; [|rewrite length_drop; lia].
    by rewrite take_app_length, <- (drop_drop _ (length xs) (length bs)), drop_app_length, <- app_assoc.
Qed.

Lemma does_append o bs xs h :
  only_on none h0 h -> holds h0 h o bs -> does filled (append_ o xs) (Ok (bs ++ xs)) h.
Proof.
  intros Hon Hh. destruct o as [b|].
  - destruct (decide (fill b + length xs <= room b)%nat) as [Hle|Hgt].
    + eapply does_impl; [|by apply append_room]. by intros o' l h' _ [? _].
    + pose proof Hh as (_ & _ & Hf & rest & Hm & _). unfold does, append_.
      assert ((fill b + length xs <=? room b)%nat = false) as -> by (apply Nat.leb_gt; lia).
      rewrite (lookup_total_correct _ _ _ Hm), Hf, take_app_length. by apply does_regrow.
  - cbn in Hh. subst bs. destruct xs as [|x xs]; [done|]. by apply does_regrow.
Qed.

Lemma does_append_slice o bs s h :
  only_on none h0 h -> holds h0 h o bs -> does filled (append_slice o s) (Ok (bs ++ content (hcontent h s))) h.
Proof. apply does_append. Qed.
End Refines.

(** What an encoder returns: an array of its own, with nothing else in it. *)
Definition encoded (h0 h : heap) (o : option buffer) (bs : bytes) : Prop :=
  exists b, o = Some b /\ h0 !! base b = None /\ (base b).1 = cotp /\ fill b = length bs /\ room b = length bs /\
    h !! base b = Some bs.

Lemma roomy_encoded h0 h n o bs : roomy h0 h n o bs -> length bs = n -> encoded h0 h o bs.
Proof.
  intros [Hh (b & -> & Hn)] Hl. destruct Hh as (? & ? & Hf & rest & Hb & Hr). exists b. split_and!; try done; [congruence|].
  destruct rest; [by rewrite app_nil_r in Hb|]. cbn in Hr. lia.
Qed.

Section Encode.
Context {GR : Growth}.

Lemma does_since {A B : Type} (h0 h1 : heap) (Q : heap -> A -> B -> Prop) (m : EM A) v h :
  only_on none h0 h1 -> does h1 Q m v h -> does h0 Q m v h.
Proof. unfold does. intros Hon. destruct (m h) as [r h']. intros [Hon' Hr]. split; [by etrans|done]. Qed.

Section Inputs.
Context (h0 : heap).

Lemma input_stays h s :
  only_on none h0 h -> valid_opt h0 s -> hcontent h s = hcontent h0 s /\ hlen s = slen (hcontent h0 s).
Proof.
  intros Hon Hv. split; [by apply (hcontent_only none h0 h s Hon Hv); intros ? ? []|]. symmetry. by apply hlen_slen.
Qed.

Definition params_ok (params : list hParam) : Prop := Forall (fun p => valid_opt h0 (hValue p)) params.

(** The array of [o] is not the one [s] lies in. *)
Definition apart (o : option buffer) (s : option slice) : Prop :=
  forall b s', o = Some b -> s = Some s' -> arr s' <> base b.

Lemma input_apart h o bs s : holds h0 h o bs -> valid_opt h0 s -> apart o s.
Proof.
  intros Hh Hv b s' -> Hs E. destruct (Hv s' Hs) as (m & Hm & _). destruct Hh as (Hb & _). rewrite E, Hb in Hm. done.
Qed.

Lemma append_elsewhere o xs h : only_on (fun a => exists b, o = Some b /\ a = base b) h (append_ o xs h).2.
Proof.
  assert (forall old l, only_on (fun a => exists b, o = Some b /\ a = base b) h (regrow old l h).2) as Hg.
  { intros old l a m Ha _. cbn. rewrite lookup_insert_ne; [done|]. intros <-. by rewrite new_address_fresh in Ha. }
  destruct o as [b|]; [|destruct xs; [done|apply Hg]]. unfold append_. destruct (_ <=? _)%nat; [|apply Hg].
  intros a m Ha Hn. cbn. rewrite lookup_insert_ne; [done|]. intros <-. apply Hn. by exists b.
Qed.

Lemma does_appendParameter o bs code value h :
  only_on none h0 h -> holds h0 h o bs -> valid_opt h value -> apart o value ->
  does h0 (filled h0) (happendParameter o code value) (appendParameter bs code (content (hcontent h value))) h.
Proof.
  intros Hon Hh Hv Ha. unfold happendParameter, appendParameter. rewrite <- (hlen_slen h value Hv).
  fold (slen (hcontent h value)). destruct (MaxParameterValueLength <? _); [by apply does_fail|].
  pose proof (does_append h0 o bs [code; u8 (slen (hcontent h value))] h Hon Hh) as Hd.
  pose proof (append_elsewhere o [code; u8 (slen (hcontent h value))] h) as He.
  unfold does at 1, ebind. unfold does in Hd. destruct (append_ _ _ h) as [[o'|e| |] h']; [|done..]. destruct Hd as [Hon' Hh'].
  destruct (hcontent_only _ h h' value He Hv) as [Hc _];
    [|pose proof (does_append_slice h0 o' _ value h' Hon' Hh') as Hf; rewrite Hc in Hf; exact Hf].
  intros s Hs (b & Hb & E). exact (Ha b s Hb Hs E).
Qed.

Lemma does_input_parameter o bs code value h :
  only_on none h0 h -> holds h0 h o bs -> valid_opt h0 value ->
  does h0 (filled h0) (happendParameter o code value) (appendParameter bs code (content (hcontent h0 value))) h.
Proof.
  intros Hon Hh Hv. destruct (hcontent_only none h0 h value Hon Hv) as [<- Hv']; [by intros ? ? []|].
  apply does_appendParameter; try done. by eapply input_apart.
Qed.

Lemma does_variable_range params : params_ok params -> forall o bs h,
  only_on none h0 h -> holds h0 h o bs ->
  does h0 (filled h0) (hencodeVariable_range o params) (encodeVariable_range bs (map (param_value h0) params)) h.
Proof.
  induction 1 as [|p params Hp _ IH]; intros o bs h Hon Hh; [by apply does_ret|]. cbn [hencodeVariable_range encodeVariable_range map].
  eapply does_bind; [by apply does_input_parameter|]. intros o' l h' Hon' Hh'. by apply IH.
Qed.

Lemma does_variablePart params h :
  params_ok params -> only_on none h0 h ->
  does h0 (filled h0) (hencodeVariablePart params) (encodeVariablePart (map (param_value h0) params)) h.
Proof. intros Hp Hon. by apply does_variable_range. Qed.

Lemma does_CRCC_range what params : params_ok params -> forall o bs h,
  only_on none h0 h -> holds h0 h o bs ->
  does h0 (filled h0) (hencodeCRCC_range what o params) (encodeCRCC_range what bs (map (param_value h0) params)) h.
Proof.
  induction 1 as [|p params Hp _ IH]; intros o bs h Hon Hh; [by apply does_ret|]. cbn [hencodeCRCC_range encodeCRCC_range map].
  change (known_code (Code (param_value h0 p))) with (known_code (hCode p)). destruct (known_code (hCode p)); [by apply IH|].
  eapply does_bind; [by apply does_wrapf, does_input_parameter|]. intros o' l h' Hon' Hh'. by apply IH.
Qed.

Lemma does_selector o bs code s err h :
  only_on none h0 h -> holds h0 h o bs -> valid_opt h0 s ->
  does h0 (filled h0) (hselector o code s err)
    (match hcontent h0 s with
     | Some v => if MaxParameterValueLength <? len v then Err (Errorf err [Sentinel ErrUnexpectedParameterLength])
                 else Ok ((bs ++ [code; u8 (len v)]) ++ v)
     | None => Ok bs
     end) h.
Proof.
  intros Hon Hh Hv. destruct s as [s|]; [|by apply does_ret]. destruct (input_stays h (Some s) Hon Hv) as [_ Hl].
  unfold hselector. rewrite Hl. cbn [hcontent fmap option_fmap option_map]. unfold slen. cbn [content].
  destruct (MaxParameterValueLength <? _); [by apply does_fail|].
  eapply does_then; [by apply does_append|]. intros o' h' Hon' Hh'.
  destruct (input_stays h' (Some s) Hon' Hv) as [Hs _]. apply (f_equal content) in Hs. cbn in Hs.
  pose proof (does_append_slice h0 o' _ (Some s) h' Hon' Hh') as Hd. cbn [hcontent fmap option_fmap option_map content] in Hd, Hs.
  rewrite Hs in Hd. exact Hd.
Qed.

Lemma does_preferredUnits h units :
  does h (fun h' enc l => holds h h' enc l) (hencodePreferredMaxUnits units) (encodePreferredMaxUnits units) h.
Proof.
  unfold hencodePreferredMaxUnits. destruct (encodePreferredMaxUnits units) as [tail|e| |]; [|done..].
  by apply (does_append h None [] tail h).
Qed.

Lemma does_preferred o bs what preferredMax h :
  only_on none h0 h -> holds h0 h o bs ->
  does h0 (filled h0)
    (match preferredMax with
     | Some units =>
         let* enc := ewrapf ("marshal " +:+ what +:+ ": %w") (hencodePreferredMaxUnits units) in
         ewrapf ("marshal " +:+ what +:+ ": %w") (happendParameter o ParamPreferredMaxTPDUSize (as_slice enc))
     | None => eret o
     end)
    (match preferredMax with
     | Some units =>
         obind (wrapf ("marshal " +:+ what +:+ ": %w") (encodePreferredMaxUnits units)) (fun enc =>
         wrapf ("marshal " +:+ what +:+ ": %w") (appendParameter bs ParamPreferredMaxTPDUSize enc))
     | None => Ok bs
     end) h.
Proof.
  intros Hon Hh. destruct preferredMax as [units|]; [|by apply does_ret].
  assert (does h0 (fun h' enc l => only_on none h h' /\ holds h h' enc l) (hencodePreferredMaxUnits units) (encodePreferredMaxUnits units) h) as He.
  { pose proof (does_preferredUnits h units) as H. unfold does in *. destruct (hencodePreferredMaxUnits units h) as [r h'].
    destruct H as [Hon' Hr]. split; [by etrans|]. by destruct r, (encodePreferredMaxUnits units). }
  eapply does_bind; [by apply does_wrapf|]. intros enc l h' Hon' [Hon1 He']. apply does_wrapf.
  destruct (holds_slice h h' enc l He') as [Hv <-]. apply does_appendParameter; [done|by eapply holds_only|done|].
  intros b s' -> Hs E. destruct enc as [b'|]; [|done]. injection Hs as <-. cbn [arr] in E. subst.
  destruct He' as (Hn & _), Hh as (_ & _ & _ & rest & Hm & _). rewrite E, Hm in Hn. done.
Qed.

Lemma does_CRCC calling called tpduSize preferredMax params what h :
  valid_opt h0 calling -> valid_opt h0 called -> params_ok params -> only_on none h0 h ->
  does h0 (filled h0) (hencodeCRCCVariablePart calling called tpduSize preferredMax params what)
    (encodeCRCCVariablePart (hcontent h0 calling) (hcontent h0 called) tpduSize preferredMax (map (param_value h0) params) what) h.
Proof.
  intros Hv1 Hv2 Hp Hon. unfold hencodeCRCCVariablePart, encodeCRCCVariablePart.
  eapply does_bind; [by apply does_selector|]. intros o1 l1 h1 On1 H1.
  eapply does_bind; [by apply does_selector|]. intros o2 l2 h2 On2 H2.
  destruct tpduSize as [size|];
    (eapply (does_then h0 (filled h0)); [first [by apply does_append|by apply does_ret]|]; intros o3 h3 On3 H3;
     eapply does_bind; [by apply does_preferred|]; intros o4 l4 h4 On4 H4; by apply does_CRCC_range).
Qed.

(** *** The TPDU, in an array of the right size *)

Lemma does_make n h :
  only_on none h0 h -> does h0 (fun h' => roomy h0 h' n) (make_room n) (Ok []) h.
Proof.
  intros Hon. pose proof (new_address_fresh cotp h) as Hf. split; [by apply insert_new|]. split; [|by eexists].
  split_and!; try done; [by eapply lookup_extended|]. eexists. split; [cbn; by rewrite lookup_insert_eq|]. by rewrite length_replicate.
Qed.

Lemma does_append_roomy n o bs xs h :
  only_on none h0 h -> roomy h0 h n o bs -> (length bs + length xs <= n)%nat ->
  does h0 (fun h' => roomy h0 h' n) (append_ o xs) (Ok (bs ++ xs)) h.
Proof.
  intros Hon [Hh (b & -> & <-)] Hle. apply append_room; try done. destruct Hh as (_ & _ & -> & _). done.
Qed.

Lemma does_append_input n o bs s h :
  only_on none h0 h -> roomy h0 h n o bs -> valid_opt h0 s -> (length bs + Z.to_nat (hlen s) <= n)%nat ->
  does h0 (fun h' => roomy h0 h' n) (append_slice o s) (Ok (bs ++ content (hcontent h0 s))) h.
Proof.
  intros Hon Hr Hv Hle. destruct (input_stays h s Hon Hv) as [Hc Hl]. 
  change (does h0 (fun h' => roomy h0 h' n) (append_ o (content (hcontent h s))) (Ok (bs ++ content (hcontent h0 s))) h).
  rewrite Hc. apply does_append_roomy; try done. rewrite Hl in Hle. unfold slen, len in Hle. by rewrite Nat2Z.id in Hle.
Qed.

(** The last steps of an encoder: what it has written so far and what it goes on
    to write make up the TPDU. *)
Lemma does_last n o bs s v h :
  only_on none h0 h -> roomy h0 h n o bs -> valid_opt h0 s -> n = (length bs + Z.to_nat (hlen s))%nat ->
  bs ++ content (hcontent h0 s) = v ->
  does h0 (encoded h0) (append_slice o s) (Ok v) h.
Proof.
  intros Hon Hr Hv Hn <-. pose proof (does_append_input n o bs s h Hon Hr Hv) as Hd. rewrite Hn in Hd. specialize (Hd (Nat.le_refl _)).
  unfold does in *. destruct (append_slice o s h) as [[o'|e| |] h']; try done. destruct Hd as [Hon' Hr']. split; [done|].
  apply (roomy_encoded _ _ _ _ _ Hr'). destruct (input_stays h s Hon Hv) as [_ Hl]. unfold slen, len in Hl. rewrite length_app. lia.
Qed.
End Inputs.

(** A variable part and user data end a TPDU. *)
Lemma does_tail h0 n o bs vp ud v h :
  only_on none h0 h -> roomy h0 h n o bs -> valid_opt h0 vp -> valid_opt h0 ud ->
  n = (length bs + Z.to_nat (hlen vp) + Z.to_nat (hlen ud))%nat ->
  bs ++ content (hcontent h0 vp) ++ content (hcontent h0 ud) = v ->
  does h0 (encoded h0) (let* out := append_slice o vp in append_slice out ud) (Ok v) h.
Proof.
  intros Hon Hr Hv1 Hv2 Hn <-. destruct (input_stays h0 h vp Hon Hv1) as [_ Hl]. unfold slen, len in Hl.
  eapply does_then; [apply (does_append_input h0 n); [done|done|done|lia]|]. intros o' h' Hon' Hr'. cbv beta in Hr'.
  eapply does_last; [done|done|done|rewrite length_app; lia|by rewrite <- app_assoc].
Qed.

Lemma does_switch (h0 h1 : heap) (m : EM (option buffer)) v :
  only_on none h0 h1 -> does h1 (encoded h1) m v h1 -> does h0 (encoded h0) m v h1.
Proof.
  intros Hon Hd. apply (does_since h0 h1 _ _ _ _ Hon). eapply does_impl; [|exact Hd].
  intros o l h _ (b & ? & ? & ?). exists b. split_and!; try done; try tauto. by eapply lookup_extended.
Qed.

Lemma valid_later h0 h1 s : only_on none h0 h1 -> valid_opt h0 s -> valid_opt h1 s.
Proof. intros Hon Hv. apply (hcontent_only none h0 h1 s Hon Hv). by intros ? ? []. Qed.
End Encode.

(** The lengths of what is written, and of what there is room for. *)
Ltac lengths := unfold slen, len, BigEndian_PutUint16, rjFixedPartLength; rewrite ?length_app; cbn [length app]; lia.
Ltac write_on :=
  eapply does_then; [apply does_append_roomy; [eassumption|eassumption|lengths]|]; intros ? ? ? ?; cbv beta in *.
Ltac write_out :=
  eapply does_then; [apply does_make; reflexivity|]; intros ? ? ? ?; cbv beta in *; repeat write_on.

Section TPDUs.
Context {GR : Growth} (h0 : heap).

(** The variable part has been made, in [h1]: the TPDU is made next to it. *)
Ltac beside_part Hvp On1 :=
  pose proof (holds_blen _ _ _ _ Hvp) as Hbl; apply does_switch; [exact On1|];
  destruct (holds_slice _ _ _ _ Hvp) as [Hvv Hvc]; write_out.
Ltac by_assoc := rewrite <- ?app_assoc; reflexivity.

Lemma does_CR x :
  Forall (valid_opt h0) (slices_of (HCR x)) ->
  does h0 (encoded h0) (hCR_MarshalBinary (Some x)) (CR_MarshalBinary (Some (CR_value h0 x))) h0.
Proof.
  intros Hv. cbn [slices_of] in Hv. apply Forall_app in Hv as [Hs Hp]. rewrite Forall_map in Hp.
  apply Forall_cons in Hs as [H1 Hs]. apply Forall_cons in Hs as [H2 Hs]. apply Forall_cons in Hs as [Hs _].
  unfold hCR_MarshalBinary, CR_MarshalBinary. cbn [CR_value CR_CallingSelector CR_CalledSelector CR_TPDUSize CR_PreferredMaxTPDUSize CR_Parameters].
  eapply does_bind; [by apply does_CRCC|]. intros vp l h1 On1 Hvp. cbv zeta.
  rewrite (holds_blen h0 h1 vp l Hvp). destruct (MaxLI <? 6 + len l); [by apply does_fail|].
  destruct (input_stays h0 h1 (hCR_UserData x) On1 Hs) as [Hc Hl]. rewrite Hl. cbn [CR_UserData].
  destruct (MaxCRTPDULength <? _); [by apply does_fail|].
  beside_part Hvp On1. unfold blen in Hbl.
  eapply does_tail; [eassumption|eassumption|done|by eapply valid_later|rewrite Hbl, Hl; lengths|rewrite Hvc, Hc; by_assoc].
Qed.

Lemma does_CC x :
  Forall (valid_opt h0) (slices_of (HCC x)) ->
  does h0 (encoded h0) (hCC_MarshalBinary (Some x)) (CC_MarshalBinary (Some (CC_value h0 x))) h0.
Proof.
  intros Hv. cbn [slices_of] in Hv. apply Forall_app in Hv as [Hs Hp]. rewrite Forall_map in Hp.
  apply Forall_cons in Hs as [H1 Hs]. apply Forall_cons in Hs as [H2 Hs]. apply Forall_cons in Hs as [Hs _].
  unfold hCC_MarshalBinary, CC_MarshalBinary. cbn [CC_value CC_CallingSelector CC_CalledSelector CC_TPDUSize CC_PreferredMaxTPDUSize CC_Parameters].
  eapply does_bind; [by apply does_CRCC|]. intros vp l h1 On1 Hvp. cbv zeta.
  rewrite (holds_blen h0 h1 vp l Hvp). destruct (MaxLI <? 6 + len l); [by apply does_fail|].
  destruct (input_stays h0 h1 (hCC_UserData x) On1 Hs) as [Hc Hl]. rewrite Hl.
  beside_part Hvp On1. unfold blen in Hbl.
  eapply does_tail; [eassumption|eassumption|done|by eapply valid_later|rewrite Hbl, Hl; lengths|rewrite Hvc, Hc; by_assoc].
Qed.

(** The others have a generic variable part. *)
Ltac variable_part l h1 On1 Hvp :=
  eapply does_bind; [apply does_wrapf, does_variablePart; [assumption|reflexivity]|]; intros ? l h1 On1 Hvp; cbv zeta;
  rewrite (holds_blen _ _ _ _ Hvp); destruct (MaxLI <? _); [by apply does_fail|].

Lemma does_DR x :
  Forall (valid_opt h0) (slices_of (HDR x)) ->
  does h0 (encoded h0) (hDR_MarshalBinary (Some x)) (DR_MarshalBinary (Some (DR_value h0 x))) h0.
Proof.
  intros Hv. cbn [slices_of] in Hv. apply Forall_cons in Hv as [Hs Hp]. rewrite Forall_map in Hp.
  unfold hDR_MarshalBinary, DR_MarshalBinary. cbn [DR_value DR_Parameters]. variable_part l h1 On1 Hvp.
  destruct (input_stays h0 h1 (hDR_UserData x) On1 Hs) as [Hc Hl]. rewrite Hl.
  beside_part Hvp On1. unfold blen in Hbl.
  eapply does_tail; [eassumption|eassumption|done|by eapply valid_later|rewrite Hbl, Hl; lengths|rewrite Hvc, Hc; by_assoc].
Qed.

Lemma does_DT x :
  Forall (valid_opt h0) (slices_of (HDT x)) ->
  does h0 (encoded h0) (hDT_MarshalBinary (Some x)) (DT_MarshalBinary (Some (DT_value h0 x))) h0.
Proof.
  intros Hv. cbn [slices_of] in Hv. apply Forall_cons in Hv as [Hs Hp]. rewrite Forall_map in Hp.
  unfold hDT_MarshalBinary, DT_MarshalBinary. cbn [DT_value DT_Parameters DT_DestinationRef DT_TPDUNR DT_EOT].
  destruct (hDT_DestinationRef x) as [ref|]; variable_part l h1 On1 Hvp;
    destruct (input_stays h0 h1 (hDT_UserData x) On1 Hs) as [Hc Hl]; rewrite Hl; beside_part Hvp On1; unfold blen in Hbl;
    (eapply does_tail; [eassumption|eassumption|done|by eapply valid_later|rewrite Hbl, Hl; lengths|rewrite Hvc, Hc; by_assoc]).
Qed.

Lemma does_ED x :
  Forall (valid_opt h0) (slices_of (HED x)) ->
  does h0 (encoded h0) (hED_MarshalBinary (Some x)) (ED_MarshalBinary (Some (ED_value h0 x))) h0.
Proof.
  intros Hv. cbn [slices_of] in Hv. apply Forall_cons in Hv as [Hs Hp]. rewrite Forall_map in Hp.
  unfold hED_MarshalBinary, ED_MarshalBinary. cbn [ED_value ED_Parameters ED_DestinationRef ED_TPDUNR ED_EOT ED_UserData].
  destruct (hED_DestinationRef x) as [ref|], (hED_TPDUNR x) as [nr|]; try by apply does_fail.
  rewrite <- (hlen_slen h0) by done. destruct (_ || _); [by apply does_fail|]. variable_part l h1 On1 Hvp.
  destruct (input_stays h0 h1 (hED_UserData x) On1 Hs) as [Hc Hl]. beside_part Hvp On1. unfold blen in Hbl.
  eapply does_tail; [eassumption|eassumption|done|by eapply valid_later|rewrite Hbl, Hl; lengths|rewrite Hvc, Hc; by_assoc].
Qed.

(** These end with the variable part. *)
Ltac ends_with_part On1 Hvp :=
  beside_part Hvp On1; unfold blen in *;
  match goal with Hbl : hlen (as_slice _) = _, Hvc : content _ = _ |- _ =>
    eapply does_last; [eassumption|eassumption|done|rewrite Hbl; lengths|rewrite Hvc; by_assoc]
  end.

Lemma does_DC x :
  Forall (valid_opt h0) (slices_of (HDC x)) ->
  does h0 (encoded h0) (hDC_MarshalBinary (Some x)) (DC_MarshalBinary (Some (DC_value h0 x))) h0.
Proof.
  intros Hp. cbn [slices_of] in Hp. rewrite Forall_map in Hp.
  unfold hDC_MarshalBinary, DC_MarshalBinary. cbn [DC_value DC_Parameters]. variable_part l h1 On1 Hvp. ends_with_part On1 Hvp.
Qed.

Lemma does_AK x :
  Forall (valid_opt h0) (slices_of (HAK x)) ->
  does h0 (encoded h0) (hAK_MarshalBinary (Some x)) (AK_MarshalBinary (Some (AK_value h0 x))) h0.
Proof.
  intros Hp. cbn [slices_of] in Hp. rewrite Forall_map in Hp.
  unfold hAK_MarshalBinary, AK_MarshalBinary. cbn [AK_value AK_Parameters]. variable_part l h1 On1 Hvp. ends_with_part On1 Hvp.
Qed.

Lemma does_EA x :
  Forall (valid_opt h0) (slices_of (HEA x)) ->
  does h0 (encoded h0) (hEA_MarshalBinary (Some x)) (EA_MarshalBinary (Some (EA_value h0 x))) h0.
Proof.
  intros Hp. cbn [slices_of] in Hp. rewrite Forall_map in Hp.
  unfold hEA_MarshalBinary, EA_MarshalBinary. cbn [EA_value EA_Parameters]. variable_part l h1 On1 Hvp. ends_with_part On1 Hvp.
Qed.

Lemma does_ER x :
  Forall (valid_opt h0) (slices_of (HER x)) ->
  does h0 (encoded h0) (hER_MarshalBinary (Some x)) (ER_MarshalBinary (Some (ER_value h0 x))) h0.
Proof.
  intros Hp. cbn [slices_of] in Hp. rewrite Forall_map in Hp.
  unfold hER_MarshalBinary, ER_MarshalBinary. cbn [ER_value ER_Parameters]. variable_part l h1 On1 Hvp. ends_with_part On1 Hvp.
Qed.

Lemma does_RJ r : does h0 (encoded h0) (hRJ_MarshalBinary (Some r)) (RJ_MarshalBinary (Some r)) h0.
Proof.
  unfold hRJ_MarshalBinary, RJ_MarshalBinary. write_out.
  match goal with H : roomy _ _ _ ?o ?bs, Hon : only_on none h0 ?h |- does _ _ (append_ ?o ?xs) _ ?h =>
    pose proof (does_append_roomy h0 _ o bs xs h Hon H) as Hd
  end.
  unfold does in *. destruct (append_ _ _ _) as [[o|e| |] h2]; destruct Hd as [Hon Hr]; try done; try lengths.
  split; [done|]. apply (roomy_encoded _ _ _ _ _ Hr). reflexivity.
Qed.

Lemma does_Marshal t :
  Forall (valid_opt h0) (slices_of t) -> does h0 (encoded h0) (hMarshal t) (Marshal (tpdu_value h0 t)) h0.
Proof.
  destruct t; cbn [hMarshal Marshal tpdu_value]; intros Hv;
    eauto using does_CR, does_CC, does_DT, does_DR, does_DC, does_ER, does_ED, does_AK, does_EA, does_RJ.
Qed.
End TPDUs.

(** ** Properties *)

Lemma encoded_slice h0 h o bs :
  encoded h0 h o bs -> exists b, as_slice o = Some b /\ valid h b /\ load h b = bs /\ h0 !! arr b = None /\ (arr b).1 = cotp.
Proof.
  intros (b & -> & Hb & Ho & Hf & _ & Hm). eexists. split; [reflexivity|]. split_and!; try done.
  - eexists. split; [exact Hm|]. cbn. lia.
  - unfold load. cbn [size start_ arr]. by rewrite (lookup_total_correct _ _ _ Hm), drop_0, Hf, take_ge.
Qed.

Lemma decoded_inj t t' : decoded t = decoded t' -> t = t'.
Proof. destruct t, t'; cbn; intros [=]; congruence. Qed.

(** C27: the encoders write into memory of their own.  Whatever slices a TPDU is
    made of, shared or not, and however much room the runtime gives a slice that
    grows, its [MarshalBinary] gives the octets or the error it gives on values and
    writes into no array that existed before; the octets fill a new array to the
    last place of its capacity, so that it was allocated once, at the right size,
    and whoever appends to the result gets another array. *)
Theorem Marshal_on_memory {GR : Growth} h t :
  Forall (valid_opt h) (slices_of t) ->
  let '(r, h') := hMarshal t h in
  only_on none h h' /\ in_step (fun bs o => encoded h h' o bs) (Marshal (tpdu_value h t)) r.
Proof.
  intros Hv. pose proof (does_Marshal h t Hv) as H. unfold does in H. destruct (hMarshal t h) as [r h'], H as [Hon Hr].
  split; [done|]. by destruct r, (Marshal (tpdu_value h t)).
Qed.

(** A CR whose selectors and user data overlap in one array. *)
Definition crossed_memory : heap := {[ (other, O) := [1; 2; 3; 4] ]}.
Definition crossed_CR : hTPDU :=
  HCR (mkHCR 0 0 4660 0 [mkHParam 133 (Some (mkSlice (other, O) 0 2))] (Some (mkSlice (other, O) 1 2)) (Some (mkSlice (other, O) 2 2))
    (Some 10) (Some 511) (Some (mkSlice (other, O) 0 4))).

Example crossed_CR_encoded :
  let '(r, h) := hMarshal crossed_CR crossed_memory in
  match r with Ok o => content (hcontent h (as_slice o)) | _ => [] end =
    [25; 224; 0; 0; 18; 52; 0; 193; 2; 2; 3; 194; 2; 3; 4; 192; 1; 10; 240; 2; 1; 255; 133; 2; 1; 2; 1; 2; 3; 4] /\
  h !!! (other, O) = [1; 2; 3; 4].
Proof. vm_compute. split; reflexivity. Qed.

Lemma crossed_CR_valid : Forall (valid_opt crossed_memory) (slices_of crossed_CR).
Proof. repeat constructor; intros s [= <-]; exists [1; 2; 3; 4]; (split; [reflexivity|cbn; lia]). Qed.

Lemma Marshal_on_memory_witness :
  let '(r, h') := hMarshal crossed_CR crossed_memory in
  only_on none crossed_memory h' /\ in_step (fun bs o => encoded crossed_memory h' o bs) (Marshal (tpdu_value crossed_memory crossed_CR)) r.
Proof. apply (Marshal_on_memory crossed_memory crossed_CR), crossed_CR_valid. Defined.

(** A TPDU that goes through memory shares nothing with the one it comes from.
    What [Decode] reads from the octets an encoder has made stands for the same
    TPDU, in canonical form, and all its octets lie in the array the encoder
    allocated. *)
Lemma memory_roundtrip {GR : Growth} h t o h' :
  Forall (valid_opt h) (slices_of t) -> TPDU_typed (tpdu_value h t) -> format_ok (tpdu_value h t) ->
  hMarshal t h = (Ok o, h') ->
  exists b t', as_slice o = Some b /\ hDecode h' b = Ok t' /\ tpdu_value h' t' = canon (tpdu_value h t) /\
    all_inside b (slices_of t') /\ h !! arr b = None.
Proof.
  intros Hv Ht Hf H. pose proof (does_Marshal h t Hv) as Hd. unfold does in Hd. rewrite H in Hd. destruct Hd as [Hon Hr].
  destruct (Marshal (tpdu_value h t)) as [bs|e| |] eqn:Hm; try done.
  destruct (encoded_slice h h' o bs Hr) as (b & Ho & Hvb & Hl & Hn & _).
  pose proof (Decode_in_step h' b Hvb) as Hdec. rewrite Hl, (Marshal_decodes _ _ Ht Hf Hm) in Hdec.
  destruct (hDecode h' b) as [t'|e| |] eqn:E; try done. destruct Hdec as [Heq Hin].
  exists b, t'. split_and!; try done. symmetry. by apply decoded_inj.
Qed.
