(* ===== verification/MemoryWorld.v ===== *)
(** * The world and its memory

    Operations of a connection that move octets change the world of World.v and
    the memory of Memory.v.  Here is their monad, and what it means that such an
    operation does what one on values does. *)

From S2P Require Import Prelude Errors RefAlloc World Conn Memory Alias Append.

(** ** The monad *)

Definition HM (A : Type) : Type := world * heap -> outcome A * (world * heap).

Definition hret {A} (a : A) : HM A := fun s => (Ok a, s).
Definition hbind {A B} (m : HM A) (k : A -> HM B) : HM B := fun s =>
  match m s with
  | (Ok a, s) => k a s
  | (Err e, s) => (Err e, s)
  | (Panic, s) => (Panic, s)
  | (NoFuel, s) => (NoFuel, s)
  end.

Declare Scope heap_scope.
Notation "'let!' x ':=' m 'in' k" := (hbind m (fun x => k))
  (at level 10, x binder, m at level 100, k at level 200) : heap_scope.
Open Scope heap_scope.

(** What does not touch memory, and what touches only memory. *)
Definition on_world {A} (m : M A) : HM A := fun '(w, h) => let '(r, w) := m w in (r, (w, h)).
Definition on_heap {A} (f : heap -> A * heap) : HM A := fun '(w, h) => let '(a, h) := f h in (Ok a, (w, h)).

Definition hdefer {A} (f : world -> world) (m : HM A) : HM A := fun s =>
  let '(r, (w, h)) := m s in (r, (f w, h)).

Fixpoint hloop {S R : Type} (fuel : nat) (body : S -> HM (S + R)) (s : S) : HM R :=
  match fuel with
  | O => fun s => (NoFuel, s)
  | Datatypes.S fuel =>
      let! r := body s in
      match r with
      | inl s => hloop fuel body s
      | inr r => hret r
      end
  end.

(** ** The simulation *)

(** What touches only memory and may fail. *)
Definition on_memory {A} (m : EM A) : HM A := fun '(w, h) => let '(r, h) := m h in (r, (w, h)).

Definition hattempt {A} (m : HM A) : HM (A + error) := fun s =>
  match m s with
  | (Ok a, s) => (Ok (inl a), s)
  | (Err e, s) => (Ok (inr e), s)
  | (Panic, s) => (Panic, s)
  | (NoFuel, s) => (NoFuel, s)
  end.

Definition hunless_ok {A} (f : world -> world) (m : HM A) : HM A := fun s =>
  let '(r, (w, h)) := m s in
  match r with Ok _ => (r, (w, h)) | _ => (r, (f w, h)) end.

(** ** The stream and the memory of others

    While an operation waits for the stream, go-tpkt and the rest of the program
    may change any array but those go-cotp has made, which they were never given,
    and those that are [kept]: what the caller of the operation has lent it. *)

Definition others (kept : address -> Prop) (a : address) : Prop := foreign a /\ ~ kept a.

(** go-tpkt's reader puts a packet somewhere, in an array of the [lent] ones. *)
Class ReaderMemory (kept : address -> Prop) := {
  place : bytes -> heap -> slice * heap;
  lent : address -> Prop;
  place_valid p h : valid (place p h).2 (place p h).1;
  place_load p h : load (place p h).2 (place p h).1 = p;
  place_lent p h : lent (arr (place p h).1);
  place_spares p h : only_on (others kept) h (place p h).2
}.

(** What a call of its writer leaves of memory. *)
Class WriterMemory (kept : address -> Prop) := {
  meantime : heap -> heap;
  meantime_spares h : only_on (others kept) h (meantime h)
}.

(** For examples: what callers have lent is anything but two arrays. *)
Definition callers (a : address) : Prop := (2 <= a.2)%nat.

(** A reader that has one buffer for all packets. *)
#[export, refine] Instance one_buffer : ReaderMemory callers :=
  {| place p h := (mkSlice (other, O) 0 (length p), <[(other, O) := p]> h); lent a := a = (other, O) |}.
Proof.
  - intros p h. exists p. cbn. by rewrite lookup_insert_eq.
  - intros p h. unfold load. cbn [fst snd arr size start_]. by rewrite lookup_total_insert_eq, drop_0, take_ge by done.
  - done.
  - intros p h a b Ha Hn. cbn. rewrite lookup_insert_ne; [done|]. intros <-. apply Hn. split; [done|]. unfold callers. cbn. lia.
Defined.

(** A writer that keeps something in a buffer of its own. *)
#[export, refine] Instance one_packet : WriterMemory callers := {| meantime h := <[(other, 1%nat) := [0; 0]]> h |}.
Proof.
  intros h a b Ha Hn. rewrite lookup_insert_ne; [done|]. intros <-. apply Hn. split; [done|]. unfold callers. cbn. lia.
Defined.

(** [reader.ReadPacket()] and [writer.WritePacket(payload)] *)
Definition hReadPacket {kept} {RM : ReaderMemory kept} (ends : option ending -> world -> world) : HM slice :=
  let! payload := on_world (stream_read ends) in on_heap (place payload).

Definition hWritePacket {kept} {WM : WriterMemory kept} (ends : option ending -> world -> world) (payload : option buffer) : HM unit :=
  fun '(w, h) =>
    let '(r, w) := stream_write ends (content (hcontent h (as_slice payload))) w in (r, (w, meantime h)).

(** ** Operations on memory that do what one on values does *)

Section Simulation.
Context (A0 : address -> Prop) (h0 : heap).

(** Since [h0], only arrays of [A0] have changed. *)
Definition unharmed (h : heap) : Prop := only_on A0 h0 h.

(** [m] on values and [n] on memory do the same to the world and give related
    results, and [n] leaves alone every array that is not of [A0]. *)
Definition sim {A B : Type} (R : world -> heap -> A -> B -> Prop) (m : M A) (n : HM B) (w : world) (h : heap) : Prop :=
  let '(r, w') := m w in
  let '(r', (w'', h')) := n (w, h) in
  w'' = w' /\ unharmed h' /\
  match r, r' with
  | Ok a, Ok b => R w' h' a b
  | Err e, Err e' => e = e'
  | Panic, Panic | NoFuel, NoFuel => True
  | _, _ => False
  end.

Lemma sim_bind {A B A' B' : Type} (R : world -> heap -> A -> B -> Prop) (R' : world -> heap -> A' -> B' -> Prop) m n k k' w h :
  sim R m n w h ->
  (forall a b w' h', R w' h' a b -> unharmed h' -> sim R' (k a) (k' b) w' h') ->
  sim R' (mbind_ m k) (hbind n k') w h.
Proof.
  unfold sim, mbind_, hbind. destruct (m w) as [r w'], (n (w, h)) as [r' [w'' h']]. intros (-> & Ho & H) Hk.
  destruct r as [a|e| |], r' as [b|e'| |]; try done; try (by subst). by apply (Hk a b w' h').
Qed.

Lemma sim_world {A : Type} (m : M A) w h :
  unharmed h -> sim (fun w' h' a b => a = b /\ h' = h /\ m w = (Ok a, w')) m (on_world m) w h.
Proof. intros Ho. unfold sim, on_world. destruct (m w) as [[a|e| |] w']; split_and!; try done. Qed.

(** A step of memory alone. *)
Lemma sim_heap {A B B' : Type} (R : world -> heap -> A -> B -> Prop) (f : heap -> B' * heap) (m : M A) k w h :
  sim R m (k (f h).1) w (f h).2 -> sim R m (hbind (on_heap f) k) w h.
Proof. unfold sim, hbind, on_heap. by destruct (f h) as [b h1]. Qed.

Lemma sim_ret {A B : Type} (R : world -> heap -> A -> B -> Prop) a b w h : unharmed h -> R w h a b -> sim R (ret a) (hret b) w h.
Proof. intros Ho H. split_and!; try done. Qed.

Lemma sim_fail {A B : Type} (R : world -> heap -> A -> B -> Prop) e w h :
  unharmed h -> sim R (fail e) (on_world (fail e)) w h.
Proof. intros Ho. split_and!; try done. Qed.

Lemma sim_defer {A B : Type} (R : world -> heap -> A -> B -> Prop) f m n w h :
  sim R m n w h -> (forall w' h' a b, R w' h' a b -> R (f w') h' a b) -> sim R (defer f m) (hdefer f n) w h.
Proof.
  unfold sim, defer, hdefer. destruct (m w) as [r w'], (n (w, h)) as [r' [w'' h']]. intros (-> & Ho & H) Hf.
  split_and!; try done. destruct r, r'; try done. by apply Hf.
Qed.

(** Nothing of the result lies in memory. *)
Definition same {A : Type} (w : world) (h : heap) (a b : A) : Prop := a = b.

Lemma sim_same {A : Type} (m : M A) w h : unharmed h -> sim same m (on_world m) w h.
Proof. intros Ho. unfold sim, on_world. destruct (m w) as [[a|e| |] w']; by split_and!. Qed.

Lemma sim_attempt {A B : Type} (R : world -> heap -> A -> B -> Prop) m n w h :
  sim R m n w h ->
  sim (fun w h r r' => match r, r' with inl a, inl b => R w h a b | inr e, inr e' => e = e' | _, _ => False end)
    (attempt m) (hattempt n) w h.
Proof.
  unfold sim, attempt, hattempt. destruct (m w) as [r w'], (n (w, h)) as [r' [w'' h']]. intros (-> & Ho & H).
  by destruct r, r'.
Qed.

Lemma sim_unless {A B : Type} (R : world -> heap -> A -> B -> Prop) f m n w h :
  sim R m n w h -> sim R (unless_ok f m) (hunless_ok f n) w h.
Proof.
  unfold sim, unless_ok, hunless_ok. destruct (m w) as [r w'], (n (w, h)) as [r' [w'' h']]. intros (-> & Ho & H).
  by destruct r, r'.
Qed.

(** An encoder. *)
Lemma sim_marshal m v w h :
  (forall a, none a -> A0 a) -> unharmed h -> does h (encoded h) m v h ->
  sim (fun w' h' p o => w' = w /\ only_on none h h' /\ content (hcontent h' (as_slice o)) = p) (lift v) (on_memory m) w h.
Proof.
  intros HA Ho Hd. unfold does in Hd. unfold sim, lift, on_memory. destruct (m h) as [r h'], Hd as [Hon Hr].
  split_and!; [done|unfold unharmed in *; etrans; [exact Ho|by eapply only_on_weaken]|].
  destruct r as [o|e| |], v as [bs|e'| |]; try done. destruct (encoded_slice h h' o bs Hr) as (b & -> & _ & Hl & _). by split_and!.
Qed.

(** Writing what a slice stands for, and reading. *)
Lemma sim_write {kept} {WM : WriterMemory kept} ends payload o w h :
  (forall a, others kept a -> A0 a) -> unharmed h -> content (hcontent h (as_slice o)) = payload ->
  sim same (stream_write ends payload) (hWritePacket ends o) w h.
Proof.
  intros HA Ho <-. unfold sim, hWritePacket. destruct (stream_write _ _ w) as [r w'].
  split_and!; [done|unfold unharmed in *; etrans; [exact Ho|eapply only_on_weaken; [exact HA|apply meantime_spares]]|by destruct r].
Qed.

Lemma sim_read {kept} {RM : ReaderMemory kept} ends w h :
  (forall a, others kept a -> A0 a) -> unharmed h ->
  sim (fun w' h' p s => valid h' s /\ load h' s = p /\ lent (arr s) /\ only_on (others kept) h h' /\ stream_read ends w = (Ok p, w'))
    (stream_read ends) (hReadPacket ends) w h.
Proof.
  intros HA Ho. unfold sim, hReadPacket, hbind, on_world. destruct (stream_read ends w) as [[p|e| |] w'] eqn:E; try done.
  unfold on_heap. pose proof (place_valid p h) as Hv. pose proof (place_load p h) as Hl. pose proof (place_lent p h) as Ht.
  pose proof (place_spares p h) as Hs. destruct (place p h) as [s h']. cbn [fst snd] in *.
  split_and!; try done. unfold unharmed in *. etrans; [exact Ho|by eapply only_on_weaken].
Qed.

Lemma sim_loop {S S' A B : Type} (I : world -> heap -> S -> S' -> Prop) (R : world -> heap -> A -> B -> Prop) body body' :
  (forall w h st st', I w h st st' -> unharmed h) ->
  (forall st st' w h, I w h st st' ->
     sim (fun w' h' r r' => match r, r' with
                            | inl s, inl s' => I w' h' s s'
                            | inr a, inr b => R w' h' a b
                            | _, _ => False
                            end) (body st) (body' st') w h) ->
  forall fuel st st' w h, I w h st st' -> sim R (mloop fuel body st) (hloop fuel body' st') w h.
Proof.
  intros HI0 Hb. induction fuel as [|fuel IH]; intros st st' w h HI; [split_and!; [done|by eapply HI0|done]|].
  cbn [mloop hloop]. eapply sim_bind; [by apply Hb|].
  intros [s|a] [s'|b] w' h' Hr Ho; try done; by (apply IH || apply sim_ret).
Qed.
End Simulation.

Arguments sim_bind {A0 h0 A B A' B'}.
Arguments sim_world {A0 h0 A}.
Arguments sim_heap {A0 h0 A B B'}.
Arguments sim_ret {A0 h0 A B}.
Arguments sim_fail {A0 h0 A B}.
Arguments sim_defer {A0 h0 A B}.
Arguments sim_loop {A0 h0 S S' A B}.
Arguments sim_same {A0 h0 A}.
Arguments sim_attempt {A0 h0 A B}.
Arguments sim_unless {A0 h0 A B}.

(** What leaves alone the arrays of a later heap leaves alone those of an earlier
    one. *)
Lemma sim_rebase {A B : Type} (A0 A1 : address -> Prop) (h0 h1 : heap) (R : world -> heap -> A -> B -> Prop) m n w h :
  (forall a, A1 a -> A0 a) -> unharmed A0 h0 h1 -> sim A1 h1 R m n w h -> sim A0 h0 R m n w h.
Proof.
  unfold sim, unharmed. intros HA H01. destruct (m w) as [r w'], (n (w, h)) as [r' [w'' h']]. intros (-> & Ho & H).
  split_and!; [done|etrans; [exact H01|by eapply only_on_weaken]|done].
Qed.

Lemma sim_impl {A B : Type} (A0 : address -> Prop) (h0 : heap) (R R' : world -> heap -> A -> B -> Prop) m n w h :
  (forall w' h' a b, R w' h' a b -> R' w' h' a b) -> sim A0 h0 R m n w h -> sim A0 h0 R' m n w h.
Proof.
  unfold sim. intros HR. destruct (m w) as [r w'], (n (w, h)) as [r' [w'' h']]. intros (-> & Ho & H).
  split_and!; try done. destruct r, r'; try done. by apply HR.
Qed.

(** What it changes, it changes from where it starts. *)
Lemma sim_framed {A B : Type} (A0 : address -> Prop) (h0 : heap) (R : world -> heap -> A -> B -> Prop) m n w h :
  unharmed A0 h0 h -> sim A0 h R m n w h -> sim A0 h0 (fun w' h' a b => R w' h' a b /\ only_on A0 h h') m n w h.
Proof.
  unfold sim, unharmed. intros H0. destruct (m w) as [r w'], (n (w, h)) as [r' [w'' h']]. intros (-> & Ho & H).
  split_and!; [done|by etrans|]. by destruct r, r'.
Qed.

(** A step that both sides share. *)
Ltac shared_step x w h Ho :=
  eapply sim_bind; [by apply sim_same|]; let y := fresh in let Hs := fresh in intros x y w h Hs Ho; unfold same in Hs; subst y.
