(* ===== verification/Buffers.v ===== *)
(** * ReadTSDU on the heap

    [ReadTSDU] hands its caller a slice, and keeps pieces of packets that lie in
    go-tpkt's buffer.  Here it runs on the memory of Memory.v, with go-tpkt's reader
    free to put every packet into the same buffer. *)

From S2P Require Import Prelude Errors Types Wire PreferredMax Params Decode Encode Codec.
From S2P Require Import RoundTrip CodecSpec SizeNego Validate RefAlloc World Conn Tsdu TsduSpec Memory Alias MemoryWorld.

Section Read.
Context {kept : address -> Prop} {RM : ReaderMemory kept}.

(** A round of [ReadTSDU]. *)
Definition hread_body (c : Conn) (maxTSDU start : Z) (st : list (option slice) * Z) :
    HM (list (option slice) * Z + option slice) :=
  let '(segments, total) := st in
  let mid := 0 <? len segments in
  let! r := hattempt (hReadPacket (conn_ends c)) in
  match r with
  | inr err => let! _ := on_world (read_failed c start mid err) in hret (inr None)
  | inl packet =>
      let! d := (fun '(w, h) => on_world (attempt (lift (hdecodeOpenDT h packet (MaxTPDULength (negotiated c))))) (w, h)) in
      match d with
      | inr err => let! _ := on_world (read_stop c mid err) in hret (inr None)
      | inl dt =>
          let seg := hDT_UserData dt in
          if hlen seg =? 0 then
            let! _ := on_world (read_stop c mid (Errorf "empty DT segment: %w" [Sentinel ErrHandshake])) in
            hret (inr None)
          else if maxTSDU <? total + hlen seg then
            let! _ := on_world (read_stop c mid (Errorf "reassembly length %d > %d: %w" [Sentinel ErrTSDUTooLarge])) in
            hret (inr None)
          else if maxTSDU <? len segments + 1 then
            let! _ := on_world (read_stop c mid (Errorf "segment count %d > %d: %w" [Sentinel ErrTSDUTooLarge])) in
            hret (inr None)
          else
            let! copied := on_heap (copyBytes_in seg) in
            let segments := segments ++ [copied] in
            let total := total + hlen seg in
            if hDT_EOT dt then
              let! out := on_heap (make (Z.to_nat total)) in
              let! _ := on_heap (fun h => (tt, copy_all out 0 (omap id segments) h)) in
              hret (inr (Some out))
            else hret (inl (segments, total))
      end
  end.

Definition hReadTSDU (c : option Conn) : HM (option slice) :=
  match c with
  | None => on_world (fail (Errorf "%w" [Sentinel ErrNilReceiver]))
  | Some c =>
      let! _ := on_world opLock_lock in
      hdefer opLock_unlock (
        let! _ := on_world requireOpen in
        let! _ := on_world check_ctx in
        if MaxTPDULength (negotiated c) <? minNegotiatedTPDULength
        then on_world (fail (Errorf "negotiated MaxTPDULength %d < %d: %w" [Sentinel ErrInvalidConfig])) else
        let maxTSDU := effective_max_tsdu (maxTSDU c) in
        let! _ := on_world arm in
        hdefer disarm (
          let! start := on_world readProgress in
          hloop (S (Z.to_nat maxTSDU)) (hread_body c maxTSDU start) ([], 0)))
  end.

(** ** The simulation *)

Section Call.
Context (h0 : heap).

(** Since [h0], only what others own has changed. *)
#[local] Abbreviation unharmed := (MemoryWorld.unharmed foreign h0).
#[local] Abbreviation sim := (MemoryWorld.sim foreign h0).

(** ** ReadTSDU *)

Section Rounds.
Context (c : Conn) (limit start : Z).

(** Made by this call: in nobody else's hands. *)
Definition mine (h : heap) (s : slice) : Prop := valid h s /\ (arr s).1 = cotp /\ h0 !! arr s = None.

Definition out_rel (w : world) (h : heap) (out : bytes) (o : option slice) : Prop :=
  content (hcontent h o) = out /\ forall s, o = Some s -> mine h s.

Definition seg_rel (h : heap) (seg : bytes) (o : option slice) : Prop :=
  exists s, o = Some s /\ mine h s /\ load h s = seg.

Definition st_rel (w : world) (h : heap) (st : list bytes * Z) (st' : list (option slice) * Z) : Prop :=
  stream_ok w /\ unharmed h /\ st.2 = st'.2 /\ st.2 = len (concat st.1) /\ Forall2 (seg_rel h) st.1 st'.1.

Lemma mine_only h h' s : only_on foreign h h' -> mine h s -> mine h' s /\ load h' s = load h s.
Proof.
  intros Ho (Hv & Hc & Hf). destruct (load_only _ _ _ _ Ho Hv) as [Hl Hv']; [unfold foreign; congruence|].
  split; [|done]. by split_and!.
Qed.

Lemma seg_rel_only h h' seg o : only_on foreign h h' -> seg_rel h seg o -> seg_rel h' seg o.
Proof. intros Ho (s & -> & Hm & <-). exists s. destruct (mine_only _ _ _ Ho Hm). by split_and!. Qed.

(** An array go-cotp makes now is new to the call. *)
Lemma fresh_mine h1 h s : unharmed h1 -> h1 !! arr s = None -> valid h s -> (arr s).1 = cotp -> mine h s.
Proof.
  intros Ho Hf Hv Hc. split_and!; try done. destruct (h0 !! arr s) as [b|] eqn:E; [|done].
  rewrite (Ho _ _ E) in Hf; [done|]. unfold foreign. congruence.
Qed.

Lemma none_foreign h h' : only_on none h h' -> only_on foreign h h'.
Proof. by apply only_on_weaken. Qed.

(** What the gate lets through: a DT, its user data a part of the packet. *)
Definition gate_rel (h : heap) (d : DT + error) (d' : hDT + error) : Prop :=
  match d, d' with
  | inl dt, inl dt' =>
      DT_EOT dt = hDT_EOT dt' /\
      exists s, hDT_UserData dt' = Some s /\ valid h s /\ DT_UserData dt = Some (load h s) /\
        hlen (Some s) = slen (DT_UserData dt)
  | inr e, inr e' => e = e'
  | _, _ => False
  end.

Lemma sim_gate packet payload w h :
  load h packet = payload -> valid h packet -> bytes_ok payload -> unharmed h ->
  sim (fun w' h' d d' => h' = h /\ w' = w /\ gate_rel h d d')
    (attempt (lift (decodeOpenDT payload (MaxTPDULength (negotiated c)))))
    (fun '(w, h) => on_world (attempt (lift (hdecodeOpenDT h packet (MaxTPDULength (negotiated c))))) (w, h)) w h.
Proof.
  intros <- Hv Hok Ho. unfold sim, on_world, attempt, lift.
  pose proof (decodeOpenDT_in_step h packet (MaxTPDULength (negotiated c)) Hv) as Hg.
  destruct (decodeOpenDT _ _) as [dt|e| |] eqn:Hd, (hdecodeOpenDT _ _ _) as [dt'|e'| |]; try done.
  - split_and!; try done. destruct Hg as [-> Hin]. split; [done|].
    apply decodeOpenDT_Ok in Hd as (eot & data & _ & _ & Heq); [|done].
    unfold DT_value in *. cbn [DT_UserData] in *. injection Heq as _ _ _ _ Hud.
    apply Forall_cons in Hin as [Hs _]. destruct (hDT_UserData dt') as [s|]; [|done]. exists s. specialize (Hs s eq_refl).
    pose proof (inside_valid h packet s Hv Hs) as Hvs. split_and!; try done. symmetry. by apply len_load.
Qed.

Definition round_rel (w : world) (h : heap) (r : list bytes * Z + bytes) (r' : list (option slice) * Z + option slice) :=
  match r, r' with
  | inl st, inl st' => st_rel w h st st'
  | inr out, inr o => out_rel w h out o
  | _, _ => False
  end.

Lemma sim_failed (m : M bytes) w h :
  unharmed h -> (forall out w', m w = (Ok out, w') -> out = []) ->
  sim round_rel (do! out := m in ret (inr out)) (let! _ := on_world m in hret (inr None)) w h.
Proof.
  intros Ho Hm. eapply sim_bind; [by apply sim_world|]. intros a b w' h' (<- & -> & Heq) _. apply sim_ret; [done|].
  cbn. rewrite (Hm _ _ Heq). split; [done|]. by intros s [=].
Qed.

Lemma return_err_nil (e : option error) (w : world) (out : bytes) (w' : world) : return_err [] e w = (Ok out, w') -> out = [].
Proof. destruct e; cbn; [done|]. by intros [= <- _]. Qed.

Lemma read_stop_nil mid err w out w' : read_stop c mid err w = (Ok out, w') -> out = [].
Proof. unfold read_stop, mbind_. destruct (abortOpen _ _ _ w) as [[e|e| |] w1]; try done. apply return_err_nil. Qed.

Lemma read_failed_nil mid err w out w' : read_failed c start mid err w = (Ok out, w') -> out = [].
Proof.
  unfold read_failed, mbind_ at 1, readProgress. unfold mbind_ at 1.
  destruct ((if nRead w =? start then idleTimeout err else ret None) w) as [[[e|]|e| |] w1]; try done.
  unfold mbind_. destruct (classifyIOPhase c err mid w1) as [[e|e| |] w2]; try done. apply return_err_nil.
Qed.

Lemma segments_omap h segs hsegs : Forall2 (seg_rel h) segs hsegs ->
  map (load h) (omap id hsegs) = segs /\ Forall (mine h) (omap id hsegs).
Proof.
  induction 1 as [|seg o segs hsegs (s & -> & Hm & Hl) _ [IH1 IH2]]; [by split|]. cbn. split; [by rewrite Hl, IH1|].
  by apply Forall_cons.
Qed.

(** The last segment is there: the TSDU is put together. *)
Lemma sim_assemble w h segs hsegs total :
  unharmed h -> Forall2 (seg_rel h) segs hsegs -> total = len (concat segs) ->
  sim round_rel (ret (inr (assemble total segs)))
    (let! out := on_heap (make (Z.to_nat total)) in
     let! _ := on_heap (fun h => (tt, copy_all out 0 (omap id hsegs) h)) in
     hret (inr (Some out))) w h.
Proof.
  intros Ho Hseg ->. apply sim_heap.
  destruct (make (Z.to_nat (len (concat segs))) h) as [out h1] eqn:Hm. cbn [fst snd].
  destruct (make_spec _ _ _ _ Hm) as (Hf & Hc & Hs & Hz & Hb & Hon).
  assert (Forall2 (seg_rel h1) segs hsegs) as Hseg1.
  { eapply Forall2_impl; [exact Hseg|]. intros ? ? ?. eapply seg_rel_only; [by apply none_foreign|done]. }
  destruct (segments_omap _ _ _ Hseg1) as [Hmap Hmine]. destruct (segments_omap _ _ _ Hseg) as [_ Hmine0].
  destruct (copy_all_spec (omap id hsegs) h1 out 0 _ Hb) as [Hres Hon1].
  - done.
  - by rewrite length_replicate.
  - rewrite Forall_forall in Hmine, Hmine0 |- *. intros x Hx. destruct (Hmine x Hx) as (Hv & _). split; [done|].
    destruct (Hmine0 x Hx) as ((b & Hb0 & _) & _). intros E. rewrite E, Hf in Hb0. done.
  - rewrite Hmap, length_replicate. unfold len. lia.
  - set (h2 := copy_all out 0 (omap id hsegs) h1) in *. rewrite Hmap in Hres.
    assert (h2 !! arr out = Some (concat segs)) as Hout.
    { rewrite Hres. f_equal. cbn [Nat.add]. rewrite take_0, drop_ge, app_nil_r; [done|].
      rewrite length_replicate. unfold len. lia. }
    assert (unharmed h2) as Ho2.
    { unfold MemoryWorld.unharmed in *. etrans; [exact Ho|]. intros a x Ha _. apply Hon1; [by apply Hon; [|intros []]|]. congruence. }
    apply sim_heap. cbn [fst snd]. fold h2. apply sim_ret; [done|]. cbn [round_rel]. split.
    + cbn. rewrite assemble_concat. unfold load.
      rewrite (lookup_total_correct _ _ _ Hout), Hz, Hs, drop_0, take_ge; [done|]. unfold len. lia.
    + intros s [= <-]. apply (fresh_mine h); try done. exists (concat segs). split; [done|].
      rewrite Hz, Hs. unfold len. lia.
Qed.

(** ** A round on memory is a round on values *)
Lemma sim_round w h st st' :
  st_rel w h st st' -> sim round_rel (read_body c limit start st) (hread_body c limit start st') w h.
Proof.
  destruct st as [segs total], st' as [hsegs total']. intros (Hst & Ho & Ht & Htot & Hseg). cbn [fst snd] in *. subst total'.
  unfold read_body, hread_body.
  assert (len hsegs = len segs) as Hls by (unfold len; by rewrite (Forall2_length _ _ _ Hseg)). rewrite Hls.
  eapply sim_bind; [apply sim_attempt, sim_read; [by intros a []|done]|]. intros r b w1 h1 Hrel Ho1.
  destruct r as [payload|err], b as [packet|err']; try done; [|subst err'; apply sim_failed; [done|apply read_failed_nil]].
  destruct Hrel as (Hv & Hl & _ & Hfo & Heq). apply (only_on_weaken _ foreign) in Hfo; [|by intros a []].
  destruct (stream_read_spec c w Hst) as (r & w2 & Hr & _ & Hst' & _ & _ & _ & _ & _ & Hcase). rewrite Hr in Heq.
  destruct Hcase as [(p & a & -> & _ & _ & Hok & _)|(e & -> & _)]; [|discriminate Heq]. injection Heq as -> ->.
  assert (Forall2 (seg_rel h1) segs hsegs) as Hseg1.
  { eapply Forall2_impl; [exact Hseg|]. intros ? ? ?. eapply seg_rel_only; [exact Hfo|done]. }
  eapply sim_bind; [by apply sim_gate|].
  intros d b w2 h2 (-> & -> & Hg) _. destruct d as [dt|err], b as [dt'|err']; try done.
  2:{ cbn in Hg. subst err'. apply sim_failed; [done|apply read_stop_nil]. }
  destruct Hg as (Heot & view & -> & Hvv & Hud & Hlen). rewrite Hlen, <- Heot.
  destruct (slen (DT_UserData dt) =? 0); [apply sim_failed; [done|apply read_stop_nil]|].
  destruct (limit <? total + slen (DT_UserData dt)); [apply sim_failed; [done|apply read_stop_nil]|].
  destruct (limit <? len segs + 1); [apply sim_failed; [done|apply read_stop_nil]|].
  apply sim_heap. destruct (copyBytes_in (Some view) h1) as [copied h2] eqn:Hcp. cbn [fst snd].
  destruct (copyBytes_spec h1 (Some view) copied h2) as (Hcont & _ & Hon & Hnew); [by intros ? [= <-]|done|].
  destruct copied as [cp|]; [|done]. destruct (Hnew cp eq_refl) as (Hvc & Hfc & Hcc). injection Hcont as Hcont.
  assert (unharmed h2) as Ho2 by (unfold MemoryWorld.unharmed in *; etrans; [exact Ho1|by apply none_foreign]).
  assert (Forall2 (seg_rel h2) (segs ++ [content (copyBytes (DT_UserData dt))]) (hsegs ++ [Some cp])) as Hseg2.
  { apply Forall2_app.
    - eapply Forall2_impl; [exact Hseg1|]. intros ? ? ?. eapply seg_rel_only; [by apply none_foreign|done].
    - apply Forall2_cons. split; [|constructor]. exists cp. split_and!; [done|by apply (fresh_mine h1)|].
      rewrite Hcont, Hud. done. }
  assert (total + slen (DT_UserData dt) = len (concat (segs ++ [content (copyBytes (DT_UserData dt))]))) as Htot2.
  { rewrite len_concat_snoc, Htot, Hud. done. }
  destruct (DT_EOT dt); [by apply sim_assemble|]. apply sim_ret; [done|]. by split_and!.
Qed.
End Rounds.

Lemma prologue_stream w w' : reads w' = reads w -> writes w' = writes w -> stream_ok w -> stream_ok w'.
Proof. unfold stream_ok. by intros -> ->. Qed.

(** ** The whole call *)
Lemma sim_ReadTSDU c w h :
  term_ok (term w) -> stream_ok w -> unharmed h -> sim out_rel (ReadTSDU (Some c)) (hReadTSDU (Some c)) w h.
Proof.
  intros Ht Hst Ho. unfold ReadTSDU, hReadTSDU.
  eapply sim_bind; [by apply sim_world|]. intros [] b w1 h1 (<- & -> & Hl) _.
  assert (stream_ok w1 /\ term_ok (term w1)) as [Hst1 Ht1].
  { destruct (lock_spec w) as [(w' & E & (Et & _) & _ & Er & Ew & _)|(e & w' & E & _)]; rewrite E in Hl; [|done].
    injection Hl as <-. split; [by eapply prologue_stream|by rewrite Et]. }
  apply sim_defer; [|done].
  eapply sim_bind; [by apply sim_world|]. intros [] b w2 h2 (<- & -> & Ho2) _.
  assert (w2 = w1) as ->.
  { destruct (requireOpen_spec w1 Ht1) as [[_ E]|(en & _ & E)]; rewrite E in Ho2; [by injection Ho2|done]. }
  eapply sim_bind; [by apply sim_world|]. intros [] b w3 h3 (<- & -> & Hc) _.
  assert (stream_ok w3) as Hst3.
  { destruct (check_ctx_spec w1) as (r & w' & E & (Er & Ew & _) & _). rewrite E in Hc. injection Hc as _ <-.
    by eapply prologue_stream. }
  destruct (MaxTPDULength (negotiated c) <? minNegotiatedTPDULength); [by apply sim_fail|].
  eapply sim_bind; [by apply sim_world|]. intros [] b w4 h4 (<- & -> & Ha) _.
  assert (stream_ok w4) as Hst4.
  { destruct (arm_spec w3) as [(w' & E & _ & _ & Er & Ew & _)|(e & w' & E & _)]; rewrite E in Ha; [|done].
    injection Ha as <-. by eapply prologue_stream. }
  apply sim_defer; [|done].
  eapply sim_bind; [by apply sim_world|]. intros start b w5 h5 (<- & -> & Hp) _.
  injection Hp as _ <-.
  eapply (sim_loop st_rel); [by intros w6 h6 st st' (_ & ? & _)|intros; by apply sim_round|].
  split_and!; try done.
Qed.
End Call.
End Read.

(** ** Properties *)

(** C26: [ReadTSDU] on memory.  Even if go-tpkt puts every packet into the same
    buffer, [ReadTSDU] on memory ends as on values: the same world, the same
    error, or a slice that stands for the same TSDU.  That slice lies in an
    array made by the call, so no one else has it; and every slice of an array
    go-cotp had made before (an earlier TSDU, the parameters of the connection)
    still stands for the same octets, even when the call fails. *)
Theorem ReadTSDU_on_memory {kept : address -> Prop} {RM : ReaderMemory kept} c w h :
  term_ok (term w) -> stream_ok w ->
  let '(r, w') := ReadTSDU (Some c) w in
  exists r' h', hReadTSDU (Some c) (w, h) = (r', (w', h')) /\
    match r, r' with
    | Ok out, Ok o =>
        content (hcontent h' o) = out /\
        forall s, o = Some s -> valid h' s /\ (arr s).1 = cotp /\ h !! arr s = None
    | Err e, Err e' => e = e'
    | Panic, Panic | NoFuel, NoFuel => True
    | _, _ => False
    end /\
    forall s, valid h s -> (arr s).1 = cotp -> valid h' s /\ load h' s = load h s.
Proof.
  intros Ht Hst. assert (MemoryWorld.unharmed foreign h h) as H0 by (unfold MemoryWorld.unharmed; reflexivity).
  pose proof (sim_ReadTSDU h c w h Ht Hst H0) as Hs. unfold MemoryWorld.sim in Hs.
  destruct (ReadTSDU (Some c) w) as [r w'], (hReadTSDU (Some c) (w, h)) as [r' [w'' h']].
  destruct Hs as (-> & Ho & Hs). exists r', h'. split; [done|]. split; [by destruct r, r'|].
  intros s Hv Hc. destruct (load_only _ _ _ _ Ho Hv); [unfold foreign; congruence|done].
Qed.

(** Two segments in one buffer. *)
Lemma ReadTSDU_on_memory_witness :
  let c := sample_conn 6 in
  let w := quiet_world [packet [2; 240; 0; 1; 2]; packet [2; 240; 128; 3]] in
  let '(r, w') := ReadTSDU (Some c) w in
  exists r' h', hReadTSDU (RM := one_buffer) (Some c) (w, ∅) = (r', (w', h')) /\
    match r, r' with
    | Ok out, Ok o =>
        content (hcontent h' o) = out /\
        forall s, o = Some s -> valid h' s /\ (arr s).1 = cotp /\ (∅ : heap) !! arr s = None
    | Err e, Err e' => e = e'
    | Panic, Panic | NoFuel, NoFuel => True
    | _, _ => False
    end /\
    forall s, valid ∅ s -> (arr s).1 = cotp -> valid h' s /\ load h' s = load ∅ s.
Proof.
  apply (ReadTSDU_on_memory (RM := one_buffer) (sample_conn 6)
    (quiet_world [packet [2; 240; 0; 1; 2]; packet [2; 240; 128; 3]]) ∅); [by left|decide_now].
Defined.

(** The segments are read from the buffer before it is used again. *)
Example one_buffer_read :
  match hReadTSDU (RM := one_buffer) (Some (sample_conn 6))
          (quiet_world [packet [2; 240; 0; 1; 2]; packet [2; 240; 128; 3]], ∅) with
  | (Ok o, (_, h)) => hcontent h o = Some [1; 2; 3] /\ h !!! (other, O) = [2; 240; 128; 3]
  | _ => False
  end.
Proof. vm_compute. by split. Qed.
