(* ===== verification/Outbound.v ===== *)
(** * WriteTSDU on the heap

    [WriteTSDU] cuts its caller's slice into parts, encodes each into an array of
    its own and hands that to go-tpkt's writer.  Here it runs on the memory of
    Memory.v, the encoder being that of Append.v.  While the call runs the writer
    and the rest of the program may change any memory but go-cotp's arrays and
    the TSDU. *)

From S2P Require Import Prelude Errors Types Wire PreferredMax Params Decode Encode Codec.
From S2P Require Import RoundTrip CodecSpec SizeNego Validate RefAlloc World Conn Tsdu TsduSpec Memory Alias Append MemoryWorld.
Open Scope heap_scope.

Section Write.
Context {held : address -> Prop} {WM : WriterMemory held} {GR : Growth}.

Definition hwrite_body (c : Conn) (tsdu : slice) (maxSeg start offset : Z) : HM (Z + unit) :=
  if offset <? size_ tsdu then
    let end_ := Z.min (offset + maxSeg) (size_ tsdu) in
    let! chunk := on_world (lift (part tsdu offset end_)) in
    let eot := end_ =? size_ tsdu in
    let! p := hattempt (on_memory (hDT_MarshalBinary (Some (mkHDT eot None None [] (Some chunk))))) in
    match p with
    | inr err => let! _ := on_world (as_error (abort c (Some err))) in hret (inr tt)
    | inl payload =>
        let! r := hattempt (hWritePacket (conn_ends c) payload) in
        match r with
        | inr err => let! _ := on_world (write_failed c start err) in hret (inr tt)
        | inl _ => hret (inl end_)
        end
    end
  else hret (inr tt).

Definition hWriteTSDU (c : option Conn) (tsdu : slice) : HM unit :=
  match c with
  | None => on_world (fail (Errorf "%w" [Sentinel ErrNilReceiver]))
  | Some c =>
      let! _ := on_world opLock_lock in
      hdefer opLock_unlock (
        let! _ := on_world requireOpen in
        let! _ := on_world check_ctx in
        let! _ := on_world (lift (validateWriteTSDULength (size_ tsdu) (maxTSDU c))) in
        let maxSeg := maxSegmentPayload (MaxTPDULength (negotiated c)) in
        if maxSeg <? 1
        then on_world (fail (Errorf "negotiated MaxTPDULength %d < %d: %w" [Sentinel ErrInvalidConfig])) else
        let! _ := on_world arm in
        hdefer disarm (
          let! start := on_world writeProgress in
          hloop (S (size tsdu)) (hwrite_body c tsdu maxSeg start) 0))
  end.

(** ** The simulation *)

Section Call.
Context (h0 : heap) (tsdu : slice) (Hv : valid h0 tsdu) (Hheld : held (arr tsdu)).
#[local] Abbreviation unharmed := (MemoryWorld.unharmed (others held) h0).
#[local] Abbreviation sim := (MemoryWorld.sim (others held) h0).

Lemma tsdu_stays h : unharmed h -> load h tsdu = load h0 tsdu /\ valid h tsdu.
Proof. intros Ho. apply (load_only _ _ _ _ Ho Hv). by intros [_ Hn]. Qed.

(** A segment: the octets go-tpkt writes are those of the part of the TSDU. *)
Lemma sim_segment eot chunk w h :
  unharmed h -> valid h chunk ->
  sim (fun w' h' p o => w' = w /\ only_on none h h' /\ content (hcontent h' (as_slice o)) = p)
    (lift (segment_octets eot (load h chunk)))
    (on_memory (hDT_MarshalBinary (Some (mkHDT eot None None [] (Some chunk))))) w h.
Proof.
  intros Ho Hc. apply sim_marshal; [done|done|].
  apply (does_DT h (mkHDT eot None None [] (Some chunk))). constructor; [by intros s [= <-]|constructor].
Qed.

(** A part of the TSDU. *)
Lemma sim_part i j w h :
  unharmed h ->
  sim (fun w' h' chunk s => chunk = load h' s /\ valid h' s /\ h' = h /\ w' = w)
    (lift (Errors.slice (load h0 tsdu) i j)) (on_world (lift (part tsdu i j))) w h.
Proof.
  intros Ho. destruct (tsdu_stays h Ho) as [<- Hvt]. pose proof (part_in_step h tsdu i j Hvt) as Hp.
  unfold MemoryWorld.sim, lift, on_world. destruct (Errors.slice _ _ _), (part _ _ _); try done.
  destruct Hp as (-> & ? & _). by split_and!.
Qed.

Definition round_same (w : world) (h : heap) (r r' : Z + unit) : Prop := unharmed h /\ r = r'.

Lemma sim_stop {A : Type} (m : M A) w h :
  unharmed h -> sim round_same (do! _ := m in ret (inr tt)) (let! _ := on_world m in hret (inr tt)) w h.
Proof. intros Ho. eapply sim_bind; [by apply sim_same|]. intros a b w' h' <- Ho'. by apply sim_ret. Qed.

Lemma sim_segment_round c maxSeg start offset w h :
  unharmed h -> sim round_same (write_body c (load h0 tsdu) maxSeg start offset) (hwrite_body c tsdu maxSeg start offset) w h.
Proof.
  intros Ho. unfold write_body, hwrite_body. rewrite (len_load h0 tsdu Hv).
  destruct (offset <? size_ tsdu); [|by apply sim_ret].
  eapply sim_bind; [by apply sim_part|]. intros chunk s w1 h1 (-> & Hs & -> & ->) _.
  eapply sim_bind; [by apply sim_attempt, sim_segment|]. intros p o w2 h2 Hp Ho2.
  destruct p as [payload|err], o as [o|err']; try done; [destruct Hp as (_ & _ & Hp)|subst err'; by apply sim_stop].
  eapply sim_bind; [by apply sim_attempt, sim_write|]. intros r r' w3 h3 Hr Ho3.
  destruct r as [[]|err], r' as [[]|err']; [by apply sim_ret|done|done|]. cbn in Hr. subst err'. by apply sim_stop.
Qed.

(** ** The whole call *)
Lemma sim_WriteTSDU c w h : unharmed h -> sim same (WriteTSDU (Some c) (load h0 tsdu)) (hWriteTSDU (Some c) tsdu) w h.
Proof.
  intros Ho. unfold WriteTSDU, hWriteTSDU. rewrite (len_load h0 tsdu Hv), (length_load h0 tsdu Hv).
  eapply sim_bind; [by apply sim_same|]. intros ? ? w1 h1 _ Ho1. apply sim_defer; [|done].
  eapply sim_bind; [by apply sim_same|]. intros ? ? w2 h2 _ Ho2.
  eapply sim_bind; [by apply sim_same|]. intros ? ? w3 h3 _ Ho3.
  eapply sim_bind; [by apply sim_same|]. intros ? ? w4 h4 _ Ho4.
  destruct (_ <? 1); [by apply sim_fail|].
  eapply sim_bind; [by apply sim_same|]. intros ? ? w5 h5 _ Ho5. apply sim_defer; [|done].
  eapply sim_bind; [by apply sim_same|]. intros start ? w6 h6 <- Ho6.
  eapply (sim_loop (fun w h o o' => round_same w h (inl o) (inl o'))); [by intros ? ? ? ? [? _]| |by split].
  intros o o' w7 h7 [Ho7 [= <-]]. pose proof (sim_segment_round c (maxSegmentPayload (MaxTPDULength (negotiated c))) start o w7 h7 Ho7) as Hr.
  unfold MemoryWorld.sim in *. destruct (write_body _ _ _ _ _ _) as [r w8], (hwrite_body _ _ _ _ _ _) as [r' [w9 h9]].
  destruct Hr as (-> & Ho9 & Hr). split_and!; try done. destruct r as [[?|[]]|?| |], r' as [[?|[]]|?| |]; try done; by destruct Hr.
Qed.
End Call.
End Write.

(** ** Properties *)

(** C25: [WriteTSDU] on memory.  Whatever the writer and the rest of the program do
    to other memory meanwhile, [WriteTSDU] on a slice ends as on the octets the
    slice stood for when the call began: the same packets written, the same end of
    the connection, the same error.  It leaves the TSDU and every array that
    go-cotp had made (TSDUs handed out before, the parameters of the connection)
    as they were. *)
Theorem WriteTSDU_on_memory {held : address -> Prop} {WM : WriterMemory held} {GR : Growth} c tsdu w h :
  valid h tsdu -> held (arr tsdu) ->
  exists h', hWriteTSDU (Some c) tsdu (w, h) =
      (fst (WriteTSDU (Some c) (load h tsdu) w), (snd (WriteTSDU (Some c) (load h tsdu) w), h')) /\
    valid h' tsdu /\ load h' tsdu = load h tsdu /\
    forall s, valid h s -> (arr s).1 = cotp -> valid h' s /\ load h' s = load h s.
Proof.
  intros Hv Hh. assert (MemoryWorld.unharmed (others held) h h) as H0 by (unfold MemoryWorld.unharmed; reflexivity).
  pose proof (sim_WriteTSDU h tsdu Hv Hh c w h H0) as Hs. unfold MemoryWorld.sim in Hs.
  destruct (WriteTSDU (Some c) (load h tsdu) w) as [r w'], (hWriteTSDU (Some c) tsdu (w, h)) as [r' [w'' h']].
  destruct Hs as (-> & Ho & Hr). exists h'. split_and!.
  - by destruct r as [[]|?| |], r' as [[]|?| |]; simplify_eq.
  - by apply (tsdu_stays h tsdu Hv Hh).
  - by apply (tsdu_stays h tsdu Hv Hh).
  - intros s Hvs Hc. destruct (load_only _ _ _ _ Ho Hvs); [|done]. unfold others, foreign. rewrite Hc. by intros [? _].
Qed.

(** Three octets in the middle of an array, in segments of two. *)
Lemma WriteTSDU_on_memory_witness :
  let h := {[ (other, 2%nat) := [9; 1; 2; 3; 9] ]} : heap in
  let tsdu := mkSlice (other, 2%nat) 1 3 in
  exists h', hWriteTSDU (Some (sample_conn 5)) tsdu (quiet_world [], h) =
      (fst (WriteTSDU (Some (sample_conn 5)) (load h tsdu) (quiet_world [])),
       (snd (WriteTSDU (Some (sample_conn 5)) (load h tsdu) (quiet_world [])), h')) /\
    valid h' tsdu /\ load h' tsdu = load h tsdu /\
    forall s, valid h s -> (arr s).1 = cotp -> valid h' s /\ load h' s = load h s.
Proof.
  apply (WriteTSDU_on_memory (sample_conn 5) (mkSlice (other, 2%nat) 1 3)); [|unfold callers; cbn; lia].
  exists [9; 1; 2; 3; 9]. split; [reflexivity|cbn; lia].
Defined.

Example one_packet_written :
  let '(r, (w, h)) := hWriteTSDU (Some (sample_conn 5)) (mkSlice (other, 2%nat) 1 3) (quiet_world [], {[ (other, 2%nat) := [9; 1; 2; 3; 9] ]}) in
  r = Ok tt /\ sent w = [[2; 240; 0; 1; 2]; [2; 240; 128; 3]].
Proof. vm_compute. by split. Qed.
