(* ===== verification/Handshake.v ===== *)
(** * The handshake: config.go, connect.go and accept.go

    [Connect] and [Accept] own the stream from the start: the nested
    [unless_ok] and [defer] are the deferred functions of the code, in their
    order (disarm, release the reference, close the stream).  The code between
    two stream calls is a definition of its own. *)

From S2P Require Import Prelude Errors Types Wire PreferredMax Params Decode Encode Codec.
From S2P Require Import RoundTrip CodecSpec SizeNego Validate RefAlloc World Conn Tsdu.

(** ** Configuration: config.go *)

Definition Class0 := 0.

Record ClientConfig := mkClientConfig {
  c_LocalSelector : goslice;
  c_RemoteSelector : goslice;
  c_MaxTPDULength : Z;
  c_MaxTSDULength : Z;
  c_ConnectData : goslice;
  c_SizeProfile : Z
}.

Record ConnectIndication := mkIndication {
  ind_CallingSelector : goslice;
  ind_CalledSelector : goslice;
  ind_ProposedClass : Z;
  ind_MaxTPDULength : Z;
  ind_ConnectData : goslice;
  ind_SourceRef : Z
}.

Record AcceptDecision := mkDecision {
  Action : Z;
  dec_MaxTPDULength : Z;
  dec_ConnectData : goslice;
  RejectReason : Z
}.

(** The callback is called at most once, so that a function of the indication
    is any callback. *)
Record ServerConfig := mkServerConfig {
  s_LocalSelector : goslice;
  s_MaxTPDULength : Z;
  s_MaxTSDULength : Z;
  OnConnect : option (ConnectIndication -> AcceptDecision + error);
  s_SizeProfile : Z;
  EchoSelectors : bool
}.

(** ClientConfig.preflight and ServerConfig.preflight: (maxTPDU, maxTSDU). *)
Definition ClientConfig_preflight (cfg : ClientConfig) : outcome (Z * Z) :=
  let! _ := validateSizeProfile (c_SizeProfile cfg) in
  let! maxTPDU := normalizeConfiguredMax (c_MaxTPDULength cfg) in
  let! _ := validateMaxTSDULength (c_MaxTSDULength cfg) in
  let maxTSDU := effective_max_tsdu (c_MaxTSDULength cfg) in
  let! _ := validateSelectorLength (c_LocalSelector cfg) in
  let! _ := validateSelectorLength (c_RemoteSelector cfg) in
  let! _ := validateConnectDataLength (c_ConnectData cfg) in
  Ok (maxTPDU, maxTSDU).

Definition ServerConfig_preflight (cfg : ServerConfig) : outcome (Z * Z) :=
  let! _ := validateSizeProfile (s_SizeProfile cfg) in
  let! maxTPDU := normalizeConfiguredMax (s_MaxTPDULength cfg) in
  let! _ := validateMaxTSDULength (s_MaxTSDULength cfg) in
  let maxTSDU := effective_max_tsdu (s_MaxTSDULength cfg) in
  let! _ := validateSelectorLength (s_LocalSelector cfg) in
  Ok (maxTPDU, maxTSDU).

(** ** What both sides do *)

(** [tpkt.NewReader] and [tpkt.NewWriter]. *)
Definition NewReader : M unit := fun w =>
  (match reader_err w with
   | Some _ => Err (Errorf "%w: %v" [Sentinel ErrInvalidConfig])
   | None => Ok tt
   end, w).

Definition NewWriter : M unit := fun w =>
  (match writer_err w with
   | Some _ => Err (Errorf "%w: %v" [Sentinel ErrInvalidConfig])
   | None => Ok tt
   end, w).

(** [refs.Allocate()] and [refs.Release(localRef)] on the process's allocator. *)
Definition allocate : M Z := fun w =>
  let '(r, a) := Allocate (refs w) in (r, set_refs w a).

Definition release (ref : Z) (w : world) : world := set_refs w (Release (refs w) ref).

Definition connectIOError {A} (err : error) : M A :=
  do! e := ctx_Err in
  match e with
  | Some _ =>
      do! e' := ctx_Err in
      fail (Errorf "%w: %w" (Sentinel ErrClosed :: match e' with Some e' => [e'] | None => [] end))
  | None =>
      do! ok := ctx_has_deadline in
      if ok && isTimeout err then fail (Errorf "%w: %w" [Sentinel ErrClosed; DeadlineExceeded])
      else if errors_Is err io_EOF then fail (DisconnectError (Some (Foreign io_EOF None)))
      else if isFramingError err then fail (Errorf "%w: %w" [Sentinel ErrHandshake; err])
      else fail err
  end.

(** [if err := io(); err != nil { return nil, connectIOError(ctx, err) }] *)
Definition handshake_io {A} (io : M A) : M A :=
  do! r := attempt io in
  match r with
  | inl a => ret a
  | inr err => connectIOError err
  end.

(** armHandshake of conn.go, for both directions of a stream that may be nil. *)
Definition armHandshake (nil_conn : bool) : M unit :=
  if nil_conn then fail (Errorf "%w" [Sentinel ErrInvalidConfig]) else arm.

(** ** Connect *)

Definition rejectionFromDR (dr : option DR) : error :=
  match dr with
  | None => Errorf "%w" [Sentinel ErrConnectionRefused]
  | Some dr => RejectionError (DR_Reason dr) (copyBytes (DR_UserData dr))
  end.

(** The CR of a client. *)
Definition connect_request (cfg : ClientConfig) (localRef : Z) (offer : sizeCRBuild) : CR :=
  {| CR_CDT := 0; CR_DestinationRef := 0; CR_SourceRef := localRef; CR_ClassOption := 0;
     CR_Parameters := [];
     CR_CallingSelector := copyBytes (c_LocalSelector cfg);
     CR_CalledSelector := copyBytes (c_RemoteSelector cfg);
     CR_TPDUSize := cr_StandardCode offer; CR_PreferredMaxTPDUSize := cr_PreferredUnits offer;
     CR_UserData := copyBytes (c_ConnectData cfg) |}.

(** What a client makes of the payload it gets in answer. *)
Definition connect_confirm (cfg : ClientConfig) (localRef : Z) (offer : sizeCRBuild) (payload : bytes) :
    outcome NegotiatedParameters :=
  let! decoded := rewrap ErrHandshake (Decode payload) in
  if D_Type decoded =? TypeDR then Err (rejectionFromDR (D_DR decoded))
  else if D_Type decoded =? TypeER then Err (Errorf "ER reject cause %d: %w" [Sentinel ErrHandshake])
  else if negb (D_Type decoded =? TypeCC)
  then Err (UnexpectedTPDUError (D_Type decoded) PhaseHandshake) else
  match D_CC decoded with
  | None => Err (Errorf "nil CC: %w" [Sentinel ErrHandshake])
  | Some cc =>
      let! _ := validateClass0CCFixed (CC_CDT cc) (CC_ClassOption cc) in
      let! _ := validateCCReferences (CC_DestinationRef cc) (CC_SourceRef cc) localRef in
      let! _ := validateCCParameters (CC_Parameters cc) in
      if MaxConnectDataLength <? slen (CC_UserData cc)
      then Err (Errorf "CC connect data length %d > %d: %w" [Sentinel ErrHandshake]) else
      let! effective := interpretCCSize (Offer offer) (CC_TPDUSize cc) (CC_PreferredMaxTPDUSize cc)
                          (c_SizeProfile cfg) in
      let remoteSelector := copyBytes (c_RemoteSelector cfg) in
      let remoteSelector :=
        match CC_CalledSelector cc with
        | Some _ => copyBytes (CC_CalledSelector cc)
        | None => remoteSelector
        end in
      Ok {| Class := Class0; MaxTPDULength := effective; LocalRef := localRef;
            RemoteRef := CC_SourceRef cc; LocalSelector := copyBytes (c_LocalSelector cfg);
            RemoteSelector := remoteSelector; PeerConnectData := copyBytes (CC_UserData cc) |}
  end.

(** [nil_conn]: the stream passed is a nil interface. *)
Definition Connect (nil_conn : bool) (cfg : ClientConfig) : M Conn :=
  if nil_conn then fail (Errorf "%w: nil conn" [Sentinel ErrInvalidConfig]) else
  unless_ok closeConn (
    do! max := lift (ClientConfig_preflight cfg) in
    do! _ := check_ctx in
    do! _ := NewReader in
    do! _ := NewWriter in
    do! localRef := allocate in
    unless_ok (release localRef) (
      do! offer := lift (buildSizeOffer (fst max) (c_SizeProfile cfg)) in
      let cr := connect_request cfg localRef offer in
      do! crBytes := lift (rewrap ErrInvalidConfig (CR_MarshalBinary (Some cr))) in
      do! _ := armHandshake nil_conn in
      defer disarm (
        do! _ := handshake_io (stream_write no_conn crBytes) in
        do! payload := handshake_io (stream_read no_conn) in
        do! neg := lift (connect_confirm cfg localRef offer payload) in
        newOpenConn neg (snd max) (c_SizeProfile cfg) localRef))).

(** ** Accept *)

Definition erCauseNotSpecified := 0.
Definition erCauseInvalidParameterCode := 1.
Definition erCauseInvalidTPDUType := 2.
Definition erCauseInvalidParameterValue := 3.

Definition defaultAutoAccept (cfg : ServerConfig) (ind : ConnectIndication) : AcceptDecision + error :=
  if negb (ind_ProposedClass ind =? Class0)
  then inl (mkDecision ConnectReject 0 None ReasonNegotiationFailed) else
  match validateServerCalledSelector (s_LocalSelector cfg) (ind_CalledSelector ind) with
  | Ok _ => inl (mkDecision ConnectAccept 0 None 0)
  | _ => inl (mkDecision ConnectReject 0 None ReasonAddressUnknown)
  end.

Definition class0CRProtocolError (cr : CR) (optionBits : Z) : option Z :=
  if negb (CR_CDT cr =? 0) || negb (optionBits =? 0) then Some erCauseInvalidParameterValue
  else if negb (CR_DestinationRef cr =? 0) then Some erCauseInvalidParameterValue
  else if CR_SourceRef cr =? 0 then Some erCauseInvalidParameterValue
  else if existsb (fun p => isKnownClass0ForbiddenParam (Code p)) (CR_Parameters cr)
  then Some erCauseInvalidParameterCode
  else None.

Definition writeDR (dst src reason : Z) : M unit :=
  do! b := lift (DR_MarshalBinary (Some (mkDR dst src reason [] None))) in
  stream_write no_conn b.

Definition writeER (dst cause : Z) : M unit :=
  do! b := lift (ER_MarshalBinary (Some (mkER dst cause []))) in
  stream_write no_conn b.

(** [_ = w()] *)
Definition ignore (m : M unit) : M unit :=
  do! _ := attempt m in ret tt.

(** Answer with an ER when the CR can be associated, then fail with [err]. *)
Definition refuse_with_ER {A} (cr : CR) (cause : Z) (err : error) : M A :=
  if CR_SourceRef cr =? 0 then fail (Errorf "unassociable Class 0 CR: %w" [Sentinel ErrHandshake]) else
  do! _ := ignore (writeER (CR_SourceRef cr) cause) in
  fail err.

(** What a server makes of the payload it gets: the CR, its offer. *)
Definition accept_request (payload : bytes) : M (CR * sizeOffer) :=
  do! decoded := lift (rewrap ErrHandshake (Decode payload)) in
  match (if D_Type decoded =? TypeCR then D_CR decoded else None) with
  | None => fail (UnexpectedTPDUError (D_Type decoded) PhaseHandshake)
  | Some cr =>
      let preferredClass := Z.shiftr (CR_ClassOption cr) 4 in
      let optionBits := Z.land (CR_ClassOption cr) 15 in
      if negb (preferredClass =? Class0) then
        do! _ := ignore (writeDR (CR_SourceRef cr) 0 ReasonNegotiationFailed) in
        fail (RejectionError ReasonNegotiationFailed None)
      else
      match class0CRProtocolError cr optionBits with
      | Some cause => refuse_with_ER cr cause (Errorf "invalid Class 0 CR: %w" [Sentinel ErrHandshake])
      | None =>
          match decodeSizeOffer (CR_TPDUSize cr) (CR_PreferredMaxTPDUSize cr) with
          | Err e => refuse_with_ER cr erCauseInvalidParameterValue e
          | m =>
              do! peerOffer := lift m in
              if MaxConnectDataLength <? slen (CR_UserData cr)
              then refuse_with_ER cr erCauseInvalidParameterValue
                     (Errorf "CR connect data length %d > %d: %w" [Sentinel ErrHandshake])
              else ret (cr, peerOffer)
          end
      end
  end.

(** The policy decision on an indication; a rejection is answered with a DR. *)
Definition accept_decide (cfg : ServerConfig) (cr : CR) (peerOffer : sizeOffer) : M AcceptDecision :=
  let ind := {| ind_CallingSelector := copyBytes (CR_CallingSelector cr);
                ind_CalledSelector := copyBytes (CR_CalledSelector cr);
                ind_ProposedClass := Z.shiftr (CR_ClassOption cr) 4;
                ind_MaxTPDULength := indicationMaxTPDULength peerOffer;
                ind_ConnectData := copyBytes (CR_UserData cr);
                ind_SourceRef := CR_SourceRef cr |} in
  match (match OnConnect cfg with
         | None => defaultAutoAccept cfg ind
         | Some f => f ind
         end) with
  | inr err => fail (Errorf "%w: %w" [Sentinel ErrHandshake; err])
  | inl decision =>
      let with_handshake {A} (m : outcome A) : M A :=
        lift (match m with Err e => Err (Errorf "%w: %w" [Sentinel ErrHandshake; e]) | m => m end) in
      do! _ := with_handshake (validateConnectAction (Action decision)) in
      if Action decision =? ConnectReject then
        do! _ := ignore (writeDR (CR_SourceRef cr) 0 (RejectReason decision)) in
        fail (RejectionError (RejectReason decision) None)
      else
      do! _ := with_handshake (validateConnectDataLength (dec_ConnectData decision)) in
      do! _ := (if negb (dec_MaxTPDULength decision =? 0)
                then with_handshake (normalizeConfiguredMax (dec_MaxTPDULength decision))
                else ret 0) in
      ret decision
  end.

(** The selectors of the CC: calling, responding. *)
Definition accept_selectors (cfg : ServerConfig) (cr : CR) : goslice * goslice :=
  let responding := copyBytes (s_LocalSelector cfg) in
  if EchoSelectors cfg then
    (copyBytes (CR_CallingSelector cr),
     match responding with None => copyBytes (CR_CalledSelector cr) | Some _ => responding end)
  else (None, responding).

(** The CC of a server. *)
Definition accept_confirm (cfg : ServerConfig) (cr : CR) (decision : AcceptDecision)
    (sel : sizeSelection) (localRef : Z) : CC :=
  let '(calling, responding) := accept_selectors cfg cr in
  {| CC_CDT := 0; CC_DestinationRef := CR_SourceRef cr; CC_SourceRef := localRef;
     CC_ClassOption := 0; CC_Parameters := []; CC_CallingSelector := calling;
     CC_CalledSelector := responding; CC_TPDUSize := sel_StandardCode sel;
     CC_PreferredMaxTPDUSize := sel_PreferredUnits sel;
     CC_UserData := copyBytes (dec_ConnectData decision) |}.

Definition Accept (nil_conn : bool) (cfg : ServerConfig) : M Conn :=
  if nil_conn then fail (Errorf "%w: nil conn" [Sentinel ErrInvalidConfig]) else
  unless_ok closeConn (
    do! max := lift (ServerConfig_preflight cfg) in
    do! _ := check_ctx in
    do! _ := NewReader in
    do! _ := NewWriter in
    do! _ := armHandshake nil_conn in
    defer disarm (
      do! payload := handshake_io (stream_read no_conn) in
      do! req := accept_request payload in
      let '(cr, peerOffer) := req in
      do! decision := accept_decide cfg cr peerOffer in
      do! sel := lift (selectSize peerOffer (fst max) (dec_MaxTPDULength decision) (s_SizeProfile cfg)) in
      do! localRef := allocate in
      unless_ok (release localRef) (
        let cc := accept_confirm cfg cr decision sel localRef in
        do! ccBytes := lift (rewrap ErrHandshake (CC_MarshalBinary (Some cc))) in
        do! _ := handshake_io (stream_write no_conn ccBytes) in
        let neg :=
          {| Class := Class0; MaxTPDULength := Effective sel; LocalRef := localRef;
             RemoteRef := CR_SourceRef cr;
             LocalSelector := copyBytes (snd (accept_selectors cfg cr));
             RemoteSelector := copyBytes (CR_CallingSelector cr);
             PeerConnectData := copyBytes (CR_UserData cr) |} in
        newOpenConn neg (snd max) (s_SizeProfile cfg) localRef))).
