(* ===== verification/HandshakeSpec.v ===== *)
(** * What the handshake guarantees

    Ownership: on every path the stream and the reference are either the new
    connection's or have been given back.  Contract: what each side has checked
    and fixed when it succeeds.  Agreement: the two sides, each given what the
    other sent, end with the same parameters. *)

From S2P Require Import Prelude Errors Types Wire PreferredMax Params Decode Encode Codec.
From S2P Require Import RoundTrip CodecSpec SizeNego Validate RefAlloc World Conn Tsdu.
From S2P Require Import TsduSpec Handshake.

(** ** Steps that own nothing

    [calm P m]: run on a stream that keeps its promises, [m] returns, touches
    neither the stream's life nor the allocator nor the deadline, and a result
    it gives satisfies [P]. *)

Definition calm {A} (P : A -> Prop) (m : M A) : Prop := forall w,
  stream_ok w ->
  wp m (fun r w' => returns r /\ stream_ok w' /\ closes w' = closes w /\ refs w' = refs w /\
    armed w' = armed w /\ forall a, r = Ok a -> P a) w.

Abbreviation calm_ := (calm (fun _ => True)).

Lemma calm_ret {A} (P : A -> Prop) a : P a -> calm P (ret a).
Proof. intros Ha w Hw. apply wp_ret. split_and!; try done. by intros ? [= <-]. Qed.

Lemma calm_fail {A} (P : A -> Prop) e : calm P (fail e).
Proof. intros w Hw. apply wp_fail. by split_and!. Qed.

Lemma calm_lift {A} (P : A -> Prop) (m : outcome A) :
  returns m -> (forall a, m = Ok a -> P a) -> calm P (lift m).
Proof. intros Hm HP w Hw. apply wp_lift. by split_and!. Qed.

Lemma calm_bind {A B} (P : A -> Prop) (Q : B -> Prop) m k :
  calm P m -> (forall a, P a -> calm Q (k a)) -> calm Q (mbind_ m k).
Proof.
  intros Hm Hk w Hw. apply wp_bind. eapply wp_mono; [by apply Hm|].
  intros [a|e| |] w' (Hr & Hst & Hc & Hrf & Ha & HP); try done.
  eapply wp_mono; [apply Hk; [by apply HP|done]|]. cbn.
  intros r w'' (? & ? & ? & ? & ? & ?). split_and!; try done; congruence.
Qed.

Lemma calm_weaken {A} (P Q : A -> Prop) m : calm P m -> (forall a, P a -> Q a) -> calm Q m.
Proof.
  intros Hm HPQ w Hw. eapply wp_mono; [by apply Hm|]. intros r w' (? & ? & ? & ? & ? & ?).
  split_and!; auto.
Qed.

Lemma calm_attempt {A} (P : A -> Prop) m :
  calm P m -> calm (fun r => match r with inl a => P a | inr _ => True end) (attempt m).
Proof.
  intros Hm w Hw. apply wp_attempt. eapply wp_mono; [by apply Hm|].
  intros [a|e| |] w' (? & ? & ? & ? & ? & HP); try done; split_and!; try done; intros ? [= <-]; [by apply HP|done].
Qed.

Lemma calm_ctx_Err : calm_ ctx_Err.
Proof. intros w Hw. unfold wp, ctx_Err. destruct (ctx_errs w); by split_and!. Qed.

Lemma calm_has_deadline : calm_ ctx_has_deadline.
Proof. intros w Hw. by split_and!. Qed.

Lemma calm_check_ctx : calm_ check_ctx.
Proof.
  unfold check_ctx. eapply calm_bind; [apply calm_ctx_Err|].
  intros [e|] _; [apply calm_fail|by apply calm_ret].
Qed.

Lemma calm_write p : calm_ (stream_write no_conn p).
Proof.
  intros w [Hr Hw]. unfold wp, stream_write, no_conn. destruct (writes w) as [|a ws] eqn:E; [by split_and!|]. clear E.
  apply Forall_cons in Hw as [Ha Hw]. destruct (result a); split_and!; try done.
Qed.

Lemma calm_read : calm bytes_ok (stream_read no_conn).
Proof.
  intros w [Hr Hw]. unfold wp, stream_read, no_conn. destruct (reads w) as [|a rs] eqn:E.
  { cbn. split_and!; try done. unfold stream_ok. by rewrite E. }
  apply Forall_cons in Hr as [[_ Ha] Hr]. destruct (result a) as [p|e]; split_and!; try done.
  intros ? [= <-]. by destruct Ha.
Qed.

Lemma calm_reader : calm_ NewReader.
Proof. intros w Hw. unfold wp, NewReader. destruct (reader_err w); by split_and!. Qed.

Lemma calm_writer : calm_ NewWriter.
Proof. intros w Hw. unfold wp, NewWriter. destruct (writer_err w); by split_and!. Qed.

Lemma calm_connectIOError {A} (P : A -> Prop) err : calm P (connectIOError err).
Proof.
  unfold connectIOError. eapply calm_bind; [apply calm_ctx_Err|]. intros [e|] _.
  - eapply calm_bind; [apply calm_ctx_Err|]. intros. apply calm_fail.
  - eapply calm_bind; [apply calm_has_deadline|]. intros ok _. repeat split_goal; apply calm_fail.
Qed.

Lemma calm_io {A} (P : A -> Prop) (m : M A) : calm P m -> calm P (handshake_io m).
Proof.
  intros Hm. unfold handshake_io. eapply calm_bind; [by apply calm_attempt|].
  intros [a|e] Ha; [by apply calm_ret|apply calm_connectIOError].
Qed.

Lemma calm_ignore m : calm_ m -> calm_ (ignore m).
Proof.
  intros Hm. unfold ignore. eapply calm_bind; [by apply calm_attempt|]. intros. by apply calm_ret.
Qed.

(** ** Pure steps return *)

Lemma returns_if {A} (c : bool) (x y : outcome A) : returns x -> returns y -> returns (if c then x else y).
Proof. by destruct c. Qed.

Lemma normalizeConfiguredMax_returns n : returns (normalizeConfiguredMax n).
Proof. unfold normalizeConfiguredMax. by repeat apply returns_if. Qed.

Lemma fallbackStandard_returns n : returns (fallbackStandard n).
Proof. unfold fallbackStandard. apply returns_if; [done|]. by destruct (find_fallback _ _). Qed.
#[export] Hint Resolve normalizeConfiguredMax_returns fallbackStandard_returns : cotp.

Lemma preferredUnits_returns n : returns (preferredUnitsAndEffective n).
Proof. unfold preferredUnitsAndEffective. go_returns; auto with cotp. Qed.
#[export] Hint Resolve preferredUnits_returns : cotp.

Lemma fallback_offer_returns u e : returns (fallback_offer u e).
Proof. unfold fallback_offer. go_returns; auto with cotp. Qed.
#[export] Hint Resolve fallback_offer_returns : cotp.

Lemma buildSizeOffer_returns c p : returns (buildSizeOffer c p).
Proof.
  unfold buildSizeOffer. go_returns; auto with cotp; destruct (class0StandardCode a); go_returns; auto with cotp.
Qed.

Lemma decodeSizeOffer_returns c p : returns (decodeSizeOffer c p).
Proof.
  unfold decodeSizeOffer. destruct c as [c|], p as [p|]; try done; go_returns; try done;
    try (by destruct (class0StandardSize c)).
Qed.

Lemma selectSize_returns o s c p : returns (selectSize o s c p).
Proof.
  unfold selectSize, selectOmittedCR, selectPreferredPath, selectStandardPath, normalizeStandardCeiling,
    normalizePreferredCeiling.
  go_returns; auto with cotp;
    repeat first [done | progress go_returns | solve [auto with cotp] | split_goal].
Qed.

Lemma ClientConfig_preflight_returns cfg : returns (ClientConfig_preflight cfg).
Proof.
  unfold ClientConfig_preflight, validateSizeProfile, validateMaxTSDULength, validateSelectorLength,
    validateConnectDataLength. go_returns; auto with cotp.
Qed.

Lemma ServerConfig_preflight_returns cfg : returns (ServerConfig_preflight cfg).
Proof.
  unfold ServerConfig_preflight, validateSizeProfile, validateMaxTSDULength, validateSelectorLength.
  go_returns; auto with cotp.
Qed.

Lemma validateCCParameters_returns ps : returns (validateCCParameters ps).
Proof. induction ps as [|p ps IH]; [done|]. cbn [validateCCParameters]. by repeat apply returns_if. Qed.

Lemma connect_confirm_returns cfg ref offer p :
  bytes_ok p -> returns (connect_confirm cfg ref offer p).
Proof.
  intros Hp. unfold connect_confirm, validateClass0CCFixed, validateCCReferences.
  go_returns; auto using returns_rewrap, Decode_total.
  destruct (D_CC a); [|done]. go_returns; auto using validateCCParameters_returns, interpret_returns.
Qed.

(** ** Steps of the server *)

Lemma calm_writeDR d s r : calm_ (writeDR d s r).
Proof.
  unfold writeDR. apply (calm_bind (fun _ => True)); [by apply calm_lift|]. intros. apply calm_write.
Qed.

Lemma calm_writeER d c : calm_ (writeER d c).
Proof.
  unfold writeER. apply (calm_bind (fun _ => True)); [by apply calm_lift|]. intros. apply calm_write.
Qed.

Lemma calm_refuse {A} (P : A -> Prop) cr cause err : calm P (refuse_with_ER cr cause err).
Proof.
  unfold refuse_with_ER. destruct (CR_SourceRef cr =? 0); [apply calm_fail|].
  eapply calm_bind; [apply calm_ignore, calm_writeER|]. intros. apply calm_fail.
Qed.

Lemma calm_accept_request p : bytes_ok p -> calm_ (accept_request p).
Proof.
  intros Hp. unfold accept_request.
  apply (calm_bind (fun _ => True)); [apply calm_lift; [by apply returns_rewrap, Decode_total|done]|].
  intros d _. destruct (if D_Type d =? TypeCR then D_CR d else None) as [cr|]; [|apply calm_fail].
  destruct (negb _).
  { eapply calm_bind; [apply calm_ignore, calm_writeDR|]. intros. apply calm_fail. }
  destruct (class0CRProtocolError _ _); [apply calm_refuse|].
  pose proof (decodeSizeOffer_returns (CR_TPDUSize cr) (CR_PreferredMaxTPDUSize cr)) as Hr.
  destruct (decodeSizeOffer _ _) as [o|e| |]; try done; [|apply calm_refuse].
  apply (calm_bind (fun _ => True)); [by apply calm_lift|]. intros o' _.
  destruct (MaxConnectDataLength <? _); [apply calm_refuse|by apply calm_ret].
Qed.

Lemma returns_validateAction a : returns (validateConnectAction a).
Proof. unfold validateConnectAction. by apply returns_if. Qed.

Lemma returns_validateData d : returns (validateConnectDataLength d).
Proof. unfold validateConnectDataLength. by apply returns_if. Qed.

Lemma returns_wrapped {A} (m : outcome A) :
  returns m -> returns (match m with Err e => Err (Errorf "%w: %w" [Sentinel ErrHandshake; e]) | m => m end).
Proof. by destruct m. Qed.

Lemma calm_accept_decide cfg cr o : calm_ (accept_decide cfg cr o).
Proof.
  unfold accept_decide. destruct (match OnConnect cfg with None => _ | Some _ => _ end) as [d|e]; [|apply calm_fail].
  apply (calm_bind (fun _ => True)); [apply calm_lift; [apply returns_wrapped, returns_validateAction|done]|].
  intros _ _. destruct (Action d =? ConnectReject).
  { eapply calm_bind; [apply calm_ignore, calm_writeDR|]. intros. apply calm_fail. }
  apply (calm_bind (fun _ => True)); [apply calm_lift; [apply returns_wrapped, returns_validateData|done]|].
  intros _ _. apply (calm_bind (fun _ => True)).
  - destruct (negb _); [|by apply calm_ret].
    apply calm_lift; [apply returns_wrapped, normalizeConfiguredMax_returns|done].
  - intros. by apply calm_ret.
Qed.

Lemma u32_range x : is_u32 (u32 x).
Proof. apply Z.mod_pos_bound. lia. Qed.

Lemma CR_Marshal_returns c : opt_typed is_u32 (CR_PreferredMaxTPDUSize c) -> returns (CR_MarshalBinary (Some c)).
Proof. intros H. cbn [CR_MarshalBinary]. go_returns. by apply encodeCRCC_returns. Qed.

Lemma CC_Marshal_returns c : opt_typed is_u32 (CC_PreferredMaxTPDUSize c) -> returns (CC_MarshalBinary (Some c)).
Proof. intros H. cbn [CC_MarshalBinary]. go_returns. by apply encodeCRCC_returns. Qed.

Lemma buildSizeOffer_u32 c p b : buildSizeOffer c p = Ok b -> opt_typed is_u32 (cr_PreferredUnits b).
Proof.
  intros Hb. destruct (buildSizeOffer_valid _ _ _ Hb) as [Hv Hp].
  destruct (buildSizeOffer_Ok c p Hv Hp) as (b' & Hb' & ((_ & _ & Hpr) & _ & Hu & _)).
  rewrite Hb in Hb'. injection Hb' as <-. rewrite Hu. destruct (Preferred (Offer b)) as [p'|]; [|done].
  destruct (Hpr p' eq_refl) as (n & -> & Hn). cbn. rewrite Z.div_mul by lia. unfold is_u32. lia.
Qed.

Lemma selectSize_u32 o s c p sel : selectSize o s c p = Ok sel -> opt_typed is_u32 (sel_PreferredUnits sel).
Proof.
  unfold selectSize, selectOmittedCR, selectPreferredPath, selectStandardPath.
  intros H. repeat first [discriminate H | rewrite obind_Ok in H; destruct H as (? & _ & H) | split_hyp H];
    injection H as <-; cbn; auto using u32_range.
Qed.

Lemma connect_confirm_ref cfg ref offer p neg : connect_confirm cfg ref offer p = Ok neg -> LocalRef neg = ref.
Proof.
  unfold connect_confirm. intros H.
  repeat first [discriminate H | rewrite obind_Ok in H; destruct H as (? & _ & H)
    | match type of H with (if ?c then _ else _) = _ => destruct c | (match ?x with _ => _ end) = _ => destruct x end].
  by injection H as <-.
Qed.

(** ** Ownership *)

(** How a handshake leaves the stream and the references. *)
Definition owned (w : world) (r : outcome Conn) (w' : world) : Prop :=
  armed w' = false /\ allocator_ok (refs w') /\
  match r with
  | Ok c =>
      closes w' = closes w /\ term w' = open_term /\ localRef c <> 0 /\
      LocalRef (negotiated c) = localRef c /\
      (localRef c ∉ active (refs w)) /\ active (refs w') = {[localRef c]} ∪ active (refs w)
  | Err _ => closes w' = S (closes w) /\ active (refs w') = active (refs w)
  | Panic | NoFuel => False
  end.

(** A step that owns nothing, before a step that may. *)
Lemma wp_calm {A B} (P : A -> Prop) (m : M A) (k : A -> M B) Q w :
  stream_ok w -> calm P m ->
  (forall e w', stream_ok w' -> closes w' = closes w -> refs w' = refs w -> armed w' = armed w -> Q (Err e) w') ->
  (forall a w', P a -> stream_ok w' -> closes w' = closes w -> refs w' = refs w -> armed w' = armed w ->
     wp (k a) Q w') ->
  wp (mbind_ m k) Q w.
Proof.
  intros Hw Hm He Hk. apply wp_bind. eapply wp_mono; [by apply Hm|].
  intros [a|e| |] w' (Hr & Hst & Hc & Hrf & Ha & HP); try done; [|by apply He].
  apply Hk; auto.
Qed.

(** The allocation, and the deferred release. *)
Lemma wp_allocate (k : Z -> M Conn) (Q : outcome Conn -> world -> Prop) w :
  stream_ok w -> allocator_ok (refs w) ->
  (forall e w', stream_ok w' -> closes w' = closes w -> refs w' = refs w -> armed w' = armed w -> Q (Err e) w') ->
  (forall ref w', 1 <= ref < 65536 -> (ref ∉ active (refs w)) -> active (refs w') = {[ref]} ∪ active (refs w) ->
     allocator_ok (refs w') -> stream_ok w' -> closes w' = closes w -> armed w' = armed w ->
     wp (k ref) (fun r w'' => match r with Ok _ => Q r w'' | _ => Q r (release ref w'') end) w') ->
  wp (do! ref := allocate in unless_ok (release ref) (k ref)) Q w.
Proof.
  intros Hst Ha He Hk. apply wp_bind. unfold wp at 1, allocate.
  destruct (Allocate (refs w)) as [r a'] eqn:Hal. cbn [fst snd].
  destruct r as [ref|e| |].
  - destruct (Allocate_Ok _ _ _ Ha Hal) as (Hr & Hna & Hact & Hok).
    apply wp_unless_ok, Hk; try done.
  - destruct (Allocate_Err _ _ _ Ha Hal) as (_ & -> & _). by apply He.
  - exfalso. revert Hal. unfold Allocate. destruct (65535 <=? _); [done|]. by destruct (allocate_loop _ _ _) as [[?|] ?].
  - exfalso. revert Hal. unfold Allocate. destruct (65535 <=? _); [done|]. by destruct (allocate_loop _ _ _) as [[?|] ?].
Qed.

Lemma release_active w w' w'' ref :
  1 <= ref < 65536 -> (ref ∉ active (refs w)) -> active (refs w') = {[ref]} ∪ active (refs w) ->
  refs w'' = refs w' -> active (refs (release ref w'')) = active (refs w).
Proof.
  intros Hr Hna Hact Heq. unfold release, Release. cbn [refs set_refs]. rewrite Heq.
  destruct (Z.eqb_spec ref 0); [lia|]. cbn [active]. rewrite Hact.
  apply set_eq. intros x. rewrite elem_of_difference, elem_of_union, elem_of_singleton. naive_solver.
Qed.

(** Arming: nothing else changes. *)
Lemma wp_arm {B} (k : unit -> M B) Q w :
  (forall e w', closes w' = closes w -> refs w' = refs w -> armed w' = armed w -> Q (Err e) w') ->
  (forall w', (stream_ok w -> stream_ok w') -> closes w' = closes w -> refs w' = refs w -> wp (k tt) Q w') ->
  wp (mbind_ arm k) Q w.
Proof.
  intros He Hk. apply wp_bind. unfold wp at 1.
  destruct (arm_spec w) as [(w' & -> & (Ht & Hc & Hr) & Ha & Hrd & Hwr & _)|(e & w' & -> & (_ & Hc & Hr) & Hio)];
    cbn [fst snd].
  - apply Hk; [unfold stream_ok; by rewrite Hrd, Hwr|done|done].
  - destruct Hio as (_ & _ & _ & _ & _ & Ha & _). by apply He.
Qed.

Lemma Connect_owned cfg w :
  stream_ok w -> allocator_ok (refs w) -> armed w = false ->
  wp (Connect false cfg) (owned w) w.
Proof.
  intros Hst Hal Harm. unfold Connect. apply wp_unless_ok.
  assert (forall e w', stream_ok w' -> closes w' = closes w -> refs w' = refs w -> armed w' = armed w ->
    owned w (Err e) (closeConn w')) as Hfail.
  { intros e w' _ Hc Hr Ha. unfold owned. cbn. split_and!; congruence. }
  eapply wp_calm; [done|apply (calm_lift (fun _ => True)); [apply ClientConfig_preflight_returns|done]|done|].
  intros [mt ms] w1 _ Hst1 Hc1 Hr1 Ha1.
  eapply wp_calm; [done|apply calm_check_ctx|intros; apply Hfail; congruence|]. intros _ w2 _ Hst2 Hc2 Hr2 Ha2.
  eapply wp_calm; [done|apply calm_reader|intros; apply Hfail; congruence|]. intros _ w3 _ Hst3 Hc3 Hr3 Ha3.
  eapply wp_calm; [done|apply calm_writer|intros; apply Hfail; congruence|]. intros _ w4 _ Hst4 Hc4 Hr4 Ha4.
  assert (refs w4 = refs w) as Hrw by congruence. cbn [fst snd].
  apply wp_allocate; [done|by rewrite Hrw|intros; apply Hfail; congruence|].
  intros ref w5 Href Hna Hact Hok5 Hst5 Hc5 Ha5. rewrite Hrw in Hna, Hact.
  assert (forall e w', closes w' = closes w5 -> refs w' = refs w5 -> armed w' = armed w5 ->
    owned w (Err e) (closeConn (release ref w'))) as Hfail5.
  { intros e w' Hc Hr Ha. unfold owned. cbn. split_and!; [congruence|rewrite Hr; by apply Release_ok|congruence|].
    by apply (release_active w w5 w' ref). }
  eapply (wp_calm (fun b => opt_typed is_u32 (cr_PreferredUnits b)));
    [done|apply calm_lift; [apply buildSizeOffer_returns|apply buildSizeOffer_u32]|intros; by apply Hfail5|].
  intros offer w6 Hof Hst6 Hc6 Hr6 Ha6.
  eapply wp_calm; [done|apply (calm_lift (fun _ => True)); [by apply returns_rewrap, CR_Marshal_returns|done]
    |intros; apply Hfail5; congruence|].
  intros crBytes w7 _ Hst7 Hc7 Hr7 Ha7.
  apply wp_arm; [intros; apply Hfail5; congruence|]. intros w8 Hst8 Hc8 Hr8.
  specialize (Hst8 Hst7). apply wp_defer.
  assert (forall e w', closes w' = closes w8 -> refs w' = refs w8 ->
    owned w (Err e) (closeConn (release ref (disarm w')))) as Hfail8.
  { intros e w' Hc Hr. apply Hfail5; cbn; congruence. }
  eapply wp_calm; [done|apply (calm_io (fun _ => True)), calm_write|auto|].
  intros _ w9 _ Hst9 Hc9 Hr9 Ha9.
  eapply wp_calm; [done|apply calm_io, calm_read|intros; apply Hfail8; congruence|].
  intros payload w10 Hp Hst10 Hc10 Hr10 Ha10.
  eapply (wp_calm (fun n => LocalRef n = ref)); [done|apply calm_lift;
    [by apply connect_confirm_returns|apply connect_confirm_ref]|intros; apply Hfail8; congruence|].
  intros neg w11 Hneg Hst11 Hc11 Hr11 Ha11. unfold wp, newOpenConn, owned. cbn.
  split_and!; try done; try congruence; try lia.
Qed.

Lemma Accept_owned cfg w :
  stream_ok w -> allocator_ok (refs w) -> armed w = false ->
  wp (Accept false cfg) (owned w) w.
Proof.
  intros Hst Hal Harm. unfold Accept. apply wp_unless_ok.
  assert (forall e w', closes w' = closes w -> refs w' = refs w -> armed w' = armed w ->
    owned w (Err e) (closeConn w')) as Hfail.
  { intros e w' Hc Hr Ha. unfold owned. cbn. split_and!; congruence. }
  eapply wp_calm; [done|apply (calm_lift (fun _ => True)); [apply ServerConfig_preflight_returns|done]|auto|].
  intros [mt ms] w1 _ Hst1 Hc1 Hr1 Ha1.
  eapply wp_calm; [done|apply calm_check_ctx|intros; apply Hfail; congruence|]. intros _ w2 _ Hst2 Hc2 Hr2 Ha2.
  eapply wp_calm; [done|apply calm_reader|intros; apply Hfail; congruence|]. intros _ w3 _ Hst3 Hc3 Hr3 Ha3.
  eapply wp_calm; [done|apply calm_writer|intros; apply Hfail; congruence|]. intros _ w4 _ Hst4 Hc4 Hr4 Ha4.
  cbn [fst snd].
  apply wp_arm; [intros; apply Hfail; congruence|]. intros w8 Hst8 Hc8 Hr8.
  specialize (Hst8 Hst4). apply wp_defer. assert (refs w8 = refs w) as Hrw by congruence.
  assert (forall e w', stream_ok w' -> closes w' = closes w8 -> refs w' = refs w8 -> armed w' = armed w8 ->
    owned w (Err e) (closeConn (disarm w'))) as Hfail8.
  { intros e w' _ Hc Hr _. unfold owned. cbn. split_and!; congruence. }
  eapply wp_calm; [done|apply calm_io, calm_read|done|]. intros payload w9 Hp Hst9 Hc9 Hr9 Ha9.
  eapply wp_calm; [done|by apply calm_accept_request|intros; apply Hfail8; congruence|].
  intros [cr offer] w10 _ Hst10 Hc10 Hr10 Ha10.
  eapply wp_calm; [done|apply calm_accept_decide|intros; apply Hfail8; congruence|].
  intros d w11 _ Hst11 Hc11 Hr11 Ha11.
  eapply (wp_calm (fun b => opt_typed is_u32 (sel_PreferredUnits b)));
    [done|apply calm_lift; [apply selectSize_returns|apply selectSize_u32]|intros; apply Hfail8; congruence|].
  intros sel w12 Hsel Hst12 Hc12 Hr12 Ha12.
  assert (refs w12 = refs w) as Hrw12 by congruence.
  apply wp_allocate; [done|by rewrite Hrw12|intros; apply Hfail8; congruence|].
  intros ref w5 Href Hna Hact Hok5 Hst5 Hc5 Ha5. rewrite Hrw12 in Hna, Hact.
  assert (forall e w', stream_ok w' -> closes w' = closes w5 -> refs w' = refs w5 -> armed w' = armed w5 ->
    owned w (Err e) (closeConn (disarm (release ref w')))) as Hfail5.
  { intros e w' _ Hc Hr Ha. unfold owned. cbn. split_and!; [done|rewrite Hr; by apply Release_ok|congruence|].
    by apply (release_active w w5 w' ref). }
  eapply wp_calm; [done|apply (calm_lift (fun _ => True));
    [apply returns_rewrap, CC_Marshal_returns; by unfold accept_confirm; destruct (accept_selectors cfg cr)|done]|done|].
  intros ccBytes w6 _ Hst6 Hc6 Hr6 Ha6.
  eapply wp_calm; [done|apply (calm_io (fun _ => True)), calm_write|intros; apply Hfail5; congruence|].
  intros _ w7 _ Hst7 Hc7 Hr7 Ha7. unfold wp, newOpenConn, owned. cbn.
  split_and!; try done; try congruence; try lia.
Qed.

(** ** Runs that succeed *)

Lemma bind_inv {A B} (m : M A) (k : A -> M B) w r w' :
  mbind_ m k w = (Ok r, w') -> exists a w1, m w = (Ok a, w1) /\ k a w1 = (Ok r, w').
Proof. unfold mbind_. destruct (m w) as [[a|e| |] w1]; try done. eauto. Qed.

Lemma unless_inv {A} f (m : M A) w r w' : unless_ok f m w = (Ok r, w') -> m w = (Ok r, w').
Proof. unfold unless_ok. by destruct (m w) as [[a|e| |] w1]. Qed.

Lemma defer_inv {A} f (m : M A) w r w' :
  defer f m w = (Ok r, w') -> exists w1, m w = (Ok r, w1) /\ w' = f w1.
Proof. unfold defer. destruct (m w) as [r1 w1]. intros [= -> <-]. eauto. Qed.

Lemma lift_inv {A} (m : outcome A) w r w' : lift m w = (Ok r, w') -> m = Ok r /\ w' = w.
Proof. unfold lift. by intros [= -> <-]. Qed.

Lemma attempt_inv {A} (m : M A) w a w' : attempt m w = (Ok (inl a), w') -> m w = (Ok a, w').
Proof. unfold attempt. destruct (m w) as [[x|e| |] w1]; try done. by intros [= -> <-]. Qed.

Lemma connectIOError_inv {A} err w (r : A) w' : connectIOError err w = (Ok r, w') -> False.
Proof.
  unfold connectIOError. intros (o & w1 & _ & H)%bind_inv. destruct o as [e|].
  - by apply bind_inv in H as (? & ? & _ & ?).
  - apply bind_inv in H as (ok & w2 & _ & H). revert H. by repeat split_goal.
Qed.

Lemma io_inv {A} (m : M A) w r w' : handshake_io m w = (Ok r, w') -> m w = (Ok r, w').
Proof.
  unfold handshake_io. intros (a & w1 & Ha & H)%bind_inv. destruct a as [a|e].
  - apply attempt_inv in Ha. by injection H as <- <-.
  - by apply connectIOError_inv in H.
Qed.

(** What a handshake does not touch between its stream calls. *)
Definition same_io (w w' : world) : Prop :=
  reads w' = reads w /\ sent w' = sent w /\ refs w' = refs w.

Lemma check_ctx_inv w r w' : check_ctx w = (Ok r, w') -> same_io w w'.
Proof.
  destruct (check_ctx_spec w) as (r' & w1 & -> & (Hr & _ & Hs & _) & (_ & _ & Hf) & _).
  by intros [= _ <-].
Qed.

Lemma arm_inv w r w' : arm w = (Ok r, w') -> same_io w w'.
Proof. unfold arm. intros (a & w1 & H%check_ctx_inv & [= _ <-])%bind_inv. exact H. Qed.

Lemma reader_inv w r w' : NewReader w = (Ok r, w') -> w' = w.
Proof. unfold NewReader. destruct (reader_err w); [done|]. by intros [= _ <-]. Qed.

Lemma writer_inv w r w' : NewWriter w = (Ok r, w') -> w' = w.
Proof. unfold NewWriter. destruct (writer_err w); [done|]. by intros [= _ <-]. Qed.

Lemma allocate_inv w r w' :
  allocate w = (Ok r, w') ->
  exists a, Allocate (refs w) = (Ok r, a) /\ refs w' = a /\ reads w' = reads w /\ sent w' = sent w.
Proof. unfold allocate. destruct (Allocate (refs w)) as [o a]. intros [= -> <-]. eauto. Qed.

Lemma write_inv p w r w' :
  stream_write no_conn p w = (Ok r, w') -> reads w' = reads w /\ sent w' = sent w ++ [p] /\ refs w' = refs w.
Proof.
  unfold stream_write, no_conn. destruct (writes w) as [|a ws]; cbn; [by intros [= _ <-]|].
  destruct (result a); [|done]. by intros [= _ <-].
Qed.

Lemma read_inv w p w' :
  stream_read no_conn w = (Ok p, w') ->
  sent w' = sent w /\ refs w' = refs w /\
  exists a, reads w = a :: reads w' /\ result a = inl p.
Proof.
  unfold stream_read, no_conn. destruct (reads w) as [|a rs]; [done|]. cbn.
  destruct (result a) eqn:E; [|done]. intros [= <- <-]. split_and!; try done. by exists a.
Qed.

(** Take a successful run apart, step by step. *)
Ltac run_inv H :=
  repeat first
    [ apply unless_inv in H
    | apply defer_inv in H; let w := fresh "w" in let E := fresh "E" in destruct H as (w & H & E)
    | apply bind_inv in H; let a := fresh "a" in let w := fresh "w" in let E := fresh "E" in
      destruct H as (a & w & E & H) ].

Lemma class0_code_u8 s c : class0StandardCode s = Some c -> is_u8 c.
Proof.
  unfold class0StandardCode, class0StandardSizes, is_u8. cbn [find_size].
  repeat (split_goal; [intros [= <-]; lia|]). done.
Qed.

Lemma offer_code_u8 b ceiling profile : build_ok b ceiling profile -> opt_typed is_u8 (cr_StandardCode b).
Proof.
  intros ((_ & Hst & _) & Hsc & _). rewrite Hsc. destruct (Standard (Offer b)) as [s|]; [|done].
  destruct (Hst s eq_refl) as [c Hc]. cbn [option_map opt_typed]. rewrite Hc. by eapply class0_code_u8.
Qed.

Lemma selection_code_u8 sel : selection_ok sel -> opt_typed is_u8 (sel_StandardCode sel).
Proof.
  unfold selection_ok. destruct (Path sel).
  - by intros (-> & _).
  - intros (-> & [c Hc] & _). rewrite Hc. by eapply class0_code_u8.
  - by intros (-> & _).
Qed.

Lemma norm_max_idem c : valid_max c -> norm_max (norm_max c) = norm_max c /\ valid_max (norm_max c).
Proof.
  intros H%norm_max_range. split; [|right; lia].
  unfold norm_max at 1. destruct (Z.eqb_spec (norm_max c) 0); lia.
Qed.

Lemma Connect_inv cfg w c w' :
  Connect false cfg w = (Ok c, w') ->
  exists mt ms ref al offer b a p neg,
    ClientConfig_preflight cfg = Ok (mt, ms) /\ Allocate (refs w) = (Ok ref, al) /\
    buildSizeOffer mt (c_SizeProfile cfg) = Ok offer /\
    CR_MarshalBinary (Some (connect_request cfg ref offer)) = Ok b /\
    reads w = a :: reads w' /\ result a = inl p /\
    connect_confirm cfg ref offer p = Ok neg /\
    c = mkConn neg ms (c_SizeProfile cfg) ref /\ sent w' = sent w ++ [b].
Proof.
  unfold Connect. intros H. run_inv H.
  apply lift_inv in E as [Hpre ->]. apply check_ctx_inv in E0 as (Er0 & Es0 & Ef0).
  apply reader_inv in E1 as ->. apply writer_inv in E2 as ->.
  apply allocate_inv in E3 as (al & Hal & Ef3 & Er3 & Es3). rewrite Ef0 in Hal.
  apply lift_inv in E4 as [Hoff ->]. apply lift_inv in E5 as [Hb ->]. rewrite rewrap_Ok in Hb.
  apply arm_inv in E6 as (Er6 & Es6 & _).
  apply io_inv, write_inv in E8 as (Er8 & Es8 & _). apply io_inv, read_inv in E9 as (Es9 & _ & a' & Er9 & Ha').
  apply lift_inv in E10 as [Hc ->]. injection H as <- <-. subst w'. destruct a as [mt ms].
  exists mt, ms, a3, al, a4, a5, a', a8, a9. cbn. split_and!; try done; congruence.
Qed.

Lemma Accept_inv cfg w c w' :
  Accept false cfg w = (Ok c, w') ->
  exists mt ms a p w1 cr offer w2 d w3 sel ref al b,
    ServerConfig_preflight cfg = Ok (mt, ms) /\
    reads w = a :: reads w1 /\ result a = inl p /\ sent w1 = sent w /\ refs w1 = refs w /\
    accept_request p w1 = (Ok (cr, offer), w2) /\ accept_decide cfg cr offer w2 = (Ok d, w3) /\
    selectSize offer mt (dec_MaxTPDULength d) (s_SizeProfile cfg) = Ok sel /\
    Allocate (refs w3) = (Ok ref, al) /\
    CC_MarshalBinary (Some (accept_confirm cfg cr d sel ref)) = Ok b /\
    sent w' = sent w3 ++ [b] /\ reads w' = reads w3 /\
    c = mkConn (mkNegotiated Class0 (Effective sel) ref (CR_SourceRef cr)
                  (copyBytes (snd (accept_selectors cfg cr))) (copyBytes (CR_CallingSelector cr))
                  (copyBytes (CR_UserData cr)))
          ms (s_SizeProfile cfg) ref.
Proof.
  unfold Accept. intros H. run_inv H.
  apply lift_inv in E as [Hpre ->]. apply check_ctx_inv in E0 as (Er0 & Es0 & Ef0).
  apply reader_inv in E1 as ->. apply writer_inv in E2 as ->. apply arm_inv in E3 as (Er3 & Es3 & Ef3).
  apply io_inv, read_inv in E5 as (Es5 & Ef5 & a' & Er5 & Ha').
  destruct a5 as [cr offer]. run_inv H.
  apply lift_inv in E0 as [Hsel ->]. apply allocate_inv in E1 as (al & Hal & Ef1 & Er1 & Es1).
  apply lift_inv in E2 as [Hb ->]. rewrite rewrap_Ok in Hb.
  apply io_inv, write_inv in E3 as (Er10 & Es10 & _). injection H as <- <-. subst w'.
  destruct a as [mt ms].
  match goal with
  | Hr : accept_request ?p ?w1 = (_, ?w2), Hd : accept_decide _ _ _ _ = (Ok ?d, ?w3),
    Hs : selectSize _ _ _ _ = Ok ?sel, Hm : CC_MarshalBinary (Some (accept_confirm _ _ _ _ ?ref)) = Ok ?b |- _ =>
      exists mt, ms, a', p, w1, cr, offer, w2, d, w3, sel, ref, al, b
  end.
  cbn. split_and!; try done; congruence.
Qed.

(** What a server has checked of the request it goes on with. *)
Lemma accept_request_inv p w cr offer w' :
  accept_request p w = (Ok (cr, offer), w') ->
  w' = w /\ exists d, Decode p = Ok d /\ D_Type d = TypeCR /\ D_CR d = Some cr /\
    Z.shiftr (CR_ClassOption cr) 4 = 0 /\ class0CRProtocolError cr (Z.land (CR_ClassOption cr) 15) = None /\
    decodeSizeOffer (CR_TPDUSize cr) (CR_PreferredMaxTPDUSize cr) = Ok offer /\ slen (CR_UserData cr) <= 32.
Proof.
  assert (forall (m : M unit) (err : error) w r w', (do! _ := ignore m in @fail (CR * sizeOffer) err) w <> (Ok r, w'))
    as Hign by (intros m err w0 r w0' (? & ? & _ & ?)%bind_inv; done).
  assert (forall cr c err w r w', @refuse_with_ER (CR * sizeOffer) cr c err w <> (Ok r, w')) as Href.
  { intros cr0 c err w0 r w0'. unfold refuse_with_ER. destruct (_ =? 0); [done|]. apply Hign. }
  unfold accept_request. intros (d & w1 & [Hd ->]%lift_inv & H)%bind_inv. rewrite rewrap_Ok in Hd.
  destruct (Z.eqb_spec (D_Type d) TypeCR) as [Ht|]; [|done]. destruct (D_CR d) as [cr0|] eqn:Hcr; [|done].
  destruct (Z.eqb_spec (Z.shiftr (CR_ClassOption cr0) 4) Class0) as [Hcl|]; cbn [negb] in H; [|by apply Hign in H].
  destruct (class0CRProtocolError cr0 _) eqn:Hc0; [by apply Href in H|].
  destruct (decodeSizeOffer _ _) as [o|e| |] eqn:Ho; [|by apply Href in H|done|done].
  apply bind_inv in H as (o' & w2 & [[= <-] ->]%lift_inv & H).
  destruct (Z.ltb_spec MaxConnectDataLength (slen (CR_UserData cr0))) as [|Hu]; [by apply Href in H|].
  injection H as <- <- <-. split; [done|]. exists d. by split_and!.
Qed.

(** The policy of a server on a request. *)
Definition policy (cfg : ServerConfig) (cr : CR) (offer : sizeOffer) : AcceptDecision + error :=
  let ind := {| ind_CallingSelector := copyBytes (CR_CallingSelector cr);
                ind_CalledSelector := copyBytes (CR_CalledSelector cr);
                ind_ProposedClass := Z.shiftr (CR_ClassOption cr) 4;
                ind_MaxTPDULength := indicationMaxTPDULength offer;
                ind_ConnectData := copyBytes (CR_UserData cr);
                ind_SourceRef := CR_SourceRef cr |} in
  match OnConnect cfg with
  | None => defaultAutoAccept cfg ind
  | Some f => f ind
  end.

Lemma normalize_Ok n m : normalizeConfiguredMax n = Ok m -> valid_max n /\ m = norm_max n.
Proof.
  unfold normalizeConfiguredMax, valid_max, norm_max, MinTPDULength, MaxITOTTPDULength.
  destruct (Z.eqb_spec n 0) as [->|]; [by intros [= <-]; split; [left|]|].
  destruct ((n <? 128) || (65531 <? n)) eqn:E; [done|]. intros [= <-]. split; [right; blia|done].
Qed.

Lemma accept_decide_inv cfg cr offer w d w' :
  accept_decide cfg cr offer w = (Ok d, w') ->
  w' = w /\ policy cfg cr offer = inl d /\ Action d = ConnectAccept /\ slen (dec_ConnectData d) <= 32 /\
  valid_max (dec_MaxTPDULength d).
Proof.
  unfold accept_decide. fold (policy cfg cr offer). destruct (policy cfg cr offer) as [d0|e]; [|done].
  unfold validateConnectAction, validateConnectDataLength. intros H.
  apply bind_inv in H as ([] & w1 & [Ha ->]%lift_inv & H).
  destruct (Z.eqb_spec (Action d0) ConnectReject) as [|Hrej]; cbn [negb andb] in Ha.
  { by apply bind_inv in H as (? & ? & _ & ?). }
  destruct (Z.eqb_spec (Action d0) ConnectAccept) as [Hacc|]; [|done].
  apply bind_inv in H as ([] & w1 & [Hl ->]%lift_inv & H).
  destruct (Z.ltb_spec MaxConnectDataLength (slen (dec_ConnectData d0))) as [|Hu]; [done|].
  apply bind_inv in H as (m & w1 & Hm & [= <- <-]).
  destruct (Z.eqb_spec (dec_MaxTPDULength d0) 0) as [E|E]; cbn [negb] in Hm.
  - injection Hm as _ <-. split_and!; try done. by left.
  - apply lift_inv in Hm as [Hm ->]. split_and!; try done.
    destruct (normalizeConfiguredMax _) as [?|?| |] eqn:Hn; try done. by apply normalize_Ok in Hn as [? _].
Qed.

(** The configurations the code goes on with. *)
Definition client_valid (cfg : ClientConfig) : Prop :=
  valid_profile (c_SizeProfile cfg) /\ valid_max (c_MaxTPDULength cfg) /\ 0 <= c_MaxTSDULength cfg /\
  slen (c_LocalSelector cfg) <= 255 /\ slen (c_RemoteSelector cfg) <= 255 /\ slen (c_ConnectData cfg) <= 32.

Definition server_valid (cfg : ServerConfig) : Prop :=
  valid_profile (s_SizeProfile cfg) /\ valid_max (s_MaxTPDULength cfg) /\ 0 <= s_MaxTSDULength cfg /\
  slen (s_LocalSelector cfg) <= 255.

Lemma check_Ok (c : bool) e : (if c then Err e else Ok tt) = Ok tt <-> c = false.
Proof. by destruct c. Qed.

Lemma client_preflight_Ok cfg mt ms :
  ClientConfig_preflight cfg = Ok (mt, ms) <->
  client_valid cfg /\ mt = norm_max (c_MaxTPDULength cfg) /\ ms = effective_max_tsdu (c_MaxTSDULength cfg).
Proof.
  unfold ClientConfig_preflight, client_valid, validateSizeProfile, validateMaxTSDULength,
    validateSelectorLength, validateConnectDataLength, MaxParameterValueLength, MaxConnectDataLength.
  rewrite <- valid_profile_good. split.
  - intros H. go_inv H. injection H as <- <-.
    destruct v, v1, v2, v3, v4. rewrite check_Ok in *. apply normalize_Ok in E0 as [? ->].
    split_and!; try done; blia.
  - intros ((Hp & Hv & Hm & Hl & Hr & Hd) & -> & ->). rewrite Hp, (normalize_valid _ Hv). cbn [obind].
    repeat (if_false; cbn [obind]). done.
Qed.

Lemma server_preflight_Ok cfg mt ms :
  ServerConfig_preflight cfg = Ok (mt, ms) <->
  server_valid cfg /\ mt = norm_max (s_MaxTPDULength cfg) /\ ms = effective_max_tsdu (s_MaxTSDULength cfg).
Proof.
  unfold ServerConfig_preflight, server_valid, validateSizeProfile, validateMaxTSDULength,
    validateSelectorLength, MaxParameterValueLength.
  rewrite <- valid_profile_good. split.
  - intros H. go_inv H. injection H as <- <-.
    destruct v, v1, v2. rewrite check_Ok in *. apply normalize_Ok in E0 as [? ->].
    split_and!; try done; blia.
  - intros ((Hp & Hv & Hm & Hl) & -> & ->). rewrite Hp, (normalize_valid _ Hv). cbn [obind].
    repeat (if_false; cbn [obind]). done.
Qed.

(** ** What crosses the stream *)

Lemma Decode_CR p d cr :
  bytes_ok p -> Decode p = Ok d -> D_CR d = Some cr -> d = decoded (T_CR cr) /\ CR_typed cr.
Proof.
  intros Hp (code & t & Hpk & Ht & ->)%Decode_Ok Hcr. destruct t; try discriminate Hcr.
  injection Hcr as ->. split; [done|]. by destruct (decode_as_canonical p code _ Hp Hpk Ht) as [(Hty & _) _].
Qed.

Lemma Decode_CC p d cc :
  bytes_ok p -> Decode p = Ok d -> D_CC d = Some cc ->
  d = decoded (T_CC cc) /\ CC_typed cc /\ unknown_params (CC_Parameters cc) = CC_Parameters cc /\
  CC_UserData cc = Some (content (CC_UserData cc)).
Proof.
  intros Hp (code & t & Hpk & Ht & ->)%Decode_Ok Hcc. destruct t as [|cc'| | | | | | | |]; try discriminate Hcc.
  injection Hcc as ->. split; [done|].
  destruct (decode_as_canonical p code _ Hp Hpk Ht) as [(Hty & _ & Hcan) _]. split; [done|].
  cbn [canon] in Hcan. injection Hcan as Hcan. destruct cc as [cdt dst src cl ps c1 c2 sz pm ud].
  injection Hcan as _ Hps Hud. cbn. split; [|done].
  by rewrite <- Hps, unknown_params_norm, unknown_params_idem.
Qed.

(** The request as the server reads it. *)
Lemma request_read cfg ref offer b :
  goslice_ok (c_LocalSelector cfg) -> goslice_ok (c_RemoteSelector cfg) -> goslice_ok (c_ConnectData cfg) ->
  is_u16 ref -> opt_typed is_u8 (cr_StandardCode offer) -> opt_typed is_u32 (cr_PreferredUnits offer) ->
  CR_MarshalBinary (Some (connect_request cfg ref offer)) = Ok b ->
  bytes_ok b /\
  Decode b = Ok (decoded (T_CR (mkCR 0 0 ref 0 [] (c_LocalSelector cfg) (c_RemoteSelector cfg)
    (cr_StandardCode offer) (cr_PreferredUnits offer) (Some (content (c_ConnectData cfg)))))).
Proof.
  intros H1 H2 H3 Hr Hs Hp Hm.
  assert (forall s, copyBytes s = s) as Hcopy by (by intros []).
  assert (CR_typed (connect_request cfg ref offer)) as Hty.
  { unfold CR_typed, connect_request. cbn. rewrite !Hcopy. by split_and!. }
  destruct (CR_round_trips _ b Hty Hm) as (Hb & Hpk & Hd). split; [done|].
  apply Decode_Ok. eexists _, _. split_and!; [done|done|]. unfold connect_request. cbn. by rewrite !Hcopy.
Qed.

Lemma confirm_read cfg cr d sel ref b :
  goslice_ok (s_LocalSelector cfg) -> CR_typed cr -> goslice_ok (dec_ConnectData d) ->
  is_u16 ref -> opt_typed is_u8 (sel_StandardCode sel) -> opt_typed is_u32 (sel_PreferredUnits sel) ->
  CC_MarshalBinary (Some (accept_confirm cfg cr d sel ref)) = Ok b ->
  let '(calling, responding) := accept_selectors cfg cr in
  bytes_ok b /\
  Decode b = Ok (decoded (T_CC (mkCC 0 (CR_SourceRef cr) ref 0 [] calling responding
    (sel_StandardCode sel) (sel_PreferredUnits sel) (Some (content (dec_ConnectData d)))))).
Proof.
  intros H1 Hcr H3 Hr Hs Hp Hm.
  assert (forall s, copyBytes s = s) as Hcopy by (by intros []).
  destruct Hcr as (_ & _ & Hsrc & _ & _ & Hc1 & Hc2 & _).
  destruct (accept_selectors cfg cr) as [calling responding] eqn:Hsel.
  assert (goslice_ok calling /\ goslice_ok responding) as [Hca Hre].
  { revert Hsel. unfold accept_selectors. rewrite !Hcopy.
    destruct (EchoSelectors cfg), (s_LocalSelector cfg); intros [= <- <-]; split; try done; constructor. }
  assert (accept_confirm cfg cr d sel ref = mkCC 0 (CR_SourceRef cr) ref 0 [] calling responding
    (sel_StandardCode sel) (sel_PreferredUnits sel) (dec_ConnectData d)) as Heq.
  { unfold accept_confirm. by rewrite Hsel, Hcopy. }
  rewrite Heq in Hm.
  assert (CC_typed (mkCC 0 (CR_SourceRef cr) ref 0 [] calling responding
    (sel_StandardCode sel) (sel_PreferredUnits sel) (dec_ConnectData d))) as Hty by (by split_and!).
  destruct (CC_round_trips _ b Hty Hm) as (Hb & Hpk & Hd). split; [done|].
  apply Decode_Ok. eexists _, _. by split_and!.
Qed.

(** ** Contracts *)

(** Go's byte slices hold octets. *)
Definition client_typed (cfg : ClientConfig) : Prop :=
  goslice_ok (c_LocalSelector cfg) /\ goslice_ok (c_RemoteSelector cfg) /\ goslice_ok (c_ConnectData cfg).

#[export] Instance client_typed_dec cfg : Decision (client_typed cfg).
Proof. unfold client_typed. apply _. Defined.

(** What a client that is connected has sent, received and fixed. *)
Definition connected (cfg : ClientConfig) (n : NegotiatedParameters) (cr : CR) (cc : CC) : Prop :=
  CR_CDT cr = 0 /\ CR_DestinationRef cr = 0 /\ CR_SourceRef cr = LocalRef n /\ CR_ClassOption cr = 0 /\
  CR_Parameters cr = [] /\ CR_CallingSelector cr = c_LocalSelector cfg /\
  CR_CalledSelector cr = c_RemoteSelector cfg /\ content (CR_UserData cr) = content (c_ConnectData cfg) /\
  CC_CDT cc = 0 /\ CC_DestinationRef cc = LocalRef n /\ CC_SourceRef cc = RemoteRef n /\
  CC_ClassOption cc = 0 /\ CC_Parameters cc = [] /\ CC_UserData cc = PeerConnectData n /\
  Class n = 0 /\ 1 <= LocalRef n < 65536 /\ 1 <= RemoteRef n < 65536 /\ slen (PeerConnectData n) <= 32 /\
  128 <= MaxTPDULength n <= norm_max (c_MaxTPDULength cfg) /\
  LocalSelector n = c_LocalSelector cfg /\
  RemoteSelector n = match CC_CalledSelector cc with Some s => Some s | None => c_RemoteSelector cfg end.

Lemma connect_confirm_inv cfg ref offer p neg :
  bytes_ok p -> connect_confirm cfg ref offer p = Ok neg ->
  exists cc, Decode p = Ok (decoded (T_CC cc)) /\ CC_typed cc /\
    CC_CDT cc = 0 /\ CC_ClassOption cc = 0 /\ CC_DestinationRef cc = ref /\ CC_SourceRef cc <> 0 /\
    CC_Parameters cc = [] /\ slen (CC_UserData cc) <= 32 /\
    interpretCCSize (Offer offer) (CC_TPDUSize cc) (CC_PreferredMaxTPDUSize cc) (c_SizeProfile cfg)
      = Ok (MaxTPDULength neg) /\
    neg = mkNegotiated 0 (MaxTPDULength neg) ref (CC_SourceRef cc) (c_LocalSelector cfg)
      (match CC_CalledSelector cc with Some s => Some s | None => c_RemoteSelector cfg end) (CC_UserData cc).
Proof.
  intros Hp. unfold connect_confirm, validateClass0CCFixed, validateCCReferences. intros H.
  rewrite obind_Ok in H. destruct H as (d & Hd & H). rewrite rewrap_Ok in Hd.
  destruct (D_Type d =? TypeDR); [done|]. destruct (D_Type d =? TypeER); [done|].
  destruct (negb (D_Type d =? TypeCC)); [done|]. destruct (D_CC d) as [cc|] eqn:Hcc; [|done].
  destruct (Decode_CC p d cc Hp Hd Hcc) as (-> & Hty & Hun & Hud).
  rewrite obind_Ok in H. destruct H as ([] & Hfix & H). rewrite obind_Ok in H. destruct H as ([] & Hrefs & H).
  rewrite obind_Ok in H. destruct H as ([] & Hps & H). apply validateCCParameters_Ok in Hps; [|done].
  destruct (Z.eqb_spec (CC_CDT cc) 0) as [Hcdt|]; [|done]. destruct (Z.eqb_spec (CC_ClassOption cc) 0) as [Hcl|]; [|done].
  destruct (Z.eqb_spec (CC_DestinationRef cc) ref) as [Hdst|]; [|done].
  destruct (Z.eqb_spec (CC_SourceRef cc) 0) as [|Hsrc]; [done|].
  destruct (Z.ltb_spec MaxConnectDataLength (slen (CC_UserData cc))) as [|Hl]; [done|].
  rewrite obind_Ok in H. destruct H as (eff & Heff & [= <-]).
  exists cc. cbn [MaxTPDULength]. split_and!; try done.
  unfold Class0. by destruct (CC_CalledSelector cc), (c_LocalSelector cfg), (c_RemoteSelector cfg), (CC_UserData cc).
Qed.

Definition sample_client : ClientConfig := mkClientConfig (Some [1]) (Some [2; 3]) 5000 0 (Some [7]) 1.
Definition sample_server : ServerConfig := mkServerConfig None 2048 0 None 0 true.

(** A world that delivers [rs] and lets everything else through. *)
Definition ready_world (rs : list (answer bytes)) (a : referenceAllocator) : world :=
  mkWorld rs [] [] [] [] false None None [] 0 0 0 false false a open_term.

(** What the two sides send each other. *)
Definition sample_request : bytes :=
  [19; 224; 0; 0; 0; 1; 0; 193; 1; 1; 194; 2; 2; 3; 192; 1; 12; 240; 1; 39; 7].
Definition sample_confirm : bytes := [16; 208; 0; 1; 0; 9; 0; 193; 1; 1; 194; 2; 2; 3; 240; 1; 16].

Definition sample_client_conn : Conn :=
  mkConn (mkNegotiated 0 2048 1 9 (Some [1]) (Some [2; 3]) (Some [])) 4194304 1 1.
Definition sample_server_conn : Conn :=
  mkConn (mkNegotiated 0 2048 9 1 (Some [2; 3]) (Some [1]) (Some [7])) 4194304 0 9.

Definition client_world : world := ready_world [packet sample_confirm] newReferenceAllocator.
Definition server_world : world := ready_world [packet sample_request] (mkAllocator 9 {[1]}).

Lemma client_refs_ok : allocator_ok (refs client_world).
Proof. apply newReferenceAllocator_ok. Qed.

Lemma server_refs_ok : allocator_ok (refs server_world).
Proof.
  unfold server_world, ready_world, allocator_ok. cbn [refs next active]. split; [unfold is_u16; lia|].
  intros r Hr. apply elem_of_singleton in Hr. lia.
Qed.

(** Everything a successful [Connect] did: shared by the properties below. *)
Lemma Connect_run_facts cfg w c w' :
  client_typed cfg -> stream_ok w -> allocator_ok (refs w) ->
  Connect false cfg w = (Ok c, w') ->
  exists b a p cr cc,
    sent w' = sent w ++ [b] /\ Decode b = Ok (decoded (T_CR cr)) /\
    reads w = a :: reads w' /\ result a = inl p /\ Decode p = Ok (decoded (T_CC cc)) /\
    connected cfg (negotiated c) cr cc /\ localRef c = LocalRef (negotiated c) /\
    maxTSDU c = effective_max_tsdu (c_MaxTSDULength cfg) /\ client_valid cfg /\ CC_typed cc.
Proof.
  intros (H1 & H2 & H3) [Hst _] Hal H.
  apply Connect_inv in H as (mt & ms & ref & al & offer & b & a & p & neg & Hpre & Ha & Hoff & Hb & Hr & Hp & Hc & -> & Hs).
  apply client_preflight_Ok in Hpre as (Hvalid & -> & ->). pose proof Hvalid as (Hprof & Hmax & _).
  destruct (Allocate_Ok _ _ _ Hal Ha) as (Href & _).
  pose proof (norm_max_range _ Hmax) as Hn.
  destruct (norm_max_idem _ Hmax) as [Hnn Hmax'].
  destruct (buildSizeOffer_Ok _ _ Hmax' Hprof) as (offer' & Hoff' & Hbok). rewrite Hoff in Hoff'. injection Hoff' as <-.
  rewrite Hnn in Hbok.
  destruct (request_read cfg ref offer b H1 H2 H3) as [_ Hd]; [unfold is_u16; lia| |by eapply buildSizeOffer_u32|done|].
  { by eapply offer_code_u8. }
  rewrite Hr in Hst. apply Forall_cons in Hst as [[_ Hbytes] _]. rewrite Hp in Hbytes. destruct Hbytes as [_ Hbytes].
  apply connect_confirm_inv in Hc as (cc & Hdc & Hty & ? & ? & ? & ? & ? & ? & Hsz & ->); [|done].
  cbn [MaxTPDULength] in Hsz. pose proof Hty as (_ & _ & Hsrc & _ & _ & _ & _ & Hu8 & Hu32 & _).
  destruct (interpret_Ok offer _ _ _ _ _ Hbok Hn Hu8 Hu32 Hsz) as [Hr' _].
  pose proof (proposal_range _ _ _ Hbok Hn).
  eexists b, a, p, _, cc. split_and!; try done. unfold connected. cbn. unfold is_u16 in Hsrc.
  split_and!; try done; lia.
Qed.

(** C33: when [Connect] succeeds, in any world, it has sent one packet and read one.
    The packet sent decodes as a class-0 CR that carries the configuration and the
    allocated reference; the packet read is a CC without unknown parameters
    addressed to that reference; the negotiated size is at least 128 and at most
    what was configured. *)
Theorem Connect_contract cfg w c w' :
  client_typed cfg -> stream_ok w -> allocator_ok (refs w) ->
  Connect false cfg w = (Ok c, w') ->
  exists b a p cr cc,
    sent w' = sent w ++ [b] /\ Decode b = Ok (decoded (T_CR cr)) /\
    reads w = a :: reads w' /\ result a = inl p /\ Decode p = Ok (decoded (T_CC cc)) /\
    connected cfg (negotiated c) cr cc /\ localRef c = LocalRef (negotiated c) /\
    maxTSDU c = effective_max_tsdu (c_MaxTSDULength cfg).
Proof.
  intros H1 Hst Hal H. destruct (Connect_run_facts cfg w c w' H1 Hst Hal H) as (b & a & p & cr & cc & Hf).
  exists b, a, p, cr, cc. by destruct Hf as (? & ? & ? & ? & ? & ? & ? & ? & _).
Qed.

Lemma Connect_contract_witness :
  exists b a p cr cc,
    sent (snd (Connect false sample_client client_world)) = [] ++ [b] /\ Decode b = Ok (decoded (T_CR cr)) /\
    reads client_world = a :: reads (snd (Connect false sample_client client_world)) /\
    result a = inl p /\ Decode p = Ok (decoded (T_CC cc)) /\
    connected sample_client (negotiated sample_client_conn) cr cc /\
    localRef sample_client_conn = LocalRef (negotiated sample_client_conn) /\
    maxTSDU sample_client_conn = effective_max_tsdu 0.
Proof.
  apply (Connect_contract sample_client client_world sample_client_conn);
    [decide_now|decide_now|apply client_refs_ok|vm_compute; reflexivity].
Defined.

(** What a server that has accepted has received, sent and fixed, [d] being its
    decision. *)
Definition accepted (cfg : ServerConfig) (n : NegotiatedParameters) (cr : CR) (d : AcceptDecision) (cc : CC) : Prop :=
  CR_CDT cr = 0 /\ CR_DestinationRef cr = 0 /\ CR_SourceRef cr = RemoteRef n /\ CR_ClassOption cr = 0 /\
  Forall (fun p => isKnownClass0ForbiddenParam (Code p) = false) (CR_Parameters cr) /\
  CR_UserData cr = PeerConnectData n /\ CR_CallingSelector cr = RemoteSelector n /\
  CC_CDT cc = 0 /\ CC_DestinationRef cc = RemoteRef n /\ CC_SourceRef cc = LocalRef n /\
  CC_ClassOption cc = 0 /\ CC_Parameters cc = [] /\ content (CC_UserData cc) = content (dec_ConnectData d) /\
  CC_CallingSelector cc = (if EchoSelectors cfg then CR_CallingSelector cr else None) /\
  CC_CalledSelector cc = LocalSelector n /\
  LocalSelector n = (if bool_decide (s_LocalSelector cfg = None) && EchoSelectors cfg
                     then CR_CalledSelector cr else s_LocalSelector cfg) /\
  Class n = 0 /\ 1 <= LocalRef n < 65536 /\ 1 <= RemoteRef n < 65536 /\ slen (PeerConnectData n) <= 32 /\
  Action d = ConnectAccept /\ slen (dec_ConnectData d) <= 32 /\
  128 <= MaxTPDULength n <= server_ceiling (s_MaxTPDULength cfg) (dec_MaxTPDULength d).

Lemma class0_fields cr :
  is_u8 (CR_ClassOption cr) -> Z.shiftr (CR_ClassOption cr) 4 = 0 ->
  class0CRProtocolError cr (Z.land (CR_ClassOption cr) 15) = None ->
  CR_CDT cr = 0 /\ CR_ClassOption cr = 0 /\ CR_DestinationRef cr = 0 /\ CR_SourceRef cr <> 0 /\
  Forall (fun p => isKnownClass0ForbiddenParam (Code p) = false) (CR_Parameters cr).
Proof.
  intros Hu8 Hsh. unfold class0CRProtocolError.
  destruct (Z.eqb_spec (CR_CDT cr) 0) as [Hcdt|]; [|done].
  destruct (Z.eqb_spec (Z.land (CR_ClassOption cr) 15) 0) as [Hop|]; [|done].
  destruct (Z.eqb_spec (CR_DestinationRef cr) 0) as [Hdst|]; [|done].
  destruct (Z.eqb_spec (CR_SourceRef cr) 0) as [|Hsrc]; [done|]. cbn [negb orb].
  destruct (existsb _ _) eqn:Hex; [done|]. intros _. split_and!; try done.
  - rewrite Z.shiftr_div_pow2 in Hsh by lia. change 15 with (Z.ones 4) in Hop.
    rewrite Z.land_ones in Hop by lia. change (2 ^ 4) with 16 in *.
    rewrite (Z.div_mod (CR_ClassOption cr) 16) by lia. lia.
  - apply List.Forall_forall. intros p Hp. destruct (isKnownClass0ForbiddenParam (Code p)) eqn:E; [|done].
    assert (existsb (fun p => isKnownClass0ForbiddenParam (Code p)) (CR_Parameters cr) = true) as Ht
      by (apply existsb_exists; eauto). by rewrite Ht in Hex.
Qed.

Lemma accept_selectors_eq cfg cr :
  accept_selectors cfg cr =
    (if EchoSelectors cfg then CR_CallingSelector cr else None,
     if bool_decide (s_LocalSelector cfg = None) && EchoSelectors cfg
     then CR_CalledSelector cr else s_LocalSelector cfg).
Proof.
  unfold accept_selectors. assert (forall s, copyBytes s = s) as Hcopy by (by intros []). rewrite !Hcopy.
  destruct (EchoSelectors cfg), (s_LocalSelector cfg); cbn [bool_decide andb];
    rewrite ?bool_decide_eq_true_2, ?bool_decide_eq_false_2 by done; done.
Qed.

(** Everything a successful [Accept] did: shared by the properties below. *)
Lemma Accept_run_facts cfg w c w' :
  goslice_ok (s_LocalSelector cfg) ->
  (forall f ind d, OnConnect cfg = Some f -> f ind = inl d -> goslice_ok (dec_ConnectData d)) ->
  stream_ok w -> allocator_ok (refs w) ->
  Accept false cfg w = (Ok c, w') ->
  exists a p cr offer d sel b cc,
    server_valid cfg /\ reads w = a :: reads w' /\ result a = inl p /\ bytes_ok p /\
    Decode p = Ok (decoded (T_CR cr)) /\ CR_typed cr /\
    decodeSizeOffer (CR_TPDUSize cr) (CR_PreferredMaxTPDUSize cr) = Ok offer /\
    policy cfg cr offer = inl d /\ sent w' = sent w ++ [b] /\ bytes_ok b /\ Decode b = Ok (decoded (T_CC cc)) /\
    CC_TPDUSize cc = sel_StandardCode sel /\ CC_PreferredMaxTPDUSize cc = sel_PreferredUnits sel /\
    selection_ok sel /\ offered_path offer (Path sel) /\
    Effective sel = SizeNego.negotiated offer (server_ceiling (s_MaxTPDULength cfg) (dec_MaxTPDULength d)) /\
    128 <= server_ceiling (s_MaxTPDULength cfg) (dec_MaxTPDULength d) <= 65531 /\
    MaxTPDULength (negotiated c) = Effective sel /\ localRef c = LocalRef (negotiated c) /\
    maxTSDU c = effective_max_tsdu (s_MaxTSDULength cfg) /\
    accepted cfg (negotiated c) cr d cc.
Proof.
  intros H1 Hdec [Hst _] Hal H.
  apply Accept_inv in H as (mt & ms & a & p & w1 & cr & offer & w2 & d & w3 & sel & ref & al & b & Hpre & Hr & Hp &
    Hs1 & Hf1 & Hreq & Hpol & Hsel & Ha & Hb & Hs & Hr' & ->).
  apply server_preflight_Ok in Hpre as (Hvalid & -> & ->).
  rewrite Hr in Hst. apply Forall_cons in Hst as [[_ Hbytes] _]. rewrite Hp in Hbytes. destruct Hbytes as [_ Hbytes].
  apply accept_request_inv in Hreq as (-> & dd & Hdd & _ & Hcr & Hsh & Hperr & Hoff & Hlen).
  destruct (Decode_CR p dd cr Hbytes Hdd Hcr) as [-> Hty]. pose proof Hty as (_ & _ & Hsrc & Hcl & _ & _ & _ & Hu8 & Hu32 & _).
  apply accept_decide_inv in Hpol as (-> & Hpol & Hact & Hdl & Hmaxd).
  destruct (class0_fields cr Hcl Hsh Hperr) as (? & ? & ? & ? & ?).
  rewrite Hf1 in Ha. destruct (Allocate_Ok _ _ _ Hal Ha) as (Href & _).
  pose proof (decodeSizeOffer_ok _ _ offer Hu8 Hu32 Hoff) as Hook.
  pose proof Hvalid as (Hprof & Hmax & _). destruct (norm_max_idem _ Hmax) as [Hnn Hmax'].
  destruct (selectSize_Ok offer _ _ _ Hook Hmax' Hmaxd Hprof) as (sel' & Hsel' & Hselok & Hpath & Heff).
  rewrite Hsel in Hsel'. injection Hsel' as <-.
  assert (server_ceiling (norm_max (s_MaxTPDULength cfg)) (dec_MaxTPDULength d) =
    server_ceiling (s_MaxTPDULength cfg) (dec_MaxTPDULength d)) as Hceil by (unfold server_ceiling; by rewrite Hnn).
  rewrite Hceil in Heff.
  pose proof (server_ceiling_range _ _ Hmax Hmaxd) as Hcr'.
  pose proof (negotiated_range offer _ Hook Hcr') as Hrange. rewrite <- Heff in Hrange.
  assert (goslice_ok (dec_ConnectData d)) as Hdt.
  { revert Hpol. unfold policy. destruct (OnConnect cfg) as [f|] eqn:Hf; [by apply Hdec|].
    unfold defaultAutoAccept. repeat split_goal; intros [= <-]; constructor. }
  pose proof (confirm_read cfg cr d sel ref b H1 Hty Hdt) as Hcc. rewrite accept_selectors_eq in Hcc.
  destruct Hcc as [Hbb Hcc]; [unfold is_u16; lia|by apply selection_code_u8|by eapply selectSize_u32|done|].
  rewrite <- Hr', Hs1 in *. 
  eexists a, p, cr, offer, d, sel, b, _.
  assert (forall s, copyBytes s = s) as Hcopy by (by intros []). rewrite accept_selectors_eq, !Hcopy.
  split_and!; try done; try lia. unfold accepted. cbn. unfold is_u16 in Hsrc.
  split_and!; try done; lia.
Qed.

(** C34: when [Accept] succeeds, in any world, it has read one packet and sent one.
    The packet read decodes as a class-0 CR with a source reference and no
    forbidden parameter, which the policy accepted; the packet sent is a CC
    addressed to that reference that carries the decision, the selectors and the
    allocated reference; the negotiated size is at least 128 and at most the
    ceilings of the configuration and of the decision. *)
Theorem Accept_contract cfg w c w' :
  goslice_ok (s_LocalSelector cfg) ->
  (forall f ind d, OnConnect cfg = Some f -> f ind = inl d -> goslice_ok (dec_ConnectData d)) ->
  stream_ok w -> allocator_ok (refs w) ->
  Accept false cfg w = (Ok c, w') ->
  exists a p cr offer d b cc,
    reads w = a :: reads w' /\ result a = inl p /\ Decode p = Ok (decoded (T_CR cr)) /\
    decodeSizeOffer (CR_TPDUSize cr) (CR_PreferredMaxTPDUSize cr) = Ok offer /\
    policy cfg cr offer = inl d /\
    sent w' = sent w ++ [b] /\ Decode b = Ok (decoded (T_CC cc)) /\
    accepted cfg (negotiated c) cr d cc /\ localRef c = LocalRef (negotiated c) /\
    maxTSDU c = effective_max_tsdu (s_MaxTSDULength cfg).
Proof.
  intros H1 H2 Hst Hal H.
  destruct (Accept_run_facts cfg w c w' H1 H2 Hst Hal H) as (a & p & cr & offer & d & sel & b & cc & Hf).
  destruct Hf as (_ & ? & ? & _ & ? & _ & ? & ? & ? & _ & ? & _ & _ & _ & _ & _ & _ & _ & ? & ? & ?).
  exists a, p, cr, offer, d, b, cc. by split_and!.
Qed.

Lemma Accept_contract_witness :
  exists a p cr offer d b cc,
    reads server_world = a :: reads (snd (Accept false sample_server server_world)) /\ result a = inl p /\
    Decode p = Ok (decoded (T_CR cr)) /\
    decodeSizeOffer (CR_TPDUSize cr) (CR_PreferredMaxTPDUSize cr) = Ok offer /\
    policy sample_server cr offer = inl d /\
    sent (snd (Accept false sample_server server_world)) = [] ++ [b] /\ Decode b = Ok (decoded (T_CC cc)) /\
    accepted sample_server (negotiated sample_server_conn) cr d cc /\
    localRef sample_server_conn = LocalRef (negotiated sample_server_conn) /\
    maxTSDU sample_server_conn = effective_max_tsdu 0.
Proof.
  apply (Accept_contract sample_server server_world sample_server_conn);
    [decide_now|done|decide_now|apply server_refs_ok|vm_compute; reflexivity].
Defined.

(** The type invariant of an opened connection: machine widths, the ranges the
    protocol gives, and what data transfer relies on. *)
Definition Conn_typed (c : Conn) : Prop :=
  let n := negotiated c in
  Class n = Class0 /\ 128 <= MaxTPDULength n <= MaxITOTTPDULength /\
  1 <= LocalRef n < 65536 /\ 1 <= RemoteRef n < 65536 /\
  goslice_ok (LocalSelector n) /\ goslice_ok (RemoteSelector n) /\ goslice_ok (PeerConnectData n) /\
  slen (PeerConnectData n) <= MaxConnectDataLength /\ localRef c = LocalRef n /\ 1 <= maxTSDU c.

Lemma effective_max_tsdu_pos m : 0 <= m -> 1 <= effective_max_tsdu m.
Proof. unfold effective_max_tsdu, DefaultMaxTSDULength. destruct (m =? 0) eqn:?; blia. Qed.

(** A connection is typed from the start. *)
Lemma opened_connections_typed w c w' :
  stream_ok w -> allocator_ok (refs w) ->
  (forall cfg, client_typed cfg -> Connect false cfg w = (Ok c, w') -> Conn_typed c) /\
  (forall cfg, goslice_ok (s_LocalSelector cfg) ->
     (forall f ind d, OnConnect cfg = Some f -> f ind = inl d -> goslice_ok (dec_ConnectData d)) ->
     Accept false cfg w = (Ok c, w') -> Conn_typed c).
Proof.
  intros Hst Hal. split.
  - intros cfg Hty H. destruct (Connect_run_facts cfg w c w' Hty Hst Hal H)
      as (b & a & p & cr & cc & _ & _ & _ & _ & _ & Hc & Hl & Hm & (_ & Hv & Hts & _) & Hcc).
    destruct Hc as (_ & _ & _ & _ & _ & _ & _ & _ & _ & _ & _ & _ & _ & Hd & ? & ? & ? & ? & ? & Hls & Hrs).
    pose proof (norm_max_range _ Hv). destruct Hty as (? & ? & _). destruct Hcc as (_ & _ & _ & _ & _ & _ & Hc2 & _ & _ & Hud).
    unfold Conn_typed, MaxITOTTPDULength, MaxConnectDataLength. rewrite Hm, Hls, Hrs, <- Hd. split_and!; try done; try lia.
    + by destruct (CC_CalledSelector cc).
    + congruence.
    + by apply effective_max_tsdu_pos.
  - intros cfg H1 H2 H. destruct (Accept_run_facts cfg w c w' H1 H2 Hst Hal H) as (a & p & cr & offer & d & sel & b & cc & Hf).
    destruct Hf as ((_ & _ & Hts & _) & _ & _ & _ & _ & Hcr & _ & _ & _ & _ & _ & _ & _ & _ & _ & _ & Hce & _ & Hl & Hm & Hacc).
    destruct Hcr as (_ & _ & _ & _ & _ & Hc1 & Hc2 & _ & _ & Hud).
    destruct Hacc as (_ & _ & _ & _ & _ & Hd & Hr & _ & _ & _ & _ & _ & _ & _ & _ & Hls & ? & ? & ? & ? & _ & _ & ?).
    unfold Conn_typed, MaxITOTTPDULength, MaxConnectDataLength. rewrite Hm, Hls, <- Hd, <- Hr. split_and!; try done; try lia.
    + by destruct (_ && _).
    + congruence.
    + by apply effective_max_tsdu_pos.
Qed.

(** C29: [Connect] and [Accept] establish the type invariant, whatever the peer
    sends: class 0, a size between 128 and 65531 octets, two non-zero 16-bit
    references of which the local one is the reference held, selectors and at
    most 32 octets of connect data, a positive limit on TSDUs. *)
Theorem opened_connections_are_typed w c w' :
  stream_ok w -> allocator_ok (refs w) ->
  (forall cfg, client_typed cfg -> Connect false cfg w = (Ok c, w') -> Conn_typed c) /\
  (forall cfg, goslice_ok (s_LocalSelector cfg) ->
     (forall f ind d, OnConnect cfg = Some f -> f ind = inl d -> goslice_ok (dec_ConnectData d)) ->
     Accept false cfg w = (Ok c, w') -> Conn_typed c).
Proof. apply opened_connections_typed. Qed.

Lemma opened_connections_are_typed_witness : Conn_typed sample_client_conn /\ Conn_typed sample_server_conn.
Proof.
  split.
  - apply (proj1 (opened_connections_are_typed client_world sample_client_conn
      (snd (Connect false sample_client client_world)) ltac:(decide_now) client_refs_ok) sample_client);
      [decide_now|vm_compute; reflexivity].
  - apply (proj2 (opened_connections_are_typed server_world sample_server_conn
      (snd (Accept false sample_server server_world)) ltac:(decide_now) server_refs_ok) sample_server);
      [decide_now|done|vm_compute; reflexivity].
Defined.

(** C7: the handshake gives back what it took.  From any world, whatever the
    peer, the stream and the context do, [Connect] and [Accept] return.  On an
    error the stream has been closed exactly once and the active references are
    what they were; on success the stream is open, the connection holds one
    fresh reference and is open.  Either way no deadline is left armed.  A nil
    stream is refused and nothing happens. *)
Theorem handshake_releases_what_it_took w :
  stream_ok w -> allocator_ok (refs w) -> armed w = false ->
  (forall cfg, owned w (fst (Connect false cfg w)) (snd (Connect false cfg w))) /\
  (forall cfg, owned w (fst (Accept false cfg w)) (snd (Accept false cfg w))) /\
  (forall cfg, exists e, Connect true cfg w = (Err e, w) /\ errors_Is e ErrInvalidConfig = true) /\
  (forall cfg, exists e, Accept true cfg w = (Err e, w) /\ errors_Is e ErrInvalidConfig = true).
Proof.
  intros Hst Hal Ha. split_and!; intros cfg.
  - by apply Connect_owned.
  - by apply Accept_owned.
  - by eexists.
  - by eexists.
Qed.

(** A peer that answers a CR with the octets of no TPDU. *)
Lemma handshake_releases_what_it_took_witness :
  let w := ready_world [packet [2; 0; 0]] newReferenceAllocator in
  (exists e, fst (Connect false sample_client w) = Err e) /\
  owned w (fst (Connect false sample_client w)) (snd (Connect false sample_client w)).
Proof.
  intros w. split; [eexists; vm_compute; reflexivity|].
  apply (handshake_releases_what_it_took w); [decide_now|apply newReferenceAllocator_ok|reflexivity].
Defined.

(** ** Agreement *)

(** A world where nothing local stands in the way: no cancellation, tpkt's
    constructors succeed and the stream takes what is written. *)
Definition ready (w : world) : Prop :=
  ctx_errs w = [] /\ reader_err w = None /\ writer_err w = None /\ writes w = [].

#[export] Instance sent_preorder : PreOrder (fun w w' : world => sent w' = sent w).
Proof. split; [by intros w|]. intros ??? H1 H2. by rewrite H2. Qed.

Abbreviation quiet := (keeps (fun w w' : world => sent w' = sent w)).

Lemma ctx_Err_quiet : quiet ctx_Err.
Proof. intros w. unfold ctx_Err. by destruct (ctx_errs w). Qed.
#[export] Hint Resolve ctx_Err_quiet : cotp.

Lemma has_deadline_quiet : quiet ctx_has_deadline.
Proof. by intros w. Qed.
#[export] Hint Resolve has_deadline_quiet : cotp.

Lemma connectIOError_quiet {A} err : quiet (@connectIOError A err).
Proof. unfold connectIOError. keeps_walk. Qed.
#[export] Hint Resolve connectIOError_quiet : cotp.

Lemma read_quiet : quiet (stream_read no_conn).
Proof. intros w. unfold stream_read, no_conn. destruct (reads w) as [|a rs]; [done|]. by destruct (result a). Qed.
#[export] Hint Resolve read_quiet : cotp.

Lemma io_quiet {A} (m : M A) : quiet m -> quiet (handshake_io m).
Proof. intros Hm. unfold handshake_io. keeps_walk. Qed.
#[export] Hint Resolve io_quiet : cotp.

Lemma newOpenConn_quiet neg ms prof ref : quiet (newOpenConn neg ms prof ref).
Proof. by intros w. Qed.
#[export] Hint Resolve newOpenConn_quiet : cotp.

(** What a client is going to send, and what it needs to read the answer. *)
Definition connect_plan (cfg : ClientConfig) (w : world) : outcome (Z * Z * sizeCRBuild * bytes) :=
  let! max := ClientConfig_preflight cfg in
  let! ref := fst (Allocate (refs w)) in
  let! offer := buildSizeOffer (fst max) (c_SizeProfile cfg) in
  let! b := rewrap ErrInvalidConfig (CR_MarshalBinary (Some (connect_request cfg ref offer))) in
  Ok (snd max, ref, offer, b).

(** The end of [Connect], once the CR has been written. *)
Definition connect_answer (cfg : ClientConfig) (ms ref : Z) (offer : sizeCRBuild) : M Conn :=
  do! payload := handshake_io (stream_read no_conn) in
  do! neg := lift (connect_confirm cfg ref offer payload) in
  newOpenConn neg ms (c_SizeProfile cfg) ref.

Lemma connect_answer_quiet cfg ms ref offer : quiet (connect_answer cfg ms ref offer).
Proof. unfold connect_answer. keeps_walk. Qed.

Lemma connect_answer_Ok cfg ms ref offer w a rs p neg :
  reads w = a :: rs -> result a = inl p -> connect_confirm cfg ref offer p = Ok neg ->
  fst (connect_answer cfg ms ref offer w) = Ok (mkConn neg ms (c_SizeProfile cfg) ref).
Proof.
  intros Hr Ha Hn. unfold connect_answer, handshake_io, attempt, stream_read, mbind_, lift. rewrite Hr.
  cbn. rewrite Ha. cbn. by rewrite Hn.
Qed.

(** In a ready world [Connect] follows its plan up to the answer. *)
Lemma Connect_ready cfg w :
  ready w ->
  match connect_plan cfg w with
  | Ok (ms, ref, offer, b) => exists w1,
      reads w1 = reads w /\ sent w1 = sent w ++ [b] /\
      fst (Connect false cfg w) = fst (connect_answer cfg ms ref offer w1) /\
      sent (snd (Connect false cfg w)) = sent (snd (connect_answer cfg ms ref offer w1))
  | _ => sent (snd (Connect false cfg w)) = sent w
  end.
Proof.
  intros (Hc & Hr & Hw & Hws). destruct (Connect false cfg w) as [r w'] eqn:H. cbn [fst snd].
  assert (check_ctx w = (Ok tt, w)) as Hcheck by (unfold check_ctx, mbind_, ctx_Err; by rewrite Hc).
  assert (NewReader w = (Ok tt, w)) as Hrd by (unfold NewReader; by rewrite Hr).
  assert (NewWriter w = (Ok tt, w)) as Hwr by (unfold NewWriter; by rewrite Hw).
  unfold Connect, unless_ok at 1, lift at 1 in H. unfold connect_plan.
  destruct (ClientConfig_preflight cfg) as [[mt ms]|e| |]; cbn [obind];
    [|unfold mbind_ at 1 in H; by injection H as <- <-..].
  unfold mbind_ at 1 in H. unfold mbind_ at 1 in H. rewrite Hcheck in H. unfold mbind_ at 1 in H. rewrite Hrd in H.
  unfold mbind_ at 1 in H. rewrite Hwr in H. unfold mbind_ at 1, allocate in H. cbn [fst snd] in H.
  destruct (Allocate (refs w)) as [o al]. cbn [fst snd].
  destruct o as [ref|e| |]; cbn [obind]; [|by injection H as <- <-..].
  set (w2 := set_refs w al) in H. unfold unless_ok, lift at 1 in H.
  destruct (buildSizeOffer mt (c_SizeProfile cfg)) as [offer|e| |]; cbn [obind];
    [|unfold mbind_ at 1 in H; by injection H as <- <-..].
  unfold mbind_ at 1, lift at 1 in H.
  destruct (rewrap _ _) as [b|e| |]; cbn [obind]; [|unfold mbind_ at 1 in H; by injection H as <- <-..].
  set (w3 := set_armed w2 true).
  assert (arm w2 = (Ok tt, w3)) as Harm
    by (unfold arm, check_ctx, mbind_, ctx_Err; change (ctx_errs w2) with (ctx_errs w); by rewrite Hc).
  unfold armHandshake in H. unfold mbind_ at 1 in H. unfold mbind_ at 1 in H. rewrite Harm in H. unfold defer in H. unfold mbind_ at 1 in H.
  set (w4 := snd (stream_write no_conn b w3)).
  assert (handshake_io (stream_write no_conn b) w3 = (Ok tt, w4) /\ reads w4 = reads w /\ sent w4 = sent w ++ [b])
    as (Hio & Hr4 & Hs4).
  { unfold w4, handshake_io, mbind_, attempt, stream_write, no_conn.
    change (writes w3) with (writes w). rewrite Hws. by split_and!. }
  rewrite Hio in H. fold (connect_answer cfg ms ref offer) in H. exists w4.
  destruct (connect_answer cfg ms ref offer w4) as [[c|e| |] w5]; by injection H as <- <-.
Qed.

Lemma connect_confirm_fwd cfg ref offer p cc n :
  Decode p = Ok (decoded (T_CC cc)) -> CC_CDT cc = 0 -> CC_ClassOption cc = 0 -> CC_DestinationRef cc = ref ->
  CC_SourceRef cc <> 0 -> CC_Parameters cc = [] -> slen (CC_UserData cc) <= 32 ->
  interpretCCSize (Offer offer) (CC_TPDUSize cc) (CC_PreferredMaxTPDUSize cc) (c_SizeProfile cfg) = Ok n ->
  connect_confirm cfg ref offer p = Ok (mkNegotiated 0 n ref (CC_SourceRef cc) (c_LocalSelector cfg)
    (match CC_CalledSelector cc with Some s => Some s | None => c_RemoteSelector cfg end) (CC_UserData cc)).
Proof.
  intros Hd Hcdt Hcl Hdst Hsrc Hps Hl Hn.
  unfold connect_confirm, validateClass0CCFixed, validateCCReferences. rewrite Hd.
  cbn [rewrap obind decoded D_Type D_CC]. unfold TypeCC, TypeDR, TypeER. cbn [Z.eqb Pos.eqb negb].
  rewrite Hcdt, Hcl, Hdst, Hps, Z.eqb_refl, (proj2 (Z.eqb_neq _ _) Hsrc). cbn [Z.eqb negb obind validateCCParameters].
  unfold MaxConnectDataLength. rewrite Hn. repeat if_false. cbn [obind].
  by destruct (CC_CalledSelector cc), (c_LocalSelector cfg), (c_RemoteSelector cfg), (CC_UserData cc).
Qed.

(** The plan of a client, opened. *)
Lemma connect_plan_inv cfg w ms ref offer b :
  client_typed cfg -> allocator_ok (refs w) -> connect_plan cfg w = Ok (ms, ref, offer, b) ->
  client_valid cfg /\ 1 <= ref < 65536 /\
  build_ok offer (norm_max (c_MaxTPDULength cfg)) (c_SizeProfile cfg) /\
  bytes_ok b /\ Decode b = Ok (decoded (T_CR (mkCR 0 0 ref 0 [] (c_LocalSelector cfg) (c_RemoteSelector cfg)
    (cr_StandardCode offer) (cr_PreferredUnits offer) (Some (content (c_ConnectData cfg)))))).
Proof.
  intros (H1 & H2 & H3) Hal H. unfold connect_plan in H. go_inv H. injection H as <- <- <- <-.
  destruct v as [mt ms']. cbn [fst snd] in *. rewrite rewrap_Ok in E2.
  apply client_preflight_Ok in E as (Hv & -> & ->). pose proof Hv as (Hprof & Hmax & _).
  destruct (Allocate (refs w)) as [r al] eqn:Hall. cbn [fst] in E0. subst r.
  destruct (Allocate_Ok _ _ _ Hal Hall) as (Href & _). destruct (norm_max_idem _ Hmax) as [Hnn Hmax'].
  destruct (buildSizeOffer_Ok _ _ Hmax' Hprof) as (o & Ho & Hbok). rewrite E1 in Ho. injection Ho as <-.
  rewrite Hnn in Hbok.
  destruct (request_read cfg v0 v1 v2 H1 H2 H3) as [Hb Hd];
    [unfold is_u16; lia|by eapply offer_code_u8|by eapply buildSizeOffer_u32|done|split_and!; try done; lia].
Qed.

(** Shared by the properties about two sides. *)
Lemma agreement_core ccfg scfg wc ws s ws' b1 b2 a1 a2 rs rs' :
  client_typed ccfg -> goslice_ok (s_LocalSelector scfg) ->
  (forall f ind d, OnConnect scfg = Some f -> f ind = inl d -> goslice_ok (dec_ConnectData d)) ->
  allocator_ok (refs wc) -> allocator_ok (refs ws) -> stream_ok ws -> ready wc ->
  sent (snd (Connect false ccfg wc)) = sent wc ++ [b1] ->
  reads ws = a1 :: rs' -> result a1 = inl b1 ->
  Accept false scfg ws = (Ok s, ws') -> sent ws' = sent ws ++ [b2] ->
  reads wc = a2 :: rs -> result a2 = inl b2 ->
  exists c cr offer d, fst (Connect false ccfg wc) = Ok c /\
    Decode b1 = Ok (decoded (T_CR cr)) /\
    decodeSizeOffer (CR_TPDUSize cr) (CR_PreferredMaxTPDUSize cr) = Ok offer /\
    policy scfg cr offer = inl d /\
    let nc := negotiated c in let ns := negotiated s in
    MaxTPDULength nc = MaxTPDULength ns /\
    128 <= MaxTPDULength nc <= Z.min (norm_max (c_MaxTPDULength ccfg))
                                 (server_ceiling (s_MaxTPDULength scfg) (dec_MaxTPDULength d)) /\
    LocalRef nc = RemoteRef ns /\ RemoteRef nc = LocalRef ns /\
    content (PeerConnectData ns) = content (c_ConnectData ccfg) /\
    content (PeerConnectData nc) = content (dec_ConnectData d) /\
    RemoteSelector ns = c_LocalSelector ccfg /\
    RemoteSelector nc = match LocalSelector ns with Some l => Some l | None => c_RemoteSelector ccfg end.
Proof.
  intros Hct H1 H2 Halc Hals Hst Hrdy Hsent Hr1 Ha1 Hacc Hsent2 Hr2 Ha2.
  pose proof (Connect_ready ccfg wc Hrdy) as Hc.
  assert (forall b, sent wc = sent wc ++ [b] -> False) as Hlen.
  { intros b Hb%(f_equal length). rewrite length_app in Hb. cbn in Hb. lia. }
  destruct (connect_plan ccfg wc) as [[[[ms ref] offer] b]|e| |] eqn:Hplan;
    [|rewrite Hsent in Hc; symmetry in Hc; by apply Hlen in Hc..].
  destruct Hc as (w1 & Hrw & Hsw & Hfst & Hsnd). rewrite Hsnd, connect_answer_quiet, Hsw in Hsent.
  apply app_inv_head in Hsent. injection Hsent as ->.
  destruct (connect_plan_inv _ _ _ _ _ _ Hct Halc Hplan) as ((Hprof & Hmax & _) & Href & Hbok & _ & Hd1).
  destruct (Accept_run_facts scfg ws s ws' H1 H2 Hst Hals Hacc)
    as (a & p & cr & o & d & sel & b & cc & _ & Hr & Hres & _ & Hdp & _ & Hdo & Hpol & Hs & _ & Hdb & Hcs & Hcp & Hsok &
        Hpath & Heff & Hm & Hneg & _ & _ & Hacpt).
  rewrite Hr1 in Hr. injection Hr as <- _. rewrite Ha1 in Hres. injection Hres as <-.
  rewrite Hs in Hsent2. apply app_inv_head in Hsent2. injection Hsent2 as ->.
  pose proof Hdp as Hdp'. pose proof Hdo as Hdo'.
  rewrite Hd1 in Hdp. injection Hdp as Hcr. rewrite <- Hcr in Hdo, Hacpt. cbn [CR_TPDUSize CR_PreferredMaxTPDUSize] in Hdo.
  pose proof (norm_max_range _ Hmax) as Hn. rewrite (decode_build _ _ _ Hbok Hn) in Hdo. injection Hdo as Hoff. subst o.
  pose proof (interpret_selected _ _ _ _ _ Hbok Hprof Hm Hsok Hpath Heff) as Hint.
  destruct Hacpt as (_ & _ & Hsr & _ & _ & Hud & Hcall & Hcdt & Hdst & Hsrc & Hcl & Hps & Hdata & _ & Hcalled & _ & _ &
    Hlr & Hrr & _ & _ & Hdl & Hrange). cbn [CR_SourceRef CR_UserData CR_CallingSelector] in *.
  assert (connect_confirm ccfg ref offer b2 = Ok (mkNegotiated 0 (Effective sel) ref (CC_SourceRef cc)
    (c_LocalSelector ccfg) (match CC_CalledSelector cc with Some s => Some s | None => c_RemoteSelector ccfg end)
    (CC_UserData cc))) as Hcc.
  { apply connect_confirm_fwd; try done; [by rewrite Hdst|lia|unfold slen in *; by rewrite Hdata|by rewrite Hcs, Hcp]. }
  rewrite Hr2 in Hrw. pose proof (connect_answer_Ok ccfg ms ref offer w1 a2 rs b2 _ Hrw Ha2 Hcc) as Hans.
  rewrite <- Hfst in Hans. eexists _, cr, _, d. split; [exact Hans|]. split; [exact Hdp'|]. split; [exact Hdo'|].
  split; [exact Hpol|].
  pose proof (negotiated_within _ _ _ _ Hbok Hn Hm) as Hwithin. rewrite <- Heff in Hwithin.
  cbn [negotiated MaxTPDULength LocalRef RemoteRef PeerConnectData RemoteSelector].
  rewrite <- Hud, <- Hcall, <- Hcalled, Hneg. split_and!; try done; lia.
Qed.

(** C9: when the server accepts the packet a client sends, the client accepts the
    packet the server answers, and the two agree: one size, within the client's
    maximum and the ceiling that the server's configuration and its policy's
    decision on this CR set; references crossed; each holds the connect data of the
    other, the server that of the client's configuration and the client that of the
    policy's decision; and the selectors of each are known to the other. *)
Theorem handshake_agreement ccfg scfg wc ws s ws' b1 b2 a1 a2 rs rs' :
  client_typed ccfg -> goslice_ok (s_LocalSelector scfg) ->
  (forall f ind d, OnConnect scfg = Some f -> f ind = inl d -> goslice_ok (dec_ConnectData d)) ->
  allocator_ok (refs wc) -> allocator_ok (refs ws) -> stream_ok ws -> ready wc ->
  sent (snd (Connect false ccfg wc)) = sent wc ++ [b1] ->
  reads ws = a1 :: rs' -> result a1 = inl b1 ->
  Accept false scfg ws = (Ok s, ws') -> sent ws' = sent ws ++ [b2] ->
  reads wc = a2 :: rs -> result a2 = inl b2 ->
  exists c cr offer d, fst (Connect false ccfg wc) = Ok c /\
    Decode b1 = Ok (decoded (T_CR cr)) /\
    decodeSizeOffer (CR_TPDUSize cr) (CR_PreferredMaxTPDUSize cr) = Ok offer /\
    policy scfg cr offer = inl d /\
    let nc := negotiated c in let ns := negotiated s in
    MaxTPDULength nc = MaxTPDULength ns /\
    128 <= MaxTPDULength nc <= Z.min (norm_max (c_MaxTPDULength ccfg))
                                 (server_ceiling (s_MaxTPDULength scfg) (dec_MaxTPDULength d)) /\
    LocalRef nc = RemoteRef ns /\ RemoteRef nc = LocalRef ns /\
    content (PeerConnectData ns) = content (c_ConnectData ccfg) /\
    content (PeerConnectData nc) = content (dec_ConnectData d) /\
    RemoteSelector ns = c_LocalSelector ccfg /\
    RemoteSelector nc = match LocalSelector ns with Some l => Some l | None => c_RemoteSelector ccfg end.
Proof. apply agreement_core. Qed.

Lemma handshake_agreement_witness :
  exists c cr offer d, fst (Connect false sample_client client_world) = Ok c /\
    Decode sample_request = Ok (decoded (T_CR cr)) /\
    decodeSizeOffer (CR_TPDUSize cr) (CR_PreferredMaxTPDUSize cr) = Ok offer /\
    policy sample_server cr offer = inl d /\
    let nc := negotiated c in let ns := negotiated sample_server_conn in
    MaxTPDULength nc = MaxTPDULength ns /\
    128 <= MaxTPDULength nc <= Z.min 5000 (server_ceiling 2048 (dec_MaxTPDULength d)) /\
    LocalRef nc = RemoteRef ns /\ RemoteRef nc = LocalRef ns /\
    content (PeerConnectData ns) = [7] /\
    content (PeerConnectData nc) = content (dec_ConnectData d) /\
    RemoteSelector ns = Some [1] /\
    RemoteSelector nc = match LocalSelector ns with Some l => Some l | None => Some [2; 3] end.
Proof.
  apply (handshake_agreement sample_client sample_server client_world server_world sample_server_conn
    (snd (Accept false sample_server server_world)) sample_request sample_confirm
    (packet sample_request) (packet sample_confirm) [] []);
    [decide_now|decide_now|done|apply client_refs_ok|apply server_refs_ok|decide_now|by split_and!
    |vm_compute; reflexivity|reflexivity|reflexivity|vm_compute; reflexivity|vm_compute; reflexivity
    |reflexivity|reflexivity].
Defined.
