(* ===== verification/HandshakeRun.v ===== *)
(** * Handshakes that complete

    HandshakeSpec.v says what a successful handshake guarantees; here the
    handshake is run in worlds where nothing local stands in the way, and it is
    shown to succeed, or to be refused with the server's reason on both sides. *)

From S2P Require Import Prelude Errors Types Wire PreferredMax Params Decode Encode Codec.
From S2P Require Import RoundTrip CodecSpec SizeNego Validate RefAlloc World Conn Tsdu.
From S2P Require Import TsduSpec Handshake HandshakeSpec.

(** ** A server in a ready world *)

(** The part of [Accept] between the read of the CR and the return. *)
Definition accept_serve (cfg : ServerConfig) (mt ms : Z) (payload : bytes) : M Conn :=
  do! req := accept_request payload in
  let '(cr, peerOffer) := req in
  do! decision := accept_decide cfg cr peerOffer in
  do! sel := lift (selectSize peerOffer mt (dec_MaxTPDULength decision) (s_SizeProfile cfg)) in
  do! localRef := allocate in
  unless_ok (release localRef) (
    let cc := accept_confirm cfg cr decision sel localRef in
    do! ccBytes := lift (rewrap ErrHandshake (CC_MarshalBinary (Some cc))) in
    do! _ := handshake_io (stream_write no_conn ccBytes) in
    let neg :=
      {| Class := Class0; MaxTPDULength := Effective sel; LocalRef := localRef;
         RemoteRef := CR_SourceRef cr;
         LocalSelector := copyBytes (snd (accept_selectors cfg cr));
         RemoteSelector := copyBytes (CR_CallingSelector cr);
         PeerConnectData := copyBytes (CR_UserData cr) |} in
    newOpenConn neg ms (s_SizeProfile cfg) localRef).

Lemma check_ctx_ready w : ready w -> check_ctx w = (Ok tt, w).
Proof. intros (Hc & _). unfold check_ctx, mbind_, ctx_Err. by rewrite Hc. Qed.

Lemma arm_ready w : ready w -> arm w = (Ok tt, set_armed w true).
Proof. intros H. unfold arm, mbind_. by rewrite check_ctx_ready. Qed.

Lemma NewReader_ready w : ready w -> NewReader w = (Ok tt, w).
Proof. intros (_ & Hr & _). unfold NewReader. by rewrite Hr. Qed.

Lemma NewWriter_ready w : ready w -> NewWriter w = (Ok tt, w).
Proof. intros (_ & _ & Hw & _). unfold NewWriter. by rewrite Hw. Qed.

(** What is written in a ready world arrives, and the world stays ready. *)
Lemma write_ready b w :
  ready w -> exists w', stream_write no_conn b w = (Ok tt, w') /\
    sent w' = sent w ++ [b] /\ reads w' = reads w /\ refs w' = refs w /\ ready w'.
Proof.
  intros (Hc & Hr & Hw & Hws). unfold stream_write, no_conn. rewrite Hws. eexists. split; [reflexivity|].
  by split_and!.
Qed.

Lemma io_Ok {A} (m : M A) w a w' : m w = (Ok a, w') -> handshake_io m w = (Ok a, w').
Proof. intros H. unfold handshake_io, attempt, mbind_. by rewrite H. Qed.

(** In a ready world [Accept] serves the packet it reads. *)
Lemma Accept_ready cfg w a rs p mt ms :
  ready w -> ServerConfig_preflight cfg = Ok (mt, ms) -> reads w = a :: rs -> result a = inl p ->
  exists w1, ready w1 /\ sent w1 = sent w /\ refs w1 = refs w /\
    fst (Accept false cfg w) = fst (accept_serve cfg mt ms p w1) /\
    sent (snd (Accept false cfg w)) = sent (snd (accept_serve cfg mt ms p w1)).
Proof.
  intros Hrdy Hpre Hrd Ha. destruct (Accept false cfg w) as [r w'] eqn:H. cbn [fst snd].
  unfold Accept, unless_ok at 1, lift at 1 in H. rewrite Hpre in H.
  unfold mbind_ at 1 in H. unfold mbind_ at 1 in H. rewrite check_ctx_ready in H by done.
  unfold mbind_ at 1 in H. rewrite NewReader_ready in H by done.
  unfold mbind_ at 1 in H. rewrite NewWriter_ready in H by done.
  unfold armHandshake in H. unfold mbind_ at 1 in H. rewrite arm_ready in H by done.
  unfold defer in H. unfold mbind_ at 1 in H.
  set (w1 := snd (stream_read no_conn (set_armed w true))).
  assert (stream_read no_conn (set_armed w true) = (Ok p, w1)) as Hread.
  { unfold w1, stream_read, no_conn. change (reads (set_armed w true)) with (reads w). rewrite Hrd. by rewrite Ha. }
  assert (ready w1 /\ sent w1 = sent w /\ refs w1 = refs w) as (Hrdy1 & Hs1 & Hf1).
  { unfold w1, stream_read, no_conn. change (reads (set_armed w true)) with (reads w). rewrite Hrd, Ha. by split_and!. }
  rewrite (io_Ok _ _ _ _ Hread) in H. cbn [fst snd] in H. fold (accept_serve cfg mt ms p) in H.
  exists w1. destruct (accept_serve cfg mt ms p w1) as [[c|e| |] w2]; injection H as <- <-; by split_and!.
Qed.

(** ** The server's steps *)

Lemma accept_request_fwd p w cr offer :
  Decode p = Ok (decoded (T_CR cr)) ->
  CR_CDT cr = 0 -> CR_ClassOption cr = 0 -> CR_DestinationRef cr = 0 -> CR_SourceRef cr <> 0 -> CR_Parameters cr = [] ->
  decodeSizeOffer (CR_TPDUSize cr) (CR_PreferredMaxTPDUSize cr) = Ok offer -> slen (CR_UserData cr) <= 32 ->
  accept_request p w = (Ok (cr, offer), w).
Proof.
  intros Hd Hcdt Hcl Hdst Hsrc Hps Hoff Hl. unfold accept_request. rewrite Hd. cbn [rewrap].
  unfold mbind_ at 1, lift at 1. cbn [decoded D_Type D_CR]. unfold TypeCR. cbn [Z.eqb Pos.eqb].
  unfold class0CRProtocolError. rewrite Hcl, Hcdt, Hdst, Hps, (proj2 (Z.eqb_neq _ _) Hsrc). cbn.
  rewrite Hoff. unfold mbind_, lift, MaxConnectDataLength. if_false. done.
Qed.

Lemma accept_decide_accept cfg cr offer w d :
  policy cfg cr offer = inl d -> Action d = ConnectAccept -> slen (dec_ConnectData d) <= 32 ->
  valid_max (dec_MaxTPDULength d) -> accept_decide cfg cr offer w = (Ok d, w).
Proof.
  intros Hp Ha Hl Hm. unfold accept_decide. fold (policy cfg cr offer). rewrite Hp.
  unfold validateConnectAction, validateConnectDataLength, MaxConnectDataLength. rewrite Ha.
  cbn [Z.eqb ConnectAccept ConnectReject negb andb]. unfold mbind_ at 1, lift at 1.
  if_false. unfold mbind_ at 1, lift at 1. unfold mbind_ at 1.
  destruct (dec_MaxTPDULength d =? 0); cbn [negb]; [done|].
  by rewrite (normalize_valid _ Hm).
Qed.

(** The octets of the DR that refuses a connection. *)
Definition refusal (dst reason : Z) : bytes :=
  [6; 128] ++ BigEndian_PutUint16 dst ++ BigEndian_PutUint16 0 ++ [reason].

Lemma refusal_marshal dst reason : DR_MarshalBinary (Some (mkDR dst 0 reason [] None)) = Ok (refusal dst reason).
Proof. reflexivity. Qed.

Lemma refusal_read dst reason :
  is_u16 dst -> is_u8 reason ->
  Decode (refusal dst reason) = Ok (decoded (T_DR (mkDR dst 0 reason [] (Some [])))).
Proof.
  intros Hd Hr.
  assert (DR_typed (mkDR dst 0 reason [] None)) as Hty by (split_and!; try done; constructor).
  destruct (DR_round_trips _ _ Hty (refusal_marshal dst reason)) as (_ & Hpk & Hdec).
  apply Decode_Ok. eexists _, _. by split_and!.
Qed.

Lemma accept_decide_reject cfg cr offer w d :
  ready w -> policy cfg cr offer = inl d -> Action d = ConnectReject ->
  exists w', accept_decide cfg cr offer w = (Err (RejectionError (RejectReason d) None), w') /\
    sent w' = sent w ++ [refusal (CR_SourceRef cr) (RejectReason d)].
Proof.
  intros Hr Hp Ha. unfold accept_decide. fold (policy cfg cr offer). rewrite Hp.
  unfold validateConnectAction. rewrite Ha. cbn [Z.eqb ConnectReject negb andb].
  unfold mbind_ at 1, lift at 1.
  destruct (write_ready (refusal (CR_SourceRef cr) (RejectReason d)) w Hr) as (w' & Hw & Hs & _).
  exists w'. split; [|done]. unfold ignore, attempt, writeDR, mbind_, lift. rewrite refusal_marshal. by rewrite Hw.
Qed.

(** ** Room for what the two sides send *)

Lemma units_octets_le pm : match pm with Some u => u <= 511 | None => True end -> units_octets pm <= 4.
Proof. destruct pm as [u|]; [|cbn; lia]. unfold units_octets. intros H. repeat split_goal; blia. Qed.

Lemma tlv_len_le s : tlv_len s <= 2 + slen s.
Proof. destruct s as [s|]; unfold slen; cbn [tlv_len content]; len_lia. Qed.

(** The octets a client's configuration adds to its CR. *)
Definition request_fits (cfg : ClientConfig) : Prop :=
  slen (c_LocalSelector cfg) + slen (c_RemoteSelector cfg) + slen (c_ConnectData cfg) <= 110.

Lemma offer_units b ceiling profile :
  build_ok b ceiling profile -> match cr_PreferredUnits b with Some u => 1 <= u <= 511 | None => True end.
Proof.
  intros ((_ & _ & Hpr) & _ & Hu & _). rewrite Hu. destruct (Preferred (Offer b)) as [p|]; [|done].
  destruct (Hpr p eq_refl) as (n & -> & Hn). cbn. by rewrite Z.div_mul.
Qed.

Lemma selection_units sel :
  selection_ok sel -> match sel_PreferredUnits sel with Some u => 1 <= u <= 511 | None => True end.
Proof.
  unfold selection_ok. destruct (Path sel).
  - by intros (_ & -> & _).
  - by intros (_ & _ & ->).
  - by intros (_ & -> & _ & ?).
Qed.

Lemma crcc_fits_intro c1 c2 sz pm :
  slen c1 <= 255 -> slen c2 <= 255 -> match pm with Some u => 1 <= u <= 511 | None => True end ->
  crcc_fits c1 c2 pm [] /\ crcc_octets c1 c2 sz pm [] <= 11 + slen c1 + slen c2.
Proof.
  intros H1 H2 Hpm. split.
  - split_and!; try done. by destruct pm as [u|]; [intros [= ->]; lia|].
  - unfold crcc_octets. pose proof (tlv_len_le c1). pose proof (tlv_len_le c2).
    assert (units_octets pm <= 4) by (apply units_octets_le; destruct pm; [lia|done]).
    change (len (tlvs (unknown_params []))) with 0.
    destruct sz; lia.
Qed.

Lemma request_encodes cfg ref offer ceiling profile :
  client_typed cfg -> client_valid cfg -> request_fits cfg -> is_u16 ref -> build_ok offer ceiling profile ->
  is_Ok (CR_MarshalBinary (Some (connect_request cfg ref offer))).
Proof.
  intros (H1 & H2 & H3) (_ & _ & _ & Hl & Hr & Hd) Hfit Href Hbok. unfold request_fits in Hfit.
  assert (CR_typed (connect_request cfg ref offer)) as Hty.
  { unfold CR_typed, connect_request. cbn. rewrite !copyBytes_id.
    pose proof (offer_units _ _ _ Hbok) as Hu. pose proof (offer_code_u8 _ _ _ Hbok).
    split_and!; try done. destruct (cr_PreferredUnits offer); [|done]. cbn. unfold is_u32. lia. }
  apply (Marshal_is_Ok (T_CR (connect_request cfg ref offer)) Hty).
  destruct (crcc_fits_intro (c_LocalSelector cfg) (c_RemoteSelector cfg) (cr_StandardCode offer)
    (cr_PreferredUnits offer) Hl Hr (offer_units _ _ _ Hbok)) as [Hf Ho].
  cbn [encodable connect_request CR_CallingSelector CR_CalledSelector CR_PreferredMaxTPDUSize CR_Parameters
       CR_TPDUSize CR_UserData]. rewrite !copyBytes_id. split; [done|lia].
Qed.

Lemma Allocate_room a :
  allocator_ok a -> Z.of_nat (size (active a)) < 65535 ->
  exists r a', Allocate a = (Ok r, a') /\ 1 <= r < 65536.
Proof.
  intros Ha Hs. destruct (Allocate_free a Ha Hs) as (j & r & _ & _ & _ & _ & Heq).
  exists r. eexists. split; [exact Heq|]. by destruct (Allocate_Ok _ _ _ Ha Heq).
Qed.

Lemma connect_plan_total cfg w :
  client_typed cfg -> client_valid cfg -> request_fits cfg ->
  allocator_ok (refs w) -> Z.of_nat (size (active (refs w))) < 65535 -> is_Ok (connect_plan cfg w).
Proof.
  intros Ht Hv Hfit Hal Hroom. unfold connect_plan.
  rewrite (proj2 (client_preflight_Ok cfg _ _) (conj Hv (conj eq_refl eq_refl))). cbn [obind fst snd].
  destruct (Allocate_room _ Hal Hroom) as (ref & al & -> & Href). cbn [fst obind].
  pose proof Hv as (Hprof & Hmax & _). destruct (norm_max_idem _ Hmax) as [_ Hmax'].
  destruct (buildSizeOffer_Ok _ _ Hmax' Hprof) as (offer & -> & Hbok). cbn [obind].
  destruct (request_encodes cfg ref offer _ _ Ht Hv Hfit ltac:(unfold is_u16; lia) Hbok) as [b ->].
  by eexists.
Qed.

(** ** Policies *)

(** The server's policy accepts what such a client asks for. *)
Definition welcomes (scfg : ServerConfig) (ccfg : ClientConfig) : Prop := forall cr offer,
  CR_ClassOption cr = 0 -> CR_CallingSelector cr = c_LocalSelector ccfg ->
  CR_CalledSelector cr = c_RemoteSelector ccfg -> content (CR_UserData cr) = content (c_ConnectData ccfg) ->
  exists d, policy scfg cr offer = inl d /\ Action d = ConnectAccept /\ slen (dec_ConnectData d) <= 32 /\
    valid_max (dec_MaxTPDULength d).

(** It refuses it, for a reason. *)
Definition refuses (scfg : ServerConfig) (ccfg : ClientConfig) (reason : Z) : Prop := forall cr offer,
  CR_ClassOption cr = 0 -> CR_CallingSelector cr = c_LocalSelector ccfg ->
  CR_CalledSelector cr = c_RemoteSelector ccfg -> content (CR_UserData cr) = content (c_ConnectData ccfg) ->
  exists d, policy scfg cr offer = inl d /\ Action d = ConnectReject /\ RejectReason d = reason.

(** The default policy: the called selector must be the server's, if it has one. *)
Definition called_matches (scfg : ServerConfig) (ccfg : ClientConfig) : bool :=
  match s_LocalSelector scfg with
  | None => true
  | Some l => bool_decide (c_RemoteSelector ccfg = Some l)
  end.

Lemma default_policy scfg ccfg :
  OnConnect scfg = None ->
  if called_matches scfg ccfg then welcomes scfg ccfg else refuses scfg ccfg ReasonAddressUnknown.
Proof.
  intros Hn. unfold called_matches, welcomes, refuses, policy, defaultAutoAccept, validateServerCalledSelector.
  rewrite Hn. destruct (s_LocalSelector scfg) as [l|].
  - destruct (bool_decide (c_RemoteSelector ccfg = Some l)) eqn:E; intros cr offer Hcl _ Hcalled _; rewrite Hcl; cbn;
      rewrite Hcalled.
    + apply bool_decide_eq_true in E as ->. cbn. rewrite bool_decide_eq_true_2 by done.
      eexists. split_and!; [reflexivity|done|done|by left].
    + apply bool_decide_eq_false in E. destruct (c_RemoteSelector ccfg) as [c|]; [|by eexists].
      cbn. rewrite bool_decide_eq_false_2 by congruence. by eexists.
  - intros cr offer Hcl _ _ _. rewrite Hcl. cbn. eexists. split_and!; [reflexivity|done|done|by left].
Qed.

(** ** The two sides together *)

Lemma ready_world_ready rs a : ready (ready_world rs a).
Proof. by split_and!. Qed.

Lemma packet_stream_ok b a : bytes_ok b -> stream_ok (ready_world [packet b] a).
Proof.
  intros Hb. split; [|constructor]. apply Forall_singleton. unfold read_answer_ok. cbn. len_pose.
  split_and!; try done; lia.
Qed.

(** What the client sends whatever it is answered. *)
Lemma client_sends cfg ac :
  client_typed cfg -> client_valid cfg -> request_fits cfg ->
  allocator_ok ac -> Z.of_nat (size (active ac)) < 65535 ->
  exists ms ref offer b,
    (forall rs, connect_plan cfg (ready_world rs ac) = Ok (ms, ref, offer, b)) /\
    (forall rs, sent (snd (Connect false cfg (ready_world rs ac))) = [b]) /\
    1 <= ref < 65536 /\ build_ok offer (norm_max (c_MaxTPDULength cfg)) (c_SizeProfile cfg) /\ bytes_ok b /\
    Decode b = Ok (decoded (T_CR (mkCR 0 0 ref 0 [] (c_LocalSelector cfg) (c_RemoteSelector cfg)
      (cr_StandardCode offer) (cr_PreferredUnits offer) (Some (content (c_ConnectData cfg)))))).
Proof.
  intros Ht Hv Hfit Hal Hroom.
  destruct (connect_plan_total cfg (ready_world [] ac) Ht Hv Hfit Hal Hroom) as [[[[ms ref] offer] b] Hplan].
  exists ms, ref, offer, b.
  assert (forall rs, connect_plan cfg (ready_world rs ac) = Ok (ms, ref, offer, b)) as Hall by done.
  destruct (connect_plan_inv cfg (ready_world [] ac) _ _ _ _ Ht Hal Hplan) as (_ & ? & ? & ? & ?).
  split; [done|]. split; [|split_and!; try done; lia].
  intros rs. pose proof (Connect_ready cfg (ready_world rs ac) (ready_world_ready _ _)) as Hc. rewrite Hall in Hc.
  destruct Hc as (w1 & _ & Hs & _ & ->). by rewrite connect_answer_quiet, Hs.
Qed.

(** The client's side of an answer. *)
Lemma Connect_answered cfg ac ms ref offer b p r :
  connect_plan cfg (ready_world [packet p] ac) = Ok (ms, ref, offer, b) ->
  connect_confirm cfg ref offer p = Err r ->
  fst (Connect false cfg (ready_world [packet p] ac)) = Err r.
Proof.
  intros Hplan Hc. pose proof (Connect_ready cfg _ (ready_world_ready [packet p] ac)) as H. rewrite Hplan in H.
  destruct H as (w1 & Hr & _ & -> & _). unfold connect_answer, handshake_io, attempt, stream_read, mbind_, lift.
  rewrite Hr. cbn. by rewrite Hc.
Qed.

(** C35: a refusal of the server's policy reaches the client: [Accept] sends a
    DR that carries the reason and fails with a RejectionError of that reason,
    and [Connect], given that DR, fails with a RejectionError of the same
    reason. *)
Theorem rejection_reaches_client ccfg scfg ac als reason :
  client_typed ccfg -> client_valid ccfg -> request_fits ccfg -> server_valid scfg -> is_u8 reason ->
  refuses scfg ccfg reason ->
  allocator_ok ac -> Z.of_nat (size (active ac)) < 65535 ->
  exists b1 b2,
    let client := Connect false ccfg (ready_world [packet b2] ac) in
    let server := Accept false scfg (ready_world [packet b1] als) in
    sent (snd client) = [b1] /\ sent (snd server) = [b2] /\
    fst server = Err (RejectionError reason None) /\ fst client = Err (RejectionError reason (Some [])).
Proof.
  intros Ht Hv Hfit Hsv Hreason Href Hal Hroom.
  destruct (client_sends ccfg ac Ht Hv Hfit Hal Hroom) as (ms & ref & offer & b & Hplan & Hsent & Hr & Hbok & _ & Hd).
  exists b, (refusal ref reason). cbv zeta. rewrite Hsent.
  pose proof Hv as (_ & Hmax & _ & _ & _ & Hdata). pose proof (norm_max_range _ Hmax) as Hn.
  pose proof (Accept_ready scfg _ _ _ _ _ _ (ready_world_ready [packet b] als)
    (proj2 (server_preflight_Ok scfg _ _) (conj Hsv (conj eq_refl eq_refl))) eq_refl eq_refl)
    as (w1 & Hrdy & Hs1 & _ & -> & ->).
  set (cr := mkCR 0 0 ref 0 [] _ _ _ _ _) in Hd.
  destruct (Href cr (Offer offer)) as (d & Hp & Ha & Hre); [done..|].
  destruct (accept_decide_reject scfg cr (Offer offer) w1 d Hrdy Hp Ha) as (w2 & Hdec & Hs2).
  rewrite Hre in Hdec, Hs2.
  assert (accept_request b w1 = (Ok (cr, Offer offer), w1)) as Hreq.
  { apply accept_request_fwd; try done; [cbn; lia|by apply (decode_build _ _ _ Hbok Hn)]. }
  unfold accept_serve, mbind_. rewrite Hreq, Hdec. cbn [fst snd]. rewrite Hs2, Hs1. split_and!; [done|done|done|].
  eapply Connect_answered; [apply Hplan|].
  unfold connect_confirm. rewrite refusal_read by (try done; unfold is_u16; lia). done.
Qed.

(** A server welcomes a client: default policy, wrong called selector. *)
Lemma rejection_reaches_client_witness :
  let scfg := mkServerConfig (Some [9]) 2048 0 None 0 true in
  exists b1 b2,
    let client := Connect false sample_client (ready_world [packet b2] newReferenceAllocator) in
    let server := Accept false scfg (ready_world [packet b1] newReferenceAllocator) in
    sent (snd client) = [b1] /\ sent (snd server) = [b2] /\
    fst server = Err (RejectionError 3 None) /\ fst client = Err (RejectionError 3 (Some [])).
Proof.
  intros scfg. apply (rejection_reaches_client sample_client scfg newReferenceAllocator newReferenceAllocator 3).
  - decide_now.
  - split_and!; try (vm_compute; discriminate); [by right|right; split; vm_compute; discriminate].
  - vm_compute. discriminate.
  - split_and!; try (vm_compute; discriminate); [by left|right; split; vm_compute; discriminate].
  - split; lia.
  - exact (default_policy scfg sample_client eq_refl).
  - apply newReferenceAllocator_ok.
  - vm_compute. reflexivity.
Defined.

(** The answer of a server that welcomes the client fits. *)
Lemma confirm_encodes cfg cr d sel ref :
  goslice_ok (s_LocalSelector cfg) -> slen (s_LocalSelector cfg) <= 127 -> CR_typed cr ->
  slen (CR_CallingSelector cr) + slen (CR_CalledSelector cr) <= 110 ->
  goslice_ok (dec_ConnectData d) -> is_u16 ref -> selection_ok sel ->
  is_Ok (CC_MarshalBinary (Some (accept_confirm cfg cr d sel ref))).
Proof.
  intros H1 Hl (_ & _ & Hsrc & _ & _ & Hc1 & Hc2 & _) Hlen Hdt Href Hsel.
  unfold accept_confirm. rewrite accept_selectors_eq, !copyBytes_id.
  set (calling := if EchoSelectors cfg then CR_CallingSelector cr else None).
  set (responding := if bool_decide (s_LocalSelector cfg = None) && EchoSelectors cfg
                     then CR_CalledSelector cr else s_LocalSelector cfg).
  assert (0 <= slen (CR_CallingSelector cr)) by apply len_nonneg.
  assert (0 <= slen (CR_CalledSelector cr)) by apply len_nonneg.
  assert (goslice_ok calling /\ slen calling <= slen (CR_CallingSelector cr)) as [Hca Hcal].
  { unfold calling. destruct (EchoSelectors cfg); split; try done. constructor. }
  assert (goslice_ok responding /\ slen calling + slen responding <= 237) as [Hre Hrl].
  { unfold responding. destruct (_ && _); split; try done; lia. }
  assert (0 <= slen calling /\ 0 <= slen responding) as [? ?] by (split; apply len_nonneg).
  pose proof (selection_units sel Hsel) as Hu. pose proof (selection_code_u8 sel Hsel).
  cbn [fst snd].
  match goal with |- is_Ok (CC_MarshalBinary (Some ?c)) => assert (CC_typed c) as Hty; [|apply (Marshal_is_Ok (T_CC c) Hty)] end.
  { split_and!; try done. cbn. destruct (sel_PreferredUnits sel); [|done]. cbn. unfold is_u32. lia. }
  destruct (crcc_fits_intro calling responding (sel_StandardCode sel) (sel_PreferredUnits sel)) as [Hf Ho];
    [lia|lia|done|].
  cbn [encodable CC_CallingSelector CC_CalledSelector CC_PreferredMaxTPDUSize CC_Parameters CC_TPDUSize].
  split; [done|lia].
Qed.

(** A server that welcomes a client of valid configuration answers it. *)
Lemma accept_serve_Ok scfg ccfg p w cr offer :
  ready w -> server_valid scfg -> goslice_ok (s_LocalSelector scfg) -> slen (s_LocalSelector scfg) <= 127 ->
  (forall f ind d, OnConnect scfg = Some f -> f ind = inl d -> goslice_ok (dec_ConnectData d)) ->
  welcomes scfg ccfg -> allocator_ok (refs w) -> Z.of_nat (size (active (refs w))) < 65535 ->
  accept_request p w = (Ok (cr, offer), w) -> offer_ok offer -> CR_typed cr ->
  CR_ClassOption cr = 0 -> CR_CallingSelector cr = c_LocalSelector ccfg ->
  CR_CalledSelector cr = c_RemoteSelector ccfg -> content (CR_UserData cr) = content (c_ConnectData ccfg) ->
  slen (CR_CallingSelector cr) + slen (CR_CalledSelector cr) <= 110 ->
  exists s b, fst (accept_serve scfg (norm_max (s_MaxTPDULength scfg))
                     (effective_max_tsdu (s_MaxTSDULength scfg)) p w) = Ok s /\
    sent (snd (accept_serve scfg (norm_max (s_MaxTPDULength scfg))
                 (effective_max_tsdu (s_MaxTSDULength scfg)) p w)) = sent w ++ [b].
Proof.
  intros Hr (Hprof & Hmax & _) Hsl Hll Hdec Hwel Hal Hroom Hreq Hoff Hty Hcl Hc1 Hc2 Hud Hlen.
  destruct (Hwel cr offer Hcl Hc1 Hc2 Hud) as (d & Hp & Ha & Hl & Hm).
  assert (goslice_ok (dec_ConnectData d)) as Hdt.
  { revert Hp. unfold policy. destruct (OnConnect scfg) as [f|] eqn:Hf; [by apply Hdec|].
    unfold defaultAutoAccept. repeat split_goal; intros [= <-]; constructor. }
  destruct (norm_max_idem _ Hmax) as [_ Hmax'].
  destruct (selectSize_Ok offer _ _ _ Hoff Hmax' Hm Hprof) as (sel & Hsel & Hselok & _).
  destruct (Allocate_room _ Hal Hroom) as (ref & al & Halloc & Href).
  destruct (confirm_encodes scfg cr d sel ref Hsl Hll Hty Hlen Hdt ltac:(unfold is_u16; lia) Hselok) as [b Hb].
  destruct (accept_serve _ _ _ p w) as [r w'] eqn:H. cbn [fst snd].
  unfold accept_serve, mbind_ at 1 in H. rewrite Hreq in H. unfold mbind_ at 1 in H.
  rewrite (accept_decide_accept scfg cr offer w d Hp Ha Hl Hm) in H. unfold mbind_ at 1, lift at 1 in H.
  rewrite Hsel in H. unfold mbind_ at 1, allocate at 1 in H. rewrite Halloc in H.
  unfold unless_ok in H. unfold mbind_ at 1, lift at 1 in H. rewrite Hb in H. cbn [rewrap] in H.
  destruct (write_ready b (set_refs w al)) as (w2 & Hw & Hs & _); [by destruct Hr as (? & ? & ? & ?)|].
  unfold mbind_ at 1 in H. rewrite (io_Ok _ _ _ _ Hw) in H. unfold newOpenConn in H. injection H as <- <-.
  by eexists _, b.
Qed.

(** The handshake of two sides that suit each other. *)
Lemma handshake_completes_core ccfg scfg ac als :
  client_typed ccfg -> client_valid ccfg -> request_fits ccfg ->
  goslice_ok (s_LocalSelector scfg) -> server_valid scfg -> slen (s_LocalSelector scfg) <= 127 ->
  (forall f ind d, OnConnect scfg = Some f -> f ind = inl d -> goslice_ok (dec_ConnectData d)) ->
  welcomes scfg ccfg ->
  allocator_ok ac -> Z.of_nat (size (active ac)) < 65535 ->
  allocator_ok als -> Z.of_nat (size (active als)) < 65535 ->
  exists b1 b2 c s, bytes_ok b1 /\
    let client := Connect false ccfg (ready_world [packet b2] ac) in
    let server := Accept false scfg (ready_world [packet b1] als) in
    sent (snd client) = [b1] /\ sent (snd server) = [b2] /\
    fst client = Ok c /\ fst server = Ok s /\
    let nc := negotiated c in let ns := negotiated s in
    MaxTPDULength nc = MaxTPDULength ns /\ LocalRef nc = RemoteRef ns /\ RemoteRef nc = LocalRef ns /\
    content (PeerConnectData ns) = content (c_ConnectData ccfg) /\
    RemoteSelector ns = c_LocalSelector ccfg /\
    RemoteSelector nc = match LocalSelector ns with Some l => Some l | None => c_RemoteSelector ccfg end /\
    exists cr offer d, Decode b1 = Ok (decoded (T_CR cr)) /\
      decodeSizeOffer (CR_TPDUSize cr) (CR_PreferredMaxTPDUSize cr) = Ok offer /\
      policy scfg cr offer = inl d /\ content (PeerConnectData nc) = content (dec_ConnectData d).
Proof.
  intros Ht Hv Hfit Hsl Hsv Hll Hdec Hwel Halc Hroomc Hals Hrooms.
  destruct (client_sends ccfg ac Ht Hv Hfit Halc Hroomc) as (ms & ref & offer & b1 & Hplan & Hsent & Hr & Hbok & Hb1 & Hd).
  pose proof Hv as (_ & Hmax & _ & Hl1 & Hl2 & Hdata). pose proof (norm_max_range _ Hmax) as Hn.
  pose proof (Accept_ready scfg _ _ _ _ _ _ (ready_world_ready [packet b1] als)
    (proj2 (server_preflight_Ok scfg _ _) (conj Hsv (conj eq_refl eq_refl))) eq_refl eq_refl)
    as (w1 & Hrdy & Hs1 & Hf1 & Hfst & Hsnd).
  set (cr := mkCR 0 0 ref 0 [] _ _ _ _ _) in Hd.
  assert (accept_request b1 w1 = (Ok (cr, Offer offer), w1)) as Hreq.
  { apply accept_request_fwd; try done; [cbn; lia|by apply (decode_build _ _ _ Hbok Hn)]. }
  destruct (Decode_CR b1 _ cr Hb1 Hd eq_refl) as [_ Hty].
  destruct (accept_serve_Ok scfg ccfg b1 w1 cr (Offer offer)) as (s & b2 & Hs & Hs2); try done;
    [by rewrite Hf1|by rewrite Hf1|apply Hbok| |].
  { cbn. unfold request_fits in Hfit. pose proof (len_nonneg (content (c_ConnectData ccfg))). unfold slen in *. lia. }
  rewrite <- Hfst in Hs. rewrite <- Hsnd, Hs1 in Hs2. clear Hfst Hsnd.
  destruct (Accept false scfg (ready_world [packet b1] als)) as [r ws'] eqn:Hacc. cbn [fst snd] in Hs, Hs2.
  rewrite Hs in Hacc.
  destruct (agreement_core ccfg scfg (ready_world [packet b2] ac) (ready_world [packet b1] als) s ws' b1 b2
    (packet b1) (packet b2) [] [] Ht Hsl Hdec Halc Hals (packet_stream_ok _ _ Hb1) (ready_world_ready _ _)
    (Hsent _) eq_refl eq_refl Hacc Hs2 eq_refl eq_refl)
    as (c & cr' & o & d & Hc & Hdcr & Hoff & Hpol & Hsz & _ & Hlr & Hrr & Hd1 & Hd2 & Hsel1 & Hsel2).
  exists b1, b2, c, s. cbv zeta. rewrite Hacc. split_and!; try done. by exists cr', o, d.
Qed.


(** C6: two sides of valid configuration connect.  The server's policy welcoming
    the client, the CR fitting its 128 octets and a reference being free on each
    side, [Connect] and [Accept] both succeed, each given what the other sends,
    one packet each way, and agree on the size and on each other's reference and
    selector; the server holds the client's connect data, the client those of the
    decision of the server's policy on the CR. *)
Theorem handshake_completes ccfg scfg ac als :
  client_typed ccfg -> client_valid ccfg -> request_fits ccfg ->
  goslice_ok (s_LocalSelector scfg) -> server_valid scfg -> slen (s_LocalSelector scfg) <= 127 ->
  (forall f ind d, OnConnect scfg = Some f -> f ind = inl d -> goslice_ok (dec_ConnectData d)) ->
  welcomes scfg ccfg ->
  allocator_ok ac -> Z.of_nat (size (active ac)) < 65535 ->
  allocator_ok als -> Z.of_nat (size (active als)) < 65535 ->
  exists b1 b2 c s,
    let client := Connect false ccfg (ready_world [packet b2] ac) in
    let server := Accept false scfg (ready_world [packet b1] als) in
    sent (snd client) = [b1] /\ sent (snd server) = [b2] /\
    fst client = Ok c /\ fst server = Ok s /\
    let nc := negotiated c in let ns := negotiated s in
    MaxTPDULength nc = MaxTPDULength ns /\ LocalRef nc = RemoteRef ns /\ RemoteRef nc = LocalRef ns /\
    content (PeerConnectData ns) = content (c_ConnectData ccfg) /\
    RemoteSelector ns = c_LocalSelector ccfg /\
    RemoteSelector nc = match LocalSelector ns with Some l => Some l | None => c_RemoteSelector ccfg end /\
    exists cr offer d, Decode b1 = Ok (decoded (T_CR cr)) /\
      decodeSizeOffer (CR_TPDUSize cr) (CR_PreferredMaxTPDUSize cr) = Ok offer /\
      policy scfg cr offer = inl d /\ content (PeerConnectData nc) = content (dec_ConnectData d).
Proof.
  intros. destruct (handshake_completes_core ccfg scfg ac als) as (b1 & b2 & c & s & _ & ?); try done.
  by exists b1, b2, c, s.
Qed.

(** A server with the called selector, the default policy. *)
Lemma handshake_completes_witness :
  let scfg := mkServerConfig (Some [2; 3]) 2048 0 None 0 true in
  exists b1 b2 c s,
    let client := Connect false sample_client (ready_world [packet b2] newReferenceAllocator) in
    let server := Accept false scfg (ready_world [packet b1] newReferenceAllocator) in
    sent (snd client) = [b1] /\ sent (snd server) = [b2] /\
    fst client = Ok c /\ fst server = Ok s /\
    let nc := negotiated c in let ns := negotiated s in
    MaxTPDULength nc = MaxTPDULength ns /\ LocalRef nc = RemoteRef ns /\ RemoteRef nc = LocalRef ns /\
    content (PeerConnectData ns) = [7] /\ RemoteSelector ns = Some [1] /\
    RemoteSelector nc = match LocalSelector ns with Some l => Some l | None => Some [2; 3] end /\
    exists cr offer d, Decode b1 = Ok (decoded (T_CR cr)) /\
      decodeSizeOffer (CR_TPDUSize cr) (CR_PreferredMaxTPDUSize cr) = Ok offer /\
      policy scfg cr offer = inl d /\ content (PeerConnectData nc) = content (dec_ConnectData d).
Proof.
  intros scfg. apply (handshake_completes sample_client scfg newReferenceAllocator newReferenceAllocator).
  - decide_now.
  - split_and!; try (vm_compute; discriminate); [by right|right; split; vm_compute; discriminate].
  - vm_compute. discriminate.
  - decide_now.
  - split_and!; try (vm_compute; discriminate); [by left|right; split; vm_compute; discriminate].
  - vm_compute. discriminate.
  - done.
  - exact (default_policy scfg sample_client eq_refl).
  - apply newReferenceAllocator_ok.
  - vm_compute. reflexivity.
  - apply newReferenceAllocator_ok.
  - vm_compute. reflexivity.
Defined.
