(* ===== verification/Session.v ===== *)
(** * A session

    The parts together: a client and a server of valid configurations connect,
    and whatever either then writes the other reads, in order, until the end. *)

From S2P Require Import Prelude Errors Types Wire PreferredMax Params Decode Encode Codec.
From S2P Require Import RoundTrip CodecSpec SizeNego Validate RefAlloc World Conn Tsdu TsduSpec Failures.
From S2P Require Import Locked Writers Handshake HandshakeSpec HandshakeRun.

(** ** Worlds in which nothing interferes *)

(** The writer's answers have run out: it succeeds from now on. *)
Definition undisturbed (w : world) : Prop :=
  TsduSpec.quiet w /\ writes w = [] /\ stream_ok w /\ locked w = false /\ armed w = false.

Lemma stream_write_undisturbed c p w :
  writes w = [] -> exists w', stream_write (conn_ends c) p w = (Ok tt, w') /\ kept w w' /\ writes w' = [] /\ reads w' = reads w.
Proof. intros Hw. unfold stream_write. rewrite Hw. cbn [conn_ends]. eexists. split; [reflexivity|]. by split_and!. Qed.

(** The segment loop, when every write succeeds. *)
Lemma write_loop_succeeds c tsdu start fuel : forall offset w,
  4 <= MaxTPDULength (negotiated c) -> writes w = [] -> 0 <= offset <= len tsdu ->
  len tsdu - offset < Z.of_nat fuel ->
  exists w', mloop fuel (write_body c tsdu (MaxTPDULength (negotiated c) - 3) start) offset w = (Ok tt, w') /\
    kept w w' /\ writes w' = [] /\ reads w' = reads w.
Proof.
  induction fuel as [|fuel IH]; intros offset w Hm Hw Ho Hf; [lia|]. cbn [mloop]. unfold mbind_ at 1.
  unfold write_body. destruct (Z.ltb_spec offset (len tsdu)) as [Hlt|Hge].
  2: { exists w. split; [done|]. split; [by split_and!|done]. }
  set (end_ := Z.min (offset + (MaxTPDULength (negotiated c) - 3)) (len tsdu)).
  destruct (slice_is_Ok tsdu offset end_) as [chunk Hchunk]; [lia|lia|].
  rewrite Hchunk. cbv zeta. unfold mbind_ at 1, lift at 1. unfold mbind_ at 1. unfold attempt at 1, lift at 1.
  rewrite segment_octets_Ok. unfold mbind_ at 1. unfold attempt at 1.
  destruct (stream_write_undisturbed c (open_DT (end_ =? len tsdu) chunk) w Hw) as (w1 & -> & Hk & Hw1 & Hr1).
  unfold ret. destruct (IH end_ w1) as (w2 & Heq & Hk2 & Hw2 & Hr2); try done; [lia|lia|].
  exists w2. split; [exact Heq|]. split; [by etrans|]. split; [done|congruence].
Qed.

(** A TSDU within the limit is written, and nothing else happens. *)
Lemma WriteTSDU_succeeds c tsdu w :
  undisturbed w -> 4 <= MaxTPDULength (negotiated c) -> 1 <= len tsdu <= effective_max_tsdu (maxTSDU c) ->
  exists ps w', WriteTSDU (Some c) tsdu w = (Ok tt, w') /\ undisturbed w' /\ reads w' = reads w /\
    sent w' = sent w ++ ps /\ segmentation (MaxTPDULength (negotiated c)) tsdu ps.
Proof.
  intros ((Ht & Hle & Hc) & Hw & Hst & Hl & Ha) Hm Hlen.
  pose proof (WriteTSDU_spec c tsdu w (or_introl Ht) Hst Hl Ha) as Hspec. unfold wp in Hspec.
  enough (exists w', WriteTSDU (Some c) tsdu w = (Ok tt, w') /\ kept w w' /\ writes w' = [] /\ reads w' = reads w)
    as (w' & Heq & (Hs & Ec & El & _) & Hw' & Hr).
  { rewrite Heq in Hspec. cbn [fst snd] in Hspec. destruct Hspec as ((_ & _ & ps & Hsent & Hseg) & Hst' & Hl' & Ha').
    exists ps, w'. split_and!; try done. destruct Hs as [Et _]. unfold undisturbed, TsduSpec.quiet. rewrite Et, El, Ec.
    by split_and!. }
  rewrite WriteTSDU_enters; [|by split_and!; [..|left]|done|done].
  destruct (write_loop_succeeds c tsdu (nWritten w) (S (length tsdu)) 0 (entered w))
    as (w' & -> & ((Et & Ec & Er) & Ectx & El & Edl & Epast) & Hw' & Hr); try done; [lia|unfold len; lia|].
  cbn in Et, Ec, Er, El, Edl, Epast. cbn [entered ctx_errs] in Ectx. rewrite Hc in Ectx.
  eexists. split; [reflexivity|]. unfold kept, same_conn. cbn.
  split_and!; try done; try congruence; by rewrite Ectx, Hc.
Qed.

(** [n] calls of [WriteTSDU], one after the other. *)
Fixpoint write_all (c : Conn) (tsdus : list bytes) (w : world) : list (outcome unit) * world :=
  match tsdus with
  | [] => ([], w)
  | tsdu :: tsdus =>
      let '(r, w) := WriteTSDU (Some c) tsdu w in
      let '(rs, w) := write_all c tsdus w in
      (r :: rs, w)
  end.

Lemma write_all_succeeds c tsdus : forall w,
  undisturbed w -> 4 <= MaxTPDULength (negotiated c) ->
  Forall (fun tsdu => 1 <= len tsdu <= effective_max_tsdu (maxTSDU c)) tsdus ->
  exists pss w', write_all c tsdus w = (map (fun _ => Ok tt) tsdus, w') /\ undisturbed w' /\ reads w' = reads w /\
    sent w' = sent w ++ concat pss /\ Forall2 (dt_packets (MaxTPDULength (negotiated c))) tsdus pss.
Proof.
  induction tsdus as [|tsdu tsdus IH]; intros w Hu Hm Hall.
  { exists [], w. cbn. rewrite app_nil_r. by split_and!. }
  apply Forall_cons in Hall as [Hlen Hall].
  destruct (WriteTSDU_succeeds c tsdu w Hu Hm Hlen) as (ps & w1 & Heq & Hu1 & Hr1 & Hs1 & Hseg).
  destruct (IH w1 Hu1 Hm Hall) as (pss & w2 & Heq2 & Hu2 & Hr2 & Hs2 & Hf).
  exists (ps :: pss), w2. cbn [write_all map concat]. rewrite Heq, Heq2, Hs2, Hs1, app_assoc.
  split_and!; try done; [congruence|]. constructor; [by apply segmentation_packets|done].
Qed.

(** [ReadTSDU] leaves the writing direction alone. *)
Definition same_writes (w w' : world) : Prop := writes w' = writes w.

#[export] Instance same_writes_preorder : PreOrder same_writes.
Proof. split; [by intros w|]. unfold same_writes. intros ??? H1 H2. by rewrite H2. Qed.

Lemma io_writes {A} (m : M A) : keeps io_frame m -> keeps same_writes m.
Proof. intros H w. by destruct (H w) as (_ & ? & _). Qed.

Lemma lock_writes : keeps same_writes opLock_lock.
Proof. intros w. unfold opLock_lock. by destruct (lock_errs w) as [|[e|] l]. Qed.

Lemma arm_writes : keeps same_writes arm.
Proof.
  intros w. destruct (arm_spec w) as [(w' & -> & _ & _ & _ & Hw & _)|(e & w' & -> & _ & (_ & Hw & _))]; exact Hw.
Qed.

Lemma read_writes c : keeps same_writes (stream_read (conn_ends c)).
Proof.
  intros w. unfold stream_read. destruct (reads w) as [|a rs]; [done|].
  match goal with |- context [conn_ends c (meanwhile a) ?w0] => destruct (conn_ends_io c (meanwhile a) w0) as (_ & E & _) end.
  destruct (result a); exact E.
Qed.

Lemma ReadTSDU_writes c : keeps same_writes (ReadTSDU (Some c)).
Proof.
  pose proof lock_writes. pose proof arm_writes. pose proof (read_writes c).
  assert (forall err mid, keeps same_writes (classifyIOPhase c err mid)).
  { intros. apply io_writes. unfold classifyIOPhase. keeps_walk. }
  assert (forall err, keeps same_writes (idleTimeout err)).
  { intros. apply io_writes. unfold idleTimeout. keeps_walk. }
  assert (forall mid err, keeps same_writes (abortOpen c mid err)) by (intros; apply io_writes; auto with cotp).
  pose proof (io_writes _ requireOpen_io). pose proof (io_writes _ check_ctx_io).
  assert (keeps same_writes readProgress) by done.
  unfold ReadTSDU, read_body, read_failed, read_stop. keeps_walk; try done.
Qed.

Lemma ReadTSDU_succeeds c tsdu ps ans rest w :
  undisturbed w -> 0 <= maxTSDU c -> bytes_ok tsdu -> len tsdu <= effective_max_tsdu (maxTSDU c) ->
  dt_packets (MaxTPDULength (negotiated c)) tsdu ps -> reads w = ans ++ rest -> delivered ans ps ->
  exists w', ReadTSDU (Some c) w = (Ok tsdu, w') /\ undisturbed w' /\ reads w' = rest /\ sent w' = sent w.
Proof.
  intros (Hq & Hw & Hst & Hl & Ha) Hm Hok Hlen Hps Hr Hd.
  destruct (ReadTSDU_delivers c tsdu ps ans rest w Hq Hm Hok Hps Hlen Hr Hd) as (w' & Heq & Hr' & Hq').
  pose proof (ReadTSDU_spec c w Hm (or_introl (proj1 Hq)) Hst Hl Ha) as Hspec. pose proof (ReadTSDU_writes c w) as Hw'.
  unfold wp in Hspec. rewrite Heq in Hspec, Hw'. cbn [fst snd] in Hspec, Hw'. destruct Hspec as (_ & Hst' & Hs' & Hl' & Ha').
  exists w'. split_and!; try done. unfold undisturbed. unfold same_writes in Hw'. rewrite Hw'. by split_and!.
Qed.

Lemma read_all_succeeds c tsdus pss ans rest : forall w,
  undisturbed w -> 0 <= maxTSDU c -> Forall bytes_ok tsdus ->
  Forall (fun tsdu => len tsdu <= effective_max_tsdu (maxTSDU c)) tsdus ->
  Forall2 (dt_packets (MaxTPDULength (negotiated c))) tsdus pss ->
  reads w = ans ++ rest -> delivered ans (concat pss) ->
  exists w', read_all c (length tsdus) w = (map Ok tsdus, w') /\ undisturbed w' /\ reads w' = rest /\ sent w' = sent w.
Proof.
  intros w Hq Hm Hok Hlen Hf. revert ans w Hq Hok Hlen.
  induction Hf as [|tsdu ps tsdus pss Hps _ IH]; intros ans w Hq Hok Hlen Hr Hd.
  { apply Forall2_nil_inv_r in Hd as ->. by exists w. }
  apply Forall_cons in Hok as [Hok1 Hok]. apply Forall_cons in Hlen as [Hlen1 Hlen]. cbn [concat] in Hd.
  apply Forall2_app_inv_r in Hd as (ans1 & ans2 & Hd1 & Hd2 & ->). rewrite <- app_assoc in Hr.
  destruct (ReadTSDU_succeeds c tsdu ps ans1 (ans2 ++ rest) w) as (w1 & Heq & Hq1 & Hr1 & Hs1); try done.
  destruct (IH ans2 w1) as (w2 & Heq2 & Hq2 & Hr2 & Hs2); try done.
  exists w2. cbn [length read_all map]. rewrite Heq, Heq2. split_and!; try done. congruence.
Qed.

(** ** Two ends *)

(** Packets that reach the other end. *)
Definition arrive (ps : list bytes) (w : world) : world :=
  mkWorld (reads w ++ map packet ps) (writes w) (ctx_errs w) (lock_errs w) (past_deadline w) (has_deadline w)
    (reader_err w) (writer_err w) (sent w) (nRead w) (nWritten w) (closes w) (armed w) (locked w) (refs w) (term w).

(** One end writes [tsdus]; what it has sent arrives, and the other end reads. *)
Definition turn (c1 c2 : Conn) (tsdus : list bytes) (w1 w2 : world) : list (outcome bytes) * world * world :=
  let '(_, w1') := write_all c1 tsdus w1 in
  let '(out, w2') := read_all c2 (length tsdus) (arrive (drop (length (sent w1)) (sent w1')) w2) in
  (out, w1', w2').

Lemma packets_delivered ps : delivered (map packet ps) ps.
Proof. induction ps; by constructor. Qed.

Lemma dt_packets_bytes max tsdu ps : bytes_ok tsdu -> dt_packets max tsdu ps -> Forall bytes_ok ps.
Proof.
  intros Hok (init & final & -> & <- & _). apply bytes_ok_app in Hok as [Hi Hf].
  assert (forall eot d, bytes_ok d -> bytes_ok (open_DT eot d)) as Hdt.
  { intros eot d Hd. apply bytes_ok_app. split; [destruct eot; decide_now|done]. }
  apply Forall_app. split; [|by apply Forall_singleton, Hdt].
  induction init as [|s init IH]; cbn [map concat] in *; [constructor|].
  apply bytes_ok_app in Hi as [? ?]. constructor; [by apply Hdt|by apply IH].
Qed.

Lemma arrive_undisturbed ps w : Forall bytes_ok ps -> undisturbed w -> undisturbed (arrive ps w).
Proof.
  intros Hps (Hq & Hw & [Hr Hw2] & Hl & Ha). split_and!; try done. split; [|done]. cbn [arrive reads].
  apply Forall_app. split; [done|]. induction Hps as [|p ps Hp _ IH]; [constructor|].
  constructor; [|done]. split; cbn [moved result packet]; [len_pose; lia|]. split; [len_pose; lia|done].
Qed.

Definition sendable (c1 c2 : Conn) (tsdu : bytes) : Prop :=
  bytes_ok tsdu /\ 1 <= len tsdu <= Z.min (effective_max_tsdu (maxTSDU c1)) (effective_max_tsdu (maxTSDU c2)).

(** What the writer sends, and what lies before the reader. *)
Lemma turn_written c1 c2 tsdus w1 w2 :
  undisturbed w1 -> undisturbed w2 -> reads w2 = [] ->
  4 <= MaxTPDULength (negotiated c1) -> MaxTPDULength (negotiated c1) = MaxTPDULength (negotiated c2) ->
  Forall (sendable c1 c2) tsdus ->
  exists pss w1', write_all c1 tsdus w1 = (map (fun _ => Ok tt) tsdus, w1') /\
    undisturbed w1' /\ reads w1' = reads w1 /\ drop (length (sent w1)) (sent w1') = concat pss /\
    Forall2 (dt_packets (MaxTPDULength (negotiated c2))) tsdus pss /\
    undisturbed (arrive (concat pss) w2) /\ reads (arrive (concat pss) w2) = map packet (concat pss) ++ [] /\
    Forall bytes_ok tsdus /\ Forall (fun tsdu => 1 <= len tsdu <= effective_max_tsdu (maxTSDU c2)) tsdus.
Proof.
  intros Hu1 Hu2 Hr Hm Heq Hall.
  assert (Forall bytes_ok tsdus) as Hok by (eapply Forall_impl; [exact Hall|]; by intros ? [? _]).
  destruct (write_all_succeeds c1 tsdus w1 Hu1 Hm) as (pss & w1' & Hw & Hu1' & Hr1 & Hs & Hf).
  { eapply Forall_impl; [exact Hall|]. intros t [_ ?]. lia. }
  rewrite Heq in Hf. exists pss, w1'. rewrite Hs, drop_app_length, app_nil_r. cbn [arrive reads]. rewrite Hr.
  split_and!; try done; [|eapply Forall_impl; [exact Hall|]; intros t [_ ?]; lia].
  apply arrive_undisturbed; [|done]. clear -Hok Hf. induction Hf as [|t ps ts pss Hps _ IH]; [constructor|].
  apply Forall_cons in Hok as [Ht Hok]. cbn [concat]. apply Forall_app. split; [by eapply dt_packets_bytes|by apply IH].
Qed.

Lemma turn_succeeds c1 c2 tsdus w1 w2 :
  undisturbed w1 -> undisturbed w2 -> reads w2 = [] ->
  4 <= MaxTPDULength (negotiated c1) -> MaxTPDULength (negotiated c1) = MaxTPDULength (negotiated c2) ->
  0 <= maxTSDU c2 -> Forall (sendable c1 c2) tsdus ->
  exists w1' w2', turn c1 c2 tsdus w1 w2 = (map Ok tsdus, w1', w2') /\
    undisturbed w1' /\ undisturbed w2' /\ reads w1' = reads w1 /\ reads w2' = [].
Proof.
  intros Hu1 Hu2 Hr Hm Heq H2 Hall.
  destruct (turn_written c1 c2 tsdus w1 w2 Hu1 Hu2 Hr Hm Heq Hall)
    as (pss & w1' & Hw & Hu1' & Hr1 & Hs & Hf & Hua & Hra & Hok & Hlen).
  destruct (read_all_succeeds c2 tsdus pss (map packet (concat pss)) [] (arrive (concat pss) w2)) as (w2' & Hrd & Hu2' & Hr2 & _);
    try done; [|apply packets_delivered|].
  { eapply Forall_impl; [exact Hlen|]. intros t [_ ?]. done. }
  exists w1', w2'. unfold turn. rewrite Hw, Hs, Hrd. by split_and!.
Qed.

(** Turns of either end: [true] for [c1]. *)
Fixpoint dialogue (c1 c2 : Conn) (turns : list (bool * list bytes)) (w1 w2 : world) :
    list (list (outcome bytes)) * world * world :=
  match turns with
  | [] => ([], w1, w2)
  | (true, tsdus) :: turns =>
      let '(out, w1, w2) := turn c1 c2 tsdus w1 w2 in
      let '(outs, w1, w2) := dialogue c1 c2 turns w1 w2 in
      (out :: outs, w1, w2)
  | (false, tsdus) :: turns =>
      let '(out, w2, w1) := turn c2 c1 tsdus w2 w1 in
      let '(outs, w1, w2) := dialogue c1 c2 turns w1 w2 in
      (out :: outs, w1, w2)
  end.

Lemma sendable_sym c1 c2 t : sendable c1 c2 t -> sendable c2 c1 t.
Proof. unfold sendable. rewrite Z.min_comm. done. Qed.

Lemma dialogue_succeeds c1 c2 turns : forall w1 w2,
  undisturbed w1 -> undisturbed w2 -> reads w1 = [] -> reads w2 = [] ->
  4 <= MaxTPDULength (negotiated c1) -> MaxTPDULength (negotiated c1) = MaxTPDULength (negotiated c2) ->
  0 <= maxTSDU c1 -> 0 <= maxTSDU c2 -> Forall (fun t => Forall (sendable c1 c2) t.2) turns ->
  exists w1' w2', dialogue c1 c2 turns w1 w2 = (map (fun t => map Ok t.2) turns, w1', w2') /\
    undisturbed w1' /\ undisturbed w2'.
Proof.
  induction turns as [|[d tsdus] turns IH]; intros w1 w2 Hu1 Hu2 Hr1 Hr2 Hm Heq H1 H2 Hall; [by exists w1, w2|].
  apply Forall_cons in Hall as [Ht Hall]. cbn [dialogue map snd] in *. destruct d.
  - destruct (turn_succeeds c1 c2 tsdus w1 w2) as (w1' & w2' & Hturn & Hu1' & Hu2' & Hr1' & Hr2'); try done.
    destruct (IH w1' w2') as (v1 & v2 & Hd & ? & ?); try done; [congruence|].
    exists v1, v2. by rewrite Hturn, Hd.
  - destruct (turn_succeeds c2 c1 tsdus w2 w1) as (w2' & w1' & Hturn & Hu2' & Hu1' & Hr2' & Hr1'); try done; [by rewrite <- Heq| |].
    { eapply Forall_impl; [exact Ht|]. intros t. apply sendable_sym. }
    destruct (IH w1' w2') as (v1 & v2 & Hd & ? & ?); try done; [congruence|].
    exists v1, v2. by rewrite Hturn, Hd.
Qed.

(** ** What a handshake leaves *)

Definition calmly (w w' : world) : Prop :=
  (ctx_errs w = [] -> ctx_errs w' = []) /\ (writes w = [] -> writes w' = []) /\
  lock_errs w' = lock_errs w /\ locked w' = locked w.

#[export] Instance calmly_preorder : PreOrder calmly.
Proof.
  split; [by intros w|]. unfold calmly. intros ??? (H1 & H2 & H3 & H4) (H1' & H2' & H3' & H4').
  split_and!; auto; congruence.
Qed.

Lemma keeps_unless_ok R `{!PreOrder R} {A} f (m : M A) :
  (forall w, R w (f w)) -> keeps R m -> keeps R (unless_ok f m).
Proof.
  intros Hf Hm w. specialize (Hm w). unfold unless_ok. destruct (m w) as [[a|e| |] w']; cbn in *; [done| | |];
    (etrans; [exact Hm|apply Hf]).
Qed.

Lemma ctx_Err_calmly : keeps calmly ctx_Err.
Proof. intros w. unfold ctx_Err. destruct (ctx_errs w) eqn:E; split_and!; try done; cbn; congruence. Qed.
#[local] Hint Resolve ctx_Err_calmly : cotp.

Lemma check_ctx_calmly : keeps calmly check_ctx.
Proof. unfold check_ctx. keeps_walk. Qed.
#[local] Hint Resolve check_ctx_calmly : cotp.

Lemma arm_calmly : keeps calmly arm.
Proof. unfold arm. keeps_walk. intros w. by split_and!. Qed.

Lemma reader_calmly : keeps calmly NewReader.
Proof. by intros w. Qed.

Lemma writer_calmly : keeps calmly NewWriter.
Proof. by intros w. Qed.

Lemma allocate_calmly : keeps calmly allocate.
Proof. intros w. unfold allocate. by destruct (Allocate (refs w)). Qed.

Lemma read_calmly : keeps calmly (stream_read no_conn).
Proof. intros w. unfold stream_read, no_conn. destruct (reads w) as [|a rs]; [done|]. by destruct (result a). Qed.

Lemma write_calmly b : keeps calmly (stream_write no_conn b).
Proof.
  intros w. unfold stream_write, no_conn. destruct (writes w) as [|a ws] eqn:E; [by split_and!|].
  destruct (result a); split_and!; try done; cbn; congruence.
Qed.

Lemma open_calmly neg ms prof ref : keeps calmly (newOpenConn neg ms prof ref).
Proof. by intros w. Qed.
#[local] Hint Resolve arm_calmly reader_calmly writer_calmly allocate_calmly read_calmly write_calmly open_calmly : cotp.

Lemma io_calmly {A} (m : M A) : keeps calmly m -> keeps calmly (handshake_io m).
Proof. intros Hm. unfold handshake_io, connectIOError, ctx_has_deadline. keeps_walk; by intros w. Qed.
#[local] Hint Resolve io_calmly : cotp.

Lemma ignore_calmly m : keeps calmly m -> keeps calmly (ignore m).
Proof. intros Hm. unfold ignore. keeps_walk. Qed.
#[local] Hint Resolve ignore_calmly : cotp.

Lemma Connect_calmly cfg : keeps calmly (Connect false cfg).
Proof.
  unfold Connect, armHandshake. apply keeps_unless_ok; [apply _|by intros w|]. keeps_walk.
  apply keeps_unless_ok; [apply _|by intros w|]. keeps_walk.
Qed.

Lemma accept_request_calmly p : keeps calmly (accept_request p).
Proof. unfold accept_request, refuse_with_ER, writeDR, writeER. keeps_walk; apply ignore_calmly; keeps_walk. Qed.

Lemma accept_decide_calmly cfg cr o : keeps calmly (accept_decide cfg cr o).
Proof. unfold accept_decide, writeDR. keeps_walk; apply ignore_calmly; keeps_walk. Qed.
#[local] Hint Resolve accept_request_calmly accept_decide_calmly : cotp.

Lemma Accept_calmly cfg : keeps calmly (Accept false cfg).
Proof.
  unfold Accept, armHandshake. apply keeps_unless_ok; [apply _|by intros w|]. keeps_walk.
  apply keeps_unless_ok; [apply _|by intros w|]. keeps_walk.
Qed.

(** ** A dialogue leaves the connections as they are *)

Lemma write_all_step c tsdus : forall w, conn_step c w (snd (write_all c tsdus w)).
Proof.
  induction tsdus as [|tsdu tsdus IH]; intros w; [reflexivity|]. cbn [write_all].
  pose proof (WriteTSDU_keeps c tsdu w) as H. destruct (WriteTSDU (Some c) tsdu w) as [r w1]. specialize (IH w1).
  destruct (write_all c tsdus w1) as [rs w2]. cbn [snd] in *. by etrans.
Qed.

Lemma read_all_step c n : forall w, conn_step c w (snd (read_all c n w)).
Proof.
  induction n as [|n IH]; intros w; [reflexivity|]. cbn [read_all].
  pose proof (ReadTSDU_keeps c w) as H. destruct (ReadTSDU (Some c) w) as [r w1]. specialize (IH w1).
  destruct (read_all c n w1) as [rs w2]. cbn [snd] in *. by etrans.
Qed.

Lemma turn_step c1 c2 tsdus w1 w2 out w1' w2' :
  turn c1 c2 tsdus w1 w2 = (out, w1', w2') -> conn_step c1 w1 w1' /\ conn_step c2 w2 w2'.
Proof.
  unfold turn. pose proof (write_all_step c1 tsdus w1) as H1. destruct (write_all c1 tsdus w1) as [rs v1].
  set (wa := arrive _ w2). pose proof (read_all_step c2 (length tsdus) wa) as H2.
  destruct (read_all c2 (length tsdus) wa) as [o v2]. intros [= <- <- <-]. cbn [snd] in *. split; [done|].
  transitivity wa; [by apply same_conn_step|done].
Qed.

Lemma dialogue_step c1 c2 turns : forall w1 w2 outs w1' w2',
  dialogue c1 c2 turns w1 w2 = (outs, w1', w2') -> conn_step c1 w1 w1' /\ conn_step c2 w2 w2'.
Proof.
  induction turns as [|[d tsdus] turns IH]; intros w1 w2 outs w1' w2' H; cbn [dialogue] in H.
  { by injection H as _ <- <-. }
  destruct d.
  - destruct (turn c1 c2 tsdus w1 w2) as [[o v1] v2] eqn:Ht. apply turn_step in Ht as [H1 H2].
    destruct (dialogue c1 c2 turns v1 v2) as [[os u1] u2] eqn:Hd. apply IH in Hd as [H1' H2']. injection H as _ <- <-.
    split; by etrans.
  - destruct (turn c2 c1 tsdus w2 w1) as [[o v2] v1] eqn:Ht. apply turn_step in Ht as [H2 H1].
    destruct (dialogue c1 c2 turns v1 v2) as [[os u1] u2] eqn:Hd. apply IH in Hd as [H1' H2']. injection H as _ <- <-.
    split; by etrans.
Qed.

(** [Close] on an open connection: the stream is closed, the reference is free. *)
Lemma Close_frees c w w' act :
  conn_step c w w' -> term w = open_term -> term w' = open_term -> localRef c <> 0 -> (localRef c ∉ act) ->
  active (refs w) = {[localRef c]} ∪ act ->
  closes (snd (Close (Some c) w')) = S (closes w) /\ active (refs (snd (Close (Some c) w'))) = act.
Proof.
  intros Hs Ht Ht' Href Hna Hact.
  assert (snd (Close (Some c) w') = finish_ c (kind_of closed_by_user) (Some (cause_of closed_by_user)) w') as ->.
  { unfold Close, as_error, finish, mbind_, return_err. cbn [fst snd]. by destruct (terminalError _). }
  destruct (finish_ended c closed_by_user w' Ht') as (_ & -> & -> & _).
  destruct (Hs (or_introl Ht)) as [(_ & -> & ->)|(_ & e & He & _)]; [|rewrite Ht' in He; by destruct e].
  split; [done|]. unfold release_own, Release. apply Z.eqb_neq in Href. rewrite Href. cbn [active]. rewrite Hact.
  apply set_eq. intros x. rewrite elem_of_difference, elem_of_union, elem_of_singleton. naive_solver.
Qed.

(** What an opened connection starts with. *)
Lemma opened_undisturbed (m : M Conn) b a c w' :
  keeps calmly m -> m (ready_world [packet b] a) = (Ok c, w') -> owned (ready_world [packet b] a) (Ok c) w' ->
  reads w' = [] -> undisturbed w'.
Proof.
  intros Hk Hm (Ha & _ & _ & Ht & _) Hr. specialize (Hk (ready_world [packet b] a)). rewrite Hm in Hk. cbn [snd] in Hk.
  destruct Hk as (Hc & Hw & Hl & Hlk). specialize (Hw eq_refl). split; [split_and!; [done|exact Hl|by apply Hc]|].
  split; [done|]. split; [|by split]. unfold stream_ok. by rewrite Hr, Hw.
Qed.

Lemma effective_idem m : 0 <= m -> effective_max_tsdu (effective_max_tsdu m) = effective_max_tsdu m.
Proof.
  intros H. pose proof (effective_max_tsdu_pos m H). unfold effective_max_tsdu at 1.
  destruct (Z.eqb_spec (effective_max_tsdu m) 0); [lia|done].
Qed.

(** ** Properties *)

(** Two valid configurations that suit each other, and room in the allocators. *)
Definition suited (ccfg : ClientConfig) (scfg : ServerConfig) (ac als : referenceAllocator) : Prop :=
  client_typed ccfg /\ client_valid ccfg /\ request_fits ccfg /\
  goslice_ok (s_LocalSelector scfg) /\ server_valid scfg /\ slen (s_LocalSelector scfg) <= 127 /\
  (forall f ind d, OnConnect scfg = Some f -> f ind = inl d -> goslice_ok (dec_ConnectData d)) /\
  welcomes scfg ccfg /\
  allocator_ok ac /\ Z.of_nat (size (active ac)) < 65535 /\
  allocator_ok als /\ Z.of_nat (size (active als)) < 65535.

(** What both configurations allow. *)
Definition allowed (ccfg : ClientConfig) (scfg : ServerConfig) (tsdu : bytes) : Prop :=
  bytes_ok tsdu /\
  1 <= len tsdu <= Z.min (effective_max_tsdu (c_MaxTSDULength ccfg)) (effective_max_tsdu (s_MaxTSDULength scfg)).

(** Both ends of a completed handshake, ready for data. *)
Lemma session_opens ccfg scfg ac als :
  suited ccfg scfg ac als ->
  exists b1 b2 c s wc ws,
    Connect false ccfg (ready_world [packet b2] ac) = (Ok c, wc) /\ sent wc = [b1] /\
    Accept false scfg (ready_world [packet b1] als) = (Ok s, ws) /\ sent ws = [b2] /\
    owned (ready_world [packet b2] ac) (Ok c) wc /\ owned (ready_world [packet b1] als) (Ok s) ws /\
    undisturbed wc /\ undisturbed ws /\ reads wc = [] /\ reads ws = [] /\
    128 <= MaxTPDULength (negotiated c) /\ MaxTPDULength (negotiated c) = MaxTPDULength (negotiated s) /\
    maxTSDU c = effective_max_tsdu (c_MaxTSDULength ccfg) /\ 0 <= c_MaxTSDULength ccfg /\
    maxTSDU s = effective_max_tsdu (s_MaxTSDULength scfg) /\ 0 <= s_MaxTSDULength scfg.
Proof.
  intros (H1 & H2 & H3 & H4 & H5 & H6 & H7 & H8 & H9 & H10 & H11 & H12).
  destruct (handshake_completes_core ccfg scfg ac als H1 H2 H3 H4 H5 H6 H7 H8 H9 H10 H11 H12)
    as (b1 & b2 & c & s & Hb1 & Hs1 & Hs2 & Hc & Hs & Hsz & _).
  pose proof (packet_stream_ok b1 als Hb1) as Hst2.
  pose proof (Connect_calmly ccfg) as Hkc. pose proof (Accept_calmly scfg) as Hks.
  destruct (Connect false ccfg (ready_world [packet b2] ac)) as [r wc] eqn:HC.
  destruct (Accept false scfg (ready_world [packet b1] als)) as [r' ws] eqn:HA. cbn [fst snd] in *. subst r r'.
  destruct (Accept_run_facts scfg _ s ws H4 H7 Hst2 H11 HA)
    as (a & p & cr & o & d & sel & b & cc & _ & Hr & _ & _ & _ & _ & _ & _ & Hsent & Hb & _ & _ & _ & _ & _ & _ & _ & _ & _ & Hmts & _).
  rewrite Hs2 in Hsent. injection Hsent as <-. injection Hr as _ Hrs.
  pose proof (packet_stream_ok b2 ac Hb) as Hst1.
  destruct (Connect_run_facts ccfg _ c wc H1 Hst1 H9 HC)
    as (b' & a' & p' & cr' & cc' & _ & _ & Hrc & _ & _ & Hcon & _ & Hmtc & _ & _). injection Hrc as _ Hrc.
  pose proof (Connect_owned ccfg _ Hst1 H9 eq_refl) as Hoc. pose proof (Accept_owned scfg _ Hst2 H11 eq_refl) as Hos.
  unfold wp in Hoc, Hos. rewrite HC in Hoc. rewrite HA in Hos. cbn [fst snd] in Hoc, Hos.
  destruct (proj1 (opened_connections_typed _ c wc Hst1 H9) ccfg H1 HC) as (_ & Hrange & _).
  exists b1, b2, c, s, wc, ws. destruct H2 as (_ & _ & ? & _), H5 as (_ & _ & ? & _).
  split_and!; try done; [exact (opened_undisturbed _ _ _ _ _ Hkc HC Hoc (eq_sym Hrc))
    |exact (opened_undisturbed _ _ _ _ _ Hks HA Hos (eq_sym Hrs))|lia].
Qed.

(** What two ends of a session are once it is open. *)
Definition ready (c s : Conn) (wc ws : world) : Prop :=
  undisturbed wc /\ undisturbed ws /\ reads wc = [] /\ reads ws = [] /\
  4 <= MaxTPDULength (negotiated c) /\ MaxTPDULength (negotiated c) = MaxTPDULength (negotiated s) /\
  0 <= maxTSDU c /\ 0 <= maxTSDU s.

Lemma session_runs ccfg scfg ac als :
  suited ccfg scfg ac als ->
  exists b1 b2 c s wc ws,
    Connect false ccfg (ready_world [packet b2] ac) = (Ok c, wc) /\ sent wc = [b1] /\
    Accept false scfg (ready_world [packet b1] als) = (Ok s, ws) /\ sent ws = [b2] /\ ready c s wc ws /\
    forall turns, Forall (fun t => Forall (allowed ccfg scfg) t.2) turns ->
      Forall (fun t => Forall (sendable c s) t.2) turns /\
      exists wc' ws', dialogue c s turns wc ws = (map (fun t => map Ok t.2) turns, wc', ws') /\
        closes (snd (Close (Some c) wc')) = 1%nat /\ active (refs (snd (Close (Some c) wc'))) = active ac /\
        closes (snd (Close (Some s) ws')) = 1%nat /\ active (refs (snd (Close (Some s) ws'))) = active als.
Proof.
  intros Hsuit. destruct (session_opens ccfg scfg ac als Hsuit)
    as (b1 & b2 & c & s & wc & ws & HC & Hs1 & HA & Hs2 & Hoc & Hos & Huc & Hus & Hrc & Hrs & Hmax & Heq & Hmc & Hc0 & Hms & Hs0).
  pose proof (effective_max_tsdu_pos _ Hc0). pose proof (effective_max_tsdu_pos _ Hs0).
  exists b1, b2, c, s, wc, ws. split_and!; try done; [split_and!; (done || lia)|]. intros turns Hall.
  assert (Forall (fun t => Forall (sendable c s) t.2) turns) as Hsend.
  { eapply Forall_impl; [exact Hall|]. intros t Ht. eapply Forall_impl; [exact Ht|]. intros tsdu [Hok Hlen].
    split; [done|]. by rewrite Hmc, Hms, !effective_idem. }
  split; [done|]. destruct (dialogue_succeeds c s turns wc ws) as (wc' & ws' & Hd & Huc' & Hus'); try done; [lia|lia|lia|].
  destruct (dialogue_step _ _ _ _ _ _ _ _ Hd) as [Hstc Hsts]. exists wc', ws'. split; [done|].
  destruct Hoc as (_ & _ & Hcc & Htc & Hrc0 & _ & Hnac & Hac), Hos as (_ & _ & Hcs & Hts & Hrs0 & _ & Hnas & Has).
  destruct (Close_frees c wc wc' _ Hstc Htc (proj1 (proj1 Huc')) Hrc0 Hnac Hac) as [E1 E2].
  destruct (Close_frees s ws ws' _ Hsts Hts (proj1 (proj1 Hus')) Hrs0 Hnas Has) as [E3 E4].
  rewrite E1, E2, E3, E4, Hcc, Hcs. by split_and!.
Qed.

(** C1: a session, end to end.  A client and a server of valid configurations that
    suit each other connect, each given what the other sends; then, in whatever
    turns the two ends speak, every TSDU within both limits that one writes is read
    by the other, octet for octet and in order; and when both have closed, each
    stream has been closed once and each side's references are what they were. *)
Theorem session_end_to_end ccfg scfg ac als :
  suited ccfg scfg ac als ->
  exists b1 b2 c s wc ws,
    Connect false ccfg (ready_world [packet b2] ac) = (Ok c, wc) /\ sent wc = [b1] /\
    Accept false scfg (ready_world [packet b1] als) = (Ok s, ws) /\ sent ws = [b2] /\
    forall turns, Forall (fun t => Forall (allowed ccfg scfg) t.2) turns ->
      exists wc' ws', dialogue c s turns wc ws = (map (fun t => map Ok t.2) turns, wc', ws') /\
        closes (snd (Close (Some c) wc')) = 1%nat /\ active (refs (snd (Close (Some c) wc'))) = active ac /\
        closes (snd (Close (Some s) ws')) = 1%nat /\ active (refs (snd (Close (Some s) ws'))) = active als.
Proof.
  intros Hsuit. destruct (session_runs ccfg scfg ac als Hsuit) as (b1 & b2 & c & s & wc & ws & HC & Hs1 & HA & Hs2 & _ & Hrun).
  exists b1, b2, c, s, wc, ws. split_and!; try done. intros turns Hall. by destruct (Hrun turns Hall).
Qed.

Lemma session_end_to_end_witness :
  let scfg := mkServerConfig (Some [2; 3]) 2048 0 None 0 true in
  exists b1 b2 c s wc ws,
    Connect false sample_client (ready_world [packet b2] newReferenceAllocator) = (Ok c, wc) /\ sent wc = [b1] /\
    Accept false scfg (ready_world [packet b1] newReferenceAllocator) = (Ok s, ws) /\ sent ws = [b2] /\
    forall turns, Forall (fun t => Forall (allowed sample_client scfg) t.2) turns ->
      exists wc' ws', dialogue c s turns wc ws = (map (fun t => map Ok t.2) turns, wc', ws') /\
        closes (snd (Close (Some c) wc')) = 1%nat /\ active (refs (snd (Close (Some c) wc'))) = ∅ /\
        closes (snd (Close (Some s) ws')) = 1%nat /\ active (refs (snd (Close (Some s) ws'))) = ∅.
Proof.
  intros scfg. apply (session_end_to_end sample_client scfg newReferenceAllocator newReferenceAllocator). split_and!.
  - decide_now.
  - split_and!; try (vm_compute; discriminate); [by right|right; split; vm_compute; discriminate].
  - vm_compute. discriminate.
  - decide_now.
  - split_and!; try (vm_compute; discriminate); [by left|right; split; vm_compute; discriminate].
  - vm_compute. discriminate.
  - done.
  - exact (default_policy scfg sample_client eq_refl).
  - apply newReferenceAllocator_ok.
  - vm_compute. reflexivity.
  - apply newReferenceAllocator_ok.
  - vm_compute. reflexivity.
Defined.
