(* ===== verification/Process.v ===== *)
(** * A process with many connections

    The handshakes and connections of a process share one thing, the allocator
    [defaultRefs] of conn.go.  Here a process is that allocator and a list of
    threads, each a handshake with a stream and a world of its own and then the
    connection it opened.  A handshake is cut at its calls of the allocator; a
    connection takes any step that [conn_step] allows, which is what every
    operation on it does. *)

From S2P Require Import Prelude Errors Types Wire PreferredMax Params Decode Encode Codec.
From S2P Require Import RoundTrip CodecSpec SizeNego Validate RefAlloc World Conn Tsdu TsduSpec Handshake HandshakeSpec.

(** ** Handshakes, cut at the allocator *)

Record handshake := mkHandshake {
  Plan : Type;
  prepare : M Plan;                    (* up to [refs.Allocate()] *)
  undo : world -> world;               (* deferred before the allocation *)
  proceed : Plan -> Z -> M Conn        (* with the reference *)
}.

(** The handshake, run alone. *)
Definition uncut (h : handshake) : M Conn :=
  unless_ok closeConn (
    do! p := prepare h in
    defer (undo h) (
      do! ref := allocate in
      unless_ok (release ref) (proceed h p ref))).

Definition connect_handshake (cfg : ClientConfig) : handshake := {|
  prepare :=
    do! max := lift (ClientConfig_preflight cfg) in
    do! _ := check_ctx in
    do! _ := NewReader in
    do! _ := NewWriter in
    ret max;
  undo w := w;
  proceed max localRef :=
    do! offer := lift (buildSizeOffer (fst max) (c_SizeProfile cfg)) in
    let cr := connect_request cfg localRef offer in
    do! crBytes := lift (rewrap ErrInvalidConfig (CR_MarshalBinary (Some cr))) in
    do! _ := armHandshake false in
    defer disarm (
      do! _ := handshake_io (stream_write no_conn crBytes) in
      do! payload := handshake_io (stream_read no_conn) in
      do! neg := lift (connect_confirm cfg localRef offer payload) in
      newOpenConn neg (snd max) (c_SizeProfile cfg) localRef)
|}.

Definition accept_handshake (cfg : ServerConfig) : handshake := {|
  prepare :=
    do! max := lift (ServerConfig_preflight cfg) in
    do! _ := check_ctx in
    do! _ := NewReader in
    do! _ := NewWriter in
    do! _ := armHandshake false in
    unless_ok disarm (
      do! payload := handshake_io (stream_read no_conn) in
      do! req := accept_request payload in
      let '(cr, peerOffer) := req in
      do! decision := accept_decide cfg cr peerOffer in
      do! sel := lift (selectSize peerOffer (fst max) (dec_MaxTPDULength decision) (s_SizeProfile cfg)) in
      ret (max, cr, decision, sel));
  undo := disarm;
  proceed '(max, cr, decision, sel) localRef :=
    let cc := accept_confirm cfg cr decision sel localRef in
    do! ccBytes := lift (rewrap ErrHandshake (CC_MarshalBinary (Some cc))) in
    do! _ := handshake_io (stream_write no_conn ccBytes) in
    let neg :=
      {| Class := Class0; MaxTPDULength := Effective sel; LocalRef := localRef;
         RemoteRef := CR_SourceRef cr;
         LocalSelector := copyBytes (snd (accept_selectors cfg cr));
         RemoteSelector := copyBytes (CR_CallingSelector cr);
         PeerConnectData := copyBytes (CR_UserData cr) |} in
    newOpenConn neg (snd max) (s_SizeProfile cfg) localRef
|}.

(** Laws of the monad. *)
Lemma bind_ext {A B} (m : M A) (k k' : A -> M B) w :
  (forall a w', k a w' = k' a w') -> mbind_ m k w = mbind_ m k' w.
Proof. intros H. unfold mbind_. destruct (m w) as [[a|e| |] w']; try done. Qed.

Lemma bind_bind {A B C} (m : M A) (k : A -> M B) (k' : B -> M C) w :
  mbind_ (mbind_ m k) k' w = mbind_ m (fun a => mbind_ (k a) k') w.
Proof. unfold mbind_. by destruct (m w) as [[a|e| |] w']. Qed.

Lemma bind_defer {A B} f (m : M A) (k : A -> M B) w :
  mbind_ (unless_ok f m) (fun a => defer f (k a)) w = defer f (mbind_ m k) w.
Proof. unfold mbind_, unless_ok, defer. by destruct (m w) as [[a|e| |] w']. Qed.

Lemma defer_ext {A} f (m m' : M A) w : (forall w', m w' = m' w') -> defer f m w = defer f m' w.
Proof. intros H. unfold defer. by rewrite H. Qed.

Lemma unless_ok_ext {A} f (m m' : M A) w : (forall w', m w' = m' w') -> unless_ok f m w = unless_ok f m' w.
Proof. intros H. unfold unless_ok. by rewrite H. Qed.

Lemma defer_nothing {A} (m : M A) w : defer (fun w => w) m w = m w.
Proof. unfold defer. by destruct (m w). Qed.

Ltac bind_step := rewrite ?bind_bind; apply bind_ext; intros ? ?.

Lemma Connect_uncut cfg w : Connect false cfg w = uncut (connect_handshake cfg) w.
Proof.
  apply unless_ok_ext. intros w0. cbn [prepare undo proceed connect_handshake].
  do 4 bind_step. symmetry. apply defer_nothing.
Qed.

Lemma Accept_uncut cfg w : Accept false cfg w = uncut (accept_handshake cfg) w.
Proof.
  apply unless_ok_ext. intros w0. cbn [prepare undo proceed accept_handshake].
  do 5 bind_step. rewrite bind_defer. apply defer_ext. intros w1.
  bind_step. rewrite bind_bind. apply bind_ext. intros [cr offer] w2. do 2 bind_step. reflexivity.
Qed.

(** ** Threads *)

Section Shake.
Context (h : handshake).

(** Where a handshake is, and what becomes of it. *)
Inductive stage :=
  | fresh
  | prepared (p : Plan h)
  | holding (p : Plan h) (ref : Z)                   (* [Allocate] has answered *)
  | releasing (ref : Z) (r : outcome Conn)           (* its deferred functions are to run *)
  | opened (c : Conn)
  | failed (r : outcome Conn).

(** One step; the allocator of [w] is the process's. *)
Definition shake_step (st : stage) (w : world) : option (stage * world) :=
  match st with
  | fresh =>
      match prepare h w with
      | (Ok p, w) => Some (prepared p, w)
      | (Err e, w) => Some (failed (Err e), closeConn w)
      | (Panic, w) => Some (failed Panic, closeConn w)
      | (NoFuel, w) => Some (failed NoFuel, closeConn w)
      end
  | prepared p =>
      match allocate w with
      | (Ok ref, w) => Some (holding p ref, w)
      | (Err e, w) => Some (failed (Err e), closeConn (undo h w))
      | (Panic, w) => Some (failed Panic, closeConn (undo h w))
      | (NoFuel, w) => Some (failed NoFuel, closeConn (undo h w))
      end
  | holding p ref =>
      match proceed h p ref w with
      | (Ok c, w) => Some (opened c, undo h w)
      | (r, w) => Some (releasing ref r, w)
      end
  | releasing ref r => Some (failed r, closeConn (undo h (release ref w)))
  | opened _ | failed _ => None
  end.
End Shake.

Arguments fresh {h}.
Arguments prepared {h} p.
Arguments holding {h} p ref.
Arguments releasing {h} ref r.
Arguments opened {h} c.
Arguments failed {h} r.
Arguments shake_step {h} st w.

(** A thread: what it calls, where it is, and its own part of the world. *)
Inductive caller :=
  | calls_Connect (cfg : ClientConfig)
  | calls_Accept (cfg : ServerConfig).

Definition handshake_of (k : caller) : handshake :=
  match k with
  | calls_Connect cfg => connect_handshake cfg
  | calls_Accept cfg => accept_handshake cfg
  end.

Record thread := mkThread { call : caller; at_ : stage (handshake_of call); own : world }.

Record process := mkProcess { defaultRefs : referenceAllocator; threads : list thread }.

(** What a thread sees. *)
Definition view (s : process) (t : thread) : world := set_refs (own t) (defaultRefs s).

(** The process after a step of thread [i]. *)
Definition put (s : process) (i : nat) (t : thread) : process :=
  mkProcess (refs (own t)) (<[i := t]> (threads s)).

Definition handshake_step (s : process) (i : nat) : option process :=
  match threads s !! i with
  | None => None
  | Some t =>
      match shake_step (at_ t) (view s t) with
      | Some (st, w) => Some (put s i (mkThread (call t) st w))
      | None => None
      end
  end.

Inductive process_step : process -> process -> Prop :=
  | step_start s k w :
      stream_ok w -> process_step s (mkProcess (defaultRefs s) (threads s ++ [mkThread k fresh w]))
  | step_handshake s i s' : handshake_step s i = Some s' -> process_step s s'
  | step_conn s i t c w :
      threads s !! i = Some t -> at_ t = opened c -> conn_step c (view s t) w ->
      process_step s (put s i (mkThread (call t) (opened c) w)).

Definition start : process := mkProcess newReferenceAllocator [].

(** The reference a thread holds. *)
Definition held (t : thread) : option Z :=
  match at_ t with
  | holding _ ref | releasing ref _ => Some ref
  | opened c => if refOnce (term (own t)) then None else Some (localRef c)
  | _ => None
  end.

(** ** What a handshake promises *)

Class Lawful (h : handshake) := {
  plan_ok : Plan h -> Prop;
  undo_law w : refs (undo h w) = refs w /\ term (undo h w) = term w /\ (stream_ok w -> stream_ok (undo h w));
  prepare_law w : stream_ok w ->
    wp (prepare h) (fun r w' => returns r /\ refs w' = refs w /\ forall p, r = Ok p -> plan_ok p /\ stream_ok w') w;
  proceed_law p ref w : plan_ok p -> stream_ok w ->
    wp (proceed h p ref) (fun r w' => returns r /\ refs w' = refs w /\
      forall c, r = Ok c -> term w' = open_term /\ localRef c = ref /\ LocalRef (negotiated c) = ref) w
}.

(** [calm] steps, and arming, as far as the allocator sees them. *)
Lemma wp_quiet {A B} (P : A -> Prop) (m : M A) (k : A -> M B) Q w w0 :
  refs w = refs w0 -> stream_ok w -> calm P m ->
  (forall e w', refs w' = refs w0 -> Q (Err e) w') ->
  (forall a w', P a -> stream_ok w' -> refs w' = refs w0 -> wp (k a) Q w') ->
  wp (mbind_ m k) Q w.
Proof. intros Hr Hw Hm He Hk. eapply wp_calm; [done|done| |]; intros; [apply He|apply Hk]; try done; congruence. Qed.

Lemma wp_quiet_arm {B} (k : unit -> M B) Q w w0 :
  refs w = refs w0 -> stream_ok w -> (forall e w', refs w' = refs w0 -> Q (Err e) w') ->
  (forall w', stream_ok w' -> refs w' = refs w0 -> wp (k tt) Q w') ->
  wp (mbind_ arm k) Q w.
Proof. intros Hr Hw He Hk. apply wp_arm; intros; [apply He|apply Hk]; try congruence; auto. Qed.

#[export] Instance connect_lawful cfg : Lawful (connect_handshake cfg).
Proof.
  refine (Build_Lawful (connect_handshake cfg) (fun _ => True) _ _ _).
  - done.
  - intros w Hw. cbn [prepare connect_handshake].
    eapply wp_quiet; [done|done|apply (calm_lift (fun _ => True)); [apply ClientConfig_preflight_returns|done]|done|].
    intros max w1 _ Hw1 Hr1. eapply wp_quiet; [done|done|apply calm_check_ctx|done|].
    intros _ w2 _ Hw2 Hr2. eapply wp_quiet; [done|done|apply calm_reader|done|].
    intros _ w3 _ Hw3 Hr3. eapply wp_quiet; [done|done|apply calm_writer|done|].
    intros _ w4 _ Hw4 Hr4. by apply wp_ret.
  - intros max ref w _ Hw. cbn [proceed connect_handshake].
    eapply (wp_quiet (fun b => opt_typed is_u32 (cr_PreferredUnits b)));
      [done|done|apply calm_lift; [apply buildSizeOffer_returns|apply buildSizeOffer_u32]|done|].
    intros offer w1 Hof Hw1 Hr1.
    eapply wp_quiet; [done|done|apply (calm_lift (fun _ => True)); [by apply returns_rewrap, CR_Marshal_returns|done]|done|].
    intros b w2 _ Hw2 Hr2. apply (wp_quiet_arm _ _ _ w); [done|done|done|]. intros w3 Hw3 Hr3. apply wp_defer.
    eapply wp_quiet; [done|done|apply (calm_io (fun _ => True)), calm_write|done|]. intros _ w4 _ Hw4 Hr4.
    eapply wp_quiet; [done|done|apply calm_io, calm_read|done|]. intros payload w5 Hp Hw5 Hr5.
    eapply (wp_quiet (fun n => LocalRef n = ref)); [done|done|apply calm_lift;
      [by apply connect_confirm_returns|apply connect_confirm_ref]|done|].
    intros neg w6 Hneg Hw6 Hr6. unfold wp, newOpenConn. cbn. split_and!; [done|done|]. by intros c [= <-].
Qed.

#[export] Instance accept_lawful cfg : Lawful (accept_handshake cfg).
Proof.
  refine (Build_Lawful (accept_handshake cfg) (fun p => opt_typed is_u32 (sel_PreferredUnits p.2)) _ _ _).
  - done.
  - intros w Hw. cbn [prepare accept_handshake].
    eapply wp_quiet; [done|done|apply (calm_lift (fun _ => True)); [apply ServerConfig_preflight_returns|done]|done|].
    intros max w1 _ Hw1 Hr1. eapply wp_quiet; [done|done|apply calm_check_ctx|done|].
    intros _ w2 _ Hw2 Hr2. eapply wp_quiet; [done|done|apply calm_reader|done|].
    intros _ w3 _ Hw3 Hr3. eapply wp_quiet; [done|done|apply calm_writer|done|].
    intros _ w4 _ Hw4 Hr4. apply (wp_quiet_arm _ _ _ w); [done|done|done|]. intros w5 Hw5 Hr5. apply wp_unless_ok.
    eapply wp_quiet; [done|done|apply calm_io, calm_read|done|]. intros payload w6 Hp Hw6 Hr6.
    eapply wp_quiet; [done|done|by apply calm_accept_request|done|]. intros [cr offer] w7 _ Hw7 Hr7.
    eapply wp_quiet; [done|done|apply calm_accept_decide|done|]. intros d w8 _ Hw8 Hr8.
    eapply (wp_quiet (fun b => opt_typed is_u32 (sel_PreferredUnits b)));
      [done|done|apply calm_lift; [apply selectSize_returns|apply selectSize_u32]|done|].
    intros sel w9 Hsel Hw9 Hr9. apply wp_ret. split_and!; [done|done|]. by intros p [= <-].
  - intros [[[max cr] d] sel] ref w Hsel Hw. cbn [proceed accept_handshake snd] in *.
    eapply wp_quiet; [done|done|apply (calm_lift (fun _ => True));
      [apply returns_rewrap, CC_Marshal_returns; by unfold accept_confirm; destruct (accept_selectors cfg cr)|done]|done|].
    intros b w1 _ Hw1 Hr1.
    eapply wp_quiet; [done|done|apply (calm_io (fun _ => True)), calm_write|done|].
    intros _ w2 _ Hw2 Hr2. unfold wp, newOpenConn. cbn. split_and!; [done|done|]. by intros c [= <-].
Qed.

#[export] Instance lawful k : Lawful (handshake_of k).
Proof. destruct k; apply _. Defined.

(** ** The invariant *)

Definition thread_ok (t : thread) : Prop :=
  match at_ t with
  | fresh => stream_ok (own t)
  | prepared p => plan_ok p /\ stream_ok (own t)
  | holding p ref => plan_ok p /\ stream_ok (own t) /\ 1 <= ref < 65536
  | releasing _ r => match r with Err _ => True | _ => False end
  | opened c => term_ok (term (own t)) /\ LocalRef (negotiated c) = localRef c /\ 1 <= localRef c < 65536
  | failed r => match r with Err _ => True | _ => False end
  end.

Definition inv (s : process) : Prop :=
  Forall thread_ok (threads s) /\ users_ok (defaultRefs s, omap held (threads s)).

Lemma users_ok_perm a l l' : l ≡ₚ l' -> users_ok (a, l) -> users_ok (a, l').
Proof.
  intros Hp (Ha & Hnd & Heq). unfold users_ok. cbn [fst snd] in *. split_and!; [done|by rewrite <- Hp|].
  rewrite Heq. apply set_eq. intros x. rewrite !elem_of_list_to_set. by rewrite Hp.
Qed.

(** The references held, a thread at a time. *)
Lemma held_middle (ts : list thread) i t t' :
  ts !! i = Some t ->
  exists l, omap held ts ≡ₚ option_list (held t) ++ l /\ omap held (<[i := t']> ts) ≡ₚ option_list (held t') ++ l.
Proof.
  intros Hi. exists (omap held (take i ts) ++ omap held (drop (S i) ts)).
  assert (forall a l k, omap held (l ++ a :: k) ≡ₚ option_list (held a) ++ omap held l ++ omap held k) as H.
  { intros a l k. rewrite omap_app. cbn [omap list_omap]. destruct (held a); cbn; [|done]. by rewrite Permutation_middle. }
  split.
  - rewrite <- (take_drop_middle ts i t Hi) at 1. apply H.
  - rewrite insert_take_drop by (by eapply lookup_lt_Some). apply H.
Qed.

(** What a step of one thread does to the references held. *)
Definition moves (R R' : referenceAllocator) (o o' : option Z) : Prop :=
  (o' = o /\ R' = R) \/
  (exists r, o = None /\ o' = Some r /\ Allocate R = (Ok r, R')) \/
  (exists r, o = Some r /\ o' = None /\ R' = Release R r).

Lemma inv_put s i t t' :
  inv s -> threads s !! i = Some t -> thread_ok t' ->
  moves (defaultRefs s) (refs (own t')) (held t) (held t') -> inv (put s i t').
Proof.
  intros [Hall Hu] Hi Ht' Hm. split; [by apply Forall_insert|]. cbn [put defaultRefs threads].
  destruct (held_middle (threads s) i t t' Hi) as (l & Hl & Hl').
  apply (users_ok_perm _ _ _ (symmetry Hl')). apply (users_ok_perm _ _ _ Hl) in Hu.
  destruct Hm as [[-> ->]|[(r & Ho & -> & HA)|(r & Ho & -> & ->)]]; [done| |]; rewrite Ho in Hu; cbn [option_list app] in *.
  - eapply user_step_ok; [exact Hu|]. by apply step_allocate.
  - eapply user_step_ok; [exact Hu|]. exact (step_release (defaultRefs s) [] r l).
Qed.

(** A step of a handshake. *)
Lemma shake_moves k st w st' w' :
  thread_ok (mkThread k st w) -> allocator_ok (refs w) -> shake_step st w = Some (st', w') ->
  thread_ok (mkThread k st' w') /\
  moves (refs w) (refs w') (held (mkThread k st w)) (held (mkThread k st' w')).
Proof.
  intros Ht Ha H. destruct st as [|p|p ref|ref r|c|r]; cbn [shake_step thread_ok at_ own] in *; try done.
  - pose proof (prepare_law (h := handshake_of k) w Ht) as Hl. unfold wp in Hl.
    destruct (prepare (handshake_of k) w) as [[p|e| |] w1]; cbn [fst snd] in Hl; destruct Hl as (Hr & Hrf & Hp);
      try done; injection H as <- <-; (split; [first [exact (Hp _ eq_refl)|done]|by left]).
  - destruct Ht as [Hp Hst]. unfold allocate in H.
    destruct (Allocate (refs w)) as [[ref|e| |] R] eqn:HA; injection H as <- <-.
    + destruct (Allocate_Ok _ _ _ Ha HA) as (Href & _). split; [exact (conj Hp (conj Hst Href))|].
      right. left. by exists ref.
    + destruct (Allocate_Err _ _ _ Ha HA) as (_ & -> & _). split; [done|].
      destruct (undo_law (h := handshake_of k) (set_refs w (refs w))) as (E & _). left. cbn. by rewrite E.
    + exfalso. revert HA. unfold Allocate. destruct (65535 <=? _); [done|]. by destruct (allocate_loop _ _ _) as [[?|] ?].
    + exfalso. revert HA. unfold Allocate. destruct (65535 <=? _); [done|]. by destruct (allocate_loop _ _ _) as [[?|] ?].
  - destruct Ht as (Hp & Hst & Href). pose proof (proceed_law (h := handshake_of k) p ref w Hp Hst) as Hl. unfold wp in Hl.
    destruct (proceed (handshake_of k) p ref w) as [[c|e| |] w1]; cbn [fst snd] in Hl; destruct Hl as (Hr & Hrf & Hc);
      try done; injection H as <- <-.
    + destruct (Hc c eq_refl) as (Hopen & Hl1 & Hl2). destruct (undo_law (h := handshake_of k) w1) as (E & Et & _).
      split; [split_and!; [left; cbn; by rewrite Et|congruence|lia|lia]|].
      left. unfold held. cbn [at_ own]. rewrite Et, Hopen, E. cbn. by rewrite Hl1.
    + split; [done|]. by left.
  - destruct r as [c|e| |]; try done. injection H as <- <-. split; [done|]. right. right. exists ref.
    destruct (undo_law (h := handshake_of k) (release ref w)) as (E & _). cbn. by rewrite E.
Qed.

Lemma view_ok s t : thread_ok t -> thread_ok (mkThread (call t) (at_ t) (view s t)).
Proof. by destruct t as [k [] w]. Qed.

(** A step of a connection: it releases its reference when it ends. *)
Lemma conn_moves k c w w' :
  thread_ok (mkThread k (opened c) w) -> conn_step c w w' ->
  thread_ok (mkThread k (opened c) w') /\
  moves (refs w) (refs w') (held (mkThread k (opened c) w)) (held (mkThread k (opened c) w')).
Proof.
  intros (Ht & Hl & Hr) Hs. cbn [own] in *. split; [exact (conj (conn_step_ok _ _ _ Hs Ht) (conj Hl Hr))|].
  unfold held. cbn [at_ own]. destruct (Hs Ht) as [(-> & _ & ->)|(-> & e & -> & _ & ->)]; [by left|].
  right. right. exists (localRef c). cbn. split_and!; try done. unfold release_own.
  destruct (Z.eqb_spec (localRef c) 0); [lia|done].
Qed.

Lemma process_step_inv s s' : inv s -> process_step s s' -> inv s'.
Proof.
  intros Hinv Hstep. pose proof Hinv as [Hall Hu]. destruct Hstep as [s k w Hw|s i s' H|s i t c w Hi Hat Hs].
  - split; [apply Forall_app; split; [done|by apply Forall_singleton]|]. cbn [threads defaultRefs].
    by rewrite omap_app, app_nil_r.
  - unfold handshake_step in H. destruct (threads s !! i) as [t|] eqn:Hi; [|done].
    destruct (shake_step (at_ t) (view s t)) as [[st w]|] eqn:Hst; [|done]. injection H as <-.
    pose proof (view_ok s t (Forall_lookup_1 _ _ _ _ Hall Hi)) as Ht.
    destruct (shake_moves _ _ _ _ _ Ht (proj1 Hu) Hst) as [Ht' Hm].
    eapply inv_put; [done|exact Hi|exact Ht'|]. destruct t as [k [] w0]; exact Hm.
  - pose proof (view_ok s t (Forall_lookup_1 _ _ _ _ Hall Hi)) as Ht. destruct t as [k st w0]. cbn in Hat. subst st.
    destruct (conn_moves _ _ _ _ Ht Hs) as [Ht' Hm]. eapply inv_put; [done|exact Hi|exact Ht'|exact Hm].
Qed.

Lemma reachable_inv s : rtc process_step start s -> inv s.
Proof.
  assert (inv start) as H0.
  { split; [constructor|]. split_and!; [apply newReferenceAllocator_ok|constructor|done]. }
  revert H0. generalize start as s0. intros s0 H0 Hr. induction Hr; [done|]. eauto using process_step_inv.
Qed.

Lemma held_index (ts : list thread) : forall i j ti tj r,
  NoDup (omap held ts) -> ts !! i = Some ti -> ts !! j = Some tj -> held ti = Some r -> held tj = Some r -> i = j.
Proof.
  assert (forall (l : list thread) j t r, l !! j = Some t -> held t = Some r -> r ∈ omap held l) as Hin.
  { intros l j t r Hj Hh. apply list_elem_of_omap. exists t. split; [by eapply list_elem_of_lookup_2|done]. }
  induction ts as [|t ts IH]; intros i j ti tj r Hnd Hi Hj Hri Hrj; [done|].
  destruct i as [|i], j as [|j]; cbn in Hi, Hj; simplify_eq; [done| | |].
  - cbn in Hnd. rewrite Hri in Hnd. apply NoDup_cons in Hnd as [Hn _]. exfalso. eauto.
  - cbn in Hnd. rewrite Hrj in Hnd. apply NoDup_cons in Hnd as [Hn _]. exfalso. eauto.
  - f_equal. eapply IH; eauto. cbn in Hnd. destruct (held t); [by apply NoDup_cons in Hnd as [_ Hnd]|done].
Qed.

(** The operations of a connection are steps of its thread. *)
Lemma op_is_step s i t c o :
  threads s !! i = Some t -> at_ t = opened c ->
  process_step s (put s i (mkThread (call t) (opened c) (snd (run_op c o (view s t))))).
Proof. intros Hi Hat. eapply step_conn; [done|done|]. apply run_op_keeps. Qed.

(** A thread that is not interrupted is the function it calls. *)
Definition call_of (k : caller) : M Conn :=
  match k with
  | calls_Connect cfg => Connect false cfg
  | calls_Accept cfg => Accept false cfg
  end.

Definition outcome_stage (k : caller) (r : outcome Conn) : stage (handshake_of k) :=
  match r with Ok c => opened c | _ => failed r end.

Lemma call_uncut k w : call_of k w = uncut (handshake_of k) w.
Proof. destruct k; [apply Connect_uncut|apply Accept_uncut]. Qed.

Lemma step_put s i k st w st' w' :
  threads s !! i = Some (mkThread k st w) -> shake_step st (set_refs w (defaultRefs s)) = Some (st', w') ->
  process_step s (put s i (mkThread k st' w')).
Proof. intros Hi H. apply (step_handshake s i). unfold handshake_step, view. rewrite Hi. cbn [at_ own call]. by rewrite H. Qed.

Lemma set_refs_self w : set_refs w (refs w) = w.
Proof. by destruct w. Qed.

Lemma step_put_again s i t k st w st' w' :
  threads s !! i = Some t -> shake_step st w = Some (st', w') ->
  process_step (put s i (mkThread k st w)) (put s i (mkThread k st' w')).
Proof.
  intros Hi H. assert (i < length (threads s))%nat as Hlt by (by eapply lookup_lt_Some).
  assert (threads (put s i (mkThread k st w)) !! i = Some (mkThread k st w)) as Hi'.
  { cbn [put threads]. by apply list_lookup_insert_eq. }
  pose proof (step_put _ _ _ _ _ st' w' Hi') as Hs. cbn [put defaultRefs threads own] in Hs.
  rewrite set_refs_self in Hs. specialize (Hs H). unfold put in Hs |- *. cbn [threads own] in Hs |- *.
  by rewrite list_insert_insert_eq in Hs.
Qed.

Lemma uncut_run s i k w :
  threads s !! i = Some (mkThread k fresh w) ->
  let '(r, w') := uncut (handshake_of k) (set_refs w (defaultRefs s)) in
  rtc process_step s (put s i (mkThread k (outcome_stage k r) w')).
Proof.
  intros Hi. set (w0 := set_refs w (defaultRefs s)). unfold uncut, unless_ok at 1, mbind_ at 1.
  pose proof (step_put s i k fresh w) as H0. cbn [shake_step] in H0. fold w0 in H0.
  destruct (prepare (handshake_of k) w0) as [[p|e| |] w1]; [|exact (rtc_once _ _ (H0 _ _ Hi eq_refl))..].
  specialize (H0 _ _ Hi eq_refl). pose proof (fun st' w' => step_put_again s i _ k (prepared p) w1 st' w' Hi) as H1.
  cbn [shake_step] in H1. unfold defer at 1, mbind_ at 1.
  destruct (allocate w1) as [[ref|e| |] w2]; [|exact (rtc_l _ _ _ _ H0 (rtc_once _ _ (H1 _ _ eq_refl)))..].
  specialize (H1 _ _ eq_refl). pose proof (fun st' w' => step_put_again s i _ k (holding p ref) w2 st' w' Hi) as H2.
  cbn [shake_step] in H2. unfold unless_ok at 1.
  destruct (proceed (handshake_of k) p ref w2) as [r w3]. specialize (fun st' w' H => rtc_l _ _ _ _ H0 (rtc_l _ _ _ _ H1 (rtc_once _ _ (H2 st' w' H)))) as H3.
  destruct r as [c|e| |]; [exact (H3 _ _ eq_refl)| | |];
    (eapply rtc_r; [exact (H3 _ _ eq_refl)|]; by apply (step_put_again s i _ k (releasing ref _) w3 _ _ Hi)).
Qed.

(** ** Properties *)

(** Threads that step in turn. *)
Fixpoint handshakes (order : list nat) (s : process) : process :=
  match order with
  | [] => s
  | i :: order => handshakes order (default s (handshake_step s i))
  end.

Lemma handshakes_reach order s : rtc process_step s (handshakes order s).
Proof.
  revert s. induction order as [|i order IH]; intros s; [done|]. cbn [handshakes].
  destruct (handshake_step s i) as [s1|] eqn:H; cbn [default]; [|apply IH].
  eapply rtc_l; [by eapply step_handshake|apply IH].
Qed.

(** Two clients: the second allocates while the first waits for an answer that
    does not come, and is answered with a CC for its reference. *)
Definition client_thread (answers : list (answer bytes)) : thread :=
  mkThread (calls_Connect (mkClientConfig None None 0 0 None 0)) fresh (quiet_world answers).

Definition two_clients : process :=
  handshakes [0; 0; 1; 1; 0; 1; 0]%nat
    (mkProcess newReferenceAllocator [client_thread []; client_thread [packet [6; 208; 0; 2; 0; 9; 0]]]).

Example two_clients_end :
  map held (threads two_clients) = [None; Some 2] /\ Active (defaultRefs two_clients) 1 = false /\
  Active (defaultRefs two_clients) 2 = true.
Proof. vm_compute. by split_and!. Qed.

(** C19: references are never shared.  However the handshakes of a process and the
    operations on its connections interleave, no two of those that hold a local
    reference at the same time hold the same one; the allocator's active set is
    exactly what they hold, so that none leaks; an opened connection holds the
    reference it has negotiated, in 1..65535, exactly until it ends. *)
Theorem live_references_distinct s :
  rtc process_step start s ->
  (forall i j ti tj r, threads s !! i = Some ti -> threads s !! j = Some tj ->
     held ti = Some r -> held tj = Some r -> i = j) /\
  (forall r, Active (defaultRefs s) r = true <-> exists i t, threads s !! i = Some t /\ held t = Some r) /\
  (forall i t c, threads s !! i = Some t -> at_ t = opened c ->
     LocalRef (negotiated c) = localRef c /\ 1 <= localRef c <= 65535 /\
     (held t = Some (localRef c) <-> term (own t) = open_term)).
Proof.
  intros Hr. destruct (reachable_inv s Hr) as (Hall & Ha & Hnd & Heq). cbn [fst snd] in *. split_and!.
  - intros i j ti tj r. by apply held_index.
  - intros r. unfold Active. rewrite bool_decide_eq_true, Heq, elem_of_list_to_set, list_elem_of_omap. split.
    + intros (t & Hin & Ht). apply list_elem_of_lookup in Hin as [i Hi]. by exists i, t.
    + intros (i & t & Hi & Ht). exists t. split; [by eapply list_elem_of_lookup_2|done].
  - intros i [k st w] c Hi Hat. cbn in Hat. subst st.
    destruct (Forall_lookup_1 _ _ _ _ Hall Hi) as (Ht & Hl & Href). cbn [own] in *. split; [done|]. split; [lia|].
    unfold held. cbn [at_ own]. destruct Ht as [->|[e ->]]; [done|]. split; [done|]. by destruct e.
Qed.

Lemma live_references_distinct_witness :
  Active (defaultRefs two_clients) 2 = true <->
    exists i t, threads two_clients !! i = Some t /\ held t = Some 2.
Proof.
  apply (live_references_distinct two_clients). etrans; [|apply handshakes_reach].
  eapply rtc_l; [apply (step_start _ (calls_Connect (mkClientConfig None None 0 0 None 0)) (quiet_world [])); by split|].
  eapply rtc_l; [|apply rtc_refl].
  apply (step_start (mkProcess newReferenceAllocator [client_thread []]) (calls_Connect (mkClientConfig None None 0 0 None 0))
    (quiet_world [packet [6; 208; 0; 2; 0; 9; 0]])).
  decide_now.
Defined.

(** A thread is the function it calls: left alone, a handshake of the process
    ends with exactly the result and the world of [Connect] or [Accept]. *)
Theorem handshake_thread_is_its_call s i k w :
  threads s !! i = Some (mkThread k fresh w) ->
  let '(r, w') := call_of k (set_refs w (defaultRefs s)) in
  rtc process_step s (put s i (mkThread k (outcome_stage k r) w')).
Proof. intros Hi. rewrite call_uncut. by apply uncut_run. Qed.

Lemma handshake_thread_is_its_call_witness :
  let s := mkProcess newReferenceAllocator [client_thread []] in
  let '(r, w') := call_of (call (client_thread [])) (view s (client_thread [])) in
  rtc process_step s (put s 0 (mkThread (call (client_thread [])) (outcome_stage _ r) w')).
Proof.
  apply (handshake_thread_is_its_call (mkProcess newReferenceAllocator [client_thread []]) 0
    (calls_Connect (mkClientConfig None None 0 0 None 0)) (quiet_world [])). reflexivity.
Defined.
