(* ===== verification/Copies.v ===== *)
(** * Defensive copies: Negotiated, the indication and the kept parameters

    The connection keeps octets of the handshake, shows them to [OnConnect] and
    gives them out in [Negotiated].  Every crossing is a copyBytes; here the
    slices are those of Memory.v, so that what the copies prevent can be said. *)

From S2P Require Import Prelude Errors Types Wire PreferredMax Params Decode Encode Codec.
From S2P Require Import RoundTrip CodecSpec SizeNego Validate RefAlloc World Conn Tsdu TsduSpec Memory Alias Handshake.

(** Parameters whose octets lie in memory. *)
Record hNegotiated := mkHNegotiated {
  h_Class : Z;
  h_MaxTPDULength : Z;
  h_LocalRef : Z;
  h_RemoteRef : Z;
  h_LocalSelector : option slice;
  h_RemoteSelector : option slice;
  h_PeerConnectData : option slice
}.

Record hIndication := mkHIndication {
  hi_CallingSelector : option slice;
  hi_CalledSelector : option slice;
  hi_ProposedClass : Z;
  hi_MaxTPDULength : Z;
  hi_ConnectData : option slice;
  hi_SourceRef : Z
}.

(** The values they stand for. *)
Definition negotiated_value (h : heap) (n : hNegotiated) : NegotiatedParameters :=
  mkNegotiated (h_Class n) (h_MaxTPDULength n) (h_LocalRef n) (h_RemoteRef n)
    (hcontent h (h_LocalSelector n)) (hcontent h (h_RemoteSelector n)) (hcontent h (h_PeerConnectData n)).

Definition indication_value (h : heap) (i : hIndication) : ConnectIndication :=
  mkIndication (hcontent h (hi_CallingSelector i)) (hcontent h (hi_CalledSelector i)) (hi_ProposedClass i)
    (hi_MaxTPDULength i) (hcontent h (hi_ConnectData i)) (hi_SourceRef i).

(** [Conn.Negotiated]. *)
Definition Negotiated_in (n : hNegotiated) (h : heap) : hNegotiated * heap :=
  let '(a, h) := copyBytes_in (h_LocalSelector n) h in
  let '(b, h) := copyBytes_in (h_RemoteSelector n) h in
  let '(d, h) := copyBytes_in (h_PeerConnectData n) h in
  (mkHNegotiated (h_Class n) (h_MaxTPDULength n) (h_LocalRef n) (h_RemoteRef n) a b d, h).

(** The indication [Accept] shows to [OnConnect]. *)
Definition indication_in (cr : hCR) (peerOffer : sizeOffer) (h : heap) : hIndication * heap :=
  let '(a, h) := copyBytes_in (hCR_CallingSelector cr) h in
  let '(b, h) := copyBytes_in (hCR_CalledSelector cr) h in
  let '(d, h) := copyBytes_in (hCR_UserData cr) h in
  (mkHIndication a b (Z.shiftr (hCR_ClassOption cr) 4) (indicationMaxTPDULength peerOffer) d
     (hCR_SourceRef cr), h).

(** The parameters [Accept] keeps: [responding] is the selector it answered with. *)
Definition accepted_in (cr : hCR) (responding : option slice) (effective localRef : Z) (h : heap) : hNegotiated * heap :=
  let '(a, h) := copyBytes_in responding h in
  let '(b, h) := copyBytes_in (hCR_CallingSelector cr) h in
  let '(d, h) := copyBytes_in (hCR_UserData cr) h in
  (mkHNegotiated Class0 effective localRef (hCR_SourceRef cr) a b d, h).

(** ** Three copies *)

(** New since [h]. *)
Definition new_opt (h h' : heap) (o : option slice) : Prop :=
  forall s, o = Some s -> valid h' s /\ h !! arr s = None /\ (arr s).1 = cotp.

(** The arrays of some slices. *)
Definition arrays (l : list (option slice)) (a : address) : Prop := exists s, Some s ∈ l /\ arr s = a.

Lemma new_weaken h0 h h' o : only_on none h0 h -> new_opt h h' o -> new_opt h0 h' o.
Proof.
  intros Ho Hn s Hs. destruct (Hn s Hs) as (? & Hf & ?). split_and!; try done.
  destruct (h0 !! arr s) as [b|] eqn:E; [|done]. rewrite (Ho _ _ E) in Hf; [done|]. by intros [].
Qed.

Lemma new_only h0 h h' o : only_on none h h' -> new_opt h0 h o -> new_opt h0 h' o.
Proof.
  intros Ho Hn s Hs. destruct (Hn s Hs) as (Hv & ? & ?). split_and!; try done.
  apply (load_only none h h' s Ho Hv). by intros [].
Qed.

Lemma copyBytes_new b h o h' :
  valid_opt h b -> copyBytes_in b h = (o, h') ->
  hcontent h' o = hcontent h b /\ only_on none h h' /\ new_opt h h' o.
Proof. intros Hv H. destruct (copyBytes_spec h b o h' Hv H) as (? & _ & ? & ?). by split_and!. Qed.

(** Three copies in a row stand for what the originals stand for. *)
Lemma copy3_spec x y z h a b d h1 h2 h3 :
  valid_opt h x -> valid_opt h y -> valid_opt h z ->
  copyBytes_in x h = (a, h1) -> copyBytes_in y h1 = (b, h2) -> copyBytes_in z h2 = (d, h3) ->
  hcontent h3 a = hcontent h x /\ hcontent h3 b = hcontent h y /\ hcontent h3 d = hcontent h z /\
  only_on none h h3 /\ new_opt h h3 a /\ new_opt h h3 b /\ new_opt h h3 d.
Proof.
  intros Hx Hy Hz E1 E2 E3.
  destruct (copyBytes_new _ _ _ _ Hx E1) as (C1 & O1 & N1).
  destruct (hcontent_only none h h1 y O1 Hy) as [Y1 Hy1]; [by intros ? ? []|].
  destruct (hcontent_only none h h1 z O1 Hz) as [Z1 Hz1]; [by intros ? ? []|].
  destruct (copyBytes_new _ _ _ _ Hy1 E2) as (C2 & O2 & N2).
  destruct (hcontent_only none h1 h2 z O2 Hz1) as [Z2 Hz2]; [by intros ? ? []|].
  destruct (copyBytes_new _ _ _ _ Hz2 E3) as (C3 & O3 & N3).
  assert (only_on none h1 h3) as O13 by (etrans; [exact O2|exact O3]).
  assert (valid_opt h1 a) as Va by (intros s Hs; by destruct (N1 s Hs)).
  assert (valid_opt h2 b) as Vb by (intros s Hs; by destruct (N2 s Hs)).
  destruct (hcontent_only none h1 h3 a O13 Va) as [A3 _]; [by intros ? ? []|].
  destruct (hcontent_only none h2 h3 b O3 Vb) as [B3 _]; [by intros ? ? []|].
  split_and!; try congruence; [etrans; [exact O1|exact O13]| | |].
  - exact (new_only _ _ _ _ O13 N1).
  - eapply new_weaken; [exact O1|]. exact (new_only _ _ _ _ O3 N2).
  - eapply new_weaken; [|exact N3]. etrans; [exact O1|exact O2].
Qed.

(** Who writes only to the copies does not change an original. *)
Lemma copies_keep h h3 h4 l o :
  valid_opt h o -> only_on none h h3 -> (forall c, c ∈ l -> new_opt h h3 c) -> only_on (arrays l) h3 h4 ->
  hcontent h4 o = hcontent h o /\ valid_opt h4 o.
Proof.
  intros Hv Ho Hl Hw. destruct (hcontent_only none h h3 o Ho Hv) as [E1 Hv3]; [by intros ? ? []|].
  destruct (hcontent_only _ h3 h4 o Hw Hv3) as [E2 Hv4]; [|split; [congruence|done]].
  intros s Hs (s' & Hin & Ha). destruct (Hl _ Hin s' eq_refl) as (_ & Hf & _).
  destruct (Hv s Hs) as (b & Hb & _). congruence.
Qed.

Lemma copies_do_not_reach h h3 h4 l o :
  valid_opt h o -> only_on none h h3 -> (forall c, c ∈ l -> new_opt h h3 c) -> only_on (arrays l) h3 h4 ->
  hcontent h4 o = hcontent h o.
Proof. intros. by eapply copies_keep. Qed.

(** Who writes only to what was there before does not change a copy. *)
Lemma originals_do_not_reach h h3 h4 o :
  new_opt h h3 o -> only_on (fun a => h !! a <> None) h3 h4 -> hcontent h4 o = hcontent h3 o.
Proof.
  intros Hn Hw. destruct (hcontent_only _ h3 h4 o Hw) as [E _]; [|intros s Hs Hc; by destruct (Hn s Hs) as (_ & ? & _)|done].
  intros s Hs. by destruct (Hn s Hs).
Qed.

Ltac fields :=
  cbn [h_Class h_MaxTPDULength h_LocalRef h_RemoteRef h_LocalSelector h_RemoteSelector h_PeerConnectData
       hi_CallingSelector hi_CalledSelector hi_ProposedClass hi_MaxTPDULength hi_ConnectData hi_SourceRef
       CR_CallingSelector CR_CalledSelector CR_UserData CR_ClassOption CR_SourceRef].

(** Nor the packet, by whoever writes only to copies. *)
Lemma copies_keep_packet h h3 h4 l packet :
  valid h packet -> only_on none h h3 -> (forall c, c ∈ l -> new_opt h h3 c) -> only_on (arrays l) h3 h4 ->
  load h4 packet = load h packet.
Proof.
  intros Hv Ho Hl Hw. assert (valid_opt h (Some packet)) as Hvo by (by intros ? [= <-]).
  destruct (copies_keep h h3 h4 l (Some packet) Hvo Ho Hl Hw) as [E _]. by injection E.
Qed.

Lemma three_new h h3 a b d :
  new_opt h h3 a -> new_opt h h3 b -> new_opt h h3 d -> forall c, c ∈ [a; b; d] -> new_opt h h3 c.
Proof. intros Ha Hb Hd c Hc. rewrite !elem_of_cons in Hc. destruct Hc as [->|[->|[->|Hc]]]; try done. by apply not_elem_of_nil in Hc. Qed.

(** [Negotiated] again, after its caller has written into the copies [l]. *)
Lemma renegotiated n h h3 h4 l :
  valid_opt h (h_LocalSelector n) -> valid_opt h (h_RemoteSelector n) -> valid_opt h (h_PeerConnectData n) ->
  only_on none h h3 -> (forall c, c ∈ l -> new_opt h h3 c) -> only_on (arrays l) h3 h4 ->
  let '(n2, h5) := Negotiated_in n h4 in negotiated_value h5 n2 = negotiated_value h n.
Proof.
  intros V1 V2 V3 Ho Hl Hw.
  pose proof (copies_keep h h3 h4 l) as Hk.
  destruct (Hk _ V1 Ho Hl Hw) as [C1 W1], (Hk _ V2 Ho Hl Hw) as [C2 W2], (Hk _ V3 Ho Hl Hw) as [C3 W3].
  unfold Negotiated_in. destruct (copyBytes_in (h_LocalSelector n) h4) as [a h5] eqn:E1.
  destruct (copyBytes_in (h_RemoteSelector n) h5) as [b h6] eqn:E2.
  destruct (copyBytes_in (h_PeerConnectData n) h6) as [d h7] eqn:E3.
  destruct (copy3_spec _ _ _ _ _ _ _ _ _ _ W1 W2 W3 E1 E2 E3) as (Ca & Cb & Cd & _).
  unfold negotiated_value. fields. by rewrite Ca, Cb, Cd, C1, C2, C3.
Qed.

(** The octets of a CR decoded lie in the packet. *)
Lemma decoded_CR h packet cr :
  valid h packet -> hDecode h packet = Ok (HCR cr) ->
  all_inside packet (slices_of (HCR cr)) /\
  valid_opt h (hCR_CallingSelector cr) /\ valid_opt h (hCR_CalledSelector cr) /\ valid_opt h (hCR_UserData cr).
Proof.
  intros Hv Hd. pose proof (Decode_in_step h packet Hv) as Hs. rewrite Hd in Hs. destruct (Decode _); try done.
  destruct Hs as [_ Hin]. split; [done|]. apply Forall_cons in Hin as [H1 [H2 [H3 _]%Forall_cons]%Forall_cons].
  split_and!; intros s Hs; eapply inside_valid; eauto.
Qed.

(** ** Properties *)

(** The copies isolate both sides.  [Negotiated] gives the value of the
    parameters it has, and the same value again after its caller has written
    whatever it likes into the slices of the first answer.  The indication of
    [OnConnect] and the parameters [Accept] keeps have the value of the CR
    decoded in go-tpkt's buffer; what the callback writes into its indication does not
    change the CR that [Accept] goes on with, and what later happens to the buffer
    or to the configuration does not change the parameters kept. *)
Theorem copies_isolate n packet cr responding offer effective localRef h :
  valid_opt h (h_LocalSelector n) -> valid_opt h (h_RemoteSelector n) -> valid_opt h (h_PeerConnectData n) ->
  valid h packet -> hDecode h packet = Ok (HCR cr) -> valid_opt h responding ->
  (let '(n1, h1) := Negotiated_in n h in
   negotiated_value h1 n1 = negotiated_value h n /\
   forall h2, only_on (arrays [h_LocalSelector n1; h_RemoteSelector n1; h_PeerConnectData n1]) h1 h2 ->
     let '(n2, h3) := Negotiated_in n h2 in negotiated_value h3 n2 = negotiated_value h n) /\
  (let '(i, h1) := indication_in cr offer h in
   indication_value h1 i =
     mkIndication (CR_CallingSelector (CR_value h cr)) (CR_CalledSelector (CR_value h cr))
       (Z.shiftr (CR_ClassOption (CR_value h cr)) 4) (indicationMaxTPDULength offer)
       (CR_UserData (CR_value h cr)) (CR_SourceRef (CR_value h cr)) /\
   forall h2, only_on (arrays [hi_CallingSelector i; hi_CalledSelector i; hi_ConnectData i]) h1 h2 ->
     CR_value h2 cr = CR_value h cr) /\
  (let '(k, h1) := accepted_in cr responding effective localRef h in
   negotiated_value h1 k =
     mkNegotiated Class0 effective localRef (CR_SourceRef (CR_value h cr))
       (hcontent h responding) (CR_CallingSelector (CR_value h cr)) (CR_UserData (CR_value h cr)) /\
   forall h2, only_on (fun a => h !! a <> None) h1 h2 -> negotiated_value h2 k = negotiated_value h1 k).
Proof.
  intros V1 V2 V3 Vp Hcr Vr. destruct (decoded_CR h packet cr Vp Hcr) as (Hin & W1 & W2 & W3). split_and!.
  - unfold Negotiated_in at 1. destruct (copyBytes_in (h_LocalSelector n) h) as [a h1] eqn:E1.
    destruct (copyBytes_in (h_RemoteSelector n) h1) as [b h2] eqn:E2.
    destruct (copyBytes_in (h_PeerConnectData n) h2) as [d h3] eqn:E3.
    destruct (copy3_spec _ _ _ _ _ _ _ _ _ _ V1 V2 V3 E1 E2 E3) as (Ca & Cb & Cd & Ho & Na & Nb & Nd).
    split; [unfold negotiated_value, CR_value; fields; by rewrite Ca, Cb, Cd|]. cbn. intros h4 Hw.
    by apply (renegotiated n h h3 h4 [a; b; d]); [| | | |apply three_new|].
  - unfold indication_in. destruct (copyBytes_in (hCR_CallingSelector cr) h) as [a h1] eqn:E1.
    destruct (copyBytes_in (hCR_CalledSelector cr) h1) as [b h2] eqn:E2.
    destruct (copyBytes_in (hCR_UserData cr) h2) as [d h3] eqn:E3.
    destruct (copy3_spec _ _ _ _ _ _ _ _ _ _ W1 W2 W3 E1 E2 E3) as (Ca & Cb & Cd & Ho & Na & Nb & Nd).
    split; [unfold indication_value, CR_value; fields; by rewrite Ca, Cb, Cd|]. cbn. intros h4 Hw.
    pose proof (copies_keep_packet h h3 h4 _ packet Vp Ho (three_new h h3 a b d Na Nb Nd) Hw) as Hl.
    pose proof (tpdu_value_stays h h4 packet Hl (HCR cr) Hin) as Heq. cbn [tpdu_value] in Heq. congruence.
  - unfold accepted_in. destruct (copyBytes_in responding h) as [a h1] eqn:E1.
    destruct (copyBytes_in (hCR_CallingSelector cr) h1) as [b h2] eqn:E2.
    destruct (copyBytes_in (hCR_UserData cr) h2) as [d h3] eqn:E3.
    destruct (copy3_spec _ _ _ _ _ _ _ _ _ _ Vr W1 W3 E1 E2 E3) as (Ca & Cb & Cd & Ho & Na & Nb & Nd).
    split; [unfold negotiated_value, CR_value; fields; by rewrite Ca, Cb, Cd|]. cbn. intros h4 Hw. unfold negotiated_value. fields.
    by rewrite (originals_do_not_reach h h3 h4 a Na Hw), (originals_do_not_reach h h3 h4 b Nb Hw),
      (originals_do_not_reach h h3 h4 d Nd Hw).
Qed.

(** A CR in go-tpkt's buffer and the parameters of an earlier connection. *)
Definition sample_memory : heap := {[ (other, O) := [12; 224; 0; 0; 0; 1; 0; 193; 1; 65; 194; 1; 66; 7]; (cotp, O) := [9] ]}.
Definition sample_CR_packet : slice := mkSlice (other, O) 0 14.
Definition sample_hCR : hCR :=
  mkHCR 0 0 1 0 [] (Some (mkSlice (other, O) 9 1)) (Some (mkSlice (other, O) 12 1)) None None
    (Some (mkSlice (other, O) 13 1)).
Definition sample_hNegotiated : hNegotiated := mkHNegotiated 0 128 1 2 (Some (mkSlice (cotp, O) 0 1)) None None.

Lemma copies_isolate_witness :
  let h := sample_memory in
  let cr := sample_hCR in
  let n := sample_hNegotiated in
  (let '(n1, h1) := Negotiated_in n h in
   negotiated_value h1 n1 = negotiated_value h n /\
   forall h2, only_on (arrays [h_LocalSelector n1; h_RemoteSelector n1; h_PeerConnectData n1]) h1 h2 ->
     let '(n2, h3) := Negotiated_in n h2 in negotiated_value h3 n2 = negotiated_value h n) /\
  (let '(i, h1) := indication_in cr (mkOffer None None true) h in
   indication_value h1 i =
     mkIndication (Some [65]) (Some [66]) 0 (indicationMaxTPDULength (mkOffer None None true)) (Some [7]) 1 /\
   forall h2, only_on (arrays [hi_CallingSelector i; hi_CalledSelector i; hi_ConnectData i]) h1 h2 ->
     CR_value h2 cr = CR_value h cr) /\
  (let '(k, h1) := accepted_in cr None 128 4 h in
   negotiated_value h1 k = mkNegotiated Class0 128 4 1 None (Some [65]) (Some [7]) /\
   forall h2, only_on (fun a => h !! a <> None) h1 h2 -> negotiated_value h2 k = negotiated_value h1 k).
Proof.
  apply (copies_isolate sample_hNegotiated sample_CR_packet sample_hCR None (mkOffer None None true) 128 4 sample_memory);
    try (intros s [= <-]);
    try (vm_compute; reflexivity); eexists; (split; [reflexivity|cbn; lia]).
Defined.
