(* ===== verification/Kept.v ===== *)
(** * What a client keeps: the answer to Connect on memory

    [Connect] reads the answer in go-tpkt's buffer, and what it keeps of it (the
    peer's selector and connect data, or the octets of a rejection) must outlive
    that buffer.  Here the part of [Connect] that follows the read runs on
    memory, with the configuration's selectors in arrays of the caller. *)

From S2P Require Import Prelude Errors Types Wire PreferredMax Params Decode Encode Codec.
From S2P Require Import RoundTrip CodecSpec SizeNego Validate RefAlloc World Conn Tsdu TsduSpec Memory Alias Handshake HandshakeSpec Copies.

(** What the answer comes to, octets in memory. *)
Inductive hAnswer :=
  | Confirmed (neg : hNegotiated)
  | Refused (reason : Z) (info : option slice).   (* a RejectionError *)

(** What [connect_confirm] makes of it. *)
Definition answer_value (h : heap) (r : outcome hAnswer) : outcome NegotiatedParameters :=
  match r with
  | Ok (Confirmed neg) => Ok (negotiated_value h neg)
  | Ok (Refused reason info) => Err (RejectionError reason (hcontent h info))
  | Err e => Err e
  | Panic => Panic
  | NoFuel => NoFuel
  end.

(** rejectionFromDR, the DR being there. *)
Definition rejection_in (dr : hDR) (h : heap) : hAnswer * heap :=
  let '(info, h) := copyBytes_in (hDR_UserData dr) h in
  (Refused (hDR_Reason dr) info, h).

(** The parameters [Connect] keeps; the selectors are those of the configuration. *)
Definition connected_in (local remote : option slice) (cc : hCC) (effective localRef : Z) (h : heap) :
    hNegotiated * heap :=
  let '(remoteSelector, h) := copyBytes_in remote h in
  let '(remoteSelector, h) :=
    match hCC_CalledSelector cc with
    | Some _ => copyBytes_in (hCC_CalledSelector cc) h
    | None => (remoteSelector, h)
    end in
  let '(a, h) := copyBytes_in local h in
  let '(d, h) := copyBytes_in (hCC_UserData cc) h in
  (mkHNegotiated Class0 effective localRef (hCC_SourceRef cc) a remoteSelector d, h).

(** [Connect] from the decoding of the payload on. *)
Definition hconnect_confirm (cfg : ClientConfig) (local remote : option slice) (localRef : Z) (offer : sizeCRBuild)
    (payload : slice) (h : heap) : outcome hAnswer * heap :=
  match rewrap ErrHandshake (hDecode h payload) with
  | Err e => (Err e, h)
  | Panic => (Panic, h)
  | NoFuel => (NoFuel, h)
  | Ok (HDR dr) => let '(r, h) := rejection_in dr h in (Ok r, h)
  | Ok (HER _) => (Err (Errorf "ER reject cause %d: %w" [Sentinel ErrHandshake]), h)
  | Ok (HCC cc) =>
      let checked :=
        let! _ := validateClass0CCFixed (hCC_CDT cc) (hCC_ClassOption cc) in
        let! _ := validateCCReferences (hCC_DestinationRef cc) (hCC_SourceRef cc) localRef in
        let! _ := validateCCParameters (map (param_value h) (hCC_Parameters cc)) in
        if MaxConnectDataLength <? hlen (hCC_UserData cc)
        then Err (Errorf "CC connect data length %d > %d: %w" [Sentinel ErrHandshake]) else
        interpretCCSize (Offer offer) (hCC_TPDUSize cc) (hCC_PreferredMaxTPDUSize cc) (c_SizeProfile cfg) in
      match checked with
      | Err e => (Err e, h)
      | Panic => (Panic, h)
      | NoFuel => (NoFuel, h)
      | Ok effective =>
          let '(neg, h) := connected_in local remote cc effective localRef h in (Ok (Confirmed neg), h)
      end
  | Ok t => (Err (UnexpectedTPDUError (tpdu_type (tpdu_value h t)) PhaseHandshake), h)
  end.

(** ** Facts *)

(** The octets of a result are all in arrays made since [h]. *)
Definition answer_new (h h' : heap) (r : outcome hAnswer) : Prop :=
  match r with
  | Ok (Confirmed neg) =>
      new_opt h h' (h_LocalSelector neg) /\ new_opt h h' (h_RemoteSelector neg) /\ new_opt h h' (h_PeerConnectData neg)
  | Ok (Refused _ info) => new_opt h h' info
  | _ => True
  end.

Lemma new_answer_stays h h1 h2 r :
  answer_new h h1 r -> only_on (fun a => h !! a <> None) h1 h2 -> answer_value h2 r = answer_value h1 r.
Proof.
  intros Hn Hw. destruct r as [[neg|reason info]|e| |]; cbn [answer_value answer_new] in *; try done.
  - destruct Hn as (H1 & H2 & H3). unfold negotiated_value.
    by rewrite (originals_do_not_reach h h1 h2 _ H1 Hw), (originals_do_not_reach h h1 h2 _ H2 Hw),
      (originals_do_not_reach h h1 h2 _ H3 Hw).
  - by rewrite (originals_do_not_reach h h1 h2 _ Hn Hw).
Qed.

(** Octets that were valid before a copy still are, and stand for the same. *)
Lemma copied_after b h o h1 x :
  valid_opt h b -> copyBytes_in b h = (o, h1) -> valid_opt h x -> valid_opt h1 x /\ hcontent h1 x = hcontent h x.
Proof.
  intros Hb E Hx. destruct (copyBytes_new _ _ _ _ Hb E) as (_ & Ho & _).
  destruct (hcontent_only none h h1 x Ho Hx) as [? ?]; [by intros ? ? []|]. done.
Qed.

Lemma connected_spec local remote cc effective localRef h k h' :
  valid_opt h local -> valid_opt h remote ->
  valid_opt h (hCC_CalledSelector cc) -> valid_opt h (hCC_UserData cc) ->
  connected_in local remote cc effective localRef h = (k, h') ->
  negotiated_value h' k =
    mkNegotiated Class0 effective localRef (hCC_SourceRef cc) (hcontent h local)
      (match hcontent h (hCC_CalledSelector cc) with Some c => Some c | None => hcontent h remote end)
      (hcontent h (hCC_UserData cc)) /\
  answer_new h h' (Ok (Confirmed k)).
Proof.
  intros Vl Vr Vc Vu H. unfold connected_in in H.
  destruct (copyBytes_in remote h) as [r1 h1] eqn:E1.
  destruct (copyBytes_new _ _ _ _ Vr E1) as (C1 & O1 & N1).
  destruct (copied_after _ _ _ _ _ Vr E1 Vl) as [Vl1 Cl1].
  destruct (copied_after _ _ _ _ _ Vr E1 Vc) as [Vc1 Cc1].
  destruct (copied_after _ _ _ _ _ Vr E1 Vu) as [Vu1 Cu1].
  destruct (hCC_CalledSelector cc) as [called|] eqn:Hcalled.
  - destruct (copyBytes_in (Some called) h1) as [r2 h2] eqn:E2.
    destruct (copyBytes_in local h2) as [a h3] eqn:E3. destruct (copyBytes_in (hCC_UserData cc) h3) as [d h4] eqn:E4.
    injection H as <- <-.
    destruct (copy3_spec _ _ _ _ _ _ _ _ _ _ Vc1 Vl1 Vu1 E2 E3 E4) as (Cb & Ca & Cd & Ho & Nb & Na & Nd).
    split; [unfold negotiated_value; fields; rewrite Ca, Cb, Cd, Cl1, Cu1, Cc1; done|].
    cbn [answer_new]. fields. split_and!; (eapply new_weaken; [exact O1|done]).
  - destruct (copyBytes_in local h1) as [a h3] eqn:E3. destruct (copyBytes_in (hCC_UserData cc) h3) as [d h4] eqn:E4.
    injection H as <- <-.
    destruct (copy3_spec remote local (hCC_UserData cc) h r1 a d h1 h3 h4 Vr Vl Vu E1 E3 E4) as (Cb & Ca & Cd & Ho & Nb & Na & Nd).
    split; [unfold negotiated_value; fields; by rewrite Ca, Cb, Cd|]. cbn [answer_new]. fields. by split_and!.
Qed.

Lemma rejection_spec dr h r h' :
  valid_opt h (hDR_UserData dr) -> rejection_in dr h = (r, h') ->
  answer_value h' (Ok r) = Err (rejectionFromDR (Some (DR_value h dr))) /\ answer_new h h' (Ok r).
Proof.
  intros Hv H. unfold rejection_in in H. destruct (copyBytes_in (hDR_UserData dr) h) as [info h1] eqn:E.
  injection H as <- <-. destruct (copyBytes_new _ _ _ _ Hv E) as (Hc & _ & Hn). split; [|done].
  cbn [answer_value rejectionFromDR]. unfold DR_value. cbn [DR_UserData DR_Reason]. by rewrite Hc, copyBytes_id.
Qed.

Lemma inside_valid_opt h packet o :
  valid h packet -> (forall s, o = Some s -> inside packet s) -> valid_opt h o.
Proof. intros Hv Hi s Hs. eapply inside_valid; eauto. Qed.

(** A confirmation, once its checks have passed or not. *)
Lemma confirm_spec cfg local remote localRef offer packet cc h :
  valid_opt h local -> valid_opt h remote ->
  hcontent h local = c_LocalSelector cfg -> hcontent h remote = c_RemoteSelector cfg ->
  valid_opt h (hCC_CalledSelector cc) -> valid_opt h (hCC_UserData cc) ->
  Decode (load h packet) = Ok (decoded (T_CC (CC_value h cc))) -> hDecode h packet = Ok (HCC cc) ->
  let '(r, h') := hconnect_confirm cfg local remote localRef offer packet h in
  answer_value h' r = connect_confirm cfg localRef offer (load h packet) /\ answer_new h h' r.
Proof.
  intros Vl Vr Hl Hr Vc Vu Hd Hh. unfold hconnect_confirm, connect_confirm. rewrite Hd, Hh. cbn [rewrap obind decoded D_Type D_CC].
  change (TypeCC =? TypeDR) with false. change (TypeCC =? TypeER) with false. change (negb (TypeCC =? TypeCC)) with false.
  cbv iota zeta. unfold CC_value.
  cbn [CC_CDT CC_ClassOption CC_DestinationRef CC_SourceRef CC_Parameters CC_UserData CC_TPDUSize CC_PreferredMaxTPDUSize CC_CalledSelector].
  rewrite (hlen_slen h _ Vu).
  destruct (validateClass0CCFixed _ _) as [[]|e| |]; try done. cbn [obind].
  destruct (validateCCReferences _ _ _) as [[]|e| |]; try done. cbn [obind].
  destruct (validateCCParameters _) as [[]|e| |]; try done. cbn [obind].
  destruct (MaxConnectDataLength <? hlen (hCC_UserData cc)); [done|].
  destruct (interpretCCSize _ _ _ _) as [effective|e| |]; try done. cbn [obind].
  destruct (connected_in local remote cc effective localRef h) as [k h'] eqn:E.
  destruct (connected_spec _ _ _ _ _ _ _ _ Vl Vr Vc Vu E) as [Hv Hn]. split; [|done].
  cbn [answer_value]. rewrite Hv, Hl, Hr, !copyBytes_id. by destruct (hcontent h (hCC_CalledSelector cc)).
Qed.

Lemma connect_confirm_in_step cfg local remote localRef offer packet h :
  valid h packet -> valid_opt h local -> valid_opt h remote ->
  hcontent h local = c_LocalSelector cfg -> hcontent h remote = c_RemoteSelector cfg ->
  let '(r, h') := hconnect_confirm cfg local remote localRef offer packet h in
  answer_value h' r = connect_confirm cfg localRef offer (load h packet) /\ answer_new h h' r.
Proof.
  intros Hv Vl Vr Hl Hr. pose proof (Decode_in_step h packet Hv) as Hs.
  destruct (Decode (load h packet)) as [d|e| |] eqn:Hd, (hDecode h packet) as [t|e'| |] eqn:Hh; try done;
    try (unfold hconnect_confirm, connect_confirm; by rewrite Hd, Hh).
  destruct Hs as [-> Hin]. destruct t as [x|x|x|x|x|x|x|x|x|x];
    try (unfold hconnect_confirm, connect_confirm; by rewrite Hd, Hh).
  - cbn [slices_of app] in Hin. apply Forall_cons in Hin as [_ [H2 [H3 _]%Forall_cons]%Forall_cons].
    apply (confirm_spec cfg local remote localRef offer packet x); try done; by eapply inside_valid_opt.
  - apply Forall_cons in Hin as [H1 _]. unfold hconnect_confirm, connect_confirm. rewrite Hd, Hh. cbn [rewrap obind decoded tpdu_value D_Type D_DR].
    change (TypeDR =? TypeDR) with true. cbv iota.
    destruct (rejection_in x h) as [r h'] eqn:E. apply rejection_spec; [|done]. by eapply inside_valid_opt.
Qed.

(** ** Properties *)

(** What [Connect] makes of the answer is its own.  On memory, with the
    answer in go-tpkt's buffer and the selectors of the configuration in the
    caller's arrays, it comes to the outcome that the answer's octets determine
    ([connect_confirm]): the negotiated parameters, the rejection with its
    octets, or the error.  And it stays that outcome whatever is then written into
    any array there was before, the buffer and the configuration included. *)
Theorem connect_keeps_its_own cfg local remote localRef offer packet h :
  valid h packet -> valid_opt h local -> valid_opt h remote ->
  hcontent h local = c_LocalSelector cfg -> hcontent h remote = c_RemoteSelector cfg ->
  let '(r, h') := hconnect_confirm cfg local remote localRef offer packet h in
  answer_value h' r = connect_confirm cfg localRef offer (load h packet) /\
  forall h2, only_on (fun a => h !! a <> None) h' h2 ->
    answer_value h2 r = connect_confirm cfg localRef offer (load h packet).
Proof.
  intros Hv Vl Vr Hl Hr.
  pose proof (connect_confirm_in_step cfg local remote localRef offer packet h Hv Vl Vr Hl Hr) as Hs.
  destruct (hconnect_confirm _ _ _ _ _ _ _) as [r h']. destruct Hs as [Hs Hn]. split; [done|]. intros h2 Hw.
  rewrite <- Hs. by eapply new_answer_stays.
Qed.

(** The buffer holds a CC with a responding selector; the caller's arrays hold
    the selectors of the configuration. *)
Definition client_memory : heap :=
  {[ (other, O) := [12; 208; 0; 5; 0; 9; 0; 194; 1; 65; 192; 1; 7; 8]; (other, 1%nat) := [1; 2; 3] ]}.

Lemma client_memory_valid n s : (n = O /\ (start_ s + size s <= 14)%nat) \/ (n = 1%nat /\ (start_ s + size s <= 3)%nat) ->
  arr s = (other, n) -> valid client_memory s.
Proof. intros [[-> Hle]|[-> Hle]] Ha; (eexists; split; [rewrite Ha; reflexivity|exact Hle]). Qed.

Lemma connect_keeps_its_own_witness :
  let local := Some (mkSlice (other, 1%nat) 0 1) in
  let remote := Some (mkSlice (other, 1%nat) 1 2) in
  let offer := mkCRBuild (mkOffer (Some 128) None true) (Some 7) None in
  let '(r, h') := hconnect_confirm sample_client local remote 5 offer (mkSlice (other, O) 0 14) client_memory in
  answer_value h' r = connect_confirm sample_client 5 offer [12; 208; 0; 5; 0; 9; 0; 194; 1; 65; 192; 1; 7; 8] /\
  forall h2, only_on (fun a => client_memory !! a <> None) h' h2 ->
    answer_value h2 r = connect_confirm sample_client 5 offer [12; 208; 0; 5; 0; 9; 0; 194; 1; 65; 192; 1; 7; 8].
Proof.
  apply (connect_keeps_its_own sample_client (Some (mkSlice (other, 1%nat) 0 1)) (Some (mkSlice (other, 1%nat) 1 2)) 5
    (mkCRBuild (mkOffer (Some 128) None true) (Some 7) None) (mkSlice (other, O) 0 14) client_memory).
  - apply (client_memory_valid O); [left; cbn; lia|done].
  - intros s [= <-]. apply (client_memory_valid 1); [right; cbn; lia|done].
  - intros s [= <-]. apply (client_memory_valid 1); [right; cbn; lia|done].
  - reflexivity.
  - reflexivity.
Defined.

(** The answer is a confirmation, and the buffer overwritten afterwards is not seen. *)
Example connect_kept :
  let '(r, h') := hconnect_confirm sample_client (Some (mkSlice (other, 1%nat) 0 1)) (Some (mkSlice (other, 1%nat) 1 2)) 5
                    (mkCRBuild (mkOffer (Some 128) None true) (Some 7) None) (mkSlice (other, O) 0 14) client_memory in
  answer_value (<[(other, O) := []]> h') r = Ok (mkNegotiated 0 128 5 9 (Some [1]) (Some [65]) (Some [8])).
Proof. vm_compute. reflexivity. Qed.
