(* ===== verification/Dial.v ===== *)
(** * Connect on the heap

    [Connect] from its configuration, whose octets are the caller's, to the
    connection it returns, on the memory of Memory.v: the CR and its octets are in
    arrays of the call, the answer is decoded in go-tpkt's buffer, and what the
    connection keeps is copied. *)

From S2P Require Import Prelude Errors Types Wire PreferredMax Params Decode Encode Codec.
From S2P Require Import RoundTrip CodecSpec SizeNego Validate RefAlloc World Conn Tsdu TsduSpec Memory Alias Append MemoryWorld.
From S2P Require Import Handshake HandshakeSpec Copies Kept.
Open Scope heap_scope.

(** ** A configuration and a connection whose octets lie in memory *)

Record hClientConfig := mkHClientConfig {
  hc_LocalSelector : option slice;
  hc_RemoteSelector : option slice;
  hc_MaxTPDULength : Z;
  hc_MaxTSDULength : Z;
  hc_ConnectData : option slice;
  hc_SizeProfile : Z
}.

Definition client_value (h : heap) (c : hClientConfig) : ClientConfig :=
  mkClientConfig (hcontent h (hc_LocalSelector c)) (hcontent h (hc_RemoteSelector c)) (hc_MaxTPDULength c)
    (hc_MaxTSDULength c) (hcontent h (hc_ConnectData c)) (hc_SizeProfile c).

Record hConn := mkHConn {
  h_negotiated : hNegotiated;
  h_maxTSDU : Z;
  h_profile : Z;
  h_localRef : Z
}.

Definition conn_value (h : heap) (c : hConn) : Conn :=
  mkConn (negotiated_value h (h_negotiated c)) (h_maxTSDU c) (h_profile c) (h_localRef c).

Definition hnewOpenConn (neg : hNegotiated) (maxTSDU profile localRef : Z) : HM hConn :=
  fun '(w, h) => (Ok (mkHConn neg maxTSDU profile localRef), (set_term w open_term, h)).

(** ** Connect *)

(** The CR. *)
Definition request_in (cfg : hClientConfig) (localRef : Z) (offer : sizeCRBuild) (h : heap) : hCR * heap :=
  let '(calling, h) := copyBytes_in (hc_LocalSelector cfg) h in
  let '(called, h) := copyBytes_in (hc_RemoteSelector cfg) h in
  let '(data, h) := copyBytes_in (hc_ConnectData cfg) h in
  (mkHCR 0 0 localRef 0 [] calling called (cr_StandardCode offer) (cr_PreferredUnits offer) data, h).

(** [if err != nil { return nil, fmt.Errorf("%w: %v", s, err) }] *)
Definition erewrap {A} (s : sentinel) (m : EM A) : EM A := fun h => let '(r, h) := m h in (rewrap s r, h).

Definition hhandshake_io {A} (io : HM A) : HM A :=
  let! r := hattempt io in
  match r with
  | inl a => hret a
  | inr err => on_world (connectIOError err)
  end.

(** What reads octets only is the function on values, at the octets. *)
Definition at_heap {A} (f : heap -> outcome A) : HM A := fun '(w, h) => (f h, (w, h)).

(** A rejection; its octets are those of the slice. *)
Definition hrefused {A} (reason : Z) (info : option slice) : HM A :=
  at_heap (fun h => Err (RejectionError reason (hcontent h info))).

Section Connect.
Context {kept : address -> Prop} {RM : ReaderMemory kept} {WM : WriterMemory kept} {GR : Growth}.

Definition hConnect (nil_conn : bool) (cfg : hClientConfig) : HM hConn :=
  if nil_conn then on_world (fail (Errorf "%w: nil conn" [Sentinel ErrInvalidConfig])) else
  hunless_ok closeConn (
    let! max := at_heap (fun h => ClientConfig_preflight (client_value h cfg)) in
    let! _ := on_world check_ctx in
    let! _ := on_world NewReader in
    let! _ := on_world NewWriter in
    let! localRef := on_world allocate in
    hunless_ok (release localRef) (
      let! offer := on_world (lift (buildSizeOffer (fst max) (hc_SizeProfile cfg))) in
      let! cr := on_heap (request_in cfg localRef offer) in
      let! crBytes := on_memory (erewrap ErrInvalidConfig (hCR_MarshalBinary (Some cr))) in
      let! _ := on_world (armHandshake nil_conn) in
      hdefer disarm (
        let! _ := hhandshake_io (hWritePacket no_conn crBytes) in
        let! payload := hhandshake_io (hReadPacket no_conn) in
        let! answer := on_memory (fun h => hconnect_confirm (client_value h cfg) (hc_LocalSelector cfg) (hc_RemoteSelector cfg)
                                             localRef offer payload h) in
        match answer with
        | Confirmed neg => hnewOpenConn neg (snd max) (hc_SizeProfile cfg) localRef
        | Refused reason info => hrefused reason info
        end))).

(** ** What copying changes *)

Lemma copyBytes_only b h : only_on none h (copyBytes_in b h).2.
Proof.
  destruct b as [b|]; [|done]. cbn [copyBytes_in]. destruct (make (size b) h) as [d h1] eqn:E.
  destruct (make_spec _ _ _ _ E) as (Hf & _ & _ & _ & _ & Hon). cbn [snd]. intros a x Ha _. unfold copy_.
  rewrite lookup_insert_ne; [apply Hon; [done|by intros []]|]. intros <-. by rewrite Hf in Ha.
Qed.

Lemma connected_only local remote cc effective localRef h : only_on none h (connected_in local remote cc effective localRef h).2.
Proof.
  unfold connected_in. pose proof (copyBytes_only remote h) as H1. destruct (copyBytes_in remote h) as [r h1].
  assert (exists r' h2, match hCC_CalledSelector cc with Some _ => copyBytes_in (hCC_CalledSelector cc) h1 | None => (r, h1) end = (r', h2) /\
    only_on none h1 h2) as (r' & h2 & -> & H2).
  { destruct (hCC_CalledSelector cc) as [called|]; [|by eexists _, _]. pose proof (copyBytes_only (Some called) h1) as H2.
    destruct (copyBytes_in (Some called) h1). by eexists _, _. }
  pose proof (copyBytes_only local h2) as H3. destruct (copyBytes_in local h2) as [a h3].
  pose proof (copyBytes_only (hCC_UserData cc) h3) as H4. destruct (copyBytes_in (hCC_UserData cc) h3) as [d h4].
  cbn [snd] in *. etrans; [exact H1|]. etrans; [exact H2|]. by etrans.
Qed.

Lemma hconnect_confirm_only cfg local remote localRef offer payload h :
  only_on none h (hconnect_confirm cfg local remote localRef offer payload h).2.
Proof.
  unfold hconnect_confirm. destruct (rewrap _ _) as [t|e| |]; try done. destruct t as [x|x|x|x|x|x|x|x|x|x]; try done.
  - match goal with |- context [match ?m with Ok _ => _ | _ => _ end] => destruct m as [effective|e| |] end; try done.
    pose proof (connected_only local remote x effective localRef h) as H. by destruct (connected_in _ _ _ _ _ _).
  - pose proof (copyBytes_only (hDR_UserData x) h) as H. unfold rejection_in. by destruct (copyBytes_in _ _).
Qed.

(** ** The simulation *)

Section Call.
Context (h0 : heap).
#[local] Abbreviation unharmed := (MemoryWorld.unharmed (others kept) h0).
#[local] Abbreviation sim := (MemoryWorld.sim (others kept) h0).

(** What the caller has lent, or go-cotp has made, stays as it is. *)
Definition safe (a : address) : Prop := a.1 = cotp \/ kept a.

Lemma safe_stays h o :
  unharmed h -> valid_opt h0 o -> (forall s, o = Some s -> safe (arr s)) -> hcontent h o = hcontent h0 o /\ valid_opt h o.
Proof.
  intros Ho Hv Hs. apply (hcontent_only (others kept) h0 h o Ho Hv). intros s E [Hf Hk]. destruct (Hs s E); [|done].
  unfold foreign in Hf. congruence.
Qed.

Lemma none_unharmed h h' : unharmed h -> only_on none h h' -> unharmed h'.
Proof. unfold MemoryWorld.unharmed. intros Ho Hn. etrans; [exact Ho|by apply (only_on_weaken none)]. Qed.

Lemma sim_connectIOError {A B : Type} (R : world -> heap -> A -> B -> Prop) err w h :
  unharmed h -> sim R (connectIOError err) (on_world (connectIOError err)) w h.
Proof.
  intros Ho. assert (exists e w', (@connectIOError A err w = (Err e, w')) /\ (@connectIOError B err w = (Err e, w'))) as (e & w' & E1 & E2).
  { unfold connectIOError, ctx_Err, ctx_has_deadline, mbind_, ret, fail. destruct (ctx_errs w) as [|o errs].
    - destruct (has_deadline w && isTimeout err), (errors_Is err io_EOF), (isFramingError err); by eexists _, _.
    - destruct o as [e|]; [destruct errs; by eexists _, _|].
      cbn [has_deadline]. destruct (has_deadline w && isTimeout err), (errors_Is err io_EOF), (isFramingError err); by eexists _, _. }
  unfold MemoryWorld.sim, on_world. rewrite E1, E2. by split_and!.
Qed.

Lemma sim_at_heap {A : Type} (m : outcome A) f w h :
  unharmed h -> f h = m -> sim (fun w' h' a b => a = b /\ h' = h /\ w' = w) (lift m) (at_heap f) w h.
Proof. intros Ho <-. unfold MemoryWorld.sim, lift, at_heap. split_and!; try done. by destruct (f h). Qed.

Lemma sim_io {A B : Type} (R : world -> heap -> A -> B -> Prop) m n w h :
  sim R m n w h -> sim R (handshake_io m) (hhandshake_io n) w h.
Proof.
  intros Hs. eapply sim_bind; [by apply sim_attempt|]. intros r r' w' h' Hr Ho.
  destruct r as [a|e], r' as [b|e']; [by apply sim_ret|done|done|]. cbn in Hr. subst e'. by apply sim_connectIOError.
Qed.

(** The configuration is as it was. *)
Context (cfg : hClientConfig).
Context (Hcfg : Forall (fun o => valid_opt h0 o /\ forall s, o = Some s -> safe (arr s))
  [hc_LocalSelector cfg; hc_RemoteSelector cfg; hc_ConnectData cfg]).

Lemma config_stays h :
  unharmed h ->
  client_value h cfg = client_value h0 cfg /\ valid_opt h (hc_LocalSelector cfg) /\
  valid_opt h (hc_RemoteSelector cfg) /\ valid_opt h (hc_ConnectData cfg).
Proof.
  intros Ho. pose proof Hcfg as H. apply Forall_cons in H as [[V1 S1] [[V2 S2] [[V3 S3] _]%Forall_cons]%Forall_cons].
  destruct (safe_stays h _ Ho V1 S1) as [E1 W1], (safe_stays h _ Ho V2 S2) as [E2 W2], (safe_stays h _ Ho V3 S3) as [E3 W3].
  split_and!; try done. unfold client_value. by rewrite E1, E2, E3.
Qed.


(** The CR, and its octets. *)
Lemma request_spec localRef offer h :
  unharmed h ->
  let '(cr, h') := request_in cfg localRef offer h in
  CR_value h' cr = connect_request (client_value h0 cfg) localRef offer /\ only_on none h h' /\
  Forall (valid_opt h') (slices_of (HCR cr)).
Proof.
  intros Ho. destruct (config_stays h Ho) as (Ec & V1 & V2 & V3). unfold request_in.
  destruct (copyBytes_in (hc_LocalSelector cfg) h) as [a h1] eqn:E1. destruct (copyBytes_in (hc_RemoteSelector cfg) h1) as [b h2] eqn:E2.
  destruct (copyBytes_in (hc_ConnectData cfg) h2) as [d h3] eqn:E3.
  destruct (copy3_spec _ _ _ _ _ _ _ _ _ _ V1 V2 V3 E1 E2 E3) as (Ca & Cb & Cd & Hon & Na & Nb & Nd).
  split_and!; [|done|].
  - rewrite <- Ec. unfold CR_value, connect_request, client_value.
    cbn [hCR_CDT hCR_DestinationRef hCR_SourceRef hCR_ClassOption hCR_Parameters hCR_CallingSelector hCR_CalledSelector hCR_TPDUSize
         hCR_PreferredMaxTPDUSize hCR_UserData c_LocalSelector c_RemoteSelector c_ConnectData map].
    by rewrite Ca, Cb, Cd, !copyBytes_id.
  - cbn. repeat constructor; intros s Hs; [by destruct (Na s Hs)|by destruct (Nb s Hs)|by destruct (Nd s Hs)].
Qed.

Lemma does_rewrap {A : Type} (s : sentinel) (m : EM A) (v : outcome bytes) (h : heap) (Q : heap -> A -> bytes -> Prop) :
  does h Q m v h -> does h Q (erewrap s m) (rewrap s v) h.
Proof. unfold does, erewrap. destruct (m h) as [[a|e| |] h1], v as [b|e'| |]; intros [? Hr]; done. Qed.

(** What the connection keeps, in arrays that are new. *)
Definition opened (w : world) (h : heap) (c : Conn) (hc : hConn) : Prop :=
  conn_value h hc = c /\ new_opt h0 h (h_LocalSelector (h_negotiated hc)) /\
  new_opt h0 h (h_RemoteSelector (h_negotiated hc)) /\ new_opt h0 h (h_PeerConnectData (h_negotiated hc)).

Lemma new_since h h' o : unharmed h -> new_opt h h' o -> new_opt h0 h' o.
Proof.
  intros Ho Hn s Hs. destruct (Hn s Hs) as (Hv & Hf & Hc). split_and!; try done.
  destruct (h0 !! arr s) as [b|] eqn:E; [|done]. rewrite (Ho _ _ E) in Hf; [done|]. intros [H _]. unfold foreign in H. congruence.
Qed.

Lemma sim_answer localRef offer packet maxTSDU profile w h :
  unharmed h -> valid h packet ->
  sim opened
    (do! neg := lift (connect_confirm (client_value h0 cfg) localRef offer (load h packet)) in newOpenConn neg maxTSDU profile localRef)
    (let! answer := on_memory (fun h => hconnect_confirm (client_value h cfg) (hc_LocalSelector cfg) (hc_RemoteSelector cfg)
                                          localRef offer packet h) in
     match answer with
     | Confirmed neg => hnewOpenConn neg maxTSDU profile localRef
     | Refused reason info => hrefused reason info
     end) w h.
Proof.
  intros Ho Hv. destruct (config_stays h Ho) as (Ec & V1 & V2 & _).
  pose proof (connect_confirm_in_step (client_value h cfg) (hc_LocalSelector cfg) (hc_RemoteSelector cfg) localRef offer packet h
    Hv V1 V2 eq_refl eq_refl) as Hs.
  pose proof (hconnect_confirm_only (client_value h cfg) (hc_LocalSelector cfg) (hc_RemoteSelector cfg) localRef offer packet h) as Hon.
  rewrite <- Ec. unfold MemoryWorld.sim, mbind_, lift, hbind, on_memory.
  destruct (hconnect_confirm _ _ _ _ _ _ _) as [r h']. destruct Hs as [<- Hn]. cbn [snd] in Hon.
  assert (unharmed h') as Ho' by (by eapply none_unharmed).
  destruct r as [[neg|reason info]|e| |]; cbn [answer_value answer_new] in *; try by split_and!.
  destruct Hn as (N1 & N2 & N3). split_and!; [done|done|]. unfold opened. cbn [h_negotiated].
  split_and!; [done|(eapply new_since; [exact Ho|done])..].
Qed.

(** ** The whole call *)

Lemma sim_Connect nil_conn w h :
  unharmed h -> sim opened (Connect nil_conn (client_value h0 cfg)) (hConnect nil_conn cfg) w h.
Proof.
  intros Ho. unfold Connect, hConnect. destruct nil_conn; [by apply sim_fail|]. apply sim_unless.
  eapply sim_bind; [apply sim_at_heap; [done|by destruct (config_stays h Ho) as (-> & _)]|]. intros max m w1 h1 (<- & _ & _) Ho1.
  shared_step u2 w2 h2 Ho2. shared_step u3 w3 h3 Ho3. shared_step u4 w4 h4 Ho4.
  shared_step ref w5 h5 Ho5. apply sim_unless. shared_step bid w6 h6 Ho6.
  apply sim_heap. pose proof (request_spec ref bid h6 Ho6) as Hreq. destruct (request_in cfg ref bid h6) as [cr h7].
  destruct Hreq as (<- & On7 & V7). cbn [fst snd]. assert (unharmed h7) as Ho7 by (by eapply none_unharmed).
  eapply sim_bind; [apply sim_marshal; [by intros ? []|done|by apply does_rewrap, does_CR]|].
  intros octets o w8 h8 (-> & _ & Hoct) Ho8.
  eapply sim_bind; [by apply sim_world|]. intros [] u9 w9 h9 (<- & -> & _) Ho9. apply sim_defer; [|by intros].
  eapply sim_bind; [by apply sim_io, sim_write|]. intros u10 u11 w10 h10 _ Ho10.
  eapply sim_bind; [by apply sim_io, sim_read|]. intros payload packet w11 h11 (Hv & <- & _ & _ & _) Ho11.
  by apply sim_answer.
Qed.
End Call.
End Connect.

(** ** Properties *)

(** Octets in new arrays of go-cotp do not change with what others write. *)
Lemma opened_stays (h0 h h2 : heap) w c hc :
  opened h0 w h c hc -> only_on foreign h h2 -> conn_value h2 hc = c.
Proof.
  intros (<- & N1 & N2 & N3) Hw.
  assert (forall o, new_opt h0 h o -> hcontent h2 o = hcontent h o) as Hk.
  { intros o Hn. apply (hcontent_only foreign h h2 o Hw); [intros s Hs; by destruct (Hn s Hs)|].
    intros s Hs Hf. destruct (Hn s Hs) as (_ & _ & Hc). unfold foreign in Hf. congruence. }
  unfold conn_value, negotiated_value. by rewrite (Hk _ N1), (Hk _ N2), (Hk _ N3).
Qed.

Lemma opened_kept (h0 h : heap) w c hc :
  opened h0 w h c hc ->
  Forall (new_opt h0 h) [h_LocalSelector (h_negotiated hc); h_RemoteSelector (h_negotiated hc); h_PeerConnectData (h_negotiated hc)] /\
  forall h2, only_on foreign h h2 -> conn_value h2 hc = c.
Proof.
  intros Hr. split; [destruct Hr as (_ & N1 & N2 & N3); by rewrite !Forall_cons, Forall_nil|]. intros h2 Hw. by eapply opened_stays.
Qed.

Lemma unharmed_safe {kept} h h' :
  MemoryWorld.unharmed (others kept) h h' ->
  forall s, valid h s -> safe (kept := kept) (arr s) -> valid h' s /\ load h' s = load h s.
Proof.
  intros Ho s Hv Hsafe. destruct (load_only _ _ _ _ Ho Hv); [|done]. intros [Hf Hk]. destruct Hsafe; [|done].
  unfold foreign in Hf. congruence.
Qed.

(** C23: [Connect] on memory.  With the octets of the configuration in arrays that
    stay as they are during the call, and go-tpkt and the rest of the program free
    to use all other memory but go-cotp's, [Connect] ends as on values: the same
    world, the same error, or a connection that stands for the same one.  The
    parameters of the connection are in new arrays of go-cotp, so that they stand
    for the same octets for as long as go-cotp does not write there, whatever the
    caller does to its configuration or go-tpkt to its buffer; the configuration,
    and all that go-cotp had in memory, is as before. *)
Theorem Connect_on_memory {kept} {RM : ReaderMemory kept} {WM : WriterMemory kept} {GR : Growth} nil_conn cfg w h :
  Forall (fun o => valid_opt h o /\ forall s, o = Some s -> safe (kept := kept) (arr s))
    [hc_LocalSelector cfg; hc_RemoteSelector cfg; hc_ConnectData cfg] ->
  let '(r, w') := Connect nil_conn (client_value h cfg) w in
  exists r' h', hConnect nil_conn cfg (w, h) = (r', (w', h')) /\
    match r, r' with
    | Ok c, Ok hc =>
        Forall (new_opt h h') [h_LocalSelector (h_negotiated hc); h_RemoteSelector (h_negotiated hc); h_PeerConnectData (h_negotiated hc)] /\
        forall h2, only_on foreign h' h2 -> conn_value h2 hc = c
    | Err e, Err e' => e = e'
    | Panic, Panic | NoFuel, NoFuel => True
    | _, _ => False
    end /\
    forall s, valid h s -> safe (kept := kept) (arr s) -> valid h' s /\ load h' s = load h s.
Proof.
  intros Hcfg. assert (MemoryWorld.unharmed (others kept) h h) as H0 by (unfold MemoryWorld.unharmed; reflexivity).
  pose proof (sim_Connect h cfg Hcfg nil_conn w h H0) as Hs. unfold MemoryWorld.sim in Hs.
  destruct (Connect nil_conn (client_value h cfg) w) as [r w'], (hConnect nil_conn cfg (w, h)) as [r' [w'' h']].
  destruct Hs as (-> & Ho & Hr). exists r', h'. split_and!; [done| |by apply unharmed_safe].
  destruct r as [c|e| |], r' as [hc|e'| |]; try done. by apply opened_kept with w'.
Qed.

(** The selectors and connect data of the configuration are in one array of the
    caller; the server answers with a CC. *)
Definition caller_memory : heap := {[ (other, 2%nat) := [1; 2; 3; 4] ]}.

Definition sample_hclient : hClientConfig :=
  mkHClientConfig (Some (mkSlice (other, 2%nat) 0 1)) (Some (mkSlice (other, 2%nat) 1 2)) 128 0
    (Some (mkSlice (other, 2%nat) 2 2)) (c_SizeProfile sample_client).

Definition answering_world : world :=
  ready_world [packet [12; 208; 0; 1; 0; 9; 0; 194; 1; 65; 192; 1; 7; 8]] newReferenceAllocator.

(** The connection does not see the buffer and the configuration overwritten. *)
Example sample_hclient_connects :
  match hConnect false sample_hclient (answering_world, caller_memory) with
  | (Ok hc, (w, h)) =>
      sent w = [[19; 224; 0; 0; 0; 1; 0; 193; 1; 1; 194; 2; 2; 3; 192; 1; 7; 240; 1; 1; 3; 4]] /\
      conn_value (<[(other, 2%nat) := []]> (<[(other, O) := []]> h)) hc =
        mkConn (mkNegotiated 0 128 1 9 (Some [1]) (Some [65]) (Some [8])) (effective_max_tsdu 0) (c_SizeProfile sample_client) 1
  | _ => False
  end.
Proof. vm_compute. split; reflexivity. Qed.

Lemma Connect_on_memory_witness :
  let '(r, w') := Connect false (client_value caller_memory sample_hclient) answering_world in
  exists r' h', hConnect false sample_hclient (answering_world, caller_memory) = (r', (w', h')) /\
    match r, r' with
    | Ok c, Ok hc =>
        Forall (new_opt caller_memory h')
          [h_LocalSelector (h_negotiated hc); h_RemoteSelector (h_negotiated hc); h_PeerConnectData (h_negotiated hc)] /\
        forall h2, only_on foreign h' h2 -> conn_value h2 hc = c
    | Err e, Err e' => e = e'
    | Panic, Panic | NoFuel, NoFuel => True
    | _, _ => False
    end /\
    forall s, valid caller_memory s -> safe (kept := callers) (arr s) -> valid h' s /\ load h' s = load caller_memory s.
Proof.
  apply (Connect_on_memory false sample_hclient answering_world caller_memory).
  repeat (apply Forall_cons; split); [..|by apply Forall_nil];
    (split; intros s [= <-]; [exists [1; 2; 3; 4]; split; [reflexivity|cbn; lia]|right; unfold callers; cbn; lia]).
Defined.
