(* ===== verification/Serve.v ===== *)
(** * Accept on the heap

    [Accept] from its configuration to the connection it returns, on the memory of
    Memory.v: the CR is decoded in go-tpkt's buffer and used there until the CC has
    been written, the callback of the configuration gets copies and may write into
    them, and what the connection keeps is copied. *)

From S2P Require Import Prelude Errors Types Wire PreferredMax Params Decode Encode Codec.
From S2P Require Import RoundTrip CodecSpec SizeNego Validate RefAlloc World Conn Tsdu TsduSpec Memory Alias Append MemoryWorld.
From S2P Require Import Handshake HandshakeSpec Copies Kept Dial.
Open Scope heap_scope.

(** ** A policy on memory *)

Record hDecision := mkHDecision {
  hd_Action : Z;
  hd_MaxTPDULength : Z;
  hd_ConnectData : option slice;
  hd_RejectReason : Z
}.

Definition decision_value (h : heap) (d : hDecision) : AcceptDecision :=
  mkDecision (hd_Action d) (hd_MaxTPDULength d) (hcontent h (hd_ConnectData d)) (hd_RejectReason d).

(** The callback, and what it decides on the octets it is shown. *)
Record hCallback := mkHCallback {
  policy : ConnectIndication -> AcceptDecision + error;
  call : hIndication -> heap -> (hDecision + error) * heap
}.

Definition shown (i : hIndication) : list (option slice) := [hi_CallingSelector i; hi_CalledSelector i; hi_ConnectData i].

(** It decides what its policy says, and it may write into the indication and into
    the memory of others. *)
Definition realises (kept : address -> Prop) (f : hCallback) : Prop :=
  forall i h, Forall (valid_opt h) (shown i) ->
    let '(r, h') := call f i h in
    only_on (fun a => others kept a \/ arrays (shown i) a) h h' /\
    match r, policy f (indication_value h i) with
    | inl d, inl d' => decision_value h' d = d' /\ valid_opt h' (hd_ConnectData d)
    | inr e, inr e' => e = e'
    | _, _ => False
    end.

Record hServerConfig := mkHServerConfig {
  hs_LocalSelector : option slice;
  hs_MaxTPDULength : Z;
  hs_MaxTSDULength : Z;
  hs_OnConnect : option hCallback;
  hs_SizeProfile : Z;
  hs_EchoSelectors : bool
}.

Definition server_value (h : heap) (c : hServerConfig) : ServerConfig :=
  mkServerConfig (hcontent h (hs_LocalSelector c)) (hs_MaxTPDULength c) (hs_MaxTSDULength c)
    (policy <$> hs_OnConnect c) (hs_SizeProfile c) (hs_EchoSelectors c).

(** ** Accept *)

Definition hignore (m : HM unit) : HM unit := let! _ := hattempt m in hret tt.

(** The selectors of the CC, and the CC. *)
Definition selectors_in (cfg : hServerConfig) (cr : hCR) (h : heap) : option slice * option slice * heap :=
  let '(responding, h) := copyBytes_in (hs_LocalSelector cfg) h in
  if hs_EchoSelectors cfg then
    let '(calling, h) := copyBytes_in (hCR_CallingSelector cr) h in
    match responding with
    | None => let '(responding, h) := copyBytes_in (hCR_CalledSelector cr) h in (calling, responding, h)
    | Some _ => (calling, responding, h)
    end
  else (None, responding, h).

Definition confirm_in (cfg : hServerConfig) (cr : hCR) (decision : hDecision) (sel : sizeSelection) (localRef : Z)
    (h : heap) : hCC * heap :=
  let '(calling, responding, h) := selectors_in cfg cr h in
  let '(data, h) := copyBytes_in (hd_ConnectData decision) h in
  (mkHCC 0 (hCR_SourceRef cr) localRef 0 [] calling responding (sel_StandardCode sel) (sel_PreferredUnits sel) data, h).

Section Reply.
Context {kept : address -> Prop} {WM : WriterMemory kept} {GR : Growth}.

Definition hwriteDR (dst src reason : Z) : HM unit :=
  let! b := on_memory (hDR_MarshalBinary (Some (mkHDR dst src reason [] None))) in
  hWritePacket no_conn b.

Definition hwriteER (dst cause : Z) : HM unit :=
  let! b := on_memory (hER_MarshalBinary (Some (mkHER dst cause []))) in
  hWritePacket no_conn b.

Definition hrefuse_with_ER {A} (cr : hCR) (cause : Z) (err : error) : HM A :=
  if hCR_SourceRef cr =? 0 then on_world (fail (Errorf "unassociable Class 0 CR: %w" [Sentinel ErrHandshake])) else
  let! _ := hignore (hwriteER (hCR_SourceRef cr) cause) in
  on_world (fail err).

Definition haccept_request (payload : slice) : HM (hCR * sizeOffer) :=
  let! decoded := at_heap (fun h => rewrap ErrHandshake (hDecode h payload)) in
  match decoded with
  | HCR cr =>
      let preferredClass := Z.shiftr (hCR_ClassOption cr) 4 in
      let optionBits := Z.land (hCR_ClassOption cr) 15 in
      if negb (preferredClass =? Class0) then
        let! _ := hignore (hwriteDR (hCR_SourceRef cr) 0 ReasonNegotiationFailed) in
        on_world (fail (RejectionError ReasonNegotiationFailed None))
      else
      let! protocol_error := at_heap (fun h => Ok (class0CRProtocolError (CR_value h cr) optionBits)) in
      match protocol_error with
      | Some cause => hrefuse_with_ER cr cause (Errorf "invalid Class 0 CR: %w" [Sentinel ErrHandshake])
      | None =>
          match decodeSizeOffer (hCR_TPDUSize cr) (hCR_PreferredMaxTPDUSize cr) with
          | Err e => hrefuse_with_ER cr erCauseInvalidParameterValue e
          | m =>
              let! peerOffer := on_world (lift m) in
              if MaxConnectDataLength <? hlen (hCR_UserData cr)
              then hrefuse_with_ER cr erCauseInvalidParameterValue
                     (Errorf "CR connect data length %d > %d: %w" [Sentinel ErrHandshake])
              else hret (cr, peerOffer)
          end
      end
  | t => at_heap (fun h => Err (UnexpectedTPDUError (tpdu_type (tpdu_value h t)) PhaseHandshake))
  end.

(** Without a callback the decision has no octets. *)
Definition hdefaultAutoAccept (cfg : hServerConfig) (ind : hIndication) (h : heap) : hDecision + error :=
  match defaultAutoAccept (server_value h cfg) (indication_value h ind) with
  | inl d => inl (mkHDecision (Action d) (dec_MaxTPDULength d) None (RejectReason d))
  | inr e => inr e
  end.

Definition haccept_decide (cfg : hServerConfig) (cr : hCR) (peerOffer : sizeOffer) : HM hDecision :=
  let! ind := on_heap (indication_in cr peerOffer) in
  let! r := on_heap (fun h =>
    match hs_OnConnect cfg with
    | None => (hdefaultAutoAccept cfg ind h, h)
    | Some f => call f ind h
    end) in
  match r with
  | inr err => on_world (fail (Errorf "%w: %w" [Sentinel ErrHandshake; err]))
  | inl decision =>
      let with_handshake {A} (m : outcome A) : HM A :=
        on_world (lift (match m with Err e => Err (Errorf "%w: %w" [Sentinel ErrHandshake; e]) | m => m end)) in
      let! _ := with_handshake (validateConnectAction (hd_Action decision)) in
      if hd_Action decision =? ConnectReject then
        let! _ := hignore (hwriteDR (hCR_SourceRef cr) 0 (hd_RejectReason decision)) in
        on_world (fail (RejectionError (hd_RejectReason decision) None))
      else
      let! _ := at_heap (fun h =>
        match validateConnectDataLength (hcontent h (hd_ConnectData decision)) with
        | Err e => Err (Errorf "%w: %w" [Sentinel ErrHandshake; e])
        | m => m
        end) in
      let! _ := (if negb (hd_MaxTPDULength decision =? 0)
                 then with_handshake (normalizeConfiguredMax (hd_MaxTPDULength decision))
                 else hret 0) in
      hret decision
  end.

(** What follows the read of the CR. *)
Definition haccept_reply (cfg : hServerConfig) (max : Z * Z) (payload : slice) : HM hConn :=
  let! req := haccept_request payload in
  let '(cr, peerOffer) := req in
  let! decision := haccept_decide cfg cr peerOffer in
  let! sel := on_world (lift (selectSize peerOffer (fst max) (hd_MaxTPDULength decision) (hs_SizeProfile cfg))) in
  let! localRef := on_world allocate in
  hunless_ok (release localRef) (
    let! cc := on_heap (confirm_in cfg cr decision sel localRef) in
    let! ccBytes := on_memory (erewrap ErrHandshake (hCC_MarshalBinary (Some cc))) in
    let! _ := hhandshake_io (hWritePacket no_conn ccBytes) in
    let! neg := on_heap (accepted_in cr (hCC_CalledSelector cc) (Effective sel) localRef) in
    hnewOpenConn neg (snd max) (hs_SizeProfile cfg) localRef).
End Reply.

(** The buffer that holds the CR is in use until the call returns. *)
Definition hAccept {kept} {RM : ReaderMemory kept} {WM : WriterMemory (fun a => kept a \/ lent a)} {GR : Growth}
    (nil_conn : bool) (cfg : hServerConfig) : HM hConn :=
  if nil_conn then on_world (fail (Errorf "%w: nil conn" [Sentinel ErrInvalidConfig])) else
  hunless_ok closeConn (
    let! max := at_heap (fun h => ServerConfig_preflight (server_value h cfg)) in
    let! _ := on_world check_ctx in
    let! _ := on_world NewReader in
    let! _ := on_world NewWriter in
    let! _ := on_world (armHandshake nil_conn) in
    hdefer disarm (
      let! payload := hhandshake_io (hReadPacket no_conn) in
      haccept_reply cfg max payload)).

(** ** The simulation of the reply *)

Section Simulation.
Context {kept : address -> Prop} {WM : WriterMemory kept} {GR : Growth}.
Context (h0 : heap) (packet : slice) (Hv : valid h0 packet) (Hk : kept (arr packet)).
#[local] Abbreviation unharmed := (MemoryWorld.unharmed (others kept) h0).
#[local] Abbreviation sim := (MemoryWorld.sim (others kept) h0).

Lemma packet_stays h : unharmed h -> load h packet = load h0 packet /\ valid h packet.
Proof. intros Ho. apply (load_only _ _ _ _ Ho Hv). by intros [_ Hn]. Qed.

Lemma sim_writeDR dst src reason w h :
  unharmed h -> sim same (ignore (writeDR dst src reason)) (hignore (hwriteDR dst src reason)) w h.
Proof.
  intros Ho. unfold ignore, hignore. eapply sim_bind; [|intros ? ? ? ? _ ?; by apply sim_ret].
  apply sim_attempt. unfold writeDR, hwriteDR. eapply sim_bind.
  - apply sim_marshal; [by intros ? []|done|]. apply (does_DR h (mkHDR dst src reason [] None)). by repeat constructor.
  - intros p o w1 h1 (_ & _ & Hp) Ho1. by apply sim_write.
Qed.

Lemma sim_writeER dst cause w h :
  unharmed h -> sim same (ignore (writeER dst cause)) (hignore (hwriteER dst cause)) w h.
Proof.
  intros Ho. unfold ignore, hignore. eapply sim_bind; [|intros ? ? ? ? _ ?; by apply sim_ret].
  apply sim_attempt. unfold writeER, hwriteER. eapply sim_bind.
  - apply sim_marshal; [by intros ? []|done|]. apply (does_ER h (mkHER dst cause [])). by repeat constructor.
  - intros p o w1 h1 (_ & _ & Hp) Ho1. by apply sim_write.
Qed.

Lemma sim_refuse {A B : Type} (R : world -> heap -> A -> B -> Prop) cr cause err w h :
  unharmed h -> sim R (refuse_with_ER (CR_value h0 cr) cause err) (hrefuse_with_ER cr cause err) w h.
Proof.
  intros Ho. unfold refuse_with_ER, hrefuse_with_ER. cbn [CR_value CR_SourceRef].
  destruct (hCR_SourceRef cr =? 0); [by apply sim_fail|].
  eapply sim_bind; [by apply sim_writeER|]. intros ? ? ? ? _ ?. by apply sim_fail.
Qed.

(** Looking at memory. *)
Lemma sim_look {A B C : Type} (R : world -> heap -> A -> B -> Prop) (f : heap -> C) m k w h :
  sim R m (k (f h)) w h -> sim R m (hbind (at_heap (fun h => Ok (f h))) k) w h.
Proof. done. Qed.

(** ** The CR *)

Lemma sim_decode w h :
  unharmed h ->
  sim (fun w' h' d t => h' = h /\ d = decoded (tpdu_value h0 t) /\ tpdu_value h t = tpdu_value h0 t /\ all_inside packet (slices_of t))
    (lift (rewrap ErrHandshake (Decode (load h0 packet)))) (at_heap (fun h => rewrap ErrHandshake (hDecode h packet))) w h.
Proof.
  intros Ho. destruct (packet_stays h Ho) as [Hl Hvh]. pose proof (Decode_in_step h packet Hvh) as Hs. rewrite Hl in Hs.
  unfold MemoryWorld.sim, lift, at_heap. destruct (Decode (load h0 packet)) as [d|e| |], (hDecode h packet) as [t|e'| |]; try done; try by split_and!.
  destruct Hs as [-> Hin]. pose proof (tpdu_value_stays h0 h packet Hl t Hin) as Heq. rewrite Heq. by split_and!.
Qed.

Definition request_rel (w : world) (h : heap) (r : CR * sizeOffer) (r' : hCR * sizeOffer) : Prop :=
  r.2 = r'.2 /\ r.1 = CR_value h0 r'.1 /\ all_inside packet (slices_of (HCR r'.1)).

Lemma sim_request w h : unharmed h -> sim request_rel (accept_request (load h0 packet)) (haccept_request packet) w h.
Proof.
  intros Ho. unfold accept_request, haccept_request.
  eapply sim_bind; [by apply sim_decode|]. intros d t w1 h1 (-> & -> & Heq & Hin) Ho1.
  destruct t as [cr|x|x|x|x|x|x|x|x|x]; try (rewrite <- Heq; by split_and!).
  cbn [decoded tpdu_value D_Type D_CR]. change (TypeCR =? TypeCR) with true. cbv iota zeta.
  assert (CR_value h cr = CR_value h0 cr) as Hcr by (cbn [tpdu_value] in Heq; congruence).
  assert (slen (CR_UserData (CR_value h0 cr)) = hlen (hCR_UserData cr)) as Hud.
  { apply (hlen_slen h0), (inside_valid_opt h0 packet); [done|]. by apply Forall_cons in Hin as [_ [_ [? _]%Forall_cons]%Forall_cons]. }
  rewrite Hud. clear Hud Heq. change (CR_ClassOption (CR_value h0 cr)) with (hCR_ClassOption cr).
  destruct (negb (Z.shiftr (hCR_ClassOption cr) 4 =? Class0)).
  { eapply sim_bind; [by apply sim_writeDR|]. intros ? ? ? ? _ ?. by apply sim_fail. }
  apply sim_look. rewrite Hcr. destruct (class0CRProtocolError _ _) as [cause|]; [by apply sim_refuse|].
  change (CR_TPDUSize (CR_value h0 cr)) with (hCR_TPDUSize cr).
  change (CR_PreferredMaxTPDUSize (CR_value h0 cr)) with (hCR_PreferredMaxTPDUSize cr).
  assert (forall m, sim request_rel
    (do! peerOffer := lift m in
     if MaxConnectDataLength <? hlen (hCR_UserData cr)
     then refuse_with_ER (CR_value h0 cr) erCauseInvalidParameterValue
            (Errorf "CR connect data length %d > %d: %w" [Sentinel ErrHandshake])
     else ret (CR_value h0 cr, peerOffer))
    (let! peerOffer := on_world (lift m) in
     if MaxConnectDataLength <? hlen (hCR_UserData cr)
     then hrefuse_with_ER cr erCauseInvalidParameterValue
            (Errorf "CR connect data length %d > %d: %w" [Sentinel ErrHandshake])
     else hret (cr, peerOffer)) w1 h) as Hm.
  { intros m. eapply sim_bind; [by apply sim_same|]. intros offer offer' w2 h2 Hs Ho2. unfold same in Hs. subst offer'.
    destruct (MaxConnectDataLength <? hlen (hCR_UserData cr)); [by apply sim_refuse|]. by apply sim_ret. }
  destruct (decodeSizeOffer (hCR_TPDUSize cr) (hCR_PreferredMaxTPDUSize cr)); [apply Hm|by apply sim_refuse|apply Hm|apply Hm].
Qed.

(** ** The decision *)

Context (cfg : hServerConfig).
Context (Hsel : valid_opt h0 (hs_LocalSelector cfg)) (Hsafe : forall s, hs_LocalSelector cfg = Some s -> safe (kept := kept) (arr s)).
Context (Hcall : forall f, hs_OnConnect cfg = Some f -> realises kept f).

Lemma server_stays h : unharmed h -> server_value h cfg = server_value h0 cfg /\ valid_opt h (hs_LocalSelector cfg).
Proof. intros Ho. destruct (safe_stays h0 h _ Ho Hsel Hsafe) as [E ?]. split; [|done]. unfold server_value. by rewrite E. Qed.

(** What the callback changes is not of [h0], or of others. *)
Lemma called_unharmed i h1 h2 h :
  unharmed h -> only_on none h h1 -> Forall (new_opt h h1) (shown i) ->
  only_on (fun a => others kept a \/ arrays (shown i) a) h1 h2 -> unharmed h2.
Proof.
  intros Ho Hn Hi Hc a b Ha HA. pose proof (Ho _ _ Ha HA) as Hh. apply Hc; [apply Hn; [done|by intros []]|].
  intros [?|(s & Hs & Ea)]; [done|]. rewrite Forall_forall in Hi. destruct (Hi _ Hs s eq_refl) as (_ & Hf & _). congruence.
Qed.

Definition decision_rel (w : world) (h : heap) (d : AcceptDecision) (hd : hDecision) : Prop :=
  d = decision_value h hd /\ valid_opt h (hd_ConnectData hd).

Lemma indication_spec cr offer h :
  unharmed h -> all_inside packet (slices_of (HCR cr)) ->
  let '(i, h') := indication_in cr offer h in
  indication_value h' i =
    mkIndication (copyBytes (CR_CallingSelector (CR_value h0 cr))) (copyBytes (CR_CalledSelector (CR_value h0 cr)))
      (Z.shiftr (CR_ClassOption (CR_value h0 cr)) 4) (indicationMaxTPDULength offer)
      (copyBytes (CR_UserData (CR_value h0 cr))) (CR_SourceRef (CR_value h0 cr)) /\
  only_on none h h' /\ Forall (new_opt h h') (shown i).
Proof.
  intros Ho Hin. destruct (packet_stays h Ho) as [Hl Hvh]. pose proof (tpdu_value_stays h0 h packet Hl (HCR cr) Hin) as Heq.
  assert (CR_value h cr = CR_value h0 cr) as <- by (cbn [tpdu_value] in Heq; congruence).
  apply Forall_cons in Hin as [I1 [I2 [I3 _]%Forall_cons]%Forall_cons].
  pose proof (inside_valid_opt h packet _ Hvh I1) as V1. pose proof (inside_valid_opt h packet _ Hvh I2) as V2.
  pose proof (inside_valid_opt h packet _ Hvh I3) as V3. unfold indication_in.
  destruct (copyBytes_in (hCR_CallingSelector cr) h) as [a h1] eqn:E1. destruct (copyBytes_in (hCR_CalledSelector cr) h1) as [b h2] eqn:E2.
  destruct (copyBytes_in (hCR_UserData cr) h2) as [d h3] eqn:E3.
  destruct (copy3_spec _ _ _ _ _ _ _ _ _ _ V1 V2 V3 E1 E2 E3) as (Ca & Cb & Cd & Hon & Na & Nb & Nd).
  split_and!; [|done|unfold shown; fields; by rewrite !Forall_cons, Forall_nil].
  unfold indication_value, CR_value. fields. by rewrite Ca, Cb, Cd, !copyBytes_id.
Qed.

(** The callback, or the default, decides on the octets of the CR. *)
Lemma sim_decision cr offer w h :
  unharmed h -> all_inside packet (slices_of (HCR cr)) ->
  let ind :=
    mkIndication (copyBytes (CR_CallingSelector (CR_value h0 cr))) (copyBytes (CR_CalledSelector (CR_value h0 cr)))
      (Z.shiftr (CR_ClassOption (CR_value h0 cr)) 4) (indicationMaxTPDULength offer)
      (copyBytes (CR_UserData (CR_value h0 cr))) (CR_SourceRef (CR_value h0 cr)) in
  let '(i, h1) := indication_in cr offer h in
  let '(r, h2) := match hs_OnConnect cfg with None => (hdefaultAutoAccept cfg i h1, h1) | Some f => call f i h1 end in
  unharmed h2 /\
  match r, match OnConnect (server_value h0 cfg) with None => defaultAutoAccept (server_value h0 cfg) ind | Some f => f ind end with
  | inl d, inl d' => decision_rel w h2 d' d
  | inr e, inr e' => e = e'
  | _, _ => False
  end.
Proof.
  intros Ho Hin. cbv zeta. pose proof (indication_spec cr offer h Ho Hin) as Hs.
  destruct (indication_in cr offer h) as [i h1]. destruct Hs as (<- & Hon & Hnew). assert (unharmed h1) as Ho1 by (by eapply none_unharmed).
  change (OnConnect (server_value h0 cfg)) with (policy <$> hs_OnConnect cfg). destruct (hs_OnConnect cfg) as [f|] eqn:Hf; cbn [fmap option_fmap option_map].
  - assert (Forall (valid_opt h1) (shown i)) as Hvi.
    { eapply Forall_impl; [exact Hnew|]. intros o Hn s Hs. by destruct (Hn s Hs). }
    pose proof (Hcall f eq_refl i h1 Hvi) as Hr. destruct (call f i h1) as [r h2]. destruct Hr as [Hc Hr].
    split; [exact (called_unharmed i h1 h2 h Ho Hon Hnew Hc)|].
    destruct r as [d|e], (policy f (indication_value h1 i)) as [d'|e']; try done. by destruct Hr as [<- ?].
  - split; [done|]. unfold hdefaultAutoAccept. destruct (server_stays h1 Ho1) as [-> _].
    unfold defaultAutoAccept. destruct (negb _); [by split|]. by destruct (validateServerCalledSelector _ _).
Qed.

Lemma sim_decide cr offer w h :
  unharmed h -> all_inside packet (slices_of (HCR cr)) ->
  sim decision_rel (accept_decide (server_value h0 cfg) (CR_value h0 cr) offer) (haccept_decide cfg cr offer) w h.
Proof.
  intros Ho Hin. pose proof (sim_decision cr offer w h Ho Hin) as Hd. cbv zeta in Hd.
  unfold accept_decide, haccept_decide. apply sim_heap. destruct (indication_in cr offer h) as [i h1]. cbn [fst snd].
  apply sim_heap. destruct (match hs_OnConnect cfg with None => _ | Some f => _ end) as [r h2]. cbn [fst snd].
  destruct Hd as [Ho2 Hd].
  destruct (match OnConnect (server_value h0 cfg) with None => _ | Some f => _ end) as [d|e], r as [hd|e']; try done;
    [|cbn in Hd; subst e'; by apply sim_fail].
  destruct Hd as [-> Hvd]. cbn [decision_value Action RejectReason dec_MaxTPDULength dec_ConnectData].
  eapply sim_bind; [by apply sim_world|]. intros [] u w3 h3 (<- & -> & _) _.
  destruct (hd_Action hd =? ConnectReject).
  { eapply sim_bind; [by apply sim_writeDR|]. intros ? ? ? ? _ ?. by apply sim_fail. }
  eapply sim_bind; [apply sim_at_heap; [done|by destruct (validateConnectDataLength _)]|]. intros [] u w4 h4 (_ & -> & _) _.
  eapply (sim_bind (fun w' h' (a b : Z) => h' = h2)).
  { destruct (negb (hd_MaxTPDULength hd =? 0)); [|by apply sim_ret].
    eapply sim_impl; [|by apply sim_world]. by intros ? ? ? ? (_ & ? & _). }
  intros ? ? w5 h5 -> _. by apply sim_ret.
Qed.

(** ** The CC and the connection *)

Lemma selectors_spec cr h :
  unharmed h -> all_inside packet (slices_of (HCR cr)) ->
  let '(calling, responding, h') := selectors_in cfg cr h in
  (hcontent h' calling, hcontent h' responding) = accept_selectors (server_value h0 cfg) (CR_value h0 cr) /\
  only_on none h h' /\ new_opt h h' calling /\ new_opt h h' responding.
Proof.
  intros Ho Hin. destruct (packet_stays h Ho) as [Hl Hvh]. pose proof (tpdu_value_stays h0 h packet Hl (HCR cr) Hin) as Heq.
  assert (CR_value h cr = CR_value h0 cr) as <- by (cbn [tpdu_value] in Heq; congruence). destruct (server_stays h Ho) as [<- V0].
  apply Forall_cons in Hin as [I1 [I2 _]%Forall_cons].
  pose proof (inside_valid_opt h packet _ Hvh I1) as V1. pose proof (inside_valid_opt h packet _ Hvh I2) as V2.
  unfold selectors_in, accept_selectors, server_value, CR_value. cbn [s_LocalSelector EchoSelectors CR_CallingSelector CR_CalledSelector].
  rewrite !copyBytes_id. destruct (copyBytes_in (hs_LocalSelector cfg) h) as [r h1] eqn:E1.
  destruct (copyBytes_new _ _ _ _ V0 E1) as (C1 & O1 & N1). destruct (hs_EchoSelectors cfg); [|by rewrite C1].
  destruct (copied_after _ _ _ _ _ V0 E1 V1) as [W1 K1], (copied_after _ _ _ _ _ V0 E1 V2) as [W2 K2].
  destruct (copyBytes_in (hCR_CallingSelector cr) h1) as [a h2] eqn:E2.
  destruct (copyBytes_new _ _ _ _ W1 E2) as (C2 & O2 & N2).
  destruct (copied_after _ _ _ _ _ W1 E2 W2) as [W3 K3].
  assert (only_on none h h2) as O12 by (by etrans).
  destruct r as [r|].
  - assert (valid_opt h1 (Some r)) as Vr by (intros s Hs; by destruct (N1 s Hs)).
    destruct (copied_after _ _ _ _ _ W1 E2 Vr) as [_ K4].
    split_and!; [|done|exact (new_weaken h h1 h2 a O1 N2)|exact (new_only h h1 h2 (Some r) O2 N1)].
    rewrite C2, K1, K4, C1. destruct (hcontent h (hs_LocalSelector cfg)) eqn:El; [done|discriminate C1].
  - destruct (copyBytes_in (hCR_CalledSelector cr) h2) as [b h3] eqn:E3.
    destruct (copyBytes_new _ _ _ _ W3 E3) as (C3 & O3 & N3).
    assert (valid_opt h2 a) as Va by (intros s Hs; by destruct (N2 s Hs)).
    destruct (copied_after _ _ _ _ _ W3 E3 Va) as [_ K4].
    split_and!; [|by etrans| |exact (new_weaken h h2 h3 b O12 N3)].
    + cbn in C1. rewrite <- C1. by rewrite K4, C2, K1, C3, K3, K2.
    + exact (new_weaken h h1 h3 a O1 (new_only h1 h2 h3 a O3 N2)).
Qed.

Lemma confirm_in_spec cr hd sel ref h :
  unharmed h -> all_inside packet (slices_of (HCR cr)) -> valid_opt h (hd_ConnectData hd) ->
  let '(cc, h') := confirm_in cfg cr hd sel ref h in
  CC_value h' cc = accept_confirm (server_value h0 cfg) (CR_value h0 cr) (decision_value h hd) sel ref /\
  hcontent h' (hCC_CalledSelector cc) = snd (accept_selectors (server_value h0 cfg) (CR_value h0 cr)) /\
  only_on none h h' /\ Forall (valid_opt h') (slices_of (HCC cc)) /\ new_opt h h' (hCC_CalledSelector cc).
Proof.
  intros Ho Hin Vd. pose proof (selectors_spec cr h Ho Hin) as Hs. unfold confirm_in.
  destruct (selectors_in cfg cr h) as [[calling responding] h1]. destruct Hs as (Hs & O1 & N1 & N2).
  destruct (hcontent_only none h h1 _ O1 Vd) as [Kd Wd]; [by intros ? ? []|].
  destruct (copyBytes_in (hd_ConnectData hd) h1) as [d h2] eqn:E. destruct (copyBytes_new _ _ _ _ Wd E) as (Cd & O2 & Nd).
  assert (valid_opt h1 calling) as Vc by (intros s Hc; by destruct (N1 s Hc)).
  assert (valid_opt h1 responding) as Vr by (intros s Hr; by destruct (N2 s Hr)).
  destruct (copied_after _ _ _ _ _ Wd E Vc) as [Wc Kc], (copied_after _ _ _ _ _ Wd E Vr) as [Wr Kr].
  cbn [hCC_CalledSelector]. split_and!.
  - unfold accept_confirm. rewrite <- Hs. unfold CC_value, decision_value.
    cbn [hCC_CDT hCC_DestinationRef hCC_SourceRef hCC_ClassOption hCC_Parameters hCC_CallingSelector hCC_CalledSelector hCC_TPDUSize
         hCC_PreferredMaxTPDUSize hCC_UserData dec_ConnectData map CR_SourceRef].
    by rewrite Kc, Kr, Cd, Kd, copyBytes_id.
  - rewrite Kr, <- Hs. done.
  - by etrans.
  - cbn [slices_of hCC_CallingSelector hCC_CalledSelector hCC_UserData hCC_Parameters map app].
    rewrite !Forall_cons, Forall_nil. split_and!; try done. intros s Hd. by destruct (Nd s Hd).
  - exact (new_only h h1 h2 responding O2 N2).
Qed.

(** What the connection keeps. *)
Lemma sim_kept cr responding effective maxTSDU profile ref w h :
  unharmed h -> all_inside packet (slices_of (HCR cr)) -> valid_opt h responding ->
  hcontent h responding = snd (accept_selectors (server_value h0 cfg) (CR_value h0 cr)) ->
  sim (opened h0)
    (newOpenConn
       {| Class := Class0; MaxTPDULength := effective; LocalRef := ref; RemoteRef := CR_SourceRef (CR_value h0 cr);
          LocalSelector := copyBytes (snd (accept_selectors (server_value h0 cfg) (CR_value h0 cr)));
          RemoteSelector := copyBytes (CR_CallingSelector (CR_value h0 cr));
          PeerConnectData := copyBytes (CR_UserData (CR_value h0 cr)) |} maxTSDU profile ref)
    (let! neg := on_heap (accepted_in cr responding effective ref) in hnewOpenConn neg maxTSDU profile ref) w h.
Proof.
  intros Ho Hin Vr Hr. destruct (packet_stays h Ho) as [Hl Hvh]. pose proof (tpdu_value_stays h0 h packet Hl (HCR cr) Hin) as Heq.
  rewrite <- Hr. assert (CR_value h cr = CR_value h0 cr) as <- by (cbn [tpdu_value] in Heq; congruence).
  apply Forall_cons in Hin as [I1 [_ [I3 _]%Forall_cons]%Forall_cons].
  pose proof (inside_valid_opt h packet _ Hvh I1) as V1. pose proof (inside_valid_opt h packet _ Hvh I3) as V3.
  apply sim_heap. unfold accepted_in.
  destruct (copyBytes_in responding h) as [a h1] eqn:E1. destruct (copyBytes_in (hCR_CallingSelector cr) h1) as [b h2] eqn:E2.
  destruct (copyBytes_in (hCR_UserData cr) h2) as [d h3] eqn:E3.
  destruct (copy3_spec _ _ _ _ _ _ _ _ _ _ Vr V1 V3 E1 E2 E3) as (Ca & Cb & Cd & Hon & Na & Nb & Nd).
  cbn [fst snd]. unfold MemoryWorld.sim, newOpenConn, hnewOpenConn. split_and!; [done|by eapply none_unharmed|].
  unfold opened. cbn [h_negotiated]. fields. split_and!; [|(eapply new_since; [exact Ho|done])..].
  unfold conn_value, negotiated_value, CR_value. cbn [h_negotiated h_maxTSDU h_profile h_localRef]. fields.
  by rewrite Ca, Cb, Cd, !copyBytes_id.
Qed.

Lemma new_stays h h1 h2 o : new_opt h h1 o -> only_on (others kept) h1 h2 -> hcontent h2 o = hcontent h1 o /\ valid_opt h2 o.
Proof.
  intros Hn Ho. apply (hcontent_only (others kept) h1 h2 o Ho); [intros s Hs; by destruct (Hn s Hs)|].
  intros s Hs [Hf _]. destruct (Hn s Hs) as (_ & _ & Hc). unfold foreign in Hf. congruence.
Qed.

Lemma sim_reply max w h :
  unharmed h ->
  sim (opened h0)
    (do! req := accept_request (load h0 packet) in
     let '(cr, peerOffer) := req in
     do! decision := accept_decide (server_value h0 cfg) cr peerOffer in
     do! sel := lift (selectSize peerOffer (fst max) (dec_MaxTPDULength decision) (hs_SizeProfile cfg)) in
     do! localRef := allocate in
     unless_ok (release localRef) (
       do! ccBytes := lift (rewrap ErrHandshake (CC_MarshalBinary (Some (accept_confirm (server_value h0 cfg) cr decision sel localRef)))) in
       do! _ := handshake_io (stream_write no_conn ccBytes) in
       newOpenConn
         {| Class := Class0; MaxTPDULength := Effective sel; LocalRef := localRef; RemoteRef := CR_SourceRef cr;
            LocalSelector := copyBytes (snd (accept_selectors (server_value h0 cfg) cr));
            RemoteSelector := copyBytes (CR_CallingSelector cr); PeerConnectData := copyBytes (CR_UserData cr) |}
         (snd max) (hs_SizeProfile cfg) localRef))
    (haccept_reply cfg max packet) w h.
Proof.
  intros Ho. unfold haccept_reply. eapply sim_bind; [by apply sim_request|].
  intros [cr offer] [hcr offer'] w1 h1 (Heq & Hcr & Hin) Ho1. cbn [fst snd] in *. subst offer' cr.
  eapply sim_bind; [by apply sim_decide|]. intros d hd w2 h2 [-> Hvd] Ho2. cbn [decision_value dec_MaxTPDULength].
  eapply sim_bind; [by apply sim_world|]. intros sel sel' w3 h3 (<- & -> & _) _.
  eapply sim_bind; [by apply sim_world|]. intros ref ref' w4 h4 (<- & -> & _) _. apply sim_unless. apply sim_heap.
  pose proof (confirm_in_spec hcr hd sel ref h2 Ho2 Hin Hvd) as Hc. destruct (confirm_in cfg hcr hd sel ref h2) as [cc h5]. cbn [fst snd].
  destruct Hc as (<- & Hresp & On5 & V5 & N5). assert (unharmed h5) as Ho5 by (by eapply none_unharmed).
  eapply sim_bind; [apply sim_marshal; [by intros ? []|done|by apply does_rewrap, does_CC]|].
  intros octets o w6 h6 (-> & On6 & Hoct) Ho6.
  eapply sim_bind; [apply sim_framed; [done|]; apply sim_io, sim_write; [done|unfold MemoryWorld.unharmed; reflexivity|done]|].
  intros [] u w7 h7 [_ On7] Ho7.
  assert (only_on (others kept) h5 h7) as On57 by (etrans; [by apply (only_on_weaken none)|exact On7]).
  destruct (new_stays h2 h5 h7 _ N5 On57) as [Kr Vr].
  apply sim_kept; try done. by rewrite Kr.
Qed.
End Simulation.

(** ** The whole call *)

Section Whole.
Context {kept : address -> Prop} {RM : ReaderMemory kept} {WM : WriterMemory (fun a => kept a \/ lent a)} {GR : Growth}.

(** The arrays in use during the reply. *)
Definition in_use (a : address) : Prop := kept a \/ lent a.

Lemma in_use_others a : others in_use a -> others kept a.
Proof. intros [Hf Hn]. split; [done|]. intros Hk. apply Hn. by left. Qed.

Lemma sim_Accept (h0 : heap) nil_conn cfg w h :
  valid_opt h0 (hs_LocalSelector cfg) -> (forall s, hs_LocalSelector cfg = Some s -> safe (kept := kept) (arr s)) ->
  (forall f, hs_OnConnect cfg = Some f -> realises in_use f) -> MemoryWorld.unharmed (others kept) h0 h ->
  MemoryWorld.sim (others kept) h0 (opened h0) (Accept nil_conn (server_value h0 cfg)) (hAccept nil_conn cfg) w h.
Proof.
  intros Hsel Hsafe Hcall Ho. assert (forall h', MemoryWorld.unharmed (others kept) h0 h' ->
    server_value h' cfg = server_value h0 cfg /\ valid_opt h' (hs_LocalSelector cfg)) as Hcfg.
  { intros h' Ho'. destruct (safe_stays h0 h' _ Ho' Hsel Hsafe) as [E ?]. split; [|done]. unfold server_value. by rewrite E. }
  unfold Accept, hAccept. destruct nil_conn; [by apply sim_fail|]. apply sim_unless.
  eapply sim_bind; [apply sim_at_heap; [done|by destruct (Hcfg h Ho) as [-> _]]|]. intros max m w1 h1 (<- & _ & _) Ho1.
  shared_step u2 w2 h2 Ho2. shared_step u3 w3 h3 Ho3. shared_step u4 w4 h4 Ho4. shared_step u5 w5 h5 Ho5.
  apply sim_defer; [|by intros].
  eapply sim_bind; [by apply sim_io, sim_read|]. intros payload packet w6 h6 (Hv & <- & Hlent & _ & _) Ho6.
  destruct (Hcfg h6 Ho6) as [Hval Hsel6]. rewrite <- Hval.
  apply (sim_rebase (others kept) (others in_use) h0 h6); [apply in_use_others|done|].
  eapply sim_impl; [|apply (sim_reply (kept := in_use) h6 packet Hv (or_intror Hlent) cfg Hsel6)]; [|..].
  - intros w' h' c hc (Hc & N1 & N2 & N3). split_and!; [done|by apply (new_since (kept := kept) h0 h6)..].
  - intros s Hs. destruct (Hsafe s Hs); [by left|right; by left].
  - exact Hcall.
  - unfold MemoryWorld.unharmed. reflexivity.
Qed.
End Whole.

(** ** Properties *)

(** C24: [Accept] on memory.  The CR lies in go-tpkt's buffer, which stays as it is
    until the call returns; the configuration's selector stays as it is too, and
    the callback may write into the indication it is shown; all other memory but
    go-cotp's may change at every call of the stream and of the callback.  Then
    [Accept] ends as on values: the same world, the same error, or a connection
    that stands for the same one.  The parameters of the connection are in new
    arrays of go-cotp, so that they stand for the same octets for as long as go-cotp
    does not write there, whatever becomes of the buffer, of the indication's
    copies or of the configuration; and all that go-cotp had in memory before is as
    it was. *)
Theorem Accept_on_memory {kept} {RM : ReaderMemory kept} {WM : WriterMemory (fun a => kept a \/ lent a)} {GR : Growth}
    nil_conn cfg w h :
  valid_opt h (hs_LocalSelector cfg) -> (forall s, hs_LocalSelector cfg = Some s -> safe (kept := kept) (arr s)) ->
  (forall f, hs_OnConnect cfg = Some f -> realises (fun a => kept a \/ lent a) f) ->
  let '(r, w') := Accept nil_conn (server_value h cfg) w in
  exists r' h', hAccept nil_conn cfg (w, h) = (r', (w', h')) /\
    match r, r' with
    | Ok c, Ok hc =>
        Forall (new_opt h h') [h_LocalSelector (h_negotiated hc); h_RemoteSelector (h_negotiated hc); h_PeerConnectData (h_negotiated hc)] /\
        forall h2, only_on foreign h' h2 -> conn_value h2 hc = c
    | Err e, Err e' => e = e'
    | Panic, Panic | NoFuel, NoFuel => True
    | _, _ => False
    end /\
    forall s, valid h s -> safe (kept := kept) (arr s) -> valid h' s /\ load h' s = load h s.
Proof.
  intros Hsel Hsafe Hcall. assert (MemoryWorld.unharmed (others kept) h h) as H0 by (unfold MemoryWorld.unharmed; reflexivity).
  pose proof (sim_Accept h nil_conn cfg w h Hsel Hsafe Hcall H0) as Hs. unfold MemoryWorld.sim in Hs.
  destruct (Accept nil_conn (server_value h cfg) w) as [r w'], (hAccept nil_conn cfg (w, h)) as [r' [w'' h']].
  destruct Hs as (-> & Ho & Hr). exists r', h'. split_and!; [done| |by apply unharmed_safe].
  destruct r as [c|e| |], r' as [hc|e'| |]; try done. by apply opened_kept with w'.
Qed.

(** A callback that accepts, gives the client's connect data back, and writes over
    the indication. *)
Definition echo_data : hCallback :=
  mkHCallback (fun ind => inl (mkDecision ConnectAccept 0 (ind_ConnectData ind) 0))
    (fun i h =>
       match hi_ConnectData i with
       | None => (inl (mkHDecision ConnectAccept 0 None 0), h)
       | Some s =>
           let a := new_address other h in
           (inl (mkHDecision ConnectAccept 0 (Some (mkSlice a 0 (size s))) 0), <[arr s := []]> (<[a := load h s]> h))
       end).

Lemma echo_data_realises kept : realises kept echo_data.
Proof.
  intros i h Hv. unfold shown in Hv. rewrite !Forall_cons in Hv. destruct Hv as (_ & _ & Hv & _).
  cbn [call policy echo_data]. destruct (hi_ConnectData i) as [s|] eqn:Hs.
  - pose proof (new_address_fresh other h) as Hf. specialize (Hv s eq_refl). pose proof (length_load h s Hv) as Hl.
    destruct Hv as (m & Hm & _). set (a := new_address other h) in *.
    assert (arr s <> a) as Hne by (intros E; rewrite E, Hf in Hm; done).
    split.
    + intros b x Hb Hn. rewrite !lookup_insert_ne; [done| |]; intros <-; [by rewrite Hf in Hb|].
      apply Hn. right. exists s. split; [|done]. unfold shown. rewrite Hs. by right; right; left.
    + assert (<[arr s := []]> (<[a := load h s]> h) !! a = Some (load h s)) as Ha by (by rewrite lookup_insert_ne, lookup_insert_eq).
      split.
      * unfold decision_value, indication_value. cbn [hd_Action hd_MaxTPDULength hd_ConnectData hd_RejectReason ind_ConnectData].
        rewrite Hs. cbn [hcontent fmap option_fmap option_map]. f_equal. f_equal. unfold load at 1. cbn [size start_ arr].
        rewrite (lookup_total_correct _ _ _ Ha), drop_0, take_ge by lia. done.
      * intros ? [= <-]. exists (load h s). split; [exact Ha|cbn; lia].
  - split; [done|]. unfold decision_value, indication_value. cbn. by rewrite Hs.
Qed.

#[export, refine] Instance one_packet_beside : WriterMemory (fun a => callers a \/ lent a) := {| meantime h := <[(other, 1%nat) := [0; 0]]> h |}.
Proof.
  intros h a b Ha Hn. rewrite lookup_insert_ne; [done|]. intros <-. apply Hn. split; [done|].
  unfold callers. cbn. intros [?|[=]]. lia.
Defined.

Definition sample_hserver : hServerConfig :=
  mkHServerConfig (Some (mkSlice (other, 2%nat) 1 2)) 0 0 (Some echo_data) 1 true.

(** The client's data come back, and the connection does not see the buffer and
    the configuration overwritten. *)
Example sample_hserver_accepts :
  match hAccept false sample_hserver (server_world, caller_memory) with
  | (Ok hc, (w, h)) =>
      sent w = [[16; 208; 0; 1; 0; 9; 0; 193; 1; 1; 194; 2; 2; 3; 240; 1; 39; 7]] /\
      conn_value (<[(other, 2%nat) := []]> (<[(other, O) := []]> h)) hc =
        mkConn (mkNegotiated 0 4992 9 1 (Some [2; 3]) (Some [1]) (Some [7])) 4194304 1 9
  | _ => False
  end.
Proof. vm_compute. split; reflexivity. Qed.

Lemma Accept_on_memory_witness :
  let '(r, w') := Accept false (server_value caller_memory sample_hserver) server_world in
  exists r' h', hAccept false sample_hserver (server_world, caller_memory) = (r', (w', h')) /\
    match r, r' with
    | Ok c, Ok hc =>
        Forall (new_opt caller_memory h')
          [h_LocalSelector (h_negotiated hc); h_RemoteSelector (h_negotiated hc); h_PeerConnectData (h_negotiated hc)] /\
        forall h2, only_on foreign h' h2 -> conn_value h2 hc = c
    | Err e, Err e' => e = e'
    | Panic, Panic | NoFuel, NoFuel => True
    | _, _ => False
    end /\
    forall s, valid caller_memory s -> safe (kept := callers) (arr s) -> valid h' s /\ load h' s = load caller_memory s.
Proof.
  apply (Accept_on_memory false sample_hserver server_world caller_memory).
  - intros s [= <-]. exists [1; 2; 3; 4]. split; [reflexivity|cbn; lia].
  - intros s [= <-]. right. unfold callers. cbn. lia.
  - intros f [= <-]. apply echo_data_realises.
Defined.
