(* ===== verification/Hosts.v ===== *)
(** * Two machines: a session on memory

    Session.v runs the two ends of a connection on values.  Here each end is a
    machine with a memory of its own, in which go-cotp, go-tpkt and the program
    that uses them all work: the program keeps its TSDUs where it likes, and
    whatever either end was given or handed out has to survive what the others do
    there. *)

From S2P Require Import Prelude Errors Types Wire PreferredMax Params Decode Encode Codec.
From S2P Require Import RoundTrip CodecSpec SizeNego Validate RefAlloc World Conn Tsdu TsduSpec.
From S2P Require Import Memory Alias Append MemoryWorld Buffers Outbound Locked Writers Handshake HandshakeSpec HandshakeRun.
From S2P Require Import Session Copies Kept Dial Serve.
Open Scope heap_scope.

(** ** A machine *)

(** What runs beside go-cotp: go-tpkt's reader and writer, how much [append]
    allocates, and the program, which puts the TSDU it is about to write into
    memory of its own and may change any of that, too. *)
Record machine := mkMachine {
  stays : address -> Prop;
  reader_of : ReaderMemory stays;
  writer_of : WriterMemory (fun a => stays a \/ lent (ReaderMemory := reader_of) a);
  growth_of : Growth;
  put : bytes -> heap -> slice * heap;
  put_valid tsdu h : valid (put tsdu h).2 (put tsdu h).1;
  put_load tsdu h : load (put tsdu h).2 (put tsdu h).1 = tsdu;
  put_stays tsdu h : stays (arr (put tsdu h).1);
  put_spares tsdu h : only_on foreign h (put tsdu h).2
}.

Definition host : Type := world * heap.

(** The writer spares what the program has lent, whoever has lent more. *)
Definition plain_writer (m : machine) : WriterMemory (stays m).
Proof.
  refine {| meantime := meantime (WriterMemory := writer_of m) |}.
  intros h. eapply only_on_weaken; [|apply (meantime_spares (WriterMemory := writer_of m))].
  intros a [Hf Hn]. split; [done|]. intros Hs. apply Hn. by left.
Defined.

(** ** The operations of a machine *)

Definition connect_on (m : machine) (cfg : hClientConfig) : HM hConn :=
  hConnect (RM := reader_of m) (WM := plain_writer m) (GR := growth_of m) false cfg.

Definition accept_on (m : machine) (cfg : hServerConfig) : HM hConn :=
  hAccept (RM := reader_of m) (WM := writer_of m) (GR := growth_of m) false cfg.

(** The program puts a TSDU somewhere and writes it. *)
Definition write_on (m : machine) (c : hConn) (tsdu : bytes) : HM unit := fun '(w, h) =>
  let '(s, h) := put m tsdu h in
  hWriteTSDU (WM := writer_of m) (GR := growth_of m) (Some (conn_value h c)) s (w, h).

Definition read_on (m : machine) (c : hConn) : HM (option slice) := fun '(w, h) =>
  hReadTSDU (RM := reader_of m) (Some (conn_value h c)) (w, h).

Fixpoint writes_on (m : machine) (c : hConn) (tsdus : list bytes) (x : host) : list (outcome unit) * host :=
  match tsdus with
  | [] => ([], x)
  | tsdu :: tsdus =>
      let '(r, x) := write_on m c tsdu x in
      let '(rs, x) := writes_on m c tsdus x in
      (r :: rs, x)
  end.

Fixpoint reads_on (m : machine) (c : hConn) (n : nat) (x : host) : list (outcome (option slice)) * host :=
  match n with
  | O => ([], x)
  | S n =>
      let '(r, x) := read_on m c x in
      let '(rs, x) := reads_on m c n x in
      (r :: rs, x)
  end.

(** One end writes; what it has sent arrives, and the other end reads. *)
Definition turn_on (m1 m2 : machine) (c1 c2 : hConn) (tsdus : list bytes) (x1 x2 : host) :
    list (outcome (option slice)) * host * host :=
  let '(_, x1') := writes_on m1 c1 tsdus x1 in
  let '(out, x2') := reads_on m2 c2 (length tsdus) (arrive (drop (length (sent x1.1)) (sent x1'.1)) x2.1, x2.2) in
  (out, x1', x2').

(** Turns of either end: [true] for the first. *)
Fixpoint dialogue_on (m1 m2 : machine) (c1 c2 : hConn) (turns : list (bool * list bytes)) (x1 x2 : host) :
    list (list (outcome (option slice))) * host * host :=
  match turns with
  | [] => ([], x1, x2)
  | (true, tsdus) :: turns =>
      let '(out, x1, x2) := turn_on m1 m2 c1 c2 tsdus x1 x2 in
      let '(outs, x1, x2) := dialogue_on m1 m2 c1 c2 turns x1 x2 in
      (out :: outs, x1, x2)
  | (false, tsdus) :: turns =>
      let '(out, x2, x1) := turn_on m2 m1 c2 c1 tsdus x2 x1 in
      let '(outs, x1, x2) := dialogue_on m1 m2 c1 c2 turns x1 x2 in
      (out :: outs, x1, x2)
  end.

(** ** What a connection has handed out *)

(** A slice of its own, made since [h]. *)
Definition own (h h' : heap) (s : slice) : Prop := valid h' s /\ (arr s).1 = cotp /\ h !! arr s = None.

Definition slices_in (rs : list (outcome (option slice))) : list slice :=
  omap (fun r => match r with Ok o => o | _ => None end) rs.

Definition apart (h h' : heap) (l : list slice) : Prop := NoDup (map arr l) /\ Forall (own h h') l.

(** It stands for the TSDU. *)
Definition gives (h : heap) (tsdu : bytes) (r : outcome (option slice)) : Prop :=
  exists s, r = Ok (Some s) /\ valid h s /\ (arr s).1 = cotp /\ load h s = tsdu.

Lemma cotp_kept h h' s : only_on foreign h h' -> valid h s -> (arr s).1 = cotp -> load h' s = load h s /\ valid h' s.
Proof. intros Ho Hv Hc. apply (load_only _ _ _ _ Ho Hv). unfold foreign. congruence. Qed.

Lemma gives_kept h h' tsdu r : only_on foreign h h' -> gives h tsdu r -> gives h' tsdu r.
Proof.
  intros Ho (s & -> & Hv & Hc & Hl). destruct (cotp_kept _ _ _ Ho Hv Hc) as [E ?]. exists s. by rewrite E.
Qed.

Lemma gives_all_kept h h' tsdus rs : only_on foreign h h' -> Forall2 (gives h) tsdus rs -> Forall2 (gives h') tsdus rs.
Proof. intros Ho Hf. eapply Forall2_impl; [exact Hf|]. intros tsdu r. by apply gives_kept. Qed.

(** New arrays stay new, seen from an earlier memory; and later ones are others. *)
Lemma fresh_before (h h1 : heap) (a : address) : only_on foreign h h1 -> a.1 = cotp -> h1 !! a = None -> h !! a = None.
Proof.
  intros Ho Hc Hn. destruct (h !! a) as [b|] eqn:E; [|done]. rewrite (Ho _ _ E) in Hn; [done|]. unfold foreign. congruence.
Qed.

Lemma own_mono h h1 h' h2 s : only_on foreign h h1 -> only_on foreign h' h2 -> own h1 h' s -> own h h2 s.
Proof.
  intros H1 H2 (Hv & Hc & Hn). split_and!; [by apply (cotp_kept _ _ _ H2)|done|by eapply fresh_before].
Qed.

Lemma apart_nil h h' : apart h h' [].
Proof. split; constructor. Qed.

Lemma apart_mono h h1 h' h2 l : only_on foreign h h1 -> only_on foreign h' h2 -> apart h1 h' l -> apart h h2 l.
Proof. intros H1 H2 [Hd Hf]. split; [done|]. eapply Forall_impl; [exact Hf|]. intros s. by apply own_mono. Qed.

Lemma apart_app h h1 h2 l1 l2 :
  only_on foreign h h1 -> only_on foreign h1 h2 -> apart h h1 l1 -> apart h1 h2 l2 -> apart h h2 (l1 ++ l2).
Proof.
  intros H1 H2 Ha1 Ha2. destruct (apart_mono h h h1 h2 l1) as [D1 F1]; try done.
  destruct (apart_mono h h1 h2 h2 l2) as [D2 F2]; try done. split; [|by apply Forall_app].
  rewrite map_app. apply NoDup_app. split_and!; try done. intros a Hin1 Hin2.
  apply list_elem_of_fmap in Hin1 as (s1 & -> & Hs1). apply list_elem_of_fmap in Hin2 as (s2 & E & Hs2).
  destruct Ha1 as [_ G1], Ha2 as [_ G2]. rewrite Forall_forall in G1, G2.
  destruct (G1 s1 Hs1) as ((b & Hb & _) & _), (G2 s2 Hs2) as (_ & _ & Hn). congruence.
Qed.

(** ** The operations do what they do on values *)

(** The connection stands for [c] in [h], and as long as go-cotp writes nothing there. *)
Definition stands (h : heap) (hc : hConn) (c : Conn) : Prop := forall h2, only_on foreign h h2 -> conn_value h2 hc = c.

Lemma stands_now h hc c : stands h hc c -> conn_value h hc = c.
Proof. intros H. by apply H. Qed.

Lemma stands_later h h' hc c : stands h hc c -> only_on foreign h h' -> stands h' hc c.
Proof. intros H Ho h2 Ho2. apply H. by etrans. Qed.

Lemma others_foreign (kept : address -> Prop) h h' : only_on (others kept) h h' -> only_on foreign h h'.
Proof. apply only_on_weaken. by intros a []. Qed.

Lemma write_on_does m hc c tsdu w h :
  stands h hc c ->
  exists h', write_on m hc tsdu (w, h) = (fst (WriteTSDU (Some c) tsdu w), (snd (WriteTSDU (Some c) tsdu w), h')) /\
    only_on foreign h h'.
Proof.
  intros Hc. unfold write_on. pose proof (put_valid m tsdu h) as Hv. pose proof (put_load m tsdu h) as Hl.
  pose proof (put_stays m tsdu h) as Hs. pose proof (put_spares m tsdu h) as Ho.
  destruct (put m tsdu h) as [s h1]. cbn [fst snd] in *. rewrite (Hc h1 Ho).
  pose proof (sim_WriteTSDU (WM := writer_of m) (GR := growth_of m) h1 s Hv (or_introl Hs) c w h1 (reflexivity h1)) as Hsim.
  unfold sim in Hsim. rewrite Hl in Hsim. destruct (WriteTSDU (Some c) tsdu w) as [r w'].
  destruct (hWriteTSDU (Some c) s (w, h1)) as [r' [w'' h2]]. destruct Hsim as (-> & Ho2 & Hr). exists h2. cbn [fst snd].
  split; [by destruct r as [[]|?| |], r' as [[]|?| |]; simplify_eq|]. etrans; [exact Ho|by eapply others_foreign].
Qed.

Lemma writes_on_does m hc c tsdus : forall w h,
  stands h hc c ->
  exists h', writes_on m hc tsdus (w, h) = (fst (write_all c tsdus w), (snd (write_all c tsdus w), h')) /\ only_on foreign h h'.
Proof.
  induction tsdus as [|tsdu tsdus IH]; intros w h Hc; [by exists h|].
  destruct (write_on_does m hc c tsdu w h Hc) as (h1 & E1 & O1). cbn [writes_on write_all]. rewrite E1.
  destruct (WriteTSDU (Some c) tsdu w) as [r w1]. cbn [fst snd].
  destruct (IH w1 h1 (stands_later _ _ _ _ Hc O1)) as (h2 & E2 & O2). rewrite E2.
  destruct (write_all c tsdus w1) as [rs w2]. exists h2. split; [done|by etrans].
Qed.

Lemma read_on_does m hc c tsdu w w' h :
  stands h hc c -> undisturbed w -> ReadTSDU (Some c) w = (Ok tsdu, w') -> 1 <= len tsdu ->
  exists r h', read_on m hc (w, h) = (r, (w', h')) /\ only_on foreign h h' /\ gives h' tsdu r /\ apart h h' (slices_in [r]).
Proof.
  intros Hc ((Ht & _) & _ & Hst & _) Hrd Hlen. unfold read_on. rewrite (stands_now _ _ _ Hc).
  pose proof (sim_ReadTSDU (RM := reader_of m) h c w h (or_introl Ht) Hst (reflexivity h)) as Hsim. unfold sim in Hsim.
  rewrite Hrd in Hsim. destruct (hReadTSDU _ _) as [r' [w'' h']]. destruct Hsim as (-> & Ho & Hr).
  destruct r' as [o|e| |]; try done. destruct Hr as [Hcont Hmine]. exists (Ok o), h'. split_and!; try done.
  - destruct o as [s|]; [|rewrite <- Hcont in Hlen; unfold len in Hlen; cbn in Hlen; lia]. destruct (Hmine s eq_refl) as (? & ? & _).
    exists s. by split_and!.
  - destruct o as [s|]; [|apply apart_nil]. split; [apply NoDup_singleton|]. apply Forall_singleton. exact (Hmine s eq_refl).
Qed.

Lemma reads_on_does m hc c tsdus pss ans rest : forall w h,
  stands h hc c -> undisturbed w -> 0 <= maxTSDU c -> Forall bytes_ok tsdus ->
  Forall (fun tsdu => 1 <= len tsdu <= effective_max_tsdu (maxTSDU c)) tsdus ->
  Forall2 (dt_packets (MaxTPDULength (negotiated c))) tsdus pss ->
  reads w = ans ++ rest -> delivered ans (concat pss) ->
  exists rs h', reads_on m hc (length tsdus) (w, h) = (rs, (snd (read_all c (length tsdus) w), h')) /\
    only_on foreign h h' /\ Forall2 (gives h') tsdus rs /\ apart h h' (slices_in rs).
Proof.
  intros w h Hc Hq Hm Hok Hlen Hf. revert ans w h Hc Hq Hok Hlen.
  induction Hf as [|tsdu ps tsdus pss Hps _ IH]; intros ans w h Hc Hq Hok Hlen Hr Hd.
  { exists [], h. split_and!; [done|done|constructor|apply apart_nil]. }
  apply Forall_cons in Hok as [Hok1 Hok]. apply Forall_cons in Hlen as [[Hl1 Hlen1] Hlen]. cbn [concat] in Hd.
  apply Forall2_app_inv_r in Hd as (ans1 & ans2 & Hd1 & Hd2 & ->). rewrite <- app_assoc in Hr.
  destruct (ReadTSDU_succeeds c tsdu ps ans1 (ans2 ++ rest) w) as (w1 & Heq & Hq1 & Hr1 & Hs1); try done.
  destruct (read_on_does m hc c tsdu w w1 h Hc Hq Heq Hl1) as (r & h1 & E1 & O1 & G1 & A1).
  destruct (IH ans2 w1 h1 (stands_later _ _ _ _ Hc O1)) as (rs & h2 & E2 & O2 & G2 & A2); try done.
  exists (r :: rs), h2. cbn [length reads_on read_all]. rewrite E1, E2, Heq. destruct (read_all c (length tsdus) w1) as [vs w2].
  cbn [snd]. split_and!; [done|by etrans|constructor; [by eapply gives_kept|done]|].
  change (slices_in (r :: rs)) with (slices_in ([r] ++ rs)). unfold slices_in. rewrite omap_app. by apply (apart_app h h1).
Qed.

(** A turn. *)
Lemma turn_on_does m1 m2 hc1 hc2 c1 c2 tsdus w1 w2 h1 h2 :
  stands h1 hc1 c1 -> stands h2 hc2 c2 ->
  undisturbed w1 -> undisturbed w2 -> reads w2 = [] ->
  4 <= MaxTPDULength (negotiated c1) -> MaxTPDULength (negotiated c1) = MaxTPDULength (negotiated c2) ->
  0 <= maxTSDU c2 -> Forall (sendable c1 c2) tsdus ->
  exists rs h1' h2', turn_on m1 m2 hc1 hc2 tsdus (w1, h1) (w2, h2) =
      (rs, (snd (fst (turn c1 c2 tsdus w1 w2)), h1'), (snd (turn c1 c2 tsdus w1 w2), h2')) /\
    only_on foreign h1 h1' /\ only_on foreign h2 h2' /\ Forall2 (gives h2') tsdus rs /\ apart h2 h2' (slices_in rs).
Proof.
  intros S1 S2 Hu1 Hu2 Hr Hm Heq Hmax Hall.
  destruct (turn_written c1 c2 tsdus w1 w2 Hu1 Hu2 Hr Hm Heq Hall)
    as (pss & w1' & Hw & Hu1' & Hr1 & Hs & Hf & Hua & Hra & Hok & Hlen).
  destruct (writes_on_does m1 hc1 c1 tsdus w1 h1 S1) as (h1' & E1 & O1). rewrite Hw in E1. cbn [fst snd] in E1.
  destruct (reads_on_does m2 hc2 c2 tsdus pss (map packet (concat pss)) [] (arrive (concat pss) w2) h2)
    as (rs & h2' & E2 & O2 & G & A); try done; [apply packets_delivered|].
  exists rs, h1', h2'. unfold turn_on, turn. rewrite E1, Hw. cbn [fst snd]. rewrite Hs, E2.
  destruct (read_all _ _ _) as [vs w2']. by split_and!.
Qed.

(** ** A dialogue *)

(** The TSDUs handed out at one end, in the order in which they were read there. *)
Fixpoint handed_out (second : bool) (turns : list (bool * list bytes)) (outs : list (list (outcome (option slice)))) : list slice :=
  match turns, outs with
  | (d, _) :: turns, out :: outs => (if Bool.eqb d second then slices_in out else []) ++ handed_out second turns outs
  | _, _ => []
  end.

(** What is said in a turn is what is heard, in the memory of the other end. *)
Definition heard (h1 h2 : heap) (t : bool * list bytes) (out : list (outcome (option slice))) : Prop :=
  Forall2 (gives (if t.1 then h2 else h1)) t.2 out.

Lemma heard_kept h1 h2 h1' h2' t out :
  only_on foreign h1 h1' -> only_on foreign h2 h2' -> heard h1 h2 t out -> heard h1' h2' t out.
Proof. intros O1 O2. unfold heard. destruct t.1; by apply gives_all_kept. Qed.

Lemma dialogue_on_does m1 m2 hc1 hc2 c1 c2 turns : forall w1 w2 h1 h2,
  stands h1 hc1 c1 -> stands h2 hc2 c2 ->
  ready c1 c2 w1 w2 -> Forall (fun t => Forall (sendable c1 c2) t.2) turns ->
  exists outs h1' h2', dialogue_on m1 m2 hc1 hc2 turns (w1, h1) (w2, h2) =
      (outs, (snd (fst (dialogue c1 c2 turns w1 w2)), h1'), (snd (dialogue c1 c2 turns w1 w2), h2')) /\
    only_on foreign h1 h1' /\ only_on foreign h2 h2' /\ Forall2 (heard h1' h2') turns outs /\
    apart h1 h1' (handed_out false turns outs) /\ apart h2 h2' (handed_out true turns outs).
Proof.
  induction turns as [|[d tsdus] turns IH]; intros w1 w2 h1 h2 S1 S2 (Hu1 & Hu2 & Hr1 & Hr2 & Hm & Heq & H1 & H2) Hall.
  { exists [], h1, h2. split_and!; try done; apply apart_nil. }
  apply Forall_cons in Hall as [Ht Hall]. cbn [dialogue_on dialogue snd] in *. destruct d.
  - destruct (turn_succeeds c1 c2 tsdus w1 w2) as (w1' & w2' & Hturn & Hu1' & Hu2' & Hr1' & Hr2'); try done.
    destruct (turn_on_does m1 m2 hc1 hc2 c1 c2 tsdus w1 w2 h1 h2) as (rs & k1 & k2 & E & O1 & O2 & G & A); try done.
    rewrite Hturn in E. cbn [fst snd] in E. rewrite E, Hturn.
    destruct (IH w1' w2' k1 k2) as (outs & k1' & k2' & E' & O1' & O2' & G' & A1 & A2);
      [by eapply stands_later|by eapply stands_later|by split_and!; try congruence|done|].
    rewrite E'. exists (rs :: outs), k1', k2'. destruct (dialogue c1 c2 turns w1' w2') as [[vs v1] v2]. cbn [fst snd].
    split_and!; [done|by etrans|by etrans|constructor; [by apply (heard_kept k1 k2)|done]|by apply (apart_mono h1 k1 k1' k1')|].
    by apply (apart_app h2 k2).
  - destruct (turn_succeeds c2 c1 tsdus w2 w1) as (w2' & w1' & Hturn & Hu2' & Hu1' & Hr2' & Hr1'); try done; [by rewrite <- Heq| |].
    { eapply Forall_impl; [exact Ht|]. intros t. apply sendable_sym. }
    destruct (turn_on_does m2 m1 hc2 hc1 c2 c1 tsdus w2 w1 h2 h1) as (rs & k2 & k1 & E & O2 & O1 & G & A); try done; [by rewrite <- Heq| |].
    { eapply Forall_impl; [exact Ht|]. intros t. apply sendable_sym. }
    rewrite Hturn in E. cbn [fst snd] in E. rewrite E, Hturn.
    destruct (IH w1' w2' k1 k2) as (outs & k1' & k2' & E' & O1' & O2' & G' & A1 & A2);
      [by eapply stands_later|by eapply stands_later|by split_and!; try congruence|done|].
    rewrite E'. exists (rs :: outs), k1', k2'. destruct (dialogue c1 c2 turns w1' w2') as [[vs v1] v2]. cbn [fst snd].
    split_and!; [done|by etrans|by etrans|constructor; [by apply (heard_kept k1 k2)|done]| |by apply (apart_mono h2 k2 k2' k2')].
    by apply (apart_app h1 k1).
Qed.

(** ** Properties *)

Definition lends (m : machine) (h : heap) (l : list (option slice)) : Prop :=
  Forall (fun o => valid_opt h o /\ forall s, o = Some s -> safe (kept := stays m) (arr s)) l.

(** The handshake of each end. *)
Lemma connect_on_does m cfg w h c w' :
  lends m h [hc_LocalSelector cfg; hc_RemoteSelector cfg; hc_ConnectData cfg] ->
  Connect false (client_value h cfg) w = (Ok c, w') ->
  exists hc h', connect_on m cfg (w, h) = (Ok hc, (w', h')) /\ stands h' hc c.
Proof.
  intros Hl HC. pose proof (sim_Connect (RM := reader_of m) (WM := plain_writer m) (GR := growth_of m) h cfg Hl false w h
    (reflexivity h)) as Hs.
  unfold sim in Hs. rewrite HC in Hs. unfold connect_on. destruct (hConnect _ _ _) as [r [w'' h']]. destruct Hs as (-> & _ & Hr).
  destruct r as [hc|e| |]; try done. exists hc, h'. split; [done|]. by destruct (opened_kept h h' w' c hc Hr).
Qed.

Lemma accept_on_does m cfg w h c w' :
  lends m h [hs_LocalSelector cfg] ->
  (forall f, hs_OnConnect cfg = Some f -> realises (in_use (RM := reader_of m)) f) ->
  Accept false (server_value h cfg) w = (Ok c, w') ->
  exists hc h', accept_on m cfg (w, h) = (Ok hc, (w', h')) /\ stands h' hc c.
Proof.
  intros Hl Hf HA. apply Forall_singleton in Hl as [Hv Hsafe].
  pose proof (sim_Accept (RM := reader_of m) (WM := writer_of m) (GR := growth_of m) h false cfg w h Hv Hsafe Hf (reflexivity h)) as Hs.
  unfold sim in Hs. rewrite HA in Hs. unfold accept_on. destruct (hAccept _ _ _) as [r [w'' h']]. destruct Hs as (-> & _ & Hr).
  destruct r as [hc|e| |]; try done. exists hc, h'. split; [done|]. by destruct (opened_kept h h' w' c hc Hr).
Qed.

(** C2: a session of two machines.  A client and a server of valid configurations
    that suit each other connect, whatever go-tpkt, the programs and the callback
    do to the memory that is theirs, go-tpkt's one buffer included; then, in
    whatever turns the two programs speak, reusing their memory as they like,
    every TSDU within both limits that one writes is handed out by the other.  At
    the end of the dialogue each of the slices handed out, from first to last,
    still stands for its TSDU; they lie in arrays of their own, none of which was
    there when the connection opened, and the parameters of both connections are
    what they were.  When both have closed, each stream has been closed once and
    each side's references are what they were. *)
Theorem session_on_memory mc ms ccfg scfg hc0 hs0 ac als :
  suited (client_value hc0 ccfg) (server_value hs0 scfg) ac als ->
  lends mc hc0 [hc_LocalSelector ccfg; hc_RemoteSelector ccfg; hc_ConnectData ccfg] ->
  lends ms hs0 [hs_LocalSelector scfg] ->
  (forall f, hs_OnConnect scfg = Some f -> realises (in_use (RM := reader_of ms)) f) ->
  exists b1 b2 c s wc hc ws hs,
    connect_on mc ccfg (ready_world [packet b2] ac, hc0) = (Ok c, (wc, hc)) /\ sent wc = [b1] /\
    accept_on ms scfg (ready_world [packet b1] als, hs0) = (Ok s, (ws, hs)) /\ sent ws = [b2] /\
    forall turns, Forall (fun t => Forall (allowed (client_value hc0 ccfg) (server_value hs0 scfg)) t.2) turns ->
      exists outs wc' hc' ws' hs',
        dialogue_on mc ms c s turns (wc, hc) (ws, hs) = (outs, (wc', hc'), (ws', hs')) /\
        Forall2 (heard hc' hs') turns outs /\
        apart hc hc' (handed_out false turns outs) /\ apart hs hs' (handed_out true turns outs) /\
        conn_value hc' c = conn_value hc c /\ conn_value hs' s = conn_value hs s /\
        closes (snd (Close (Some (conn_value hc' c)) wc')) = 1%nat /\
        active (refs (snd (Close (Some (conn_value hc' c)) wc'))) = active ac /\
        closes (snd (Close (Some (conn_value hs' s)) ws')) = 1%nat /\
        active (refs (snd (Close (Some (conn_value hs' s)) ws'))) = active als.
Proof.
  intros Hsuit Hlc Hls Hf.
  destruct (session_runs _ _ ac als Hsuit) as (b1 & b2 & c & s & wc & ws & HC & Hs1 & HA & Hs2 & Hready & Hrun).
  destruct (connect_on_does mc ccfg _ hc0 c wc Hlc HC) as (hcn & hc & EC & SC).
  destruct (accept_on_does ms scfg _ hs0 s ws Hls Hf HA) as (hsn & hs & EA & SA).
  exists b1, b2, hcn, hsn, wc, hc, ws, hs. split_and!; try done. intros turns Hall.
  destruct (Hrun turns Hall) as (Hsend & wc' & ws' & Hd & E1 & E2 & E3 & E4).
  destruct (dialogue_on_does mc ms hcn hsn c s turns wc ws hc hs SC SA Hready Hsend)
    as (outs & hc' & hs' & E & O1 & O2 & G & A1 & A2). rewrite Hd in E. cbn [fst snd] in E.
  exists outs, wc', hc', ws', hs'. rewrite (SC hc' O1), (SA hs' O2), (stands_now _ _ _ SC), (stands_now _ _ _ SA).
  by split_and!.
Qed.

(** A machine in which the program uses one array for all it writes, and go-tpkt
    another for all it reads. *)
Definition put_here (tsdu : bytes) (h : heap) : slice * heap :=
  (mkSlice (other, 2%nat) 0 (length tsdu), <[(other, 2%nat) := tsdu]> h).

Definition sample_machine : machine.
Proof.
  refine (mkMachine callers one_buffer one_packet_beside doubling put_here _ _ _ _).
  - intros tsdu h. exists tsdu. cbn. by rewrite lookup_insert_eq.
  - intros tsdu h. unfold load. cbn [put_here fst snd arr size start_]. by rewrite lookup_total_insert_eq, drop_0, take_ge by done.
  - intros tsdu h. unfold callers. cbn. lia.
  - intros tsdu h a b Ha Hn. cbn [put_here snd]. rewrite lookup_insert_ne; [done|]. intros <-. by apply Hn.
Defined.

Definition sample_host_server : hServerConfig :=
  mkHServerConfig (Some (mkSlice (other, 2%nat) 1 2)) 2048 0 None 0 true.

(** What a dialogue of two such machines leaves in their memories: [None] for a TSDU
    that was not handed out. *)
Definition first_sent {A} (r : outcome A * host) : bytes := hd [] (sent (fst (snd r))).

Definition sample_dialogue (turns : list (bool * list bytes)) : option (list (list bytes)) :=
  let b1 := first_sent (connect_on sample_machine sample_hclient (ready_world [] newReferenceAllocator, caller_memory)) in
  let server := accept_on sample_machine sample_host_server (ready_world [packet b1] newReferenceAllocator, caller_memory) in
  match connect_on sample_machine sample_hclient (ready_world [packet (first_sent server)] newReferenceAllocator, caller_memory), server with
  | (Ok c, x), (Ok s, y) =>
      let '(outs, (_, hc), (_, hs)) := dialogue_on sample_machine sample_machine c s turns x y in
      Some (map (fun '((d, _), out) => map (load (if d : bool then hs else hc)) (slices_in out)) (zip turns outs))
  | _, _ => None
  end.

Example sample_dialogue_heard :
  sample_dialogue [(true, [[1; 2; 3]; replicate 300 7]); (false, [[4]]); (true, [[5]])] =
    Some [[[1; 2; 3]; replicate 300 7]; [[4]]; [[5]]].
Proof. vm_compute. reflexivity. Qed.

(** The configurations lie where the programs put their TSDUs. *)
Lemma session_on_memory_witness :
  exists b1 b2 c s wc hc ws hs,
    connect_on sample_machine sample_hclient (ready_world [packet b2] newReferenceAllocator, caller_memory) = (Ok c, (wc, hc)) /\
    sent wc = [b1] /\
    accept_on sample_machine sample_host_server (ready_world [packet b1] newReferenceAllocator, caller_memory) = (Ok s, (ws, hs)) /\
    sent ws = [b2] /\
    forall turns, Forall (fun t => Forall (allowed (client_value caller_memory sample_hclient)
                                             (server_value caller_memory sample_host_server)) t.2) turns ->
      exists outs wc' hc' ws' hs',
        dialogue_on sample_machine sample_machine c s turns (wc, hc) (ws, hs) = (outs, (wc', hc'), (ws', hs')) /\
        Forall2 (heard hc' hs') turns outs /\
        apart hc hc' (handed_out false turns outs) /\ apart hs hs' (handed_out true turns outs) /\
        conn_value hc' c = conn_value hc c /\ conn_value hs' s = conn_value hs s /\
        closes (snd (Close (Some (conn_value hc' c)) wc')) = 1%nat /\
        active (refs (snd (Close (Some (conn_value hc' c)) wc'))) = ∅ /\
        closes (snd (Close (Some (conn_value hs' s)) ws')) = 1%nat /\
        active (refs (snd (Close (Some (conn_value hs' s)) ws'))) = ∅.
Proof.
  apply (session_on_memory sample_machine sample_machine sample_hclient sample_host_server caller_memory caller_memory
    newReferenceAllocator newReferenceAllocator).
  - split_and!.
    + decide_now.
    + split_and!; try (vm_compute; discriminate); [by right|right; split; vm_compute; discriminate].
    + vm_compute. discriminate.
    + decide_now.
    + split_and!; try (vm_compute; discriminate); [by left|right; split; vm_compute; discriminate].
    + vm_compute. discriminate.
    + done.
    + exact (default_policy (server_value caller_memory sample_host_server) (client_value caller_memory sample_hclient) eq_refl).
    + apply newReferenceAllocator_ok.
    + vm_compute. reflexivity.
    + apply newReferenceAllocator_ok.
    + vm_compute. reflexivity.
  - repeat (apply Forall_cons; split); [..|by apply Forall_nil];
      (split; intros s [= <-]; [exists [1; 2; 3; 4]; split; [reflexivity|cbn; lia]|right; change (2 <= 2)%nat; lia]).
  - apply Forall_singleton. split; intros s [= <-]; [exists [1; 2; 3; 4]; split; [reflexivity|cbn; lia]|right; change (2 <= 2)%nat; lia].
  - done.
Defined.
